(* ===== verification/_CoqProject ===== *)
-Q . S2P
Prelude.v
Ints.v
Hash.v
Enums.v
Status.v
Codec.v
Model.v
Wire.v
Policy.v
Accounting.v
Authority.v
Persist.v
State.v
Grant.v
Alloc.v
Lifecycle.v
Books.v
Triples.v
Layout.v
Safety.v
AllocSafety.v
LifeSafety.v
Topology.v
Revoke.v
Resize.v
TopoSafety.v
Recovery.v
Query.v
QuerySafety.v
Ledger.v
History.v
System.v
RecoverySafety.v
Restart.v
Files.v
Process.v
Clock.v
Loops.v
Idempotence.v
Memory.v
Observation.v
Protocol.v
Json.v
Explain.v
Backend.v
Coordinator.v
CoordinatorSafety.v
Transport.v
Sockets.v
Worker.v
Cluster.v
Control.v
Tools.v
