(* ===== verification/Prelude.v ===== *)
(** * Buffer Fabric: a verification development

    Buffer Fabric is a C++20 runtime that shares packet-buffer capacity: pools partition the
    capacity that a backend vouches for, queues of those pools are granted units, pressure
    evidence and policies decide how much, and everything is bound to generations and to an
    epoch so that what is out of date is refused or fenced. The state is durable through a
    snapshot and a journal, and a coordinator serves one fabric to many workers over TCP.
    This library models the sources under [src/src/], [src/include/buffer_fabric/] and
    [src/tools/] and proves what makes each part correct. Every definition is executable, and every theorem
    that needs a hypothesis is applied at a concrete input next to it.

    ** How the code is modelled

    A [u64] is a [Z] whose wrap-around is written out where an operation can leave the range;
    bytes are [Z] in [0, 256), texts are [string]. Records are the structs field by field,
    with the default member initialisers as [default_X]; enumerations are Modules of [Enums].
    Hash tables are [gmap]s, iterated in the order of [map_to_list]. A reference into a table is
    its key, looked up again at each access, so that aliasing is as in the source. [Result]
    is [Good] or [Bad] of a [Status]; operations are computations [StateR] of [Status] that
    thread the state through errors, so that an early [return] keeps the effects made before
    it. One operation runs under the fabric's lock: [Topology.operation] sets the time and
    empties the event vector, and [System.Op] lists what can run under it. A file operation
    takes its outcome from a list of coming outcomes, a failed write leaving any prefix of
    its bytes; a call on a socket or of the system takes its outcome from a list in the same
    way. [Files] models the disk itself: names, inodes, what was flushed, and crashes.

    ** The parts, and the files that model them

    - Arithmetic, checksums, enumerations, statuses: [Ints] ([types.hpp], [time.hpp]), [Hash]
      ([hash.hpp]), [Enums], [Status] ([status.cpp]).
    - Encoding: [Codec] ([codec.cpp]: writer, reader, frames), [Model] (the records), [Wire]
      ([wire.hpp] and the encoders of [topology.cpp]).
    - Pure rules: [Policy] ([policy.cpp]), [Accounting] ([accounting.cpp]), [Authority]
      ([authority.cpp], [decision.cpp]).
    - Durability: [Persist] ([persistence.cpp]: journal, snapshot container, recovery), over
      [Files] ([fs.cpp]: both platforms, on a disk that fails and loses power).
    - The system: [Process] ([process.cpp]: command lines, children, their output), [Clock]
      ([time.cpp]).
    - The fabric: [State] ([fabric_impl.hpp], helpers of [fabric.cpp]), [Grant], [Alloc] and
      [Lifecycle] ([fabric_alloc.cpp]), [Topology] ([fabric_topology.cpp]), [Query]
      ([fabric_query.cpp]), [Recovery] (opening, replay, closing, of [fabric.cpp]),
      [Observation] ([observation.cpp] and [publish]), [Backend] ([backend.cpp]).
    - Its invariant: [Books] (the pool counters are sums over the allocation table), [Layout]
      (pools are a forest within published capacities, name tables are exact), [Triples]
      (weakest preconditions and the part of the state that is quiet), [Safety] ([Inv]).
    - Its proofs: [AllocSafety], [LifeSafety], [Revoke], [Resize], [TopoSafety],
      [QuerySafety], [Ledger], [History], [System], [RecoverySafety], [Restart], [Loops],
      [Idempotence], [Memory].
    - Serving it: [Protocol] ([protocol.cpp] and the message framing of [transport.cpp]),
      [Json] ([json.cpp]), [Explain] ([explain.cpp] and the other renderings), [Coordinator]
      ([coordinator.cpp]), [Transport] (the byte streams of [transport.cpp]), [Sockets]
      (the handles of [transport.cpp]), [Worker] ([worker.cpp]); [CoordinatorSafety] and
      [Cluster] prove what they do together.
    - Programs: [Control] ([tool_args.hpp], [bfctl.cpp]), [Tools] ([bf_coordinator.cpp],
      [bf_worker.cpp]).

    ** What is shown

    - [System.reachable_books]: from a fabric just constructed, any sequence of operations,
      refused and failed ones included, keeps [Inv]; [System.reachable_evolves]: along it,
      allocations only move along the edges of their state machine, never grow, never change
      owner, and new ones get ids never used before.
    - [AllocSafety], [LifeSafety]: what a request changes on each branch, what a refusal leaves
      alone; [Alloc.allocate_locked] grants exactly what its limit allows. [Memory]:
      in every reachable state, a decided request that is sent again is answered from
      memory, whatever was decided.
    - [TopoSafety], [Resize]: registering, resizing, capacities, policies, observations.
    - [QuerySafety], [Ledger]: the dry run predicts the allocation, reclamation plans are
      minimal and ordered, applying one revokes what it names, an audit recomputes the ledger.
    - [Restart]: a checkpoint followed by a recovery gives the fabric back with reservations
      expired and its books in balance, and a journaled record is replayed as it was made;
      [Persist]: a write torn anywhere is repaired to a prefix of what was appended.
    - [Files]: a file that is replaced is found after a crash at any point with its old
      content or its new one, and what [Persist] assumes of files is what [fs.cpp] does.
    - [Codec], [Wire], [Protocol], [Hash]: round trips, exactness of frame decoding, detection
      of bursts, the checksum table against its polynomial.
    - [Transport]: a frame read from a stream is the frame decoded from its bytes, in whatever
      pieces it arrives, and a message sent arrives. [Sockets]: no handle is leaked, closed
      twice or used after it was closed.
    - [Process]: the arguments of a child are those it was given, quoting and the conversion
      to UTF-16 included. [Clock]: the clock does not
      go back, and evidence that is out of date stays so.
    - [CoordinatorSafety]: whatever its client sends and whatever other sessions do between
      its calls, a session does to the fabric only the operations its frames name,
      one a frame at most, none with a stale epoch, and so keeps the fabric's invariant;
      [Cluster]: a worker with an outdated epoch is fenced off end to end; [Worker]: a report
      adds up. [Control]: every command keeps the books, and what a command observes is
      evidence until the epoch moves. [Tools]: what the exit codes mean.
    - [Json], [Explain]: output stays within its budget, is exactly the document meant when
      that fits, and is marked as truncated exactly when it does not. [Observation]: the event
      ring is the list of the last events. [Loops]: eviction and replay end, and what they
      have achieved then; a replay has visited every record before the place where it stops.

    ** Bounds and fuel

    [State.evict_loop] is given the length of its queue, [Persist.replay_loop] one round more
    than the file has bytes, and [Transport.receive_loop] as many turns as bytes are wanted;
    [Loops] and [Transport] show that more changes nothing. [Topology.check_ancestry] walks
    at most [kMaxPoolDepth] parents as the source does. Every other recursion is structural.
    The journal image, frames, responses and JSON are bounded by the source's own constants.

    A release is only known to keep the books when the proportional share of borrowed units
    does not wrap in 64 bits and when no journal can fail under it; [System.admitted] says so,
    because the source computes that product unchecked and applies before it journals.

    ** Not modelled

    The operating system: of its calls the model keeps the outcomes, as lists or parameters
    ([Persist.ds_io], [Transport.Transfer], the lists of [Files], [Process] and [Sockets]);
    the conversion of texts to UTF-16 is a parameter of [Process] with its laws ([WideText]),
    while [Files] takes paths as they are; the parser of network addresses is a parameter
    too. Threads: sessions of the coordinator are modelled one at a time against arbitrary
    changes by the others between calls ([Coordinator.locked_call]); the mutexes and the
    reaping of session threads are not. [version.hpp] and [config.hpp] but for their
    constants: macros. [bfbench.cpp], which measures running times. An exception that leaves
    a command of [bfctl.cpp]. The tests and the examples. Events are collected and given to
    sinks, but what an attached sink does with them is its own. *)

From stdpp Require Export base gmap strings list fin_maps sets sorting.
From Stdlib Require Export ZArith Lia.

#[global] Set Warnings "-postfix-notation-not-level-1".
Open Scope Z_scope.

(** * Functional record update

    [r <| f := v |>] and [r <| f ::= g |>] replace or transform one field. A record
    type opts in by an instance of [Settable] that rebuilds a value from its
    projections; the setter for a given projection is derived from it. *)

Class Settable (R : Type) := rebuild : R -> R.

Class Setter {R T : Type} (proj : R -> T) := upd : (T -> T) -> R -> R.
Arguments upd {R T} proj {_} _ _ /.

Ltac derive_setter :=
  lazymatch goal with
  | |- @Setter ?R ?T ?proj =>
      let inst := constr:(_ : Settable R) in
      let body := eval red in inst in
      let body := lazymatch body with
                  | fun _ => _ => body
                  | _ => eval hnf in body
                  end in
      lazymatch (eval pattern proj in body) with
      | ?abs _ =>
          let t := eval cbv beta in (fun (g : T -> T) => abs (fun r : R => g (proj r))) in
          exact t
      end
  end.

#[export] Hint Extern 1 (Setter _) => derive_setter : typeclass_instances.

Declare Scope fabric_scope.
Delimit Scope fabric_scope with fabric.
Open Scope fabric_scope.

Notation "r <| p ::= g |>" := (upd p g r)
  (at level 12, left associativity, p at level 10, format "r  <| p  ::=  g |>") : fabric_scope.
Notation "r <| p := v |>" := (upd p (fun _ => v) r)
  (at level 12, left associativity, p at level 10, format "r  <| p  :=  v |>") : fabric_scope.

(** * Bits, bytes and moduli *)

Create HintDb u64.

Lemma land_ones_mod (x n : Z) : 0 <= n -> Z.land x (2 ^ n - 1) = x mod 2 ^ n.
Proof. intros Hn. rewrite <- Z.land_ones, Z.ones_equiv by lia. f_equal; lia. Qed.

Lemma land_shiftl_disjoint (a b n : Z) :
  0 <= n -> 0 <= a < 2 ^ n -> Z.land a (Z.shiftl b n) = 0.
Proof.
  intros Hn Ha. apply Z.bits_inj_0. intros i. rewrite Z.land_spec.
  destruct (decide (i < 0)); [by rewrite Z.testbit_neg_r by lia|].
  destruct (decide (i < n)).
  - rewrite Z.shiftl_spec, (Z.testbit_neg_r b) by lia. by rewrite andb_false_r.
  - rewrite <- (Z.mod_small a (2 ^ n)) by lia.
    by rewrite Z.mod_pow2_bits_high by lia.
Qed.

Lemma lxor_shiftl_add (a b n : Z) :
  0 <= n -> 0 <= a < 2 ^ n -> Z.lxor a (Z.shiftl b n) = a + b * 2 ^ n.
Proof.
  intros Hn Ha. rewrite <- Z.shiftl_mul_pow2 by lia. symmetry.
  by apply Z.add_nocarry_lxor, land_shiftl_disjoint.
Qed.

Lemma lor_shiftl_add (a b n : Z) :
  0 <= n -> 0 <= a < 2 ^ n -> Z.lor a (Z.shiftl b n) = a + b * 2 ^ n.
Proof.
  intros Hn Ha. rewrite <- Z.lxor_lor by by apply land_shiftl_disjoint.
  by apply lxor_shiftl_add.
Qed.

Lemma shiftr_div (x n : Z) : 0 <= n -> Z.shiftr x n = x / 2 ^ n.
Proof. intros Hn. by apply Z.shiftr_div_pow2. Qed.

(** A product of two bounded naturals stays below the product of the bounds. *)
Lemma mul_bound (a b m n : Z) : 0 <= a < m -> 0 <= b < n -> 0 <= a * b <= (m - 1) * (n - 1).
Proof. intros Ha Hb. split; [nia|]. apply Z.mul_le_mono_nonneg; lia. Qed.

Lemma div_add_mod (x m : Z) : 0 < m -> x = x / m * m + x mod m.
Proof. intros Hm. rewrite Z.mul_comm. apply Z.div_mod. lia. Qed.
