(* ===== verification/Ints.v ===== *)
(** * Machine integers of the runtime

    The unsigned 64-bit arithmetic of [include/buffer_fabric/types.hpp]: the hard
    bounds, the checked helpers ([add_overflow], [sub_underflow], [mul_overflow]),
    the exact product comparison [mul_compare], the saturating helpers of
    [src/fabric.cpp] and [src/fabric_alloc.cpp], and the freshness test of
    [include/buffer_fabric/time.hpp]. A [u64] is a [Z] whose wrap-around is written
    out at every operation that can leave the range. *)

From S2P Require Import Prelude.

(** ** Hard bounds *)

Definition u8_max : Z := 0xFF.
Definition u16_max : Z := 0xFFFF.
Definition u32_max : Z := 0xFFFFFFFF.
Definition u64_max : Z := 0xFFFFFFFFFFFFFFFF.

Definition kMaxPoolCount : Z := 4096.
Definition kMaxQueueCount : Z := Z.shiftl 1 20.
Definition kMaxAllocationCount : Z := Z.shiftl 1 22.
Definition kMaxPolicyCount : Z := 4096.
Definition kMaxSnapshotCount : Z := Z.shiftl 1 16.
Definition kMaxPoolDepth : Z := 16.
Definition kMaxUnitsPerPool : Z := Z.shiftl 1 60.
Definition kMaxOvercommitUnits : Z := Z.shiftl 1 60.
Definition kMaxAttemptMemory : Z := Z.shiftl 1 16.
Definition kMaxAuthorityVectorEntries : Z := 16.
Definition kMaxNameBytes : Z := 64.
Definition kMaxStatusMessageBytes : Z := 512.
Definition kMaxJournalRecordBytes : Z := Z.shiftl 4 20.
Definition kMaxSnapshotBytes : Z := Z.shiftl 256 20.
Definition kMaxFrameBytes : Z := Z.shiftl 1 20.
Definition kMaxReclaimVictims : Z := Z.shiftl 1 20.

(** ** Ranges and wrap-around *)

Definition is_u8 (x : Z) : Prop := 0 <= x <= u8_max.
Definition is_u16 (x : Z) : Prop := 0 <= x <= u16_max.
Definition is_u32 (x : Z) : Prop := 0 <= x <= u32_max.
Definition is_u64 (x : Z) : Prop := 0 <= x <= u64_max.

Definition wrap8 (x : Z) : Z := x mod 2 ^ 8.
Definition wrap16 (x : Z) : Z := x mod 2 ^ 16.
Definition wrap32 (x : Z) : Z := x mod 2 ^ 32.
Definition wrap64 (x : Z) : Z := x mod 2 ^ 64.

(** Unsigned [+], [-] and [*] on [u64] operands. *)
Definition add64 (a b : Z) : Z := wrap64 (a + b).
Definition sub64 (a b : Z) : Z := wrap64 (a - b).
Definition mul64 (a b : Z) : Z := wrap64 (a * b).

(** ** Checked arithmetic: the flag, and the value stored through [out] *)

Definition add_overflow (a b : Z) : bool * Z :=
  let out := add64 a b in (out <? a, out).

Definition sub_underflow (a b : Z) : bool * Z :=
  if a <? b then (true, 0) else (false, sub64 a b).

Definition mul_overflow (a b : Z) : bool * Z :=
  if negb (a =? 0) && (u64_max / a <? b) then (true, 0) else (false, mul64 a b).

(** The 64x64 -> 128 bit product as four 32-bit partial products: [(hi, lo)]. *)
Definition split_mul (x y : Z) : Z * Z :=
  let x0 := Z.land x 0xFFFFFFFF in
  let x1 := Z.shiftr x 32 in
  let y0 := Z.land y 0xFFFFFFFF in
  let y1 := Z.shiftr y 32 in
  let p00 := mul64 x0 y0 in
  let p01 := mul64 x0 y1 in
  let p10 := mul64 x1 y0 in
  let p11 := mul64 x1 y1 in
  let mid := add64 (add64 (Z.shiftr p00 32) (Z.land p01 0xFFFFFFFF)) (Z.land p10 0xFFFFFFFF) in
  let lo := Z.lor (Z.land p00 0xFFFFFFFF) (wrap64 (Z.shiftl mid 32)) in
  let hi := add64 (add64 (add64 p11 (Z.shiftr p01 32)) (Z.shiftr p10 32)) (Z.shiftr mid 32) in
  (hi, lo).

(** The sign of [a*b - c*d]. *)
Definition mul_compare (a b c d : Z) : Z :=
  let '(hi1, lo1) := split_mul a b in
  let '(hi2, lo2) := split_mul c d in
  if negb (hi1 =? hi2) then (if hi1 <? hi2 then -1 else 1)
  else if negb (lo1 =? lo2) then (if lo1 <? lo2 then -1 else 1)
  else 0.

Definition div_ceil (a b : Z) : Z :=
  if b =? 0 then 0 else add64 (a / b) (if negb (a mod b =? 0) then 1 else 0).

(** ** Saturating helpers *)

Definition saturating_add (a b : Z) : Z :=
  let '(o, out) := add_overflow a b in if o then u64_max else out.

Definition sat_add (a b : Z) : Z :=
  let '(o, out) := add_overflow a b in if o then u64_max else out.

Definition sat_mul (a b : Z) : Z :=
  let '(o, out) := mul_overflow a b in if o then u64_max else out.

(** Finaliser of MurmurHash3, used to mint boot incarnations. *)
Definition mix64 (x : Z) : Z :=
  let x := Z.lxor x (Z.shiftr x 33) in
  let x := mul64 x 0xff51afd7ed558ccd in
  let x := Z.lxor x (Z.shiftr x 33) in
  let x := mul64 x 0xc4ceb9fe1a85ec53 in
  Z.lxor x (Z.shiftr x 33).

(** Evidence observed at [observed_at] with lifetime [ttl] is fresh at [now]. *)
Definition is_fresh (now observed_at ttl_ticks : Z) : bool :=
  if ttl_ticks =? 0 then false
  else if now <? observed_at then false
  else sub64 now observed_at <=? ttl_ticks.

#[global] Arguments wrap64 : simpl never.
#[global] Arguments add64 : simpl never.
#[global] Arguments sub64 : simpl never.
#[global] Arguments mul64 : simpl never.
#[global] Arguments add_overflow : simpl never.
#[global] Arguments sub_underflow : simpl never.
#[global] Arguments mul_overflow : simpl never.
#[global] Arguments mul_compare : simpl never.

(** ** Lemmas *)

Lemma u64_max_eq : u64_max = 2 ^ 64 - 1.
Proof. reflexivity. Qed.

Lemma wrap64_small (x : Z) : is_u64 x -> wrap64 x = x.
Proof. unfold is_u64, wrap64. rewrite u64_max_eq. intros. apply Z.mod_small. lia. Qed.

Lemma wrap64_range (x : Z) : is_u64 (wrap64 x).
Proof. unfold is_u64, wrap64. rewrite u64_max_eq. pose proof (Z.mod_pos_bound x (2 ^ 64)). lia. Qed.

Lemma add64_exact (a b : Z) : 0 <= a + b <= u64_max -> add64 a b = a + b.
Proof. intros. by apply wrap64_small. Qed.

Lemma sub64_exact (a b : Z) : 0 <= a - b <= u64_max -> sub64 a b = a - b.
Proof. intros. by apply wrap64_small. Qed.

Lemma mul64_exact (a b : Z) : 0 <= a * b <= u64_max -> mul64 a b = a * b.
Proof. intros. by apply wrap64_small. Qed.

Lemma add64_range (a b : Z) : is_u64 (add64 a b).
Proof. apply wrap64_range. Qed.

Lemma sub64_range (a b : Z) : is_u64 (sub64 a b).
Proof. apply wrap64_range. Qed.

#[export] Hint Resolve wrap64_range add64_range sub64_range : u64.

(** [u64_lia]: linear arithmetic with the range predicates and [u64_max] exposed. *)
Ltac u64_unfold :=
  unfold is_u64, is_u32, is_u16, is_u8, u64_max, u32_max, u16_max, u8_max,
    kMaxUnitsPerPool, kMaxOvercommitUnits in *;
  change (Z.shiftl 1 60) with 1152921504606846976 in *.
Ltac u64_lia := u64_unfold; lia.

Lemma add_overflow_cases (a b : Z) :
  is_u64 a -> is_u64 b ->
  (a + b <= u64_max /\ add_overflow a b = (false, a + b)) \/
  (u64_max < a + b /\ add_overflow a b = (true, a + b - 2 ^ 64)).
Proof.
  intros Ha Hb. unfold add_overflow.
  destruct (decide (a + b <= u64_max)) as [H|H]; [left|right]; (split; [u64_lia|]).
  - rewrite add64_exact by u64_lia. f_equal. apply Z.ltb_ge. u64_lia.
  - assert (add64 a b = a + b - 2 ^ 64) as ->.
    { unfold add64, wrap64. symmetry. apply (Z.mod_unique _ _ 1); u64_lia. }
    f_equal. apply Z.ltb_lt. u64_lia.
Qed.

Lemma sat_add_min (a b : Z) :
  is_u64 a -> is_u64 b -> sat_add a b = Z.min u64_max (a + b).
Proof.
  intros Ha Hb. unfold sat_add.
  destruct (add_overflow_cases a b Ha Hb) as [[? ->]|[? ->]]; lia.
Qed.

Lemma saturating_add_min (a b : Z) :
  is_u64 a -> is_u64 b -> saturating_add a b = Z.min u64_max (a + b).
Proof. apply sat_add_min. Qed.

Lemma mul_overflow_cases (a b : Z) :
  is_u64 a -> is_u64 b ->
  (a * b <= u64_max /\ mul_overflow a b = (false, a * b)) \/
  (u64_max < a * b /\ mul_overflow a b = (true, 0)).
Proof.
  intros Ha Hb. unfold mul_overflow.
  destruct (Z.eqb_spec a 0) as [->|Hz]; simpl.
  { left. rewrite mul64_exact by u64_lia. split; [u64_lia|done]. }
  assert (0 < a) by u64_lia.
  destruct (Z.ltb_spec (u64_max / a) b) as [H1|H1].
  - right. split; [|done].
    assert (u64_max < a * (u64_max / a + 1)) by
      (pose proof (Z.mod_pos_bound u64_max a); pose proof (Z.div_mod u64_max a); lia).
    nia.
  - left. assert (a * b <= u64_max).
    { pose proof (Z.mul_div_le u64_max a). nia. }
    split; [done|]. rewrite mul64_exact; [done|]. u64_unfold; nia.
Qed.

Lemma sat_mul_min (a b : Z) :
  is_u64 a -> is_u64 b -> sat_mul a b = Z.min u64_max (a * b).
Proof.
  intros Ha Hb. unfold sat_mul.
  destruct (mul_overflow_cases a b Ha Hb) as [[? ->]|[? ->]]; lia.
Qed.

(** Carries of the schoolbook product, over its four partial products. *)
Lemma schoolbook_carry (p00 p01 p10 p11 : Z) :
  let B := 2 ^ 32 in
  0 <= p00 <= (B - 1) * (B - 1) -> 0 <= p01 <= (B - 1) * (B - 1) ->
  0 <= p10 <= (B - 1) * (B - 1) -> 0 <= p11 <= (B - 1) * (B - 1) ->
  let mid := p00 / B + p01 mod B + p10 mod B in
  let hi := p11 + p01 / B + p10 / B + mid / B in
  let lo := p00 mod B + mid mod B * B in
  0 <= mid <= 3 * B /\ 0 <= lo < B * B /\ 0 <= p11 + p01 / B <= B * B - B /\
  hi * (B * B) + lo = p11 * (B * B) + (p01 + p10) * B + p00.
Proof.
  intros B H00 H01 H10 H11 mid hi lo.
  assert (0 < B) as HB by done.
  pose proof (div_add_mod p00 B HB). pose proof (div_add_mod p01 B HB).
  pose proof (div_add_mod p10 B HB). pose proof (div_add_mod mid B HB).
  pose proof (Z.mod_pos_bound p00 B HB). pose proof (Z.mod_pos_bound p01 B HB).
  pose proof (Z.mod_pos_bound p10 B HB). pose proof (Z.mod_pos_bound mid B HB).
  assert (forall p, 0 <= p <= (B - 1) * (B - 1) -> 0 <= p / B <= B - 2) as Hdiv.
  { intros p Hp. split; [apply Z.div_pos; lia|].
    assert (p / B < B - 1); [apply Z.div_lt_upper_bound|]; subst B; lia. }
  pose proof (Hdiv _ H00). pose proof (Hdiv _ H01). pose proof (Hdiv _ H10).
  subst hi lo. subst B. subst mid. lia.
Qed.

(** The schoolbook product recombines: no partial sum leaves 64 bits. *)
Lemma split_mul_parts (x y : Z) :
  is_u64 x -> is_u64 y ->
  let '(hi, lo) := split_mul x y in is_u64 hi /\ is_u64 lo /\ hi * 2 ^ 64 + lo = x * y.
Proof.
  intros Hx Hy. unfold split_mul.
  change 0xFFFFFFFF with (2 ^ 32 - 1). rewrite !land_ones_mod, !shiftr_div by lia.
  assert (Hlt : forall z, is_u64 z -> 0 <= z / 2 ^ 32 < 2 ^ 32).
  { intros z Hz. split; [apply Z.div_pos|apply Z.div_lt_upper_bound]; u64_lia. }
  pose proof (div_add_mod x (2 ^ 32) eq_refl) as Ex. pose proof (div_add_mod y (2 ^ 32) eq_refl) as Ey.
  pose proof (Z.mod_pos_bound x (2 ^ 32) eq_refl) as Bx0.
  pose proof (Z.mod_pos_bound y (2 ^ 32) eq_refl) as By0.
  pose proof (Hlt _ Hx) as Bx1. pose proof (Hlt _ Hy) as By1.
  set (x1 := x / 2 ^ 32) in *. set (x0 := x mod 2 ^ 32) in *.
  set (y1 := y / 2 ^ 32) in *. set (y0 := y mod 2 ^ 32) in *.
  clearbody x0 x1 y0 y1.
  pose proof (mul_bound x0 y0 _ _ Bx0 By0) as B00. pose proof (mul_bound x0 y1 _ _ Bx0 By1) as B01.
  pose proof (mul_bound x1 y0 _ _ Bx1 By0) as B10. pose proof (mul_bound x1 y1 _ _ Bx1 By1) as B11.
  rewrite !mul64_exact by u64_lia.
  pose proof (schoolbook_carry _ _ _ _ B00 B01 B10 B11) as (Hmid & Hlo & Hhi & Heq).
  set (p00 := x0 * y0) in *. set (p01 := x0 * y1) in *.
  set (p10 := x1 * y0) in *. set (p11 := x1 * y1) in *.
  assert (x * y = p11 * 2 ^ 64 + (p01 + p10) * 2 ^ 32 + p00) as Hxy by (subst; nia).
  clearbody p00 p01 p10 p11. clear Ex Ey.
  pose proof (Z.mod_pos_bound p01 (2 ^ 32) eq_refl). pose proof (Z.mod_pos_bound p10 (2 ^ 32) eq_refl).
  pose proof (Z.mod_pos_bound p00 (2 ^ 32) eq_refl).
  assert (0 <= p00 / 2 ^ 32) by (apply Z.div_pos; lia).
  assert (0 <= p10 / 2 ^ 32) by (apply Z.div_pos; lia).
  rewrite (add64_exact (p00 / 2 ^ 32)), (add64_exact (_ + _) (p10 mod 2 ^ 32)) by u64_lia.
  set (mid := p00 / 2 ^ 32 + p01 mod 2 ^ 32 + p10 mod 2 ^ 32) in *.
  assert (wrap64 (Z.shiftl mid 32) = Z.shiftl (mid mod 2 ^ 32) 32) as ->.
  { unfold wrap64. rewrite !Z.shiftl_mul_pow2 by lia.
    change (2 ^ 64) with (2 ^ 32 * 2 ^ 32). by rewrite Z.mul_mod_distr_r by lia. }
  rewrite lor_shiftl_add by lia.
  assert (0 <= mid / 2 ^ 32) by (apply Z.div_pos; lia).
  assert (0 <= x * y <= u64_max * u64_max) by (u64_unfold; nia).
  rewrite (add64_exact p11), (add64_exact (p11 + _)), (add64_exact (p11 + _ + _)) by u64_lia.
  u64_lia.
Qed.

Lemma mul_compare_cases (a b c d : Z) :
  is_u64 a -> is_u64 b -> is_u64 c -> is_u64 d ->
  (mul_compare a b c d = -1 /\ a * b < c * d) \/
  (mul_compare a b c d = 0 /\ a * b = c * d) \/
  (mul_compare a b c d = 1 /\ c * d < a * b).
Proof.
  intros Ha Hb Hc Hd. unfold mul_compare.
  pose proof (split_mul_parts a b Ha Hb) as H1. pose proof (split_mul_parts c d Hc Hd) as H2.
  destruct (split_mul a b) as [hi1 lo1], (split_mul c d) as [hi2 lo2].
  destruct H1 as (? & ? & <-), H2 as (? & ? & <-).
  destruct (Z.eqb_spec hi1 hi2) as [->|?]; simpl.
  - destruct (Z.eqb_spec lo1 lo2); simpl; [by subst; auto|].
    destruct (Z.ltb_spec lo1 lo2); [left|right; right]; split; auto; u64_lia.
  - destruct (Z.ltb_spec hi1 hi2); [left|right; right]; split; auto; u64_unfold; nia.
Qed.

(** [mul_compare a b c d] is the exact sign of [a*b - c*d] for every choice of
    64-bit operands: the two 128-bit products are compared without overflow. *)
Theorem mul_compare_exact (a b c d : Z) :
  is_u64 a -> is_u64 b -> is_u64 c -> is_u64 d -> mul_compare a b c d = Z.sgn (a * b - c * d).
Proof.
  intros Ha Hb Hc Hd.
  destruct (mul_compare_cases a b c d Ha Hb Hc Hd) as [[-> ?]|[[-> ?]|[-> ?]]]; lia.
Qed.

Lemma mul_compare_exact_witness :
  mul_compare (2 ^ 64 - 1) 10000 (2 ^ 64 - 2) 10000 = Z.sgn ((2 ^ 64 - 1) * 10000 - (2 ^ 64 - 2) * 10000).
Proof. apply (mul_compare_exact (2 ^ 64 - 1) 10000 (2 ^ 64 - 2) 10000); u64_lia. Defined.
