(* ===== verification/Hash.v ===== *)
(** * Integrity checksum and content digest

    [include/buffer_fabric/hash.hpp] and the digest entry points of
    [src/status.cpp]: the table-driven CRC-32C that protects journal records,
    snapshots and wire frames, and the FNV-1a/128 content digest behind request
    de-duplication and explanations. A byte is a [Z] in [0, 256). *)

From S2P Require Import Prelude Ints.

(** ** CRC-32C *)

Definition crc_poly : Z := 0x82F63B78.

(** One shift of the reflected register. *)
Definition crc_shift (c : Z) : Z :=
  if negb (Z.land c 1 =? 0) then Z.lxor crc_poly (Z.shiftr c 1) else Z.shiftr c 1.

Definition crc_entry (i : Z) : Z := Nat.iter 8 crc_shift i.

Definition Crc32cTable : list Z := map crc_entry (seqZ 0 256).

Definition crc32c_update (crc : Z) (data : list Z) : Z :=
  fold_left (fun c b =>
    Z.lxor (nth (Z.to_nat (Z.land (Z.lxor c b) 0xFF)) Crc32cTable 0) (Z.shiftr c 8)) data crc.

Definition not32 (x : Z) : Z := u32_max - x.

Definition crc32c (data : list Z) (seed : Z) : Z := not32 (crc32c_update (not32 seed) data).

(** The bit-serial register the table abbreviates. *)
Definition crc_serial (crc : Z) (data : list Z) : Z :=
  fold_left (fun c b => Nat.iter 8 crc_shift (Z.lxor c b)) data crc.

(** ** FNV-1a/128 *)

Record Digest := mkDigest { dg_hi : Z; dg_lo : Z }.

#[export] Instance settable_Digest : Settable Digest := fun d => mkDigest (dg_hi d) (dg_lo d).
#[export] Instance Digest_eq_dec : EqDecision Digest.
Proof. solve_decision. Defined.

Definition digest_valid (d : Digest) : bool := negb (dg_hi d =? 0) || negb (dg_lo d =? 0).

Definition kFnv128OffsetHi : Z := 0x6c62272e07bb0142.
Definition kFnv128OffsetLo : Z := 0x62b821756295c58d.
Definition kFnv128PrimeHi : Z := 0x0000000001000000.
Definition kFnv128PrimeLo : Z := 0x000000000000013B.

(** [(rlo, rhi)] of the 128-bit product modulo 2^128. *)
Definition mul128 (alo ahi blo bhi : Z) : Z * Z :=
  let '(p1hi, p1lo) := split_mul alo blo in
  (p1lo, add64 (add64 p1hi (mul64 alo bhi)) (mul64 ahi blo)).

Definition fnv_init : Digest := mkDigest kFnv128OffsetHi kFnv128OffsetLo.

Definition fnv_byte (h : Digest) (b : Z) : Digest :=
  let '(nlo, nhi) := mul128 (Z.lxor (dg_lo h) b) (dg_hi h) kFnv128PrimeLo kFnv128PrimeHi in
  mkDigest nhi nlo.

Definition fnv_update (h : Digest) (data : list Z) : Digest := fold_left fnv_byte data h.

Definition digest_bytes (data : list Z) : Digest := fnv_update fnv_init data.

Definition fnv1a64 (text : list Z) : Z :=
  fold_left (fun hash c => mul64 (Z.lxor hash c) 0x100000001b3) text 0xcbf29ce484222325.

(** The 128-bit value of a digest, and the textbook FNV-1a recurrence on it. *)
Definition digest_value (d : Digest) : Z := dg_hi d * 2 ^ 64 + dg_lo d.

Definition fnv1a128_prime : Z := 2 ^ 88 + 2 ^ 8 + 0x3b.
Definition fnv1a128_offset : Z := 0x6c62272e07bb014262b821756295c58d.

Definition fnv1a128_spec (data : list Z) : Z :=
  fold_left (fun h b => (Z.lxor h b * fnv1a128_prime) mod 2 ^ 128) data fnv1a128_offset.

Definition is_byte (b : Z) : Prop := 0 <= b < 256.
Definition is_bytes (l : list Z) : Prop := Forall is_byte l.

#[export] Instance is_byte_dec b : Decision (is_byte b).
Proof. unfold is_byte. apply _. Defined.
#[export] Instance is_bytes_dec l : Decision (is_bytes l).
Proof. unfold is_bytes. apply _. Defined.

(** Decide a closed proposition by evaluation. *)
Ltac decide_closed := refine (bool_decide_unpack _ _); vm_compute; exact I.

(** ** CRC lemmas *)

Section CrcLinear.

Lemma crc_shift_alt c : crc_shift c = Z.lxor (if Z.odd c then crc_poly else 0) (Z.shiftr c 1).
Proof.
  unfold crc_shift. change 1 with (Z.ones 1) at 1. rewrite Z.land_ones by lia.
  change (2 ^ 1) with 2. rewrite Zmod_odd. destruct (Z.odd c); simpl; [done|].
  by rewrite Z.lxor_0_l.
Qed.

Lemma crc_shift_lxor a b : crc_shift (Z.lxor a b) = Z.lxor (crc_shift a) (crc_shift b).
Proof.
  rewrite !crc_shift_alt, Z.shiftr_lxor, <- !Z.bit0_odd, Z.lxor_spec.
  apply Z.bits_inj. intros i. rewrite !Z.lxor_spec.
  destruct (Z.testbit a 0), (Z.testbit b 0); simpl; rewrite ?Z.bits_0;
    destruct (Z.testbit crc_poly i), (Z.testbit (Z.shiftr a 1) i), (Z.testbit (Z.shiftr b 1) i); done.
Qed.

Lemma crc_iter_lxor n a b :
  Nat.iter n crc_shift (Z.lxor a b) = Z.lxor (Nat.iter n crc_shift a) (Nat.iter n crc_shift b).
Proof. induction n as [|n IH]; simpl; [done|]. by rewrite IH, crc_shift_lxor. Qed.

Lemma crc_iter_shiftl n h : Nat.iter n crc_shift (Z.shiftl h (Z.of_nat n)) = h.
Proof.
  revert h. induction n as [|n IH]; intros h; [apply Z.shiftl_0_r|].
  rewrite Nat.iter_succ_r.
  assert (crc_shift (Z.shiftl h (Z.of_nat (S n))) = Z.shiftl h (Z.of_nat n)) as ->; [|apply IH].
  rewrite crc_shift_alt, <- Z.bit0_odd, Z.shiftl_spec_low by lia.
  rewrite Z.lxor_0_l, Z.shiftr_shiftl_l by lia. f_equal. lia.
Qed.

Lemma crc_poly_range : 2 ^ 31 <= crc_poly < 2 ^ 32.
Proof. by split; vm_compute. Qed.

Lemma log2_below n x : 0 < n -> 0 <= x < 2 ^ n -> Z.log2 x < n.
Proof.
  intros Hn Hx. destruct (decide (x = 0)) as [->|]; [done|]. apply Z.log2_lt_pow2; lia.
Qed.

Lemma lxor_range n a b : 0 < n -> 0 <= a < 2 ^ n -> 0 <= b < 2 ^ n -> 0 <= Z.lxor a b < 2 ^ n.
Proof.
  intros Hn Ha Hb.
  assert (0 <= Z.lxor a b) as H0 by (apply Z.lxor_nonneg; lia). split; [done|].
  destruct (decide (Z.lxor a b = 0)) as [->|]; [lia|].
  apply Z.log2_lt_pow2; [lia|].
  eapply Z.le_lt_trans; [apply Z.log2_lxor; lia|].
  apply Z.max_lub_lt; by apply log2_below.
Qed.

Lemma crc_shift_range c : 0 <= c < 2 ^ 32 -> 0 <= crc_shift c < 2 ^ 32.
Proof.
  intros Hc. rewrite crc_shift_alt. apply lxor_range; [lia| |].
  - pose proof crc_poly_range. destruct (Z.odd c); lia.
  - rewrite Z.shiftr_div_pow2 by lia. split; [apply Z.div_pos; lia|].
    apply Z.div_lt_upper_bound; lia.
Qed.

(** The register never forgets: a shift is injective on 32-bit values, because the
    polynomial's top bit records the bit that was shifted out. *)
Lemma crc_shift_zero c : 0 <= c < 2 ^ 32 -> crc_shift c = 0 -> c = 0.
Proof.
  intros Hc H. rewrite crc_shift_alt in H. apply Z.lxor_eq in H.
  rewrite Z.shiftr_div_pow2 in H by lia. change (2 ^ 1) with 2 in H.
  destruct (Z.odd c) eqn:Ho.
  - pose proof crc_poly_range. assert (c / 2 < 2 ^ 31) by (apply Z.div_lt_upper_bound; lia). lia.
  - rewrite (Z.div_mod c 2), Zmod_odd, Ho by lia. lia.
Qed.

Lemma crc_iter_range n c : 0 <= c < 2 ^ 32 -> 0 <= Nat.iter n crc_shift c < 2 ^ 32.
Proof. intros Hc. induction n; simpl; [done|]. by apply crc_shift_range. Qed.

Lemma crc_iter_zero n c : 0 <= c < 2 ^ 32 -> Nat.iter n crc_shift c = 0 -> c = 0.
Proof.
  intros Hc. induction n as [|n IH]; simpl; [done|].
  intros H. apply IH, crc_shift_zero; [by apply crc_iter_range|done].
Qed.

Lemma crc_iter_inj n a b :
  0 <= a < 2 ^ 32 -> 0 <= b < 2 ^ 32 ->
  Nat.iter n crc_shift a = Nat.iter n crc_shift b -> a = b.
Proof.
  intros Ha Hb H. apply Z.lxor_eq. apply (crc_iter_zero n); [by apply lxor_range|].
  by rewrite crc_iter_lxor, H, Z.lxor_nilpotent.
Qed.

End CrcLinear.

Lemma Crc32cTable_nth i : 0 <= i < 256 -> nth (Z.to_nat i) Crc32cTable 0 = crc_entry i.
Proof.
  intros Hi. unfold Crc32cTable. erewrite nth_lookup_Some; [done|].
  rewrite list_lookup_fmap, lookup_seqZ_lt by lia. simpl. f_equal. f_equal. lia.
Qed.

Lemma byte_lxor_shiftr c b : is_byte b -> Z.shiftr (Z.lxor c b) 8 = Z.shiftr c 8.
Proof.
  intros Hb. rewrite Z.shiftr_lxor, (Z.shiftr_div_pow2 b) by lia.
  rewrite (Z.div_small b) by (unfold is_byte in Hb; lia). apply Z.lxor_0_r.
Qed.

Lemma crc_table_step c b :
  is_byte b ->
  Z.lxor (nth (Z.to_nat (Z.land (Z.lxor c b) 0xFF)) Crc32cTable 0) (Z.shiftr c 8)
  = Nat.iter 8 crc_shift (Z.lxor c b).
Proof.
  intros Hb. rewrite <- (byte_lxor_shiftr c b Hb). set (x := Z.lxor c b).
  change 0xFF with (2 ^ 8 - 1). rewrite land_ones_mod by lia.
  pose proof (Z.mod_pos_bound x (2 ^ 8) eq_refl) as Hm.
  rewrite Crc32cTable_nth by lia. unfold crc_entry.
  assert (x = Z.lxor (x mod 2 ^ 8) (Z.shiftl (Z.shiftr x 8) (Z.of_nat 8))) as Hx.
  { apply Z.bits_inj'. intros i Hi. rewrite Z.lxor_spec, Z.shiftl_spec by done.
    change (Z.of_nat 8) with 8. destruct (decide (i < 8)).
    - rewrite Z.mod_pow2_bits_low, (Z.testbit_neg_r _ (i - 8)) by lia. by rewrite xorb_false_r.
    - rewrite Z.mod_pow2_bits_high, Z.shiftr_spec by lia. rewrite xorb_false_l. f_equal; lia. }
  rewrite Hx at 3. by rewrite crc_iter_lxor, crc_iter_shiftl.
Qed.

Lemma crc32c_update_serial c data : is_bytes data -> crc32c_update c data = crc_serial c data.
Proof.
  intros Hd. revert c. induction Hd as [|b data Hb Hd IH]; intros c; [done|].
  unfold crc32c_update, crc_serial in *. cbn [fold_left]. by rewrite crc_table_step, IH.
Qed.

Lemma crc_serial_app c l1 l2 : crc_serial c (l1 ++ l2) = crc_serial (crc_serial c l1) l2.
Proof. apply fold_left_app. Qed.

Definition is_reg (c : Z) : Prop := 0 <= c < 2 ^ 32.

Lemma byte_reg b : is_byte b -> is_reg b.
Proof. unfold is_byte, is_reg. lia. Qed.

Lemma crc_serial_range c data : is_reg c -> is_bytes data -> is_reg (crc_serial c data).
Proof.
  intros Hc Hd. revert c Hc. induction Hd as [|b data Hb Hd IH]; intros c Hc; [done|].
  apply IH, crc_iter_range, lxor_range; [lia|done|by apply byte_reg].
Qed.

Lemma crc_serial_inj c c' data :
  is_reg c -> is_reg c' -> is_bytes data -> crc_serial c data = crc_serial c' data -> c = c'.
Proof.
  intros Hc Hc' Hd. revert c c' Hc Hc'.
  induction Hd as [|b data Hb Hd IH]; intros c c' Hc Hc' H; [done|].
  apply byte_reg in Hb.
  assert (Z.lxor c b = Z.lxor c' b) as E.
  { apply (crc_iter_inj 8); [by apply lxor_range..|].
    apply IH; [by apply crc_iter_range, lxor_range..|done]. }
  apply (f_equal (fun x => Z.lxor x b)) in E.
  by rewrite !Z.lxor_assoc, Z.lxor_nilpotent, !Z.lxor_0_r in E.
Qed.

(** The little-endian value of a short window, as the register consumes it. *)
Fixpoint window (w : list Z) : Z :=
  match w with
  | [] => 0
  | b :: t => Z.lxor b (Z.shiftl (window t) 8)
  end.

Lemma crc_serial_window c w :
  is_bytes w -> crc_serial c w = Nat.iter (8 * length w) crc_shift (Z.lxor c (window w)).
Proof.
  intros Hw. revert c. induction Hw as [|b w Hb Hw IH]; intros c; [by rewrite Z.lxor_0_r|].
  replace (8 * length (b :: w))%nat with (8 * length w + 8)%nat by (cbn [length]; lia).
  rewrite Nat.iter_add. change (window (b :: w)) with (Z.lxor b (Z.shiftl (window w) 8)).
  rewrite <- Z.lxor_assoc, (crc_iter_lxor 8).
  change (Z.shiftl (window w) 8) with (Z.shiftl (window w) (Z.of_nat 8)).
  rewrite crc_iter_shiftl. apply IH.
Qed.

Lemma window_range w : is_bytes w -> 0 <= window w < 2 ^ (8 * Z.of_nat (length w)).
Proof.
  induction 1 as [|b w Hb Hw IH]; simpl; [lia|].
  assert (0 < 2 ^ (8 * Z.of_nat (length w))) by (apply Z.pow_pos_nonneg; lia).
  replace (8 * Z.of_nat (S (length w))) with (8 + 8 * Z.of_nat (length w)) by lia.
  apply lxor_range; [lia| |]; rewrite ?Z.pow_add_r by lia; unfold is_byte in Hb.
  - change (2 ^ 8) with 256. nia.
  - rewrite Z.shiftl_mul_pow2 by lia. change (2 ^ 8) with 256. nia.
Qed.

Lemma window_inj w w' :
  is_bytes w -> is_bytes w' -> length w = length w' -> window w = window w' -> w = w'.
Proof.
  intros Hw. revert w'. induction Hw as [|b w Hb Hw IH]; intros w' Hw' Hl H.
  - by destruct w'.
  - destruct w' as [|b' w']; [done|]. simpl in *. inversion Hw'; subst.
    unfold is_byte in *. rewrite !lxor_shiftl_add in H by lia. change (2 ^ 8) with 256 in H.
    f_equal; [lia|]. apply IH; [done|lia|lia].
Qed.

(** ** FNV lemmas *)

Lemma mul128_spec (alo ahi blo bhi : Z) :
  is_u64 alo -> is_u64 ahi -> is_u64 blo -> is_u64 bhi ->
  let '(rlo, rhi) := mul128 alo ahi blo bhi in
  is_u64 rlo /\ is_u64 rhi /\
  rhi * 2 ^ 64 + rlo = ((ahi * 2 ^ 64 + alo) * (bhi * 2 ^ 64 + blo)) mod 2 ^ 128.
Proof.
  intros Hal Hah Hbl Hbh. unfold mul128. pose proof (split_mul_parts alo blo Hal Hbl) as H.
  destruct (split_mul alo blo) as [p1hi p1lo]. destruct H as (Hhi & Hlo & Heq).
  split; [done|]. split; [apply add64_range|].
  set (X := p1hi + alo * bhi + ahi * blo).
  assert (add64 (add64 p1hi (mul64 alo bhi)) (mul64 ahi blo) = X mod 2 ^ 64) as ->.
  { unfold add64, mul64, wrap64. by rewrite !Zplus_mod_idemp_r, Zplus_mod_idemp_l. }
  rewrite <- (Z.mul_mod_distr_r X (2 ^ 64) (2 ^ 64)) by lia. change (2 ^ 64 * 2 ^ 64) with (2 ^ 128).
  assert ((ahi * 2 ^ 64 + alo) * (bhi * 2 ^ 64 + blo) = X * 2 ^ 64 + p1lo + ahi * bhi * 2 ^ 128) as ->.
  { unfold X. change (2 ^ 128) with (2 ^ 64 * 2 ^ 64). nia. }
  rewrite Z.mod_add by lia. rewrite (Z.add_mod (X * 2 ^ 64)) by lia.
  rewrite (Z.mod_small p1lo) by u64_lia.
  symmetry. apply Z.mod_small.
  replace ((X * 2 ^ 64) mod 2 ^ 128) with ((X mod 2 ^ 64) * 2 ^ 64)
    by (change (2 ^ 128) with (2 ^ 64 * 2 ^ 64); by rewrite Z.mul_mod_distr_r by lia).
  pose proof (Z.mod_pos_bound X (2 ^ 64)). u64_unfold. nia.
Qed.

Definition digest_wf (d : Digest) : Prop := is_u64 (dg_hi d) /\ is_u64 (dg_lo d).

Lemma fnv_byte_spec (d : Digest) (b : Z) :
  digest_wf d -> is_byte b ->
  digest_wf (fnv_byte d b) /\
  digest_value (fnv_byte d b) = (Z.lxor (digest_value d) b * fnv1a128_prime) mod 2 ^ 128.
Proof.
  intros [Hhi Hlo] Hb. unfold fnv_byte.
  assert (is_u64 (Z.lxor (dg_lo d) b)) as Hx.
  { pose proof (lxor_range 64 (dg_lo d) b). unfold is_byte in Hb. u64_lia. }
  pose proof (mul128_spec (Z.lxor (dg_lo d) b) (dg_hi d) kFnv128PrimeLo kFnv128PrimeHi Hx Hhi) as H.
  destruct (mul128 _ _ _ _) as [nlo nhi]. destruct H as (H1 & H2 & H3); [by vm_compute..|].
  split; [done|]. unfold digest_value at 1. simpl. rewrite H3. do 2 f_equal.
  unfold digest_value. rewrite Z.add_comm, <- !lxor_shiftl_add by u64_lia.
  rewrite (Z.add_comm _ (dg_lo d)), <- lxor_shiftl_add by u64_lia.
  by rewrite !Z.lxor_assoc, (Z.lxor_comm b).
Qed.

Lemma fnv_update_spec (d : Digest) (data : list Z) :
  digest_wf d -> is_bytes data ->
  digest_wf (fnv_update d data) /\
  digest_value (fnv_update d data) =
    fold_left (fun h b => (Z.lxor h b * fnv1a128_prime) mod 2 ^ 128) data (digest_value d).
Proof.
  intros Hd Hdata. revert d Hd. induction Hdata as [|b data Hb Hdata IH]; intros d Hd; [done|].
  destruct (fnv_byte_spec d b Hd Hb) as [H1 H2]. unfold fnv_update in *. cbn [fold_left].
  rewrite <- H2. by apply IH.
Qed.

Lemma digest_bytes_wf (data : list Z) : is_bytes data -> digest_wf (digest_bytes data).
Proof. intros H. apply fnv_update_spec; [by vm_compute|done]. Qed.

(** Two messages that differ only inside a window of four bytes never collide. *)
Lemma crc32c_window_ne (p w w' s : list Z) (seed : Z) :
  is_u32 seed -> is_bytes p -> is_bytes w -> is_bytes w' -> is_bytes s ->
  length w = length w' -> (length w <= 4)%nat -> w <> w' ->
  crc32c (p ++ w ++ s) seed <> crc32c (p ++ w' ++ s) seed.
Proof.
  intros Hseed Hp Hw Hw' Hs Hl H4 Hne H. apply Hne, window_inj; [done..|].
  unfold crc32c in H.
  rewrite !crc32c_update_serial, !crc_serial_app in H by by repeat apply Forall_app_2.
  assert (is_reg (not32 seed)) as Hr by (unfold is_reg, not32; u64_lia).
  apply (crc_serial_range _ p) in Hr; [|done]. set (c := crc_serial _ p) in *.
  assert (crc_serial c w = crc_serial c w') as Hin.
  { apply (crc_serial_inj _ _ s); [by apply crc_serial_range..|done|unfold not32 in H; lia]. }
  assert (forall v, is_bytes v -> (length v <= 4)%nat -> 0 <= window v < 2 ^ 32) as Hv.
    { intros v Hv Hv4. pose proof (window_range v Hv).
    assert (2 ^ (8 * Z.of_nat (length v)) <= 2 ^ 32) by (apply Z.pow_le_mono_r; lia). lia. }
  rewrite !crc_serial_window, <- Hl in Hin by done.
  apply crc_iter_inj in Hin; [|apply lxor_range; auto with lia..].
  apply (f_equal (Z.lxor c)) in Hin.
  by rewrite <- !Z.lxor_assoc, Z.lxor_nilpotent, !Z.lxor_0_l in Hin.
Qed.

Lemma crc32c_range data : is_bytes data -> is_u32 (crc32c data 0).
Proof.
  intros H. unfold crc32c. rewrite crc32c_update_serial by done.
  assert (is_reg (not32 0)) as Hr by (unfold is_reg, not32; u64_lia).
  pose proof (crc_serial_range _ data Hr H) as Hs. unfold is_reg, not32 in *. u64_lia.
Qed.

(** ** Properties *)

(** C29. The table-driven CRC-32C of the code is the bit-serial CRC over the reflected
    Castagnoli polynomial: consuming a byte through the 256-entry table equals eight
    shifts of the register, for every input and seed. *)
Theorem crc32c_table_correct (data : list Z) (seed : Z) :
  is_bytes data -> crc32c data seed = not32 (crc_serial (not32 seed) data).
Proof. intros H. unfold crc32c. by rewrite crc32c_update_serial. Qed.

(** The standard check input "123456789" gives the published check value. *)
Lemma crc32c_table_correct_witness :
  crc32c [0x31; 0x32; 0x33; 0x34; 0x35; 0x36; 0x37; 0x38; 0x39] 0 = 0xE3069283 /\
  0xE3069283 = not32 (crc_serial (not32 0) [0x31; 0x32; 0x33; 0x34; 0x35; 0x36; 0x37; 0x38; 0x39]).
Proof.
  split; [vm_compute; reflexivity|].
  etransitivity; [|apply (crc32c_table_correct _ 0)]; [vm_compute; reflexivity|].
  repeat constructor; unfold is_byte; lia.
Defined.

(** Any corruption confined to at most four consecutive bytes changes the checksum:
    two messages of equal length that differ only inside such a window never share a
    CRC-32C. *)
Theorem crc32c_burst_detected (p w w' s : list Z) (seed : Z) :
  is_u32 seed -> is_bytes p -> is_bytes w -> is_bytes w' -> is_bytes s ->
  length w = length w' -> (length w <= 4)%nat -> w <> w' ->
  crc32c (p ++ w ++ s) seed <> crc32c (p ++ w' ++ s) seed.
Proof. apply crc32c_window_ne. Qed.

Lemma crc32c_burst_detected_witness :
  crc32c ([1; 2] ++ [3; 4; 5; 6] ++ [7]) 0 <> crc32c ([1; 2] ++ [3; 4; 0; 6] ++ [7]) 0.
Proof.
  apply (crc32c_burst_detected [1; 2] [3; 4; 5; 6] [3; 4; 0; 6] [7] 0);
    first [u64_lia | by repeat constructor; unfold is_byte; lia | simpl; lia | discriminate].
Defined.

(** The two-word digest of the code is FNV-1a/128: split multiplication, carries and
    word order together compute the textbook recurrence modulo 2^128. *)
Theorem digest_bytes_fnv1a (data : list Z) :
  is_bytes data -> digest_value (digest_bytes data) = fnv1a128_spec data.
Proof. intros H. by apply (fnv_update_spec fnv_init data). Qed.

Lemma digest_bytes_fnv1a_witness :
  digest_value (digest_bytes [0x61; 0x62]) = fnv1a128_spec [0x61; 0x62].
Proof. apply digest_bytes_fnv1a. repeat constructor; unfold is_byte; lia. Defined.
