(* ===== verification/Enums.v ===== *)
(** * Enumerations of the runtime

    Every scoped enumeration the model uses, one Module each so that enumerators are
    written [ErrorCode.Overflow] as in the source, with its numeric code, its rendered
    name and its place in the [Enum] interface. [ErrorCode] alone has an extra
    constructor: the decoders cast any code up to the largest enumerator, so an
    [ErrorCode] object may hold a value that names no enumerator. *)

From S2P Require Import Prelude Ints.

(** ** The interface: numeric codes identify enumerators *)

Class Enum (E : Type) := {
  enum_code : E -> Z;
  enum_all : list E;
  enum_all_complete : forall e, e ∈ enum_all;
  enum_code_inj : forall a b, enum_code a = enum_code b -> a = b;
  enum_code_u8 : forall e, is_u8 (enum_code e)
}.

(** [static_cast] from the underlying integer, defined on the listed codes. *)
Definition enum_cast {E : Type} `{Enum E} (z : Z) : option E :=
  List.find (fun e => enum_code e =? z) enum_all.

Lemma enum_cast_code {E : Type} `{Enum E} (e : E) : enum_cast (enum_code e) = Some e.
Proof.
  unfold enum_cast. destruct (List.find _ _) as [e'|] eqn:Hf.
  - apply find_some in Hf as [_ Hf]. apply Z.eqb_eq, enum_code_inj in Hf. by subst.
  - pose proof (enum_all_complete e) as Hin. apply list_elem_of_In in Hin.
    apply (find_none _ _ Hf) in Hin. by rewrite Z.eqb_refl in Hin.
Qed.

Lemma enum_code_cast {E : Type} `{Enum E} (z : Z) (e : E) : enum_cast z = Some e -> enum_code e = z.
Proof. unfold enum_cast. intros [_ Hf]%find_some. by apply Z.eqb_eq. Qed.

Ltac solve_enum_complete := intros e; apply list_elem_of_In; destruct e; simpl; tauto.
Ltac solve_enum_inj := intros a b; destruct a, b; done.
Ltac solve_enum_u8 := intros e; destruct e; by vm_compute.


(** ** [ErrorCode] *)

Module ErrorCode.

Inductive ErrorCode : Set :=
| Ok
| InvalidArgument
| NotFound
| AlreadyExists
| NoChange
| NameTooLong
| BoundedResourceExhausted
| Overflow
| Underflow
| Unsupported
| NotImplemented
| Cancelled
| ShuttingDown
| LifecycleViolation
| WrongState
| UnknownPool
| UnknownQueue
| UnknownAllocation
| UnknownPolicy
| UnknownBackend
| UnknownResource
| DuplicatePool
| DuplicateAllocation
| DuplicatePolicy
| DuplicateQueue
| PoolCycle
| PoolDepthExceeded
| DuplicateName
| CapacityExceeded
| ProtectedHeadroomViolation
| OvercommitLimitExceeded
| BorrowLimitExceeded
| AccountingViolation
| InvariantViolation
| ShareExceeded
| HardLimitExceeded
| PolicyForbids
| StaleGeneration
| StaleEpoch
| StaleAuthority
| StaleEvidence
| EvidenceUnknown
| Fenced
| AttemptConflict
| EpochRegression
| PersistenceError
| CorruptRecord
| VersionMismatch
| IntegrityFailure
| JournalTruncated
| SnapshotOversized
| BackendError
| BackendNotReady
| TransportError
| ProtocolViolation
| OversizedMessage
| TruncatedMessage
| PeerClosed
| ProtocolVersionMismatch
| Unlisted (v : Z).

Definition code (x : ErrorCode) : Z :=
  match x with
  | Ok => 0
  | InvalidArgument => 1
  | NotFound => 2
  | AlreadyExists => 3
  | NoChange => 4
  | NameTooLong => 5
  | BoundedResourceExhausted => 6
  | Overflow => 7
  | Underflow => 8
  | Unsupported => 9
  | NotImplemented => 10
  | Cancelled => 11
  | ShuttingDown => 12
  | LifecycleViolation => 13
  | WrongState => 14
  | UnknownPool => 20
  | UnknownQueue => 21
  | UnknownAllocation => 22
  | UnknownPolicy => 23
  | UnknownBackend => 24
  | UnknownResource => 25
  | DuplicatePool => 26
  | DuplicateAllocation => 27
  | DuplicatePolicy => 28
  | DuplicateQueue => 29
  | PoolCycle => 30
  | PoolDepthExceeded => 31
  | DuplicateName => 32
  | CapacityExceeded => 40
  | ProtectedHeadroomViolation => 41
  | OvercommitLimitExceeded => 42
  | BorrowLimitExceeded => 43
  | AccountingViolation => 44
  | InvariantViolation => 45
  | ShareExceeded => 46
  | HardLimitExceeded => 47
  | PolicyForbids => 48
  | StaleGeneration => 60
  | StaleEpoch => 61
  | StaleAuthority => 62
  | StaleEvidence => 63
  | EvidenceUnknown => 64
  | Fenced => 65
  | AttemptConflict => 66
  | EpochRegression => 67
  | PersistenceError => 80
  | CorruptRecord => 81
  | VersionMismatch => 82
  | IntegrityFailure => 83
  | JournalTruncated => 84
  | SnapshotOversized => 85
  | BackendError => 90
  | BackendNotReady => 91
  | TransportError => 100
  | ProtocolViolation => 101
  | OversizedMessage => 102
  | TruncatedMessage => 103
  | PeerClosed => 104
  | ProtocolVersionMismatch => 105
  | Unlisted v => v
  end.

Definition to_string (x : ErrorCode) : string :=
  match x with
  | Ok => "Ok"
  | InvalidArgument => "InvalidArgument"
  | NotFound => "NotFound"
  | AlreadyExists => "AlreadyExists"
  | NoChange => "NoChange"
  | NameTooLong => "NameTooLong"
  | BoundedResourceExhausted => "BoundedResourceExhausted"
  | Overflow => "Overflow"
  | Underflow => "Underflow"
  | Unsupported => "Unsupported"
  | NotImplemented => "NotImplemented"
  | Cancelled => "Cancelled"
  | ShuttingDown => "ShuttingDown"
  | LifecycleViolation => "LifecycleViolation"
  | WrongState => "WrongState"
  | UnknownPool => "UnknownPool"
  | UnknownQueue => "UnknownQueue"
  | UnknownAllocation => "UnknownAllocation"
  | UnknownPolicy => "UnknownPolicy"
  | UnknownBackend => "UnknownBackend"
  | UnknownResource => "UnknownResource"
  | DuplicatePool => "DuplicatePool"
  | DuplicateAllocation => "DuplicateAllocation"
  | DuplicatePolicy => "DuplicatePolicy"
  | DuplicateQueue => "DuplicateQueue"
  | PoolCycle => "PoolCycle"
  | PoolDepthExceeded => "PoolDepthExceeded"
  | DuplicateName => "DuplicateName"
  | CapacityExceeded => "CapacityExceeded"
  | ProtectedHeadroomViolation => "ProtectedHeadroomViolation"
  | OvercommitLimitExceeded => "OvercommitLimitExceeded"
  | BorrowLimitExceeded => "BorrowLimitExceeded"
  | AccountingViolation => "AccountingViolation"
  | InvariantViolation => "InvariantViolation"
  | ShareExceeded => "ShareExceeded"
  | HardLimitExceeded => "HardLimitExceeded"
  | PolicyForbids => "PolicyForbids"
  | StaleGeneration => "StaleGeneration"
  | StaleEpoch => "StaleEpoch"
  | StaleAuthority => "StaleAuthority"
  | StaleEvidence => "StaleEvidence"
  | EvidenceUnknown => "EvidenceUnknown"
  | Fenced => "Fenced"
  | AttemptConflict => "AttemptConflict"
  | EpochRegression => "EpochRegression"
  | PersistenceError => "PersistenceError"
  | CorruptRecord => "CorruptRecord"
  | VersionMismatch => "VersionMismatch"
  | IntegrityFailure => "IntegrityFailure"
  | JournalTruncated => "JournalTruncated"
  | SnapshotOversized => "SnapshotOversized"
  | BackendError => "BackendError"
  | BackendNotReady => "BackendNotReady"
  | TransportError => "TransportError"
  | ProtocolViolation => "ProtocolViolation"
  | OversizedMessage => "OversizedMessage"
  | TruncatedMessage => "TruncatedMessage"
  | PeerClosed => "PeerClosed"
  | ProtocolVersionMismatch => "ProtocolVersionMismatch"
  | Unlisted _ => "UnknownErrorCode"
  end.

(** Cast of a 16-bit code: a code that names no enumerator is kept as it is. *)
Definition of_code (z : Z) : ErrorCode :=
  match z with
  | 0 => Ok
  | 1 => InvalidArgument
  | 2 => NotFound
  | 3 => AlreadyExists
  | 4 => NoChange
  | 5 => NameTooLong
  | 6 => BoundedResourceExhausted
  | 7 => Overflow
  | 8 => Underflow
  | 9 => Unsupported
  | 10 => NotImplemented
  | 11 => Cancelled
  | 12 => ShuttingDown
  | 13 => LifecycleViolation
  | 14 => WrongState
  | 20 => UnknownPool
  | 21 => UnknownQueue
  | 22 => UnknownAllocation
  | 23 => UnknownPolicy
  | 24 => UnknownBackend
  | 25 => UnknownResource
  | 26 => DuplicatePool
  | 27 => DuplicateAllocation
  | 28 => DuplicatePolicy
  | 29 => DuplicateQueue
  | 30 => PoolCycle
  | 31 => PoolDepthExceeded
  | 32 => DuplicateName
  | 40 => CapacityExceeded
  | 41 => ProtectedHeadroomViolation
  | 42 => OvercommitLimitExceeded
  | 43 => BorrowLimitExceeded
  | 44 => AccountingViolation
  | 45 => InvariantViolation
  | 46 => ShareExceeded
  | 47 => HardLimitExceeded
  | 48 => PolicyForbids
  | 60 => StaleGeneration
  | 61 => StaleEpoch
  | 62 => StaleAuthority
  | 63 => StaleEvidence
  | 64 => EvidenceUnknown
  | 65 => Fenced
  | 66 => AttemptConflict
  | 67 => EpochRegression
  | 80 => PersistenceError
  | 81 => CorruptRecord
  | 82 => VersionMismatch
  | 83 => IntegrityFailure
  | 84 => JournalTruncated
  | 85 => SnapshotOversized
  | 90 => BackendError
  | 91 => BackendNotReady
  | 100 => TransportError
  | 101 => ProtocolViolation
  | 102 => OversizedMessage
  | 103 => TruncatedMessage
  | 104 => PeerClosed
  | 105 => ProtocolVersionMismatch
  | v => Unlisted v
  end.

#[export] Instance eq_dec : EqDecision ErrorCode.
Proof. solve_decision. Defined.

End ErrorCode.

Export (hints) ErrorCode.
Abbreviation ErrorCode := ErrorCode.ErrorCode.

(** ** [PressureState] *)

Module PressureState.

Inductive PressureState : Set :=
| Unknown
| Clear
| Elevated
| High
| Critical
| Stale.

Definition code (x : PressureState) : Z :=
  match x with
  | Unknown => 0
  | Clear => 1
  | Elevated => 2
  | High => 3
  | Critical => 4
  | Stale => 5
  end.

Definition to_string (x : PressureState) : string :=
  match x with
  | Unknown => "UNKNOWN"
  | Clear => "CLEAR"
  | Elevated => "ELEVATED"
  | High => "HIGH"
  | Critical => "CRITICAL"
  | Stale => "STALE"
  end.

#[export] Instance eq_dec : EqDecision PressureState.
Proof. solve_decision. Defined.

#[export] Program Instance enum : Enum PressureState := {
  enum_code := code;
  enum_all := [Unknown; Clear; Elevated; High; Critical; Stale]
}.
Next Obligation. solve_enum_complete. Qed.
Next Obligation. solve_enum_inj. Qed.
Next Obligation. solve_enum_u8. Qed.

End PressureState.

Export (hints) PressureState.
Abbreviation PressureState := PressureState.PressureState.

(** ** [OvercommitMode] *)

Module OvercommitMode.

Inductive OvercommitMode : Set :=
| Forbid
| Bounded.

Definition code (x : OvercommitMode) : Z :=
  match x with
  | Forbid => 0
  | Bounded => 1
  end.

#[export] Instance eq_dec : EqDecision OvercommitMode.
Proof. solve_decision. Defined.

#[export] Program Instance enum : Enum OvercommitMode := {
  enum_code := code;
  enum_all := [Forbid; Bounded]
}.
Next Obligation. solve_enum_complete. Qed.
Next Obligation. solve_enum_inj. Qed.
Next Obligation. solve_enum_u8. Qed.

End OvercommitMode.

Export (hints) OvercommitMode.
Abbreviation OvercommitMode := OvercommitMode.OvercommitMode.

(** ** [BorrowMode] *)

Module BorrowMode.

Inductive BorrowMode : Set :=
| Forbid
| FromAncestorFree.

Definition code (x : BorrowMode) : Z :=
  match x with
  | Forbid => 0
  | FromAncestorFree => 1
  end.

#[export] Instance eq_dec : EqDecision BorrowMode.
Proof. solve_decision. Defined.

#[export] Program Instance enum : Enum BorrowMode := {
  enum_code := code;
  enum_all := [Forbid; FromAncestorFree]
}.
Next Obligation. solve_enum_complete. Qed.
Next Obligation. solve_enum_inj. Qed.
Next Obligation. solve_enum_u8. Qed.

End BorrowMode.

Export (hints) BorrowMode.
Abbreviation BorrowMode := BorrowMode.BorrowMode.

(** ** [AllocationState] *)

Module AllocationState.

Inductive AllocationState : Set :=
| Reserved
| Committed
| Fenced
| Reclaimed
| Released
| Expired.

Definition code (x : AllocationState) : Z :=
  match x with
  | Reserved => 0
  | Committed => 1
  | Fenced => 2
  | Reclaimed => 3
  | Released => 4
  | Expired => 5
  end.

Definition to_string (x : AllocationState) : string :=
  match x with
  | Reserved => "RESERVED"
  | Committed => "COMMITTED"
  | Fenced => "FENCED"
  | Reclaimed => "RECLAIMED"
  | Released => "RELEASED"
  | Expired => "EXPIRED"
  end.

#[export] Instance eq_dec : EqDecision AllocationState.
Proof. solve_decision. Defined.

#[export] Program Instance enum : Enum AllocationState := {
  enum_code := code;
  enum_all := [Reserved; Committed; Fenced; Reclaimed; Released; Expired]
}.
Next Obligation. solve_enum_complete. Qed.
Next Obligation. solve_enum_inj. Qed.
Next Obligation. solve_enum_u8. Qed.

End AllocationState.

Export (hints) AllocationState.
Abbreviation AllocationState := AllocationState.AllocationState.

(** ** [ReclaimClass] *)

Module ReclaimClass.

Inductive ReclaimClass : Set :=
| Pinned
| Reclaimable.

Definition code (x : ReclaimClass) : Z :=
  match x with
  | Pinned => 0
  | Reclaimable => 1
  end.

Definition to_string (x : ReclaimClass) : string :=
  match x with
  | Pinned => "PINNED"
  | Reclaimable => "RECLAIMABLE"
  end.

#[export] Instance eq_dec : EqDecision ReclaimClass.
Proof. solve_decision. Defined.

#[export] Program Instance enum : Enum ReclaimClass := {
  enum_code := code;
  enum_all := [Pinned; Reclaimable]
}.
Next Obligation. solve_enum_complete. Qed.
Next Obligation. solve_enum_inj. Qed.
Next Obligation. solve_enum_u8. Qed.

End ReclaimClass.

Export (hints) ReclaimClass.
Abbreviation ReclaimClass := ReclaimClass.ReclaimClass.

(** ** [AttemptKind] *)

Module AttemptKind.

Inductive AttemptKind : Set :=
| Allocate
| Commit
| Release
| Reclaim
| Fence
| Revalidate
| Reserve.

Definition code (x : AttemptKind) : Z :=
  match x with
  | Allocate => 0
  | Commit => 1
  | Release => 2
  | Reclaim => 3
  | Fence => 4
  | Revalidate => 5
  | Reserve => 6
  end.

Definition to_string (x : AttemptKind) : string :=
  match x with
  | Allocate => "ALLOCATE"
  | Commit => "COMMIT"
  | Release => "RELEASE"
  | Reclaim => "RECLAIM"
  | Fence => "FENCE"
  | Revalidate => "REVALIDATE"
  | Reserve => "RESERVE"
  end.

#[export] Instance eq_dec : EqDecision AttemptKind.
Proof. solve_decision. Defined.

#[export] Program Instance enum : Enum AttemptKind := {
  enum_code := code;
  enum_all := [Allocate; Commit; Release; Reclaim; Fence; Revalidate; Reserve]
}.
Next Obligation. solve_enum_complete. Qed.
Next Obligation. solve_enum_inj. Qed.
Next Obligation. solve_enum_u8. Qed.

End AttemptKind.

Export (hints) AttemptKind.
Abbreviation AttemptKind := AttemptKind.AttemptKind.

(** ** [AccountingFault] *)

Module AccountingFault.

Inductive AccountingFault : Set :=
| None
| PoolClosureMismatch
| FreeWithOvercommit
| AllocationSplitMismatch
| PinnedReclaimableMismatch
| OvercommitWithoutPolicy
| OvercommitBeyondLimit
| ProtectedExceedsRaw
| UsableMismatch
| GlobalBorrowMismatch
| GlobalClosureMismatch
| FreeAboveUsable
| OwnUsageAboveAllowance
| SaturatedField.

Definition code (x : AccountingFault) : Z :=
  match x with
  | None => 0
  | PoolClosureMismatch => 1
  | FreeWithOvercommit => 2
  | AllocationSplitMismatch => 3
  | PinnedReclaimableMismatch => 4
  | OvercommitWithoutPolicy => 5
  | OvercommitBeyondLimit => 6
  | ProtectedExceedsRaw => 7
  | UsableMismatch => 8
  | GlobalBorrowMismatch => 9
  | GlobalClosureMismatch => 10
  | FreeAboveUsable => 11
  | OwnUsageAboveAllowance => 12
  | SaturatedField => 13
  end.

Definition to_string (x : AccountingFault) : string :=
  match x with
  | None => "NONE"
  | PoolClosureMismatch => "POOL_CLOSURE_MISMATCH"
  | FreeWithOvercommit => "FREE_WITH_OVERCOMMIT"
  | AllocationSplitMismatch => "ALLOCATION_SPLIT_MISMATCH"
  | PinnedReclaimableMismatch => "PINNED_RECLAIMABLE_MISMATCH"
  | OvercommitWithoutPolicy => "OVERCOMMIT_WITHOUT_POLICY"
  | OvercommitBeyondLimit => "OVERCOMMIT_BEYOND_LIMIT"
  | ProtectedExceedsRaw => "PROTECTED_EXCEEDS_RAW"
  | UsableMismatch => "USABLE_MISMATCH"
  | GlobalBorrowMismatch => "GLOBAL_BORROW_MISMATCH"
  | GlobalClosureMismatch => "GLOBAL_CLOSURE_MISMATCH"
  | FreeAboveUsable => "FREE_ABOVE_USABLE"
  | OwnUsageAboveAllowance => "OWN_USAGE_ABOVE_ALLOWANCE"
  | SaturatedField => "SATURATED_FIELD"
  end.

#[export] Instance eq_dec : EqDecision AccountingFault.
Proof. solve_decision. Defined.

#[export] Program Instance enum : Enum AccountingFault := {
  enum_code := code;
  enum_all := [None; PoolClosureMismatch; FreeWithOvercommit; AllocationSplitMismatch; PinnedReclaimableMismatch; OvercommitWithoutPolicy; OvercommitBeyondLimit; ProtectedExceedsRaw; UsableMismatch; GlobalBorrowMismatch; GlobalClosureMismatch; FreeAboveUsable; OwnUsageAboveAllowance; SaturatedField]
}.
Next Obligation. solve_enum_complete. Qed.
Next Obligation. solve_enum_inj. Qed.
Next Obligation. solve_enum_u8. Qed.

End AccountingFault.

Export (hints) AccountingFault.
Abbreviation AccountingFault := AccountingFault.AccountingFault.

(** ** [AuthorityKind] *)

Module AuthorityKind.

Inductive AuthorityKind : Set :=
| Capacity
| Pool
| Queue
| Policy
| Pressure
| Epoch
| Backend
| Provenance
| Attempt
| BootIncarnation
| Reservation.

Definition code (x : AuthorityKind) : Z :=
  match x with
  | Capacity => 0
  | Pool => 1
  | Queue => 2
  | Policy => 3
  | Pressure => 4
  | Epoch => 5
  | Backend => 6
  | Provenance => 7
  | Attempt => 8
  | BootIncarnation => 9
  | Reservation => 10
  end.

Definition to_string (x : AuthorityKind) : string :=
  match x with
  | Capacity => "capacity"
  | Pool => "pool"
  | Queue => "queue"
  | Policy => "policy"
  | Pressure => "pressure"
  | Epoch => "epoch"
  | Backend => "backend"
  | Provenance => "provenance"
  | Attempt => "attempt"
  | BootIncarnation => "boot"
  | Reservation => "reservation"
  end.

#[export] Instance eq_dec : EqDecision AuthorityKind.
Proof. solve_decision. Defined.

#[export] Program Instance enum : Enum AuthorityKind := {
  enum_code := code;
  enum_all := [Capacity; Pool; Queue; Policy; Pressure; Epoch; Backend; Provenance; Attempt; BootIncarnation; Reservation]
}.
Next Obligation. solve_enum_complete. Qed.
Next Obligation. solve_enum_inj. Qed.
Next Obligation. solve_enum_u8. Qed.

End AuthorityKind.

Export (hints) AuthorityKind.
Abbreviation AuthorityKind := AuthorityKind.AuthorityKind.

(** ** [BindingConstraint] *)

Module BindingConstraint.

Inductive BindingConstraint : Set :=
| None
| Capacity
| ProtectedHeadroom
| OvercommitLimit
| BorrowLimit
| PolicyMaxSingleAllocation
| PolicyMaxSingleRequest
| PolicySoftLimit
| QueueMaxCommitted
| QueueShare
| PressureRefuse
| PressureReduce
| EvidenceUnknown
| EvidenceStale
| GenerationMismatch
| PoolRetired
| QueueRetired
| ReservationLimit
| ReclaimReserve
| RequestZero
| BackendCapacity
| Shutdown.

Definition code (x : BindingConstraint) : Z :=
  match x with
  | None => 0
  | Capacity => 1
  | ProtectedHeadroom => 2
  | OvercommitLimit => 3
  | BorrowLimit => 4
  | PolicyMaxSingleAllocation => 5
  | PolicyMaxSingleRequest => 6
  | PolicySoftLimit => 7
  | QueueMaxCommitted => 8
  | QueueShare => 9
  | PressureRefuse => 10
  | PressureReduce => 11
  | EvidenceUnknown => 12
  | EvidenceStale => 13
  | GenerationMismatch => 14
  | PoolRetired => 15
  | QueueRetired => 16
  | ReservationLimit => 17
  | ReclaimReserve => 18
  | RequestZero => 19
  | BackendCapacity => 20
  | Shutdown => 21
  end.

Definition to_string (x : BindingConstraint) : string :=
  match x with
  | None => "none"
  | Capacity => "capacity"
  | ProtectedHeadroom => "protected_headroom"
  | OvercommitLimit => "overcommit_limit"
  | BorrowLimit => "borrow_limit"
  | PolicyMaxSingleAllocation => "policy_max_single_allocation"
  | PolicyMaxSingleRequest => "policy_max_single_request"
  | PolicySoftLimit => "policy_soft_limit"
  | QueueMaxCommitted => "queue_max_committed"
  | QueueShare => "queue_share"
  | PressureRefuse => "pressure_refuse"
  | PressureReduce => "pressure_reduce"
  | EvidenceUnknown => "evidence_unknown"
  | EvidenceStale => "evidence_stale"
  | GenerationMismatch => "generation_mismatch"
  | PoolRetired => "pool_retired"
  | QueueRetired => "queue_retired"
  | ReservationLimit => "reservation_limit"
  | ReclaimReserve => "reclaim_reserve"
  | RequestZero => "request_zero"
  | BackendCapacity => "backend_capacity"
  | Shutdown => "shutdown"
  end.

#[export] Instance eq_dec : EqDecision BindingConstraint.
Proof. solve_decision. Defined.

#[export] Program Instance enum : Enum BindingConstraint := {
  enum_code := code;
  enum_all := [None; Capacity; ProtectedHeadroom; OvercommitLimit; BorrowLimit; PolicyMaxSingleAllocation; PolicyMaxSingleRequest; PolicySoftLimit; QueueMaxCommitted; QueueShare; PressureRefuse; PressureReduce; EvidenceUnknown; EvidenceStale; GenerationMismatch; PoolRetired; QueueRetired; ReservationLimit; ReclaimReserve; RequestZero; BackendCapacity; Shutdown]
}.
Next Obligation. solve_enum_complete. Qed.
Next Obligation. solve_enum_inj. Qed.
Next Obligation. solve_enum_u8. Qed.

End BindingConstraint.

Export (hints) BindingConstraint.
Abbreviation BindingConstraint := BindingConstraint.BindingConstraint.

(** ** [DecisionKind] *)

Module DecisionKind.

Inductive DecisionKind : Set :=
| Grant
| GrantPartial
| Refuse
| Reduce
| Fence
| Revalidate
| Reclaim
| NoOp
| IdempotentReplay.

Definition code (x : DecisionKind) : Z :=
  match x with
  | Grant => 0
  | GrantPartial => 1
  | Refuse => 2
  | Reduce => 3
  | Fence => 4
  | Revalidate => 5
  | Reclaim => 6
  | NoOp => 7
  | IdempotentReplay => 8
  end.

Definition to_string (x : DecisionKind) : string :=
  match x with
  | Grant => "GRANT"
  | GrantPartial => "GRANT_PARTIAL"
  | Refuse => "REFUSE"
  | Reduce => "REDUCE"
  | Fence => "FENCE"
  | Revalidate => "REVALIDATE"
  | Reclaim => "RECLAIM"
  | NoOp => "NO_OP"
  | IdempotentReplay => "IDEMPOTENT_REPLAY"
  end.

#[export] Instance eq_dec : EqDecision DecisionKind.
Proof. solve_decision. Defined.

#[export] Program Instance enum : Enum DecisionKind := {
  enum_code := code;
  enum_all := [Grant; GrantPartial; Refuse; Reduce; Fence; Revalidate; Reclaim; NoOp; IdempotentReplay]
}.
Next Obligation. solve_enum_complete. Qed.
Next Obligation. solve_enum_inj. Qed.
Next Obligation. solve_enum_u8. Qed.

End DecisionKind.

Export (hints) DecisionKind.
Abbreviation DecisionKind := DecisionKind.DecisionKind.

(** ** [EventKind] *)

Module EventKind.

Inductive EventKind : Set :=
| PoolRegistered
| PoolRemoved
| PoolResized
| PolicyPublished
| QueueRegistered
| QueueRetired
| AllocationReserved
| AllocationCommitted
| AllocationReleased
| AllocationReclaimed
| AllocationFenced
| AllocationRevalidated
| AllocationExpired
| PressureUpdated
| PressureRejected
| DecisionRefused
| EpochAdvanced
| Recovered
| AccountingViolation
| ShutdownStarted
| ShutdownComplete
| AttemptConflict
| BackendEffectSkipped.

Definition code (x : EventKind) : Z :=
  match x with
  | PoolRegistered => 0
  | PoolRemoved => 1
  | PoolResized => 2
  | PolicyPublished => 3
  | QueueRegistered => 4
  | QueueRetired => 5
  | AllocationReserved => 6
  | AllocationCommitted => 7
  | AllocationReleased => 8
  | AllocationReclaimed => 9
  | AllocationFenced => 10
  | AllocationRevalidated => 11
  | AllocationExpired => 12
  | PressureUpdated => 13
  | PressureRejected => 14
  | DecisionRefused => 15
  | EpochAdvanced => 16
  | Recovered => 17
  | AccountingViolation => 18
  | ShutdownStarted => 19
  | ShutdownComplete => 20
  | AttemptConflict => 21
  | BackendEffectSkipped => 22
  end.

Definition to_string (x : EventKind) : string :=
  match x with
  | PoolRegistered => "pool_registered"
  | PoolRemoved => "pool_removed"
  | PoolResized => "pool_resized"
  | PolicyPublished => "policy_published"
  | QueueRegistered => "queue_registered"
  | QueueRetired => "queue_retired"
  | AllocationReserved => "allocation_reserved"
  | AllocationCommitted => "allocation_committed"
  | AllocationReleased => "allocation_released"
  | AllocationReclaimed => "allocation_reclaimed"
  | AllocationFenced => "allocation_fenced"
  | AllocationRevalidated => "allocation_revalidated"
  | AllocationExpired => "allocation_expired"
  | PressureUpdated => "pressure_updated"
  | PressureRejected => "pressure_rejected"
  | DecisionRefused => "decision_refused"
  | EpochAdvanced => "epoch_advanced"
  | Recovered => "recovered"
  | AccountingViolation => "accounting_violation"
  | ShutdownStarted => "shutdown_started"
  | ShutdownComplete => "shutdown_complete"
  | AttemptConflict => "attempt_conflict"
  | BackendEffectSkipped => "backend_effect_skipped"
  end.

#[export] Instance eq_dec : EqDecision EventKind.
Proof. solve_decision. Defined.

#[export] Program Instance enum : Enum EventKind := {
  enum_code := code;
  enum_all := [PoolRegistered; PoolRemoved; PoolResized; PolicyPublished; QueueRegistered; QueueRetired; AllocationReserved; AllocationCommitted; AllocationReleased; AllocationReclaimed; AllocationFenced; AllocationRevalidated; AllocationExpired; PressureUpdated; PressureRejected; DecisionRefused; EpochAdvanced; Recovered; AccountingViolation; ShutdownStarted; ShutdownComplete; AttemptConflict; BackendEffectSkipped]
}.
Next Obligation. solve_enum_complete. Qed.
Next Obligation. solve_enum_inj. Qed.
Next Obligation. solve_enum_u8. Qed.

End EventKind.

Export (hints) EventKind.
Abbreviation EventKind := EventKind.EventKind.

(** ** [DurabilityMode] *)

Module DurabilityMode.

Inductive DurabilityMode : Set :=
| None
| JournalSync.

Definition code (x : DurabilityMode) : Z :=
  match x with
  | None => 0
  | JournalSync => 1
  end.

Definition to_string (x : DurabilityMode) : string :=
  match x with
  | None => "none"
  | JournalSync => "journal_sync"
  end.

#[export] Instance eq_dec : EqDecision DurabilityMode.
Proof. solve_decision. Defined.

#[export] Program Instance enum : Enum DurabilityMode := {
  enum_code := code;
  enum_all := [None; JournalSync]
}.
Next Obligation. solve_enum_complete. Qed.
Next Obligation. solve_enum_inj. Qed.
Next Obligation. solve_enum_u8. Qed.

End DurabilityMode.

Export (hints) DurabilityMode.
Abbreviation DurabilityMode := DurabilityMode.DurabilityMode.

(** ** [JournalOp] *)

Module JournalOp.

Inductive JournalOp : Set :=
| EpochAdvance
| PoolUpsert
| PoolRemoved
| PolicyUpsert
| QueueUpsert
| QueueRetired
| CapacitySet
| AllocationReserved
| AllocationCommitted
| AllocationReleased
| AllocationReclaimed
| AllocationFenced
| AllocationRevalidated
| AllocationExpired
| PressureObserved
| AttemptRecorded
| Checkpoint
| BackendRegistered.

Definition code (x : JournalOp) : Z :=
  match x with
  | EpochAdvance => 1
  | PoolUpsert => 2
  | PoolRemoved => 3
  | PolicyUpsert => 4
  | QueueUpsert => 5
  | QueueRetired => 6
  | CapacitySet => 7
  | AllocationReserved => 8
  | AllocationCommitted => 9
  | AllocationReleased => 10
  | AllocationReclaimed => 11
  | AllocationFenced => 12
  | AllocationRevalidated => 13
  | AllocationExpired => 14
  | PressureObserved => 15
  | AttemptRecorded => 16
  | Checkpoint => 17
  | BackendRegistered => 18
  end.

Definition to_string (x : JournalOp) : string :=
  match x with
  | EpochAdvance => "epoch_advance"
  | PoolUpsert => "pool_upsert"
  | PoolRemoved => "pool_removed"
  | PolicyUpsert => "policy_upsert"
  | QueueUpsert => "queue_upsert"
  | QueueRetired => "queue_retired"
  | CapacitySet => "capacity_set"
  | AllocationReserved => "allocation_reserved"
  | AllocationCommitted => "allocation_committed"
  | AllocationReleased => "allocation_released"
  | AllocationReclaimed => "allocation_reclaimed"
  | AllocationFenced => "allocation_fenced"
  | AllocationRevalidated => "allocation_revalidated"
  | AllocationExpired => "allocation_expired"
  | PressureObserved => "pressure_observed"
  | AttemptRecorded => "attempt_recorded"
  | Checkpoint => "checkpoint"
  | BackendRegistered => "backend_registered"
  end.

#[export] Instance eq_dec : EqDecision JournalOp.
Proof. solve_decision. Defined.

#[export] Program Instance enum : Enum JournalOp := {
  enum_code := code;
  enum_all := [EpochAdvance; PoolUpsert; PoolRemoved; PolicyUpsert; QueueUpsert; QueueRetired; CapacitySet; AllocationReserved; AllocationCommitted; AllocationReleased; AllocationReclaimed; AllocationFenced; AllocationRevalidated; AllocationExpired; PressureObserved; AttemptRecorded; Checkpoint; BackendRegistered]
}.
Next Obligation. solve_enum_complete. Qed.
Next Obligation. solve_enum_inj. Qed.
Next Obligation. solve_enum_u8. Qed.

End JournalOp.

Export (hints) JournalOp.
Abbreviation JournalOp := JournalOp.JournalOp.

(** ** [RecoveryOutcome] *)

Module RecoveryOutcome.

Inductive RecoveryOutcome : Set :=
| Created
| SnapshotOnly
| JournalReplayed
| TailTruncated
| JournalOnly.

Definition code (x : RecoveryOutcome) : Z :=
  match x with
  | Created => 0
  | SnapshotOnly => 1
  | JournalReplayed => 2
  | TailTruncated => 3
  | JournalOnly => 4
  end.

Definition to_string (x : RecoveryOutcome) : string :=
  match x with
  | Created => "created"
  | SnapshotOnly => "snapshot_only"
  | JournalReplayed => "journal_replayed"
  | TailTruncated => "tail_truncated"
  | JournalOnly => "journal_only"
  end.

#[export] Instance eq_dec : EqDecision RecoveryOutcome.
Proof. solve_decision. Defined.

#[export] Program Instance enum : Enum RecoveryOutcome := {
  enum_code := code;
  enum_all := [Created; SnapshotOnly; JournalReplayed; TailTruncated; JournalOnly]
}.
Next Obligation. solve_enum_complete. Qed.
Next Obligation. solve_enum_inj. Qed.
Next Obligation. solve_enum_u8. Qed.

End RecoveryOutcome.

Export (hints) RecoveryOutcome.
Abbreviation RecoveryOutcome := RecoveryOutcome.RecoveryOutcome.

(** ** [MessageOp] *)

Module MessageOp.

Inductive MessageOp : Set :=
| Hello
| HelloAck
| Ping
| Pong
| Allocate
| Release
| Evaluate
| ObservePressure
| Explain
| Summary
| Ledger
| Metrics
| Shutdown.

Definition code (x : MessageOp) : Z :=
  match x with
  | Hello => 1
  | HelloAck => 2
  | Ping => 3
  | Pong => 4
  | Allocate => 5
  | Release => 6
  | Evaluate => 7
  | ObservePressure => 8
  | Explain => 9
  | Summary => 10
  | Ledger => 11
  | Metrics => 12
  | Shutdown => 13
  end.

Definition to_string (x : MessageOp) : string :=
  match x with
  | Hello => "hello"
  | HelloAck => "hello_ack"
  | Ping => "ping"
  | Pong => "pong"
  | Allocate => "allocate"
  | Release => "release"
  | Evaluate => "evaluate"
  | ObservePressure => "observe_pressure"
  | Explain => "explain"
  | Summary => "summary"
  | Ledger => "ledger"
  | Metrics => "metrics"
  | Shutdown => "shutdown"
  end.

#[export] Instance eq_dec : EqDecision MessageOp.
Proof. solve_decision. Defined.

#[export] Program Instance enum : Enum MessageOp := {
  enum_code := code;
  enum_all := [Hello; HelloAck; Ping; Pong; Allocate; Release; Evaluate; ObservePressure; Explain; Summary; Ledger; Metrics; Shutdown]
}.
Next Obligation. solve_enum_complete. Qed.
Next Obligation. solve_enum_inj. Qed.
Next Obligation. solve_enum_u8. Qed.

End MessageOp.

Export (hints) MessageOp.
Abbreviation MessageOp := MessageOp.MessageOp.

(** An [ErrorCode] is canonical when its value is carried by its own enumerator. *)
Definition error_canonical (e : ErrorCode) : Prop := ErrorCode.of_code (ErrorCode.code e) = e.

Lemma error_of_code_code (e : ErrorCode) :
  match e with ErrorCode.Unlisted _ => True | _ => error_canonical e end.
Proof. destruct e; done. Qed.

Lemma error_code_of_code (z : Z) : 0 <= z <= 105 -> ErrorCode.code (ErrorCode.of_code z) = z.
Proof.
  intros Hz. assert (z ∈ seqZ 0 106) as Hin by (apply elem_of_seqZ; lia).
  revert Hin. clear Hz. revert z. apply Forall_forall. vm_compute. repeat constructor.
Qed.

