(* ===== verification/Status.v ===== *)
(** * Statuses, results and names

    [include/buffer_fabric/status.hpp] and [src/status.cpp]: a [Status] is an error
    code with a bounded message, a [Result] is a value or a [Status]. The C++ functions
    that return [Status] or [VoidResult] are [Result unit] here: success is [Good tt]. *)

From stdpp Require Import pretty.
From S2P Require Import Prelude Ints Hash Enums.

Record Status := mkStatus { st_code : ErrorCode; st_message : string }.

#[export] Instance Status_eq_dec : EqDecision Status.
Proof. solve_decision. Defined.

Inductive Result (A : Type) := Good (a : A) | Bad (s : Status).
Arguments Good {A} a.
Arguments Bad {A} s.

(** [truncate_to]: the first [max_bytes] bytes of [text]. *)
Definition truncate_to (text : string) (max_bytes : nat) : string :=
  if (String.length text <=? max_bytes)%nat then text else String.substring 0 max_bytes text.

(** The two constructors of [Status]. *)
Definition status_of (code : ErrorCode) (message : string) : Status :=
  mkStatus code (truncate_to message (Z.to_nat kMaxStatusMessageBytes)).

Definition status_bare (code : ErrorCode) : Status :=
  mkStatus code (if decide (code = ErrorCode.Ok) then "" else ErrorCode.to_string code).

Definition status_ok (s : Status) : bool := bool_decide (st_code s = ErrorCode.Ok).

Definition status_success : Status := mkStatus ErrorCode.Ok "".

(** [Status::to_string]. *)
Definition status_to_string (s : Status) : string :=
  if decide (st_code s = ErrorCode.Ok) then "Ok"
  else if String.eqb (st_message s) "" then ErrorCode.to_string (st_code s)
  else (ErrorCode.to_string (st_code s) ++ ": " ++ st_message s)%string.

(** [BF_FAIL]. *)
Definition fail {A} (code : ErrorCode) (message : string) : Result A := Bad (status_of code message).

(** [Result::ok], [Result::status] and [Result::code]. *)
Definition result_ok {A} (r : Result A) : bool := match r with Good _ => true | Bad _ => false end.

Definition result_status {A} (r : Result A) : Status :=
  match r with Good _ => status_success | Bad s => s end.

Definition result_code {A} (r : Result A) : ErrorCode := st_code (result_status r).

(** [BF_TRY] and [BF_ASSIGN]: an error returns from the enclosing function. *)
Definition result_bind {A B} (r : Result A) (k : A -> Result B) : Result B :=
  match r with Good a => k a | Bad s => Bad s end.

Notation "'BF_TRY' r ; k" := (result_bind r (fun _ : unit => k))
  (at level 10, r at level 100, k at level 200) : fabric_scope.

(** A check of the form [if (c) return Status(code, message);]. *)
Definition reject_if (c : bool) (code : ErrorCode) (message : string) : Result unit :=
  if c then fail code message else Good tt.

(** [snprintf] into a buffer of [n] bytes keeps [n - 1] of them. *)
Definition snprintf (n : nat) (text : string) : string := truncate_to text (n - 1).

Definition framing_error {A} (code : ErrorCode) (what : string) (actual limit : Z) : Result A :=
  fail code (snprintf 256
    (what ++ " (actual=" ++ pretty actual ++ " limit=" ++ pretty limit ++ ")")%string).

(** ** State and error

    Computations on a mutable state that may return an error: an error keeps the effects
    made before it, as an early [return] does. *)
Definition StateR (T A : Type) := T -> Result A * T.

Definition sm_ret {T A} (a : A) : StateR T A := fun s => (Good a, s).
Definition sm_bind {T A B} (m : StateR T A) (k : A -> StateR T B) : StateR T B := fun s =>
  match m s with
  | (Good a, s') => k a s'
  | (Bad e, s') => (Bad e, s')
  end.
Definition sm_fail {T A} (code : ErrorCode) (message : string) : StateR T A :=
  fun s => (fail code message, s).
Definition sm_lift {T A} (r : Result A) : StateR T A := fun s => (r, s).
Definition sm_modify {T} (f : T -> T) : StateR T unit := fun s => (Good tt, f s).
Definition sm_get {T} : StateR T T := fun s => (Good s, s).

Notation "'let*' x := m 'in' k" := (sm_bind m (fun x => k))
  (at level 10, x pattern, m at level 100, k at level 200) : fabric_scope.
Notation "m ;;; k" := (sm_bind m (fun _ : unit => k))
  (at level 10, k at level 200, format "m ;;; '//' k") : fabric_scope.
Notation "'when' b 'do' m" := (if b then m else sm_ret tt)
  (at level 10, b at level 100, m at level 9) : fabric_scope.

(** Characters of a pool, queue or policy name. *)
Definition name_char (c : Ascii.ascii) : bool :=
  let z := Z.of_N (Ascii.N_of_ascii c) in
  ((97 <=? z) && (z <=? 122)) || ((65 <=? z) && (z <=? 90)) || ((48 <=? z) && (z <=? 57))
  || (z =? 95) || (z =? 45) || (z =? 46).

Fixpoint name_chars (s : string) : bool :=
  match s with
  | String.EmptyString => true
  | String.String c s' => name_char c && name_chars s'
  end.

Definition is_valid_name (name : string) : bool :=
  if String.eqb name "" || (kMaxNameBytes <? Z.of_nat (String.length name)) then false
  else name_chars name.

(** ** Lemmas *)

Lemma string_length_substring (s : string) (m : nat) :
  (m <= String.length s)%nat -> String.length (String.substring 0 m s) = m.
Proof.
  revert m. induction s as [|c s IH]; intros [|m]; simpl; try lia.
  intros Hm. by rewrite IH by lia.
Qed.

Lemma truncate_to_length (s : string) (m : nat) : (String.length (truncate_to s m) <= m)%nat.
Proof.
  unfold truncate_to. destruct (Nat.leb_spec (String.length s) m); [done|].
  by rewrite string_length_substring by lia.
Qed.

Lemma is_valid_name_bound (s : string) :
  is_valid_name s = true -> 1 <= Z.of_nat (String.length s) <= kMaxNameBytes.
Proof.
  unfold is_valid_name. destruct (String.eqb_spec s ""); simpl; [done|].
  destruct (Z.ltb_spec kMaxNameBytes (Z.of_nat (String.length s))); [done|].
  intros _. destruct s; [done|]. simpl in *. lia.
Qed.

Lemma result_ok_status {A} (r : Result A) : result_ok r = true -> result_code r = ErrorCode.Ok.
Proof. by destruct r. Qed.

Lemma reject_if_good (c : bool) (code : ErrorCode) (message : string) :
  reject_if c code message = Good tt <-> c = false.
Proof. unfold reject_if, fail. by destruct c. Qed.

Lemma result_bind_good {A B} (r : Result A) (k : A -> Result B) (b : B) :
  result_bind r k = Good b <-> exists a, r = Good a /\ k a = Good b.
Proof.
  destruct r as [a|s]; simpl; split.
  - intros Hk. by exists a.
  - by intros (a' & [= ->] & Hk).
  - done.
  - by intros (a' & Ha & _).
Qed.

(** A run that succeeds succeeds in each of its steps. *)
Lemma sm_bind_good {S A B} (m : StateR S A) (k : A -> StateR S B) s b s' :
  sm_bind m k s = (Good b, s') -> exists a s1, m s = (Good a, s1) /\ k a s1 = (Good b, s').
Proof. unfold sm_bind. destruct (m s) as [[a|e] s1]; [|done]. intros H. by exists a, s1. Qed.

(** ** Weakest preconditions *)

(** [m] run in [s] returns a value that satisfies [Q], or a status that satisfies [E]. *)
Definition wp {T A} (m : StateR T A) (s : T) (Q : A -> T -> Prop) (E : Status -> T -> Prop) : Prop :=
  match m s with
  | (Good a, s') => Q a s'
  | (Bad e, s') => E e s'
  end.

Section Rules.
Context {T : Type}.
Implicit Types s : T.

Lemma wp_bind {A B} (m : StateR T A) (k : A -> StateR T B) s Q E :
  wp m s (fun a s' => wp (k a) s' Q E) E -> wp (sm_bind m k) s Q E.
Proof. unfold wp, sm_bind. by destruct (m s) as [[a|e] s']. Qed.

Lemma wp_mono {A} (m : StateR T A) s (Q Q' : A -> T -> Prop) (E E' : Status -> T -> Prop) :
  wp m s Q E -> (forall a s', Q a s' -> Q' a s') -> (forall e s', E e s' -> E' e s') -> wp m s Q' E'.
Proof. unfold wp. destruct (m s) as [[a|e] s']; auto. Qed.

Lemma wp_ret {A} (a : A) s (Q : A -> T -> Prop) E : Q a s -> wp (sm_ret a) s Q E.
Proof. done. Qed.

Lemma wp_get s (Q : T -> T -> Prop) E : Q s s -> wp sm_get s Q E.
Proof. done. Qed.

Lemma wp_modify f s (Q : unit -> T -> Prop) E : Q tt (f s) -> wp (sm_modify f) s Q E.
Proof. done. Qed.

Lemma wp_fail {A} code message s (Q : A -> T -> Prop) (E : Status -> T -> Prop) :
  (forall e, st_code e = code -> E e s) -> wp (sm_fail code message) s Q E.
Proof. intros H. by apply H. Qed.

Lemma wp_when (b : bool) (m : StateR T unit) s (Q : unit -> T -> Prop) E :
  (b = true -> wp m s Q E) -> (b = false -> Q tt s) -> wp (when b do m) s Q E.
Proof. destruct b; [auto|]. intros _ H. by apply H. Qed.

Lemma wp_run {A} (m : StateR T A) s r s' (Q : A -> T -> Prop) E :
  wp m s Q E -> m s = (r, s') -> match r with Good a => Q a s' | Bad e => E e s' end.
Proof. unfold wp. intros H Hm. rewrite Hm in H. by destruct r. Qed.
End Rules.
