(* ===== verification/Codec.v ===== *)
(** * Canonical little-endian codec and record framing

    [include/buffer_fabric/codec.hpp] and [src/codec.cpp]. A [ByteWriter] is the bytes
    appended so far and the latched failure flag; a [ByteReader] is the span it reads,
    its offset and its failure flag. Getters are computations of the [Reader] monad:
    they return nothing when the C++ getter returns [false], and thread the reader's
    state either way. *)

From S2P Require Import Prelude Ints Hash Enums Status.

(** ** Strings as byte sequences *)

Fixpoint string_bytes (s : string) : list Z :=
  match s with
  | String.EmptyString => []
  | String.String c s' => Z.of_N (Ascii.N_of_ascii c) :: string_bytes s'
  end.

Fixpoint bytes_string (l : list Z) : string :=
  match l with
  | [] => ""
  | b :: l' => String.String (Ascii.ascii_of_N (Z.to_N b)) (bytes_string l')
  end.

(** ** Writer *)

Record ByteWriter := mkWriter { wr_buffer : list Z; wr_failed : bool }.

#[export] Instance settable_ByteWriter : Settable ByteWriter := fun w => mkWriter (wr_buffer w) (wr_failed w).

Definition kMaxEncodedStringBytes : Z := 4096.
Definition kFrameHeaderBytes : Z := 16.

Definition Put := ByteWriter -> ByteWriter.

(** Successive appends. *)
Definition seq_put (p q : Put) : Put := fun w => q (p w).
Notation "p >+> q" := (seq_put p q)
  (at level 55, right associativity) : fabric_scope.

Definition writer_empty : ByteWriter := mkWriter [] false.

(** Append one byte, then the little-endian integers. *)
Definition push_back (b : Z) : Put := fun w => w <| wr_buffer ::= fun l => l ++ [b] |>.

Definition put_u8 (v : Z) : Put := push_back v.

Definition put_bool (v : bool) : Put := push_back (if v then 1 else 0).

Definition put_u16 (v : Z) : Put := fun w =>
  push_back (Z.land (Z.shiftr v 8) 0xFF) (push_back (Z.land v 0xFF) w).

Definition put_u32 (v : Z) : Put := fun w =>
  fold_left (fun w i => push_back (Z.land (Z.shiftr v (8 * i)) 0xFF) w) (seqZ 0 4) w.

Definition put_u64 (v : Z) : Put := fun w =>
  fold_left (fun w i => push_back (Z.land (Z.shiftr v (8 * i)) 0xFF) w) (seqZ 0 8) w.

Definition put_bytes (data : list Z) : Put := fun w => w <| wr_buffer ::= fun l => l ++ data |>.

Definition put_digest (d : Digest) : Put := put_u64 (dg_hi d) >+> put_u64 (dg_lo d).

Definition put_id (id : Z) : Put := put_u64 id.

Definition put_blob (data : list Z) : Put := fun w =>
  if wr_failed w then w
  else if 0xFFFFFFFF <? Z.of_nat (length data) then w <| wr_failed := true |>
  else put_bytes data (put_u32 (Z.of_nat (length data)) w).

Definition put_str (text : string) (max_bytes : Z) : Put := fun w =>
  if wr_failed w then w
  else
    let max_bytes := if kMaxEncodedStringBytes <? max_bytes then kMaxEncodedStringBytes else max_bytes in
    if max_bytes <? Z.of_nat (String.length text) then w <| wr_failed := true |>
    else put_bytes (string_bytes text) (put_u32 (Z.of_nat (String.length text)) w).

(** ** Reader *)

Record ByteReader := mkReader { rd_data : list Z; rd_offset : nat; rd_failed : bool }.

#[export] Instance settable_ByteReader : Settable ByteReader :=
  fun r => mkReader (rd_data r) (rd_offset r) (rd_failed r).

Definition Reader (A : Type) := ByteReader -> option A * ByteReader.

#[export] Instance reader_ret : MRet Reader := fun A a r => (Some a, r).
#[export] Instance reader_bind : MBind Reader := fun A B k g r =>
  match g r with
  | (Some a, r') => k a r'
  | (None, r') => (None, r')
  end.

Definition reader_of (data : list Z) : ByteReader := mkReader data 0 false.

Definition rd_size (r : ByteReader) : Z := Z.of_nat (length (rd_data r)).

(** A decoder that returns [false] without touching the reader. *)
Definition reject {A} : Reader A := fun r => (None, r).

Definition remaining (r : ByteReader) : Z :=
  if rd_failed r then 0 else rd_size r - Z.of_nat (rd_offset r).

Definition reader_empty (r : ByteReader) : bool :=
  negb (rd_failed r) && (Z.of_nat (rd_offset r) =? rd_size r).

Definition reader_fail {A} : Reader A := fun r => (None, r <| rd_failed := true |>).

Definition require (count : Z) : Reader unit := fun r =>
  if rd_failed r then (None, r)
  else if rd_size r - Z.of_nat (rd_offset r) <? count then reader_fail r
  else (Some tt, r).

(** The next [count] bytes, advancing the offset: the body of every getter. *)
Definition take_bytes (count : nat) : Reader (list Z) := fun r =>
  (Some (take count (drop (rd_offset r) (rd_data r))), r <| rd_offset ::= fun o => (o + count)%nat |>).

(** Little-endian accumulation [v |= byte << (8 * i)]. *)
Fixpoint le_value (l : list Z) : Z :=
  match l with
  | [] => 0
  | b :: l' => Z.lor b (Z.shiftl (le_value l') 8)
  end.

Definition get_u8 : Reader Z :=
  require 1 ≫= fun _ => take_bytes 1 ≫= fun l => mret (le_value l).

Definition get_bool : Reader bool :=
  get_u8 ≫= fun v => if 1 <? v then reader_fail else mret (negb (v =? 0)).

Definition get_u16 : Reader Z :=
  require 2 ≫= fun _ => take_bytes 2 ≫= fun l => mret (le_value l).

Definition get_u32 : Reader Z :=
  require 4 ≫= fun _ => take_bytes 4 ≫= fun l => mret (le_value l).

Definition get_u64 : Reader Z :=
  require 8 ≫= fun _ => take_bytes 8 ≫= fun l => mret (le_value l).

Definition get_bytes (count : Z) : Reader (list Z) :=
  require count ≫= fun _ => take_bytes (Z.to_nat count).

Definition get_digest : Reader Digest :=
  get_u64 ≫= fun hi => get_u64 ≫= fun lo => mret (mkDigest hi lo).

Definition get_id : Reader Z := get_u64.

Definition get_blob (max_bytes : Z) : Reader (list Z) :=
  get_u32 ≫= fun length =>
  if max_bytes <? length then reader_fail else get_bytes length.

Definition get_str (max_bytes : Z) : Reader string :=
  get_u32 ≫= fun length =>
  let max_bytes := if kMaxEncodedStringBytes <? max_bytes then kMaxEncodedStringBytes else max_bytes in
  if max_bytes <? length then reader_fail
  else get_bytes length ≫= fun l => mret (bytes_string l).

(** An enumerator stored in one byte: a code above the largest one is rejected by the
    decoder, without failing the reader. *)
Definition put_enum {E} `{Enum E} (e : E) : Put := put_u8 (enum_code e).

Definition check_enum (E : Type) `{Enum E} (v : Z) : Reader E :=
  match enum_cast v with Some e => mret e | None => reject end.

Definition get_enum (E : Type) `{Enum E} : Reader E := get_u8 ≫= check_enum E.

(** ** Framing *)

Definition encode_frame (payload : list Z) (magic version : Z) : list Z :=
  let header := put_u32 (crc32c payload 0) (put_u32 (wrap32 (Z.of_nat (length payload)))
                  (put_u32 version (put_u32 magic writer_empty))) in
  wr_buffer header ++ payload.

Definition encode_frame_into (payload : list Z) (magic version : Z) (w : ByteWriter) :
    Result unit * ByteWriter :=
  let size := Z.of_nat (length payload) in
  if 0xFFFFFFFF <? size then
    (framing_error ErrorCode.OversizedMessage "frame payload too large" size 0xFFFFFFFF, w)
  else
    let w := put_bytes payload (put_u32 (crc32c payload 0)
               (put_u32 (wrap32 size) (put_u32 version (put_u32 magic w)))) in
    if wr_failed w then (fail ErrorCode.OversizedMessage "frame encoding failed", w)
    else (Good tt, w).

Definition get_frame_header : Reader (Z * Z * Z * Z) :=
  get_u32 ≫= fun magic => get_u32 ≫= fun version =>
  get_u32 ≫= fun payload_bytes => get_u32 ≫= fun crc => mret (magic, version, payload_bytes, crc).

(** The payload and the number of bytes consumed. *)
Definition decode_frame (data : list Z) (magic version max_payload : Z) : Result (list Z * Z) :=
  let size := Z.of_nat (length data) in
  if size <? kFrameHeaderBytes then
    framing_error ErrorCode.TruncatedMessage "frame header truncated" size kFrameHeaderBytes
  else match fst (get_frame_header (reader_of (take (Z.to_nat kFrameHeaderBytes) data))) with
  | None => fail ErrorCode.CorruptRecord "frame header is not decodable"
  | Some (got_magic, got_version, payload_bytes, expected_crc) =>
    if negb (got_magic =? magic) then
      framing_error ErrorCode.CorruptRecord "frame magic mismatch" got_magic magic
    else if negb (got_version =? version) then
      framing_error ErrorCode.VersionMismatch "frame version mismatch" got_version version
    else if max_payload <? payload_bytes then
      framing_error ErrorCode.OversizedMessage "frame payload exceeds bound" payload_bytes max_payload
    else if size - kFrameHeaderBytes <? payload_bytes then
      framing_error ErrorCode.TruncatedMessage "frame payload truncated" (size - kFrameHeaderBytes) payload_bytes
    else
      let payload := take (Z.to_nat payload_bytes) (drop (Z.to_nat kFrameHeaderBytes) data) in
      let actual_crc := crc32c payload 0 in
      if negb (actual_crc =? expected_crc) then
        framing_error ErrorCode.IntegrityFailure "frame checksum mismatch" actual_crc expected_crc
      else Good (payload, kFrameHeaderBytes + payload_bytes)
  end.

(** ** Round trips

    [appends p bs]: [p] appends exactly [bs] to a writer that has not failed.
    [reads g bs a]: [g] consumes exactly [bs] wherever they stand and returns [a].
    A type's encoder and decoder agree on [a] when [roundtrips p g a]. *)

Definition appends (p : Put) (bs : list Z) : Prop :=
  forall w, wr_failed w = false -> p w = mkWriter (wr_buffer w ++ bs) false.

Definition reads {A} (g : Reader A) (bs : list Z) (a : A) : Prop :=
  forall pre rest,
    g (mkReader (pre ++ bs ++ rest) (length pre) false) =
    (Some a, mkReader (pre ++ bs ++ rest) (length pre + length bs) false).

Definition roundtrips {A} (p : Put) (g : Reader A) (a : A) : Prop :=
  exists bs, is_bytes bs /\ appends p bs /\ reads g bs a.

Create HintDb wire.

(** Bytes of a little-endian integer. *)
Definition le_bytes (n : nat) (v : Z) : list Z :=
  map (fun i => Z.land (Z.shiftr v (8 * i)) 0xFF) (seqZ 0 (Z.of_nat n)).

Lemma byte_of_mod (v i : Z) : 0 <= i -> Z.land (Z.shiftr v (8 * i)) 0xFF = v / 2 ^ (8 * i) mod 2 ^ 8.
Proof.
  intros Hi. change 0xFF with (2 ^ 8 - 1). by rewrite land_ones_mod, shiftr_div by lia.
Qed.

Lemma le_bytes_is_bytes n v : is_bytes (le_bytes n v).
Proof.
  apply Forall_map, Forall_forall. intros i Hi%elem_of_seqZ. unfold compose.
  rewrite byte_of_mod by lia. pose proof (Z.mod_pos_bound (v / 2 ^ (8 * i)) (2 ^ 8)).
  unfold is_byte. lia.
Qed.

Lemma le_bytes_length n v : length (le_bytes n v) = n.
Proof. unfold le_bytes. by rewrite length_map, length_seqZ, Nat2Z.id. Qed.

Lemma le_bytes_S n v : le_bytes (S n) v = v mod 2 ^ 8 :: le_bytes n (v / 2 ^ 8).
Proof.
  unfold le_bytes. rewrite seqZ_cons by lia. simpl map. f_equal.
  { rewrite byte_of_mod by lia. by rewrite Z.div_1_r. }
  replace (Z.pred (Z.of_nat (S n))) with (Z.of_nat n) by lia.
  rewrite <- (Z.add_0_r (Z.succ 0)), <- fmap_add_seqZ. rewrite <- list_fmap_compose.
  apply list_fmap_ext. intros k x Hx. unfold compose. f_equal.
  apply lookup_seqZ in Hx as [-> _].
  replace (8 * (Z.succ 0 + (0 + Z.of_nat k))) with (8 + 8 * (0 + Z.of_nat k)) by lia.
  rewrite <- Z.shiftr_shiftr by lia. f_equal. by apply shiftr_div.
Qed.

Lemma le_value_le_bytes n v : le_value (le_bytes n v) = v mod 2 ^ (8 * Z.of_nat n).
Proof.
  revert v. induction n as [|n IH]; intros v; [by rewrite Z.mod_1_r|].
  rewrite le_bytes_S. simpl. rewrite IH.
  pose proof (Z.mod_pos_bound v (2 ^ 8) eq_refl).
  rewrite lor_shiftl_add by lia.
  replace (8 * Z.of_nat (S n)) with (8 + 8 * Z.of_nat n) by lia.
  rewrite Z.pow_add_r, Z.rem_mul_r by lia. lia.
Qed.

Lemma le_value_bound l : is_bytes l -> 0 <= le_value l < 2 ^ (8 * Z.of_nat (length l)).
Proof.
  induction 1 as [|b l Hb _ IH]; simpl; [done|].
  rewrite lor_shiftl_add by (unfold is_byte in Hb; lia).
  replace (8 * Z.of_nat (S (length l))) with (8 + 8 * Z.of_nat (length l)) by lia.
  rewrite Z.pow_add_r by lia. unfold is_byte in Hb. lia.
Qed.

Lemma appends_push b : appends (push_back b) [b].
Proof. intros [l f] Hf. simpl in Hf. by subst. Qed.

Lemma appends_comp p q bs cs :
  appends p bs -> appends q cs -> appends (fun w => q (p w)) (bs ++ cs).
Proof. intros Hp Hq w Hw. rewrite (Hp w Hw), Hq by done. simpl. by rewrite app_assoc. Qed.

Lemma appends_le (v : Z) (l : list Z) :
  appends (fun w => fold_left (fun w i => push_back (Z.land (Z.shiftr v (8 * i)) 0xFF) w) l w)
    (map (fun i => Z.land (Z.shiftr v (8 * i)) 0xFF) l).
Proof.
  induction l as [|i l IH]; simpl.
  - intros [b f] Hf. simpl in *. subst. by rewrite app_nil_r.
  - intros w Hw. rewrite (appends_push _ w Hw), IH by done. simpl. by rewrite <- app_assoc.
Qed.

Lemma reads_ret {A} (a : A) : reads (mret a) [] a.
Proof. intros pre rest. unfold mret, reader_ret. simpl. by rewrite Nat.add_0_r. Qed.

Lemma reads_bind {A B} (g : Reader A) (k : A -> Reader B) bs cs a b :
  reads g bs a -> reads (k a) cs b -> reads (g ≫= k) (bs ++ cs) b.
Proof.
  intros Hg Hk pre rest. unfold mbind, reader_bind.
  rewrite <- app_assoc, (Hg pre (cs ++ rest)).
  specialize (Hk (pre ++ bs) rest). rewrite <- app_assoc, length_app in Hk. rewrite Hk.
  by rewrite length_app, Nat.add_assoc.
Qed.

Lemma reads_bytes bs :
  reads (require (Z.of_nat (length bs)) ≫= fun _ => take_bytes (length bs)) bs bs.
Proof.
  intros pre rest. unfold mbind, reader_bind, require, rd_size, take_bytes. simpl.
  destruct (Z.ltb_spec (Z.of_nat (length (pre ++ bs ++ rest)) - Z.of_nat (length pre))
    (Z.of_nat (length bs))) as [H|H].
  { rewrite !length_app in H. lia. }
  simpl. by rewrite drop_app_length, take_app_length.
Qed.

Lemma reads_le n v :
  0 <= v < 2 ^ (8 * Z.of_nat n) ->
  reads (require (Z.of_nat n) ≫= fun _ => take_bytes n ≫= fun l => mret (le_value l)) (le_bytes n v) v.
Proof.
  intros Hv pre rest.
  pose proof (reads_bytes (le_bytes n v) pre rest) as Hb. rewrite le_bytes_length in Hb.
  unfold mbind, reader_bind in *. destruct (require _ _) as [[u|] r]; [|done].
  rewrite Hb. unfold mret, reader_ret. rewrite le_value_le_bytes, Z.mod_small by lia.
  by rewrite le_bytes_length.
Qed.

Lemma roundtrips_ret {A} (a : A) : roundtrips (fun w => w) (mret a) a.
Proof.
  exists []. split; [constructor|]. split; [|apply reads_ret].
  intros [l f] Hf. simpl in *. subst. by rewrite app_nil_r.
Qed.

Lemma roundtrips_bind {A B} (p q : Put) (g : Reader A) (k : A -> Reader B) a b :
  roundtrips p g a -> roundtrips q (k a) b -> roundtrips (p >+> q) (g ≫= k) b.
Proof.
  intros (bs & Hbs & Hp & Hg) (cs & Hcs & Hq & Hk). exists (bs ++ cs).
  split; [by apply Forall_app|]. split; [exact (appends_comp p q bs cs Hp Hq)|by eapply reads_bind].
Qed.

Lemma roundtrips_last {A B} (p : Put) (g : Reader A) (k : A -> Reader B) a b :
  roundtrips p g a -> k a = mret b -> roundtrips p (g ≫= k) b.
Proof.
  intros H Hk. apply (roundtrips_bind p (fun w => w) g k a); [done|].
  rewrite Hk. apply roundtrips_ret.
Qed.

Lemma roundtrips_check {E B} `{Enum E} (p : Put) (e : E) (k : E -> Reader B) b :
  roundtrips p (k e) b -> roundtrips p (check_enum E (enum_code e) ≫= k) b.
Proof. intros (bs & ? & ? & Hk). exists bs. unfold check_enum. by rewrite enum_cast_code. Qed.

(** A decoder that ends with the last field returns it through [mret]. *)
Lemma roundtrips_map {A B} (p : Put) (g : Reader A) (f : A -> B) a :
  roundtrips p g a -> roundtrips p (g ≫= fun x => mret (f x)) (f a).
Proof.
  intros H. apply (roundtrips_bind p (fun w => w) g _ a); [done|apply roundtrips_ret].
Qed.

Lemma roundtrips_u8 v : is_u8 v -> roundtrips (put_u8 v) get_u8 v.
Proof.
  intros Hv. exists (le_bytes 1 v). split; [apply le_bytes_is_bytes|].
  split; [|apply (reads_le 1); u64_lia].
  assert (le_bytes 1 v = [v]) as ->; [|apply appends_push].
  rewrite le_bytes_S, Z.mod_small by u64_lia. done.
Qed.

Lemma roundtrips_bool b : roundtrips (put_bool b) get_bool b.
Proof.
  exists [if b then 1 else 0]. split; [repeat constructor; destruct b; done|].
  split; [apply appends_push|]. unfold get_bool.
  rewrite <- (app_nil_r [_]). eapply reads_bind.
  - assert ([if b then 1 else 0] = le_bytes 1 (if b then 1 else 0)) as -> by by destruct b.
    apply (reads_le 1). by destruct b.
  - destruct b; apply reads_ret.
Qed.

Lemma roundtrips_u16 v : is_u16 v -> roundtrips (put_u16 v) get_u16 v.
Proof.
  intros Hv. exists (le_bytes 2 v). split; [apply le_bytes_is_bytes|].
  split; [|apply (reads_le 2); u64_lia]. exact (appends_le v (seqZ 0 2)).
Qed.

Lemma roundtrips_u32 v : is_u32 v -> roundtrips (put_u32 v) get_u32 v.
Proof.
  intros Hv. exists (le_bytes 4 v). split; [apply le_bytes_is_bytes|].
  split; [|apply (reads_le 4); u64_lia]. exact (appends_le v (seqZ 0 4)).
Qed.

Lemma roundtrips_u64 v : is_u64 v -> roundtrips (put_u64 v) get_u64 v.
Proof.
  intros Hv. exists (le_bytes 8 v). split; [apply le_bytes_is_bytes|].
  split; [|apply (reads_le 8); u64_lia]. exact (appends_le v (seqZ 0 8)).
Qed.

Lemma roundtrips_id v : is_u64 v -> roundtrips (put_id v) get_id v.
Proof. apply roundtrips_u64. Qed.

Lemma roundtrips_digest d : digest_wf d -> roundtrips (put_digest d) get_digest d.
Proof.
  intros [Hhi Hlo]. destruct d as [hi lo]. unfold put_digest, get_digest.
  eapply roundtrips_bind; [by apply roundtrips_u64|]. simpl.
  apply (roundtrips_map (put_u64 lo) get_u64 (mkDigest hi)). by apply roundtrips_u64.
Qed.

(** Strings are byte sequences. *)
Lemma bytes_string_bytes s : bytes_string (string_bytes s) = s.
Proof.
  induction s as [|c s IH]; simpl; [done|].
  by rewrite IH, N2Z.id, Ascii.ascii_N_embedding.
Qed.

Lemma string_bytes_length s : length (string_bytes s) = String.length s.
Proof. induction s; simpl; congruence. Qed.

Lemma string_bytes_is_bytes s : is_bytes (string_bytes s).
Proof.
  induction s as [|c s IH]; simpl; constructor; [|done].
  pose proof (Ascii.N_ascii_bounded c). unfold is_byte. lia.
Qed.

Lemma string_bytes_bytes l : is_bytes l -> string_bytes (bytes_string l) = l.
Proof.
  induction 1 as [|b l Hb _ IH]; simpl; [done|]. unfold is_byte in Hb.
  rewrite IH, Ascii.N_ascii_embedding, Z2N.id by lia. done.
Qed.

Definition str_fits (max_bytes : Z) (s : string) : Prop :=
  Z.of_nat (String.length s) <= Z.min max_bytes kMaxEncodedStringBytes.

(** A length-prefixed block whose length passes the reader's bound. *)
Lemma roundtrips_block {A} (data : list Z) (p : Put) (g : Reader A) (bound : Z) (f : list Z -> A) :
  is_bytes data -> Z.of_nat (length data) <= u32_max -> Z.of_nat (length data) <= bound ->
  (forall w, wr_failed w = false -> p w = put_bytes data (put_u32 (Z.of_nat (length data)) w)) ->
  (forall r, g r = (get_u32 ≫= fun n =>
     if bound <? n then reader_fail else get_bytes n ≫= fun l => mret (f l)) r) ->
  roundtrips p g (f data).
Proof.
  intros Hd Hlen Hbound Hp Hg.
  destruct (roundtrips_u32 (Z.of_nat (length data))) as (bs & Hbs & Happ & Hrd); [u64_lia|].
  exists (bs ++ data). split; [by apply Forall_app|]. split.
  - intros w Hw. rewrite Hp, Happ by done. unfold put_bytes. simpl. by rewrite app_assoc.
  - intros pre rest. rewrite Hg. revert pre rest. eapply reads_bind; [exact Hrd|].
    destruct (Z.ltb_spec bound (Z.of_nat (length data))); [lia|].
    rewrite <- (app_nil_r data) at 2. eapply reads_bind; [|apply reads_ret].
    unfold get_bytes. rewrite Nat2Z.id. apply reads_bytes.
Qed.

Lemma roundtrips_str max s : str_fits max s -> roundtrips (put_str s max) (get_str max) s.
Proof.
  unfold str_fits, kMaxEncodedStringBytes. intros Hs.
  set (bound := if kMaxEncodedStringBytes <? max then kMaxEncodedStringBytes else max).
  assert (Z.of_nat (String.length s) <= bound /\ Z.of_nat (String.length s) <= 4096) as [Hb ?].
  { subst bound. unfold kMaxEncodedStringBytes. destruct (Z.ltb_spec 4096 max); lia. }
  rewrite <- (bytes_string_bytes s) at 2.
  apply (roundtrips_block (string_bytes s) _ _ bound bytes_string);
    rewrite ?string_bytes_length; [apply string_bytes_is_bytes|u64_lia|done| |done].
  intros w Hw. unfold put_str. rewrite Hw. fold bound.
  by destruct (Z.ltb_spec bound (Z.of_nat (String.length s))); [lia|].
Qed.

Lemma roundtrips_blob max data :
  is_bytes data -> Z.of_nat (length data) <= u32_max -> Z.of_nat (length data) <= max ->
  roundtrips (put_blob data) (get_blob max) data.
Proof.
  intros Hd Hl Hm. apply (roundtrips_block data _ _ max (fun l => l)); try done.
  - intros w Hw. unfold put_blob. rewrite Hw.
    destruct (Z.ltb_spec 0xFFFFFFFF (Z.of_nat (length data))); [u64_lia|done].
  - intros r. unfold get_blob, mbind, reader_bind. destruct (get_u32 r) as [[n|] r']; [|done].
    destruct (max <? n); [done|]. by destruct (get_bytes n r') as [[]].
Qed.

Lemma roundtrips_enum {E} `{Enum E} (e : E) : roundtrips (put_enum e) (get_enum E) e.
Proof.
  destruct (roundtrips_u8 (enum_code e) (enum_code_u8 e)) as (bs & Hbs & Hp & Hg).
  exists bs. split; [done|]. split; [done|]. unfold get_enum, check_enum.
  rewrite <- (app_nil_r bs). eapply reads_bind; [exact Hg|].
  rewrite enum_cast_code. apply reads_ret.
Qed.

#[export] Hint Resolve enum_code_u8 : wire.
#[export] Hint Resolve roundtrips_u8 roundtrips_bool roundtrips_u16 roundtrips_u32 roundtrips_u64
  roundtrips_id roundtrips_digest roundtrips_str roundtrips_enum : wire.

(** ** Frames *)

Section Frame.
Context (magic version : Z).
Hypotheses (Hmagic : is_u32 magic) (Hversion : is_u32 version).

Definition frame_header (payload : list Z) : list Z :=
  le_bytes 4 magic ++ le_bytes 4 version ++ le_bytes 4 (wrap32 (Z.of_nat (length payload)))
    ++ le_bytes 4 (crc32c payload 0).

Lemma put_u32_le v w : wr_failed w = false -> put_u32 v w = mkWriter (wr_buffer w ++ le_bytes 4 v) false.
Proof. apply (appends_le v (seqZ 0 4)). Qed.

Lemma encode_frame_eq payload : encode_frame payload magic version = frame_header payload ++ payload.
Proof.
  unfold encode_frame. rewrite !put_u32_le by done. cbn [wr_buffer writer_empty].
  unfold frame_header. by rewrite <- !app_assoc.
Qed.

Lemma frame_header_length payload : length (frame_header payload) = 16%nat.
Proof. unfold frame_header. by rewrite !length_app, !le_bytes_length. Qed.

Lemma le_bytes_le_value l : is_bytes l -> le_bytes (length l) (le_value l) = l.
Proof.
  induction 1 as [|b l Hb Hl IH]; [done|]. simpl length. rewrite le_bytes_S. simpl.
  unfold is_byte in Hb. rewrite lor_shiftl_add by lia.
  rewrite Z.mod_add, Z.mod_small by lia. f_equal.
  rewrite Z.div_add, Z.div_small by lia. done.
Qed.

(** The four header words of any sixteen bytes. *)
Lemma get_frame_header_words a b c d :
  is_u32 a -> is_u32 b -> is_u32 c -> is_u32 d ->
  fst (get_frame_header (reader_of (le_bytes 4 a ++ le_bytes 4 b ++ le_bytes 4 c ++ le_bytes 4 d))) =
  Some (a, b, c, d).
Proof.
  intros Ha Hb Hc Hd.
  assert (reads get_frame_header (le_bytes 4 a ++ le_bytes 4 b ++ le_bytes 4 c ++ le_bytes 4 d ++ [])
            (a, b, c, d)) as Hr.
  { unfold get_frame_header.
    repeat (eapply reads_bind; [apply (reads_le 4); u64_lia|]). apply reads_ret. }
  specialize (Hr [] []). rewrite !app_nil_r, app_nil_l in Hr.
  change (length (@nil Z)) with 0%nat in Hr. unfold reader_of. by rewrite Hr.
Qed.

Lemma split_words (l : list Z) :
  is_bytes l -> length l = 16%nat ->
  exists a b c d, is_u32 a /\ is_u32 b /\ is_u32 c /\ is_u32 d /\
    l = le_bytes 4 a ++ le_bytes 4 b ++ le_bytes 4 c ++ le_bytes 4 d.
Proof.
  intros Hl Hn.
  assert (forall k, length k = 4%nat -> is_bytes k -> is_u32 (le_value k) /\ k = le_bytes 4 (le_value k)) as Hw.
  { intros k Hk Hb. pose proof (le_value_bound k Hb) as Hv. rewrite Hk in Hv. split; [u64_lia|].
    rewrite <- Hk. symmetry. by apply le_bytes_le_value. }
  exists (le_value (take 4 l)), (le_value (take 4 (drop 4 l))), (le_value (take 4 (drop 8 l))),
    (le_value (take 4 (drop 12 l))).
  destruct (Hw (take 4 l)) as [? <-]; [rewrite length_take; lia|by apply Forall_take|].
  destruct (Hw (take 4 (drop 4 l))) as [? <-];
    [rewrite length_take, length_drop; lia|by apply Forall_take, Forall_drop|].
  destruct (Hw (take 4 (drop 8 l))) as [? <-];
    [rewrite length_take, length_drop; lia|by apply Forall_take, Forall_drop|].
  destruct (Hw (take 4 (drop 12 l))) as [? <-];
    [rewrite length_take, length_drop; lia|by apply Forall_take, Forall_drop|].
  repeat split; try (u64_unfold; lia).
  do 16 (destruct l as [|? l]; [done|]). by destruct l.
Qed.

Lemma decode_frame_words a b c d rest max_payload :
  is_u32 a -> is_u32 b -> is_u32 c -> is_u32 d ->
  decode_frame ((le_bytes 4 a ++ le_bytes 4 b ++ le_bytes 4 c ++ le_bytes 4 d) ++ rest) magic version max_payload =
  if negb (a =? magic) then framing_error ErrorCode.CorruptRecord "frame magic mismatch" a magic
  else if negb (b =? version) then framing_error ErrorCode.VersionMismatch "frame version mismatch" b version
  else if max_payload <? c then framing_error ErrorCode.OversizedMessage "frame payload exceeds bound" c max_payload
  else if Z.of_nat (length rest) <? c then
    framing_error ErrorCode.TruncatedMessage "frame payload truncated" (Z.of_nat (length rest)) c
  else if negb (crc32c (take (Z.to_nat c) rest) 0 =? d) then
    framing_error ErrorCode.IntegrityFailure "frame checksum mismatch" (crc32c (take (Z.to_nat c) rest) 0) d
  else Good (take (Z.to_nat c) rest, 16 + c).
Proof.
  intros Ha Hb Hc Hd. set (h := le_bytes 4 a ++ _).
  assert (length h = 16%nat) as Hh by (unfold h; by rewrite !length_app, !le_bytes_length).
  unfold decode_frame. rewrite length_app, Hh. unfold kFrameHeaderBytes.
  replace (Z.of_nat (16 + length rest) <? 16) with false by (symmetry; apply Z.ltb_ge; lia).
  rewrite take_app_le by (rewrite Hh; lia). rewrite take_ge by (rewrite Hh; lia).
  unfold h at 1. rewrite get_frame_header_words by done.
  rewrite drop_app_ge by (rewrite Hh; lia). rewrite Hh, drop_0.
  replace (Z.of_nat (16 + length rest) - 16) with (Z.of_nat (length rest)) by lia. done.
Qed.

Lemma decode_encode_frame payload rest max_payload :
  is_bytes payload -> Z.of_nat (length payload) <= max_payload -> max_payload <= u32_max ->
  decode_frame (encode_frame payload magic version ++ rest) magic version max_payload =
  Good (payload, 16 + Z.of_nat (length payload)).
Proof.
  intros Hp Hl Hm. rewrite encode_frame_eq, <- app_assoc. unfold frame_header.
  assert (wrap32 (Z.of_nat (length payload)) = Z.of_nat (length payload)) as ->
    by (unfold wrap32; apply Z.mod_small; u64_lia).
  rewrite decode_frame_words by (done || u64_lia || by apply crc32c_range).
  rewrite !Z.eqb_refl, length_app, Nat2Z.id, take_app_length, Z.eqb_refl. simpl.
  destruct (Z.ltb_spec max_payload (Z.of_nat (length payload))); [lia|].
  destruct (Z.ltb_spec (Z.of_nat (length payload + length rest)) (Z.of_nat (length payload))); [lia|done].
Qed.

Lemma decode_frame_sound data payload n max_payload :
  is_bytes data -> max_payload <= u32_max ->
  decode_frame data magic version max_payload = Good (payload, n) ->
  Z.of_nat (length payload) <= max_payload /\ n = Z.of_nat (length (encode_frame payload magic version)) /\
  exists rest, data = encode_frame payload magic version ++ rest.
Proof.
  intros Hd Hm Hdec.
  assert (~ Z.of_nat (length data) < 16) as Hlen.
  { intros Hlt. unfold decode_frame, kFrameHeaderBytes in Hdec.
    destruct (Z.ltb_spec (Z.of_nat (length data)) 16); [done|lia]. }
  rewrite <- (take_drop 16 data) in Hd, Hdec |- *. apply Forall_app in Hd as [Hd1 Hd2].
  destruct (split_words (take 16 data)) as (a & b & c & d & Ha & Hb & Hc & Hdd & Hw);
    [done|rewrite length_take; lia|].
  rewrite Hw in Hdec |- *. set (rest := drop 16 data) in *.
  rewrite decode_frame_words in Hdec by done.
  destruct (Z.eqb_spec a magic) as [->|]; [|done]. simpl in Hdec.
  destruct (Z.eqb_spec b version) as [->|]; [|done]. simpl in Hdec.
  destruct (Z.ltb_spec max_payload c); [done|].
  destruct (Z.ltb_spec (Z.of_nat (length rest)) c); [done|].
  destruct (Z.eqb_spec (crc32c (take (Z.to_nat c) rest) 0) d) as [Hcrc|]; [|done].
  simpl in Hdec. injection Hdec as <- <-. clear Hw. subst d.
  assert (Z.of_nat (length (take (Z.to_nat c) rest)) = c) as Hcl by (rewrite length_take; u64_lia).
  rewrite Hcl. split; [done|]. rewrite encode_frame_eq, length_app, frame_header_length.
  split; [lia|]. exists (drop (Z.to_nat c) rest).
  unfold frame_header. rewrite Hcl.
  assert (wrap32 c = c) as -> by (unfold wrap32; apply Z.mod_small; u64_lia).
  by rewrite <- !app_assoc, take_drop.
Qed.

Lemma decode_frame_torn payload n max_payload :
  is_bytes payload -> Z.of_nat (length payload) <= max_payload -> max_payload <= u32_max ->
  (n < length (encode_frame payload magic version))%nat ->
  result_code (decode_frame (take n (encode_frame payload magic version)) magic version max_payload) =
  ErrorCode.TruncatedMessage.
Proof.
  intros Hp Hl Hm Hn. rewrite encode_frame_eq in *.
  rewrite length_app, frame_header_length in Hn.
  destruct (decide (n < 16)%nat) as [Hs|Hs].
  { unfold decode_frame, kFrameHeaderBytes. rewrite length_take, length_app, frame_header_length.
    destruct (Z.ltb_spec (Z.of_nat (n `min` (16 + length payload))) 16); [done|lia]. }
  rewrite take_app_ge by (rewrite frame_header_length; lia). rewrite frame_header_length.
  unfold frame_header.
  assert (wrap32 (Z.of_nat (length payload)) = Z.of_nat (length payload)) as ->
    by (unfold wrap32; apply Z.mod_small; u64_lia).
  rewrite decode_frame_words by (done || u64_lia || by apply crc32c_range).
  rewrite !Z.eqb_refl. simpl.
  destruct (Z.ltb_spec max_payload (Z.of_nat (length payload))); [lia|].
  rewrite length_take. destruct (Z.ltb_spec (Z.of_nat ((n - 16) `min` length payload)) (Z.of_nat (length payload)));
    [done|lia].
Qed.
End Frame.

(** ** Properties *)

(** Framing is exact: [decode_frame] accepts a byte string precisely when it starts
    with the canonical encoding of a payload within the bound; it then returns that
    payload and the length of that encoding. Nothing else is ever accepted. *)
Theorem decode_frame_exact (magic version max_payload : Z) (data payload : list Z) (n : Z) :
  is_u32 magic -> is_u32 version -> max_payload <= u32_max -> is_bytes data ->
  decode_frame data magic version max_payload = Good (payload, n) <->
  Z.of_nat (length payload) <= max_payload /\
  n = Z.of_nat (length (encode_frame payload magic version)) /\
  exists rest, data = encode_frame payload magic version ++ rest.
Proof.
  intros Hma Hv Hm Hd. split; [by apply decode_frame_sound|].
  intros (Hl & -> & rest & ->). rewrite decode_encode_frame; try done.
  - rewrite encode_frame_eq, length_app, frame_header_length. do 2 f_equal. lia.
  - rewrite encode_frame_eq in Hd. apply Forall_app in Hd as [Hd _]. by apply Forall_app in Hd as [_ Hd].
Qed.

Lemma decode_frame_exact_witness :
  decode_frame (encode_frame [7; 8; 9] 0x42464A31 1 ++ [1; 2]) 0x42464A31 1 100 = Good ([7; 8; 9], 19).
Proof.
  apply (decode_frame_exact 0x42464A31 1 100 (encode_frame [7; 8; 9] 0x42464A31 1 ++ [1; 2]) [7; 8; 9] 19);
    try u64_lia.
  - decide_closed.
  - split; [simpl; lia|]. split; [vm_compute; reflexivity|]. by eexists.
Defined.

(** A torn frame is recognised: every strict prefix of an encoded frame decodes to
    [TruncatedMessage], whatever the point of the cut. *)
Theorem decode_frame_torn_prefix (magic version max_payload : Z) (payload : list Z) (n : nat) :
  is_u32 magic -> is_u32 version -> max_payload <= u32_max ->
  is_bytes payload -> Z.of_nat (length payload) <= max_payload ->
  (n < length (encode_frame payload magic version))%nat ->
  result_code (decode_frame (take n (encode_frame payload magic version)) magic version max_payload) =
  ErrorCode.TruncatedMessage.
Proof. intros. by apply decode_frame_torn. Qed.

Lemma decode_frame_torn_prefix_witness :
  result_code (decode_frame (take 17 (encode_frame [7; 8; 9] 1 1)) 1 1 100) = ErrorCode.TruncatedMessage.
Proof.
  apply (decode_frame_torn_prefix 1 1 100 [7; 8; 9] 17);
    first [u64_lia | decide_closed | simpl; lia | vm_compute; lia].
Defined.

(** C28. A damaged payload is rejected: overwriting at most four consecutive payload
    bytes of an encoded frame makes [decode_frame] report [IntegrityFailure]. *)
Theorem decode_frame_detects_burst (magic version max_payload : Z) (p w w' s rest : list Z) :
  is_u32 magic -> is_u32 version -> max_payload <= u32_max ->
  is_bytes p -> is_bytes w -> is_bytes w' -> is_bytes s ->
  length w = length w' -> (length w <= 4)%nat -> w <> w' ->
  Z.of_nat (length (p ++ w ++ s)) <= max_payload ->
  result_code (decode_frame (frame_header magic version (p ++ w ++ s) ++ (p ++ w' ++ s) ++ rest)
    magic version max_payload) = ErrorCode.IntegrityFailure.
Proof.
  intros Hma Hv Hm Hp Hw Hw' Hs Hl H4 Hne Hlen. unfold frame_header.
  assert (is_bytes (p ++ w ++ s)) as Hb by by repeat apply Forall_app_2.
  assert (length (p ++ w' ++ s) = length (p ++ w ++ s)) as Hll by (rewrite !length_app; lia).
  assert (wrap32 (Z.of_nat (length (p ++ w ++ s))) = Z.of_nat (length (p ++ w ++ s))) as ->
    by (unfold wrap32; apply Z.mod_small; u64_lia).
  rewrite decode_frame_words by (done || u64_lia || by apply crc32c_range).
  rewrite !Z.eqb_refl. simpl.
  destruct (Z.ltb_spec max_payload (Z.of_nat (length (p ++ w ++ s)))); [lia|].
  rewrite length_app, Hll.
  destruct (Z.ltb_spec (Z.of_nat (length (p ++ w ++ s) + length rest)) (Z.of_nat (length (p ++ w ++ s)))); [lia|].
  rewrite Nat2Z.id, take_app_le, take_ge by lia.
  destruct (Z.eqb_spec (crc32c (p ++ w' ++ s) 0) (crc32c (p ++ w ++ s) 0)) as [He|]; [|done].
  exfalso. revert He. apply crc32c_window_ne; first [done | congruence | u64_lia].
Qed.

Lemma decode_frame_detects_burst_witness :
  result_code (decode_frame (frame_header 1 1 ([1] ++ [2; 3] ++ [4]) ++ ([1] ++ [2; 5] ++ [4]) ++ []) 1 1 100)
  = ErrorCode.IntegrityFailure.
Proof.
  apply (decode_frame_detects_burst 1 1 100 [1] [2; 3] [2; 5] [4] []);
    first [u64_lia | decide_closed | simpl; lia | discriminate].
Defined.
