(* ===== verification/Model.v ===== *)
(** * Data model

    The records of the public headers ([policy.hpp], [topology.hpp], [allocation.hpp],
    [pressure.hpp], [accounting.hpp], [authority.hpp], [decision.hpp], [reclaim.hpp]),
    field by field, with the default member initialisers as [default_X]. Strong
    identifiers, generations and ticks are the raw 64-bit value as a [Z]; the null
    identifier is 0. *)

From S2P Require Import Prelude Ints Hash Enums Status.

(** [StrongId::valid]. *)
Definition valid (id : Z) : bool := negb (id =? 0).

(** One process lifetime of one fabric instance. *)
Record BootIncarnation := mkBootIncarnation {
  bi_hi : Z; bi_lo : Z
}.

#[export] Instance settable_BootIncarnation : Settable BootIncarnation :=
  fun r => mkBootIncarnation (bi_hi r) (bi_lo r).
#[export] Instance BootIncarnation_eq_dec : EqDecision BootIncarnation.
Proof. solve_decision. Defined.
Definition default_BootIncarnation : BootIncarnation :=
  mkBootIncarnation 0 0.

(** Pressure bands in basis points. *)
Record Thresholds := mkThresholds {
  th_elevated_bp : Z; th_high_bp : Z; th_critical_bp : Z
}.

#[export] Instance settable_Thresholds : Settable Thresholds :=
  fun r => mkThresholds (th_elevated_bp r) (th_high_bp r) (th_critical_bp r).
#[export] Instance Thresholds_eq_dec : EqDecision Thresholds.
Proof. solve_decision. Defined.
Definition default_Thresholds : Thresholds :=
  mkThresholds 7000 8500 9500.

Record OvercommitPolicy := mkOvercommitPolicy {
  oc_mode : OvercommitMode; oc_limit_units : Z
}.

#[export] Instance settable_OvercommitPolicy : Settable OvercommitPolicy :=
  fun r => mkOvercommitPolicy (oc_mode r) (oc_limit_units r).
#[export] Instance OvercommitPolicy_eq_dec : EqDecision OvercommitPolicy.
Proof. solve_decision. Defined.
Definition default_OvercommitPolicy : OvercommitPolicy :=
  mkOvercommitPolicy OvercommitMode.Forbid 0.

Record BorrowPolicy := mkBorrowPolicy {
  bw_mode : BorrowMode; bw_limit_units : Z
}.

#[export] Instance settable_BorrowPolicy : Settable BorrowPolicy :=
  fun r => mkBorrowPolicy (bw_mode r) (bw_limit_units r).
#[export] Instance BorrowPolicy_eq_dec : EqDecision BorrowPolicy.
Proof. solve_decision. Defined.
Definition default_BorrowPolicy : BorrowPolicy :=
  mkBorrowPolicy BorrowMode.Forbid 0.

Record PressurePolicy := mkPressurePolicy {
  pp_thresholds : Thresholds; pp_evidence_ttl_ticks : Z; pp_refuse_increase_on_unknown : bool;
  pp_reduce_on_high : bool; pp_reduce_on_critical : bool;
  pp_refuse_new_grants_above_high : bool
}.

#[export] Instance settable_PressurePolicy : Settable PressurePolicy :=
  fun r => mkPressurePolicy (pp_thresholds r) (pp_evidence_ttl_ticks r)
  (pp_refuse_increase_on_unknown r) (pp_reduce_on_high r) (pp_reduce_on_critical r)
  (pp_refuse_new_grants_above_high r).
#[export] Instance PressurePolicy_eq_dec : EqDecision PressurePolicy.
Proof. solve_decision. Defined.
Definition default_PressurePolicy : PressurePolicy :=
  mkPressurePolicy default_Thresholds 2000000000 true true true false.

Record ReclaimPolicy := mkReclaimPolicy {
  rp_enabled : bool; rp_min_hold_ticks : Z; rp_max_units_per_operation : Z;
  rp_reserve_units : Z; rp_allow_protected_reclaim : bool
}.

#[export] Instance settable_ReclaimPolicy : Settable ReclaimPolicy :=
  fun r => mkReclaimPolicy (rp_enabled r) (rp_min_hold_ticks r) (rp_max_units_per_operation r)
  (rp_reserve_units r) (rp_allow_protected_reclaim r).
#[export] Instance ReclaimPolicy_eq_dec : EqDecision ReclaimPolicy.
Proof. solve_decision. Defined.
Definition default_ReclaimPolicy : ReclaimPolicy :=
  mkReclaimPolicy true 0 (Z.shiftl 1 40) 0 false.

(** A generation-tracked pool policy. *)
Record PoolPolicy := mkPoolPolicy {
  pol_id : Z; pol_generation : Z; pol_name : string; pol_provenance : Z;
  pol_overcommit : OvercommitPolicy; pol_borrow : BorrowPolicy;
  pol_max_single_allocation_units : Z; pol_max_single_request_units : Z; pol_soft_limit_bp : Z;
  pol_allow_partial_grant : bool; pol_pressure : PressurePolicy;
  pol_refuse_grants_at : PressureState; pol_reduce_at : PressureState;
  pol_reclaim : ReclaimPolicy; pol_usable_floor_units : Z;
  pol_fence_on_generation_change : bool; pol_reservation_ttl_ticks : Z;
  pol_max_pending_reservations : Z
}.

#[export] Instance settable_PoolPolicy : Settable PoolPolicy :=
  fun r => mkPoolPolicy (pol_id r) (pol_generation r) (pol_name r) (pol_provenance r)
  (pol_overcommit r) (pol_borrow r) (pol_max_single_allocation_units r)
  (pol_max_single_request_units r) (pol_soft_limit_bp r) (pol_allow_partial_grant r)
  (pol_pressure r) (pol_refuse_grants_at r) (pol_reduce_at r) (pol_reclaim r)
  (pol_usable_floor_units r) (pol_fence_on_generation_change r) (pol_reservation_ttl_ticks r)
  (pol_max_pending_reservations r).
#[export] Instance PoolPolicy_eq_dec : EqDecision PoolPolicy.
Proof. solve_decision. Defined.
Definition default_PoolPolicy : PoolPolicy :=
  mkPoolPolicy 0 0 "" 0 default_OvercommitPolicy default_BorrowPolicy 0 0 0 true
  default_PressurePolicy PressureState.Critical PressureState.High default_ReclaimPolicy 0 true
  30000000000 4096.

Record PoolDescriptor := mkPoolDescriptor {
  pd_id : Z; pd_generation : Z; pd_name : string; pd_resource : Z; pd_backend : Z;
  pd_raw_units : Z; pd_protected_units : Z; pd_parent : Z; pd_policy : Z; pd_tenant : Z;
  pd_provenance : Z; pd_created_at : Z; pd_retired : bool
}.

#[export] Instance settable_PoolDescriptor : Settable PoolDescriptor :=
  fun r => mkPoolDescriptor (pd_id r) (pd_generation r) (pd_name r) (pd_resource r)
  (pd_backend r) (pd_raw_units r) (pd_protected_units r) (pd_parent r) (pd_policy r)
  (pd_tenant r) (pd_provenance r) (pd_created_at r) (pd_retired r).
#[export] Instance PoolDescriptor_eq_dec : EqDecision PoolDescriptor.
Proof. solve_decision. Defined.
Definition default_PoolDescriptor : PoolDescriptor :=
  mkPoolDescriptor 0 0 "" 0 0 0 0 0 0 0 0 0 false.

(** Live counters of a pool. *)
Record PoolRuntime := mkPoolRuntime {
  rt_borrowed_in : Z; rt_lent_out : Z; rt_overcommit_used : Z; rt_free_units : Z;
  rt_reserved_units : Z; rt_committed_units : Z; rt_pinned_units : Z; rt_reclaimable_units : Z;
  rt_grant_count : Z; rt_refuse_count : Z; rt_reclaim_count : Z; rt_fenced_count : Z;
  rt_peak_committed_units : Z; rt_last_decision_at : Z
}.

#[export] Instance settable_PoolRuntime : Settable PoolRuntime :=
  fun r => mkPoolRuntime (rt_borrowed_in r) (rt_lent_out r) (rt_overcommit_used r)
  (rt_free_units r) (rt_reserved_units r) (rt_committed_units r) (rt_pinned_units r)
  (rt_reclaimable_units r) (rt_grant_count r) (rt_refuse_count r) (rt_reclaim_count r)
  (rt_fenced_count r) (rt_peak_committed_units r) (rt_last_decision_at r).
#[export] Instance PoolRuntime_eq_dec : EqDecision PoolRuntime.
Proof. solve_decision. Defined.
Definition default_PoolRuntime : PoolRuntime :=
  mkPoolRuntime 0 0 0 0 0 0 0 0 0 0 0 0 0 0.

Record QueueDescriptor := mkQueueDescriptor {
  qd_id : Z; qd_generation : Z; qd_name : string; qd_pool : Z; qd_tenant : Z;
  qd_traffic_class : Z; qd_demand_units : Z; qd_weight : Z; qd_max_committed_units : Z;
  qd_registered_at : Z; qd_demand_updated_at : Z; qd_retired : bool
}.

#[export] Instance settable_QueueDescriptor : Settable QueueDescriptor :=
  fun r => mkQueueDescriptor (qd_id r) (qd_generation r) (qd_name r) (qd_pool r) (qd_tenant r)
  (qd_traffic_class r) (qd_demand_units r) (qd_weight r) (qd_max_committed_units r)
  (qd_registered_at r) (qd_demand_updated_at r) (qd_retired r).
#[export] Instance QueueDescriptor_eq_dec : EqDecision QueueDescriptor.
Proof. solve_decision. Defined.
Definition default_QueueDescriptor : QueueDescriptor :=
  mkQueueDescriptor 0 0 "" 0 0 0 0 1 0 0 0 false.

Record QueueUsage := mkQueueUsage {
  qu_queue : Z; qu_pool : Z; qu_queue_generation : Z; qu_committed_units : Z;
  qu_reserved_units : Z; qu_allocation_count : Z
}.

#[export] Instance settable_QueueUsage : Settable QueueUsage :=
  fun r => mkQueueUsage (qu_queue r) (qu_pool r) (qu_queue_generation r) (qu_committed_units r)
  (qu_reserved_units r) (qu_allocation_count r).
#[export] Instance QueueUsage_eq_dec : EqDecision QueueUsage.
Proof. solve_decision. Defined.
Definition default_QueueUsage : QueueUsage :=
  mkQueueUsage 0 0 0 0 0 0.

Record Lineage := mkLineage {
  ln_origin : Z; ln_parent : Z; ln_depth : Z; ln_chain_digest : Digest
}.

#[export] Instance settable_Lineage : Settable Lineage :=
  fun r => mkLineage (ln_origin r) (ln_parent r) (ln_depth r) (ln_chain_digest r).
#[export] Instance Lineage_eq_dec : EqDecision Lineage.
Proof. solve_decision. Defined.
Definition default_Lineage : Lineage :=
  mkLineage 0 0 0 (mkDigest 0 0).

(** The generations a grant was bound to. *)
Record BoundGenerations := mkBoundGenerations {
  bg_pool_generation : Z; bg_queue_generation : Z; bg_policy_generation : Z;
  bg_capacity_generation : Z; bg_backend_generation : Z; bg_epoch : Z;
  bg_boot : BootIncarnation
}.

#[export] Instance settable_BoundGenerations : Settable BoundGenerations :=
  fun r => mkBoundGenerations (bg_pool_generation r) (bg_queue_generation r)
  (bg_policy_generation r) (bg_capacity_generation r) (bg_backend_generation r) (bg_epoch r)
  (bg_boot r).
#[export] Instance BoundGenerations_eq_dec : EqDecision BoundGenerations.
Proof. solve_decision. Defined.
Definition default_BoundGenerations : BoundGenerations :=
  mkBoundGenerations 0 0 0 0 0 0 default_BootIncarnation.

Record AllocationRecord := mkAllocationRecord {
  ar_id : Z; ar_pool : Z; ar_queue : Z; ar_tenant : Z; ar_traffic_class : Z; ar_units : Z;
  ar_state : AllocationState; ar_reclaim_class : ReclaimClass; ar_reclaim_priority : Z;
  ar_lineage : Lineage; ar_bound : BoundGenerations; ar_attempt : Z; ar_provenance : Z;
  ar_borrow_units : Z; ar_lender : Z; ar_created_at : Z; ar_last_touched : Z;
  ar_expires_at : Z; ar_revision : Z
}.

#[export] Instance settable_AllocationRecord : Settable AllocationRecord :=
  fun r => mkAllocationRecord (ar_id r) (ar_pool r) (ar_queue r) (ar_tenant r)
  (ar_traffic_class r) (ar_units r) (ar_state r) (ar_reclaim_class r) (ar_reclaim_priority r)
  (ar_lineage r) (ar_bound r) (ar_attempt r) (ar_provenance r) (ar_borrow_units r)
  (ar_lender r) (ar_created_at r) (ar_last_touched r) (ar_expires_at r) (ar_revision r).
#[export] Instance AllocationRecord_eq_dec : EqDecision AllocationRecord.
Proof. solve_decision. Defined.
Definition default_AllocationRecord : AllocationRecord :=
  mkAllocationRecord 0 0 0 0 0 0 AllocationState.Reserved ReclaimClass.Reclaimable 0
  default_Lineage default_BoundGenerations 0 0 0 0 0 0 0 0.

(** The remembered outcome of one attempt. *)
Record AttemptRecord := mkAttemptRecord {
  at_id : Z; at_kind : AttemptKind; at_request_digest : Digest; at_outcome : ErrorCode;
  at_allocation : Z; at_granted_units : Z; at_sequence : Z; at_recorded_at : Z;
  at_unfinished : bool
}.

#[export] Instance settable_AttemptRecord : Settable AttemptRecord :=
  fun r => mkAttemptRecord (at_id r) (at_kind r) (at_request_digest r) (at_outcome r)
  (at_allocation r) (at_granted_units r) (at_sequence r) (at_recorded_at r) (at_unfinished r).
#[export] Instance AttemptRecord_eq_dec : EqDecision AttemptRecord.
Proof. solve_decision. Defined.
Definition default_AttemptRecord : AttemptRecord :=
  mkAttemptRecord 0 AttemptKind.Allocate (mkDigest 0 0) ErrorCode.Ok 0 0 0 0 false.

Record PressureSnapshot := mkPressureSnapshot {
  ps_id : Z; ps_pool : Z; ps_pool_generation : Z; ps_epoch : Z; ps_boot : BootIncarnation;
  ps_observed_at : Z; ps_ttl_ticks : Z; ps_demand_units : Z; ps_committed_units : Z;
  ps_reclaimable_units : Z; ps_provenance : Z; ps_assert_committed : bool;
  ps_evidence_digest : Digest
}.

#[export] Instance settable_PressureSnapshot : Settable PressureSnapshot :=
  fun r => mkPressureSnapshot (ps_id r) (ps_pool r) (ps_pool_generation r) (ps_epoch r)
  (ps_boot r) (ps_observed_at r) (ps_ttl_ticks r) (ps_demand_units r) (ps_committed_units r)
  (ps_reclaimable_units r) (ps_provenance r) (ps_assert_committed r) (ps_evidence_digest r).
#[export] Instance PressureSnapshot_eq_dec : EqDecision PressureSnapshot.
Proof. solve_decision. Defined.
Definition default_PressureSnapshot : PressureSnapshot :=
  mkPressureSnapshot 0 0 0 0 default_BootIncarnation 0 0 0 0 0 0 true (mkDigest 0 0).

(** Resolved evidence: the state that decisions read. *)
Record PressureEvidence := mkPressureEvidence {
  pe_state : PressureState; pe_utilization_bp : Z; pe_binding_bp : Z; pe_snapshot : Z;
  pe_pool_generation : Z; pe_epoch : Z; pe_observed_at : Z; pe_age_ticks : Z;
  pe_overcommitted : bool; pe_epoch_match : bool; pe_generation_match : bool; pe_fresh : bool;
  pe_reason : ErrorCode; pe_detail : string
}.

#[export] Instance settable_PressureEvidence : Settable PressureEvidence :=
  fun r => mkPressureEvidence (pe_state r) (pe_utilization_bp r) (pe_binding_bp r)
  (pe_snapshot r) (pe_pool_generation r) (pe_epoch r) (pe_observed_at r) (pe_age_ticks r)
  (pe_overcommitted r) (pe_epoch_match r) (pe_generation_match r) (pe_fresh r) (pe_reason r)
  (pe_detail r).
#[export] Instance PressureEvidence_eq_dec : EqDecision PressureEvidence.
Proof. solve_decision. Defined.
Definition default_PressureEvidence : PressureEvidence :=
  mkPressureEvidence PressureState.Unknown 0 0 0 0 0 0 0 false false false false
  ErrorCode.EvidenceUnknown "".

Record PoolAccounting := mkPoolAccounting {
  pa_pool : Z; pa_pool_generation : Z; pa_raw : Z; pa_protected_units : Z; pa_usable : Z;
  pa_allocated : Z; pa_reserved : Z; pa_committed : Z; pa_pinned : Z; pa_reclaimable : Z;
  pa_borrowed_in : Z; pa_lent_out : Z; pa_overcommit_used : Z; pa_overcommit_limit : Z;
  pa_free : Z
}.

#[export] Instance settable_PoolAccounting : Settable PoolAccounting :=
  fun r => mkPoolAccounting (pa_pool r) (pa_pool_generation r) (pa_raw r)
  (pa_protected_units r) (pa_usable r) (pa_allocated r) (pa_reserved r) (pa_committed r)
  (pa_pinned r) (pa_reclaimable r) (pa_borrowed_in r) (pa_lent_out r) (pa_overcommit_used r)
  (pa_overcommit_limit r) (pa_free r).
#[export] Instance PoolAccounting_eq_dec : EqDecision PoolAccounting.
Proof. solve_decision. Defined.
Definition default_PoolAccounting : PoolAccounting :=
  mkPoolAccounting 0 0 0 0 0 0 0 0 0 0 0 0 0 0 0.

Record AuthorityEntry := mkAuthorityEntry {
  ae_kind : AuthorityKind; ae_value : Z; ae_generation : Z
}.

#[export] Instance settable_AuthorityEntry : Settable AuthorityEntry :=
  fun r => mkAuthorityEntry (ae_kind r) (ae_value r) (ae_generation r).
#[export] Instance AuthorityEntry_eq_dec : EqDecision AuthorityEntry.
Proof. solve_decision. Defined.
Definition default_AuthorityEntry : AuthorityEntry :=
  mkAuthorityEntry AuthorityKind.Capacity 0 0.

Record CorrectiveIntent := mkCorrectiveIntent {
  ci_reduce_required : bool; ci_reduce_to_units : Z; ci_fence_required : bool;
  ci_revalidate_required : bool; ci_reclaim_target_units : Z; ci_revalidate_by : Z
}.

#[export] Instance settable_CorrectiveIntent : Settable CorrectiveIntent :=
  fun r => mkCorrectiveIntent (ci_reduce_required r) (ci_reduce_to_units r)
  (ci_fence_required r) (ci_revalidate_required r) (ci_reclaim_target_units r)
  (ci_revalidate_by r).
#[export] Instance CorrectiveIntent_eq_dec : EqDecision CorrectiveIntent.
Proof. solve_decision. Defined.
Definition default_CorrectiveIntent : CorrectiveIntent :=
  mkCorrectiveIntent false 0 false false 0 0.

Record AllocateRequest := mkAllocateRequest {
  aq_attempt : Z; aq_pool : Z; aq_queue : Z; aq_requested_units : Z;
  aq_reclaim_class : ReclaimClass; aq_reclaim_priority : Z; aq_ttl_ticks : Z;
  aq_commit_immediately : bool; aq_parent_allocation : Z; aq_provenance : Z;
  aq_expected_pool_generation : Z; aq_expected_policy_generation : Z;
  aq_expected_queue_generation : Z; aq_expected_capacity_generation : Z; aq_expected_epoch : Z
}.

#[export] Instance settable_AllocateRequest : Settable AllocateRequest :=
  fun r => mkAllocateRequest (aq_attempt r) (aq_pool r) (aq_queue r) (aq_requested_units r)
  (aq_reclaim_class r) (aq_reclaim_priority r) (aq_ttl_ticks r) (aq_commit_immediately r)
  (aq_parent_allocation r) (aq_provenance r) (aq_expected_pool_generation r)
  (aq_expected_policy_generation r) (aq_expected_queue_generation r)
  (aq_expected_capacity_generation r) (aq_expected_epoch r).
#[export] Instance AllocateRequest_eq_dec : EqDecision AllocateRequest.
Proof. solve_decision. Defined.
Definition default_AllocateRequest : AllocateRequest :=
  mkAllocateRequest 0 0 0 0 ReclaimClass.Reclaimable 0 0 true 0 0 0 0 0 0 0.

Record CommitRequest := mkCommitRequest {
  cq_attempt : Z; cq_allocation : Z; cq_commit_units : Z; cq_expected_pool_generation : Z;
  cq_expected_epoch : Z
}.

#[export] Instance settable_CommitRequest : Settable CommitRequest :=
  fun r => mkCommitRequest (cq_attempt r) (cq_allocation r) (cq_commit_units r)
  (cq_expected_pool_generation r) (cq_expected_epoch r).
#[export] Instance CommitRequest_eq_dec : EqDecision CommitRequest.
Proof. solve_decision. Defined.
Definition default_CommitRequest : CommitRequest :=
  mkCommitRequest 0 0 0 0 0.

Record ReleaseRequest := mkReleaseRequest {
  rq_attempt : Z; rq_allocation : Z; rq_units : Z; rq_release_all : bool;
  rq_expected_pool_generation : Z; rq_expected_epoch : Z
}.

#[export] Instance settable_ReleaseRequest : Settable ReleaseRequest :=
  fun r => mkReleaseRequest (rq_attempt r) (rq_allocation r) (rq_units r) (rq_release_all r)
  (rq_expected_pool_generation r) (rq_expected_epoch r).
#[export] Instance ReleaseRequest_eq_dec : EqDecision ReleaseRequest.
Proof. solve_decision. Defined.
Definition default_ReleaseRequest : ReleaseRequest :=
  mkReleaseRequest 0 0 0 true 0 0.

Record RevalidateRequest := mkRevalidateRequest {
  vq_attempt : Z; vq_allocation : Z; vq_expected_pool_generation : Z; vq_expected_epoch : Z
}.

#[export] Instance settable_RevalidateRequest : Settable RevalidateRequest :=
  fun r => mkRevalidateRequest (vq_attempt r) (vq_allocation r) (vq_expected_pool_generation r)
  (vq_expected_epoch r).
#[export] Instance RevalidateRequest_eq_dec : EqDecision RevalidateRequest.
Proof. solve_decision. Defined.
Definition default_RevalidateRequest : RevalidateRequest :=
  mkRevalidateRequest 0 0 0 0.

Record EvaluateRequest := mkEvaluateRequest {
  eq_pool : Z; eq_queue : Z; eq_requested_units : Z; eq_reclaim_class : ReclaimClass;
  eq_expected_epoch : Z
}.

#[export] Instance settable_EvaluateRequest : Settable EvaluateRequest :=
  fun r => mkEvaluateRequest (eq_pool r) (eq_queue r) (eq_requested_units r)
  (eq_reclaim_class r) (eq_expected_epoch r).
#[export] Instance EvaluateRequest_eq_dec : EqDecision EvaluateRequest.
Proof. solve_decision. Defined.
Definition default_EvaluateRequest : EvaluateRequest :=
  mkEvaluateRequest 0 0 0 ReclaimClass.Reclaimable 0.

Record ReclaimVictim := mkReclaimVictim {
  vi_allocation : Z; vi_queue : Z; vi_units : Z; vi_borrowed_units : Z;
  vi_reclaim_priority : Z; vi_last_touched : Z; vi_reclaim_class : ReclaimClass
}.

#[export] Instance settable_ReclaimVictim : Settable ReclaimVictim :=
  fun r => mkReclaimVictim (vi_allocation r) (vi_queue r) (vi_units r) (vi_borrowed_units r)
  (vi_reclaim_priority r) (vi_last_touched r) (vi_reclaim_class r).
#[export] Instance ReclaimVictim_eq_dec : EqDecision ReclaimVictim.
Proof. solve_decision. Defined.
Definition default_ReclaimVictim : ReclaimVictim :=
  mkReclaimVictim 0 0 0 0 0 0 ReclaimClass.Reclaimable.

Record ReclaimRequest := mkReclaimRequest {
  lq_attempt : Z; lq_pool : Z; lq_target_units : Z; lq_dry_run : bool;
  lq_expected_pool_generation : Z; lq_expected_epoch : Z
}.

#[export] Instance settable_ReclaimRequest : Settable ReclaimRequest :=
  fun r => mkReclaimRequest (lq_attempt r) (lq_pool r) (lq_target_units r) (lq_dry_run r)
  (lq_expected_pool_generation r) (lq_expected_epoch r).
#[export] Instance ReclaimRequest_eq_dec : EqDecision ReclaimRequest.
Proof. solve_decision. Defined.
Definition default_ReclaimRequest : ReclaimRequest :=
  mkReclaimRequest 0 0 0 true 0 0.

(** The sealed list of identities and generations a decision bound, in binding order. *)
Record AuthorityVector := mkAuthorityVector { av_entries : list AuthorityEntry; av_digest : Digest }.

#[export] Instance settable_AuthorityVector : Settable AuthorityVector :=
  fun r => mkAuthorityVector (av_entries r) (av_digest r).
#[export] Instance AuthorityVector_eq_dec : EqDecision AuthorityVector.
Proof. solve_decision. Defined.
Definition default_AuthorityVector : AuthorityVector := mkAuthorityVector [] (mkDigest 0 0).

(** The answer to one request. *)
Record Decision := mkDecision {
  dc_kind : DecisionKind; dc_status : ErrorCode; dc_reason : string; dc_pool : Z; dc_queue : Z;
  dc_requested_units : Z; dc_granted_units : Z; dc_allocation : Z;
  dc_binding : BindingConstraint; dc_pressure : PressureState; dc_utilization_bp : Z;
  dc_intent : CorrectiveIntent; dc_authority : AuthorityVector; dc_accounting : PoolAccounting;
  dc_decided_at : Z; dc_sequence : Z; dc_digest : Digest
}.

#[export] Instance settable_Decision : Settable Decision :=
  fun r => mkDecision (dc_kind r) (dc_status r) (dc_reason r) (dc_pool r) (dc_queue r)
  (dc_requested_units r) (dc_granted_units r) (dc_allocation r) (dc_binding r) (dc_pressure r)
  (dc_utilization_bp r) (dc_intent r) (dc_authority r) (dc_accounting r) (dc_decided_at r)
  (dc_sequence r) (dc_digest r).
#[export] Instance Decision_eq_dec : EqDecision Decision.
Proof. solve_decision. Defined.
Definition default_Decision : Decision :=
  mkDecision DecisionKind.Refuse ErrorCode.Ok "" 0 0 0 0 0 BindingConstraint.None
  PressureState.Unknown 0 default_CorrectiveIntent default_AuthorityVector
  default_PoolAccounting 0 0 (mkDigest 0 0).

(** One entry of the decision history. *)
Record DecisionRecord := mkDecisionRecord {
  dr_sequence : Z; dr_at : Z; dr_kind : DecisionKind; dr_status : ErrorCode; dr_pool : Z;
  dr_queue : Z; dr_allocation : Z; dr_requested_units : Z; dr_granted_units : Z;
  dr_binding : BindingConstraint; dr_pressure : PressureState; dr_authority_digest : Digest;
  dr_reason : string
}.

#[export] Instance settable_DecisionRecord : Settable DecisionRecord :=
  fun r => mkDecisionRecord (dr_sequence r) (dr_at r) (dr_kind r) (dr_status r) (dr_pool r)
  (dr_queue r) (dr_allocation r) (dr_requested_units r) (dr_granted_units r) (dr_binding r)
  (dr_pressure r) (dr_authority_digest r) (dr_reason r).
#[export] Instance DecisionRecord_eq_dec : EqDecision DecisionRecord.
Proof. solve_decision. Defined.
Definition default_DecisionRecord : DecisionRecord :=
  mkDecisionRecord 0 0 DecisionKind.Refuse ErrorCode.Ok 0 0 0 0 0 BindingConstraint.None
  PressureState.Unknown (mkDigest 0 0) "".

Record EvaluationResult := mkEvaluationResult {
  er_decision : Decision; er_accounting : PoolAccounting; er_evidence : PressureEvidence
}.

#[export] Instance settable_EvaluationResult : Settable EvaluationResult :=
  fun r => mkEvaluationResult (er_decision r) (er_accounting r) (er_evidence r).
#[export] Instance EvaluationResult_eq_dec : EqDecision EvaluationResult.
Proof. solve_decision. Defined.
Definition default_EvaluationResult : EvaluationResult :=
  mkEvaluationResult default_Decision default_PoolAccounting default_PressureEvidence.

Record ReclamationPlan := mkReclamationPlan {
  rl_pool : Z; rl_pool_generation : Z; rl_epoch : Z; rl_target_units : Z; rl_planned_units : Z;
  rl_shortfall_units : Z; rl_reclaimable_available_units : Z; rl_pinned_available_units : Z;
  rl_protected_reclaim_used : bool; rl_truncated : bool; rl_victims : list ReclaimVictim;
  rl_authority : AuthorityVector; rl_built_at : Z; rl_digest : Digest
}.

#[export] Instance settable_ReclamationPlan : Settable ReclamationPlan :=
  fun r => mkReclamationPlan (rl_pool r) (rl_pool_generation r) (rl_epoch r)
  (rl_target_units r) (rl_planned_units r) (rl_shortfall_units r)
  (rl_reclaimable_available_units r) (rl_pinned_available_units r)
  (rl_protected_reclaim_used r) (rl_truncated r) (rl_victims r) (rl_authority r)
  (rl_built_at r) (rl_digest r).
#[export] Instance ReclamationPlan_eq_dec : EqDecision ReclamationPlan.
Proof. solve_decision. Defined.
Definition default_ReclamationPlan : ReclamationPlan :=
  mkReclamationPlan 0 0 0 0 0 0 0 0 false false [] default_AuthorityVector 0 (mkDigest 0 0).

Record ReclaimResult := mkReclaimResult {
  rs_plan : ReclamationPlan; rs_reclaimed_units : Z; rs_revoked_allocations : Z;
  rs_borrower_units_returned : Z; rs_lender_units_returned : Z; rs_accounting : PoolAccounting;
  rs_applied_at : Z
}.

#[export] Instance settable_ReclaimResult : Settable ReclaimResult :=
  fun r => mkReclaimResult (rs_plan r) (rs_reclaimed_units r) (rs_revoked_allocations r)
  (rs_borrower_units_returned r) (rs_lender_units_returned r) (rs_accounting r)
  (rs_applied_at r).
#[export] Instance ReclaimResult_eq_dec : EqDecision ReclaimResult.
Proof. solve_decision. Defined.
Definition default_ReclaimResult : ReclaimResult :=
  mkReclaimResult default_ReclamationPlan 0 0 0 0 default_PoolAccounting 0.

(** ** Methods of the records *)

Definition boot_valid (b : BootIncarnation) : bool := negb (bi_hi b =? 0) || negb (bi_lo b =? 0).

Definition allocation_holds_units (s : AllocationState) : bool :=
  bool_decide (s = AllocationState.Reserved) || bool_decide (s = AllocationState.Committed).

Definition allocation_is_terminal (s : AllocationState) : bool :=
  bool_decide (s = AllocationState.Released) || bool_decide (s = AllocationState.Reclaimed)
  || bool_decide (s = AllocationState.Expired).

Definition holds_units (r : AllocationRecord) : bool := allocation_holds_units (ar_state r).

Definition units_from_own_capacity (r : AllocationRecord) : Z :=
  if ar_borrow_units r <=? ar_units r then sub64 (ar_units r) (ar_borrow_units r) else 0.

Definition pd_usable_units (d : PoolDescriptor) : Z :=
  if pd_protected_units d <=? pd_raw_units d then sub64 (pd_raw_units d) (pd_protected_units d) else 0.

Definition intent_any (i : CorrectiveIntent) : bool :=
  ci_reduce_required i || ci_fence_required i || ci_revalidate_required i
  || negb (ci_reclaim_target_units i =? 0).

Definition decision_succeeded (d : Decision) : bool :=
  bool_decide (dc_status d = ErrorCode.Ok) &&
  (bool_decide (dc_kind d = DecisionKind.Grant) || bool_decide (dc_kind d = DecisionKind.GrantPartial)
   || bool_decide (dc_kind d = DecisionKind.NoOp) || bool_decide (dc_kind d = DecisionKind.IdempotentReplay)).

Definition granted_anything (d : Decision) : bool := negb (dc_granted_units d =? 0).

Definition plan_complete (p : ReclamationPlan) : bool := rl_shortfall_units p =? 0.
