(* ===== verification/Wire.v ===== *)
(** * Canonical encoding of domain objects

    [src/wire.hpp] and the [detail] namespace of [src/topology.cpp]: one encoder and one
    decoder per record, field by field in the source's order. The [Wire] class is what
    the snapshot, the journal and the protocol rely on: an encoder, a decoder, and the
    law that decoding what was encoded gives the value back. *)

From S2P Require Import Prelude Ints Hash Enums Status Codec Model.

(** ** The interface *)

Class Wire (A : Type) := {
  encode : A -> Put;
  decode : Reader A;
  wire_wf : A -> Prop;
  wire_roundtrip : forall a, wire_wf a -> roundtrips (encode a) decode a
}.

(** Reassemble a record, and the records inside it, from its projections. *)
Ltac record_eta x :=
  destruct x; simpl;
  repeat match goal with
    | b : BootIncarnation |- _ => destruct b
    | b : PressurePolicy |- _ => destruct b
    | b : ReclaimPolicy |- _ => destruct b
    end; reflexivity.

(** Field by field: the decoder reads what the encoder put, in the same order. *)
Ltac solve_roundtrip x :=
  repeat first
    [ apply roundtrips_check
    | eapply roundtrips_last; [by eauto 3 with wire | record_eta x]
    | eapply roundtrips_bind; [by eauto 3 with wire |] ].

Definition kWireMaxNameBytes : Z := kMaxNameBytes.

Definition encode_string (text : string) (max_bytes : Z) : Put := put_str text max_bytes.

Definition decode_string (max_bytes : Z) : Reader string := get_str max_bytes.

Lemma roundtrips_string max s : str_fits max s -> roundtrips (encode_string s max) (decode_string max) s.
Proof. apply roundtrips_str. Qed.
#[export] Hint Resolve roundtrips_string : wire.

Definition encode_thresholds (x : Thresholds) : Put :=
  put_u32 (th_elevated_bp x) >+> put_u32 (th_high_bp x) >+> put_u32 (th_critical_bp x).

Definition decode_thresholds : Reader Thresholds :=
  elevated_bp ← get_u32; high_bp ← get_u32; critical_bp ← get_u32;
  mret (mkThresholds elevated_bp high_bp critical_bp).

Definition wf_thresholds (x : Thresholds) : Prop :=
  is_u32 (th_elevated_bp x) /\ is_u32 (th_high_bp x) /\ is_u32 (th_critical_bp x).

Lemma roundtrips_thresholds x : wf_thresholds x -> roundtrips (encode_thresholds x) decode_thresholds x.
Proof. intros Hx. red in Hx. destruct_and?. unfold encode_thresholds, decode_thresholds. solve_roundtrip x. Qed.
#[export] Hint Resolve roundtrips_thresholds : wire.

Definition encode_overcommit (x : OvercommitPolicy) : Put :=
  put_enum (oc_mode x) >+> put_u64 (oc_limit_units x).

Definition decode_overcommit : Reader OvercommitPolicy :=
  mode ← get_enum OvercommitMode; limit_units ← get_u64;
  mret (mkOvercommitPolicy mode limit_units).

Definition wf_overcommit (x : OvercommitPolicy) : Prop :=
  is_u64 (oc_limit_units x).

Lemma roundtrips_overcommit x : wf_overcommit x -> roundtrips (encode_overcommit x) decode_overcommit x.
Proof. intros Hx. red in Hx. destruct_and?. unfold encode_overcommit, decode_overcommit. solve_roundtrip x. Qed.
#[export] Hint Resolve roundtrips_overcommit : wire.

Definition encode_borrow (x : BorrowPolicy) : Put :=
  put_enum (bw_mode x) >+> put_u64 (bw_limit_units x).

Definition decode_borrow : Reader BorrowPolicy :=
  mode ← get_enum BorrowMode; limit_units ← get_u64;
  mret (mkBorrowPolicy mode limit_units).

Definition wf_borrow (x : BorrowPolicy) : Prop :=
  is_u64 (bw_limit_units x).

Lemma roundtrips_borrow x : wf_borrow x -> roundtrips (encode_borrow x) decode_borrow x.
Proof. intros Hx. red in Hx. destruct_and?. unfold encode_borrow, decode_borrow. solve_roundtrip x. Qed.
#[export] Hint Resolve roundtrips_borrow : wire.

Definition encode_policy (x : PoolPolicy) : Put :=
  put_id (pol_id x) >+> put_id (pol_generation x) >+> encode_string (pol_name x) kWireMaxNameBytes >+>
  put_id (pol_provenance x) >+> encode_overcommit (pol_overcommit x) >+>
  encode_borrow (pol_borrow x) >+> put_u64 (pol_max_single_allocation_units x) >+>
  put_u64 (pol_max_single_request_units x) >+> put_u32 (pol_soft_limit_bp x) >+>
  put_bool (pol_allow_partial_grant x) >+> encode_thresholds (pp_thresholds (pol_pressure x)) >+>
  put_u64 (pp_evidence_ttl_ticks (pol_pressure x)) >+>
  put_bool (pp_refuse_increase_on_unknown (pol_pressure x)) >+>
  put_bool (pp_reduce_on_high (pol_pressure x)) >+>
  put_bool (pp_reduce_on_critical (pol_pressure x)) >+>
  put_bool (pp_refuse_new_grants_above_high (pol_pressure x)) >+>
  put_enum (pol_refuse_grants_at x) >+> put_enum (pol_reduce_at x) >+>
  put_bool (rp_enabled (pol_reclaim x)) >+> put_u64 (rp_min_hold_ticks (pol_reclaim x)) >+>
  put_u64 (rp_max_units_per_operation (pol_reclaim x)) >+>
  put_u64 (rp_reserve_units (pol_reclaim x)) >+>
  put_bool (rp_allow_protected_reclaim (pol_reclaim x)) >+> put_u64 (pol_usable_floor_units x) >+>
  put_bool (pol_fence_on_generation_change x) >+> put_u64 (pol_reservation_ttl_ticks x) >+>
  put_u64 (pol_max_pending_reservations x).

(** Both pressure bytes are read before either is checked. *)
Definition decode_policy : Reader PoolPolicy :=
  id ← get_id; generation ← get_id; name ← decode_string kWireMaxNameBytes;
  provenance ← get_id; overcommit ← decode_overcommit; borrow ← decode_borrow;
  max_single_allocation_units ← get_u64; max_single_request_units ← get_u64;
  soft_limit_bp ← get_u32; allow_partial_grant ← get_bool; thresholds ← decode_thresholds;
  evidence_ttl_ticks ← get_u64; refuse_increase_on_unknown ← get_bool;
  reduce_on_high ← get_bool; reduce_on_critical ← get_bool;
  refuse_new_grants_above_high ← get_bool;
  refuse_at ← get_u8; reduce_at ← get_u8;
  refuse_grants_at ← check_enum PressureState refuse_at;
  reduce_at ← check_enum PressureState reduce_at;
  enabled ← get_bool; min_hold_ticks ← get_u64; max_units_per_operation ← get_u64;
  reserve_units ← get_u64; allow_protected_reclaim ← get_bool; usable_floor_units ← get_u64;
  fence_on_generation_change ← get_bool; reservation_ttl_ticks ← get_u64;
  max_pending_reservations ← get_u64;
  mret (mkPoolPolicy id generation name provenance overcommit borrow
    max_single_allocation_units max_single_request_units soft_limit_bp allow_partial_grant
    (mkPressurePolicy thresholds evidence_ttl_ticks refuse_increase_on_unknown reduce_on_high
       reduce_on_critical refuse_new_grants_above_high)
    refuse_grants_at reduce_at
    (mkReclaimPolicy enabled min_hold_ticks max_units_per_operation reserve_units
       allow_protected_reclaim)
    usable_floor_units fence_on_generation_change reservation_ttl_ticks
    max_pending_reservations).

Definition wf_policy (x : PoolPolicy) : Prop :=
  is_u64 (pol_id x) /\ is_u64 (pol_generation x) /\ str_fits kWireMaxNameBytes (pol_name x) /\
  is_u64 (pol_provenance x) /\ wf_overcommit (pol_overcommit x) /\ wf_borrow (pol_borrow x) /\
  is_u64 (pol_max_single_allocation_units x) /\ is_u64 (pol_max_single_request_units x) /\
  is_u32 (pol_soft_limit_bp x) /\ wf_thresholds (pp_thresholds (pol_pressure x)) /\
  is_u64 (pp_evidence_ttl_ticks (pol_pressure x)) /\ is_u64 (rp_min_hold_ticks (pol_reclaim x)) /\
  is_u64 (rp_max_units_per_operation (pol_reclaim x)) /\ is_u64 (rp_reserve_units (pol_reclaim x)) /\
  is_u64 (pol_usable_floor_units x) /\ is_u64 (pol_reservation_ttl_ticks x) /\
  is_u64 (pol_max_pending_reservations x).

Lemma roundtrips_policy x : wf_policy x -> roundtrips (encode_policy x) decode_policy x.
Proof.
  intros Hx. red in Hx. destruct_and?. unfold encode_policy, decode_policy. solve_roundtrip x.
Qed.
#[export] Hint Resolve roundtrips_policy : wire.

Definition encode_pool (x : PoolDescriptor) : Put :=
  put_id (pd_id x) >+> put_id (pd_generation x) >+>
  encode_string (pd_name x) kWireMaxNameBytes >+> put_id (pd_resource x) >+>
  put_id (pd_backend x) >+> put_u64 (pd_raw_units x) >+> put_u64 (pd_protected_units x) >+>
  put_id (pd_parent x) >+> put_id (pd_policy x) >+> put_id (pd_tenant x) >+>
  put_id (pd_provenance x) >+> put_u64 (pd_created_at x) >+> put_bool (pd_retired x).

Definition decode_pool : Reader PoolDescriptor :=
  id ← get_id; generation ← get_id; name ← decode_string kWireMaxNameBytes; resource ← get_id;
  backend ← get_id; raw_units ← get_u64; protected_units ← get_u64; parent ← get_id;
  policy ← get_id; tenant ← get_id; provenance ← get_id; created_at ← get_u64;
  retired ← get_bool;
  mret (mkPoolDescriptor id generation name resource backend raw_units protected_units parent
  policy tenant provenance created_at retired).

Definition wf_pool (x : PoolDescriptor) : Prop :=
  is_u64 (pd_id x) /\ is_u64 (pd_generation x) /\ str_fits kWireMaxNameBytes (pd_name x) /\
  is_u64 (pd_resource x) /\ is_u64 (pd_backend x) /\ is_u64 (pd_raw_units x) /\
  is_u64 (pd_protected_units x) /\ is_u64 (pd_parent x) /\ is_u64 (pd_policy x) /\
  is_u64 (pd_tenant x) /\ is_u64 (pd_provenance x) /\ is_u64 (pd_created_at x).

Lemma roundtrips_pool x : wf_pool x -> roundtrips (encode_pool x) decode_pool x.
Proof. intros Hx. red in Hx. destruct_and?. unfold encode_pool, decode_pool. solve_roundtrip x. Qed.
#[export] Hint Resolve roundtrips_pool : wire.

Definition encode_queue (x : QueueDescriptor) : Put :=
  put_id (qd_id x) >+> put_id (qd_generation x) >+>
  encode_string (qd_name x) kWireMaxNameBytes >+> put_id (qd_pool x) >+>
  put_id (qd_tenant x) >+> put_id (qd_traffic_class x) >+> put_u64 (qd_demand_units x) >+>
  put_u64 (qd_weight x) >+> put_u64 (qd_max_committed_units x) >+>
  put_u64 (qd_registered_at x) >+> put_u64 (qd_demand_updated_at x) >+>
  put_bool (qd_retired x).

Definition decode_queue : Reader QueueDescriptor :=
  id ← get_id; generation ← get_id; name ← decode_string kWireMaxNameBytes; pool ← get_id;
  tenant ← get_id; traffic_class ← get_id; demand_units ← get_u64; weight ← get_u64;
  max_committed_units ← get_u64; registered_at ← get_u64; demand_updated_at ← get_u64;
  retired ← get_bool;
  mret (mkQueueDescriptor id generation name pool tenant traffic_class demand_units weight
  max_committed_units registered_at demand_updated_at retired).

Definition wf_queue (x : QueueDescriptor) : Prop :=
  is_u64 (qd_id x) /\ is_u64 (qd_generation x) /\ str_fits kWireMaxNameBytes (qd_name x) /\
  is_u64 (qd_pool x) /\ is_u64 (qd_tenant x) /\ is_u64 (qd_traffic_class x) /\
  is_u64 (qd_demand_units x) /\ is_u64 (qd_weight x) /\ is_u64 (qd_max_committed_units x) /\
  is_u64 (qd_registered_at x) /\ is_u64 (qd_demand_updated_at x).

Lemma roundtrips_queue x : wf_queue x -> roundtrips (encode_queue x) decode_queue x.
Proof. intros Hx. red in Hx. destruct_and?. unfold encode_queue, decode_queue. solve_roundtrip x. Qed.
#[export] Hint Resolve roundtrips_queue : wire.

Definition encode_lineage (x : Lineage) : Put :=
  put_id (ln_origin x) >+> put_id (ln_parent x) >+> put_u32 (ln_depth x) >+>
  put_digest (ln_chain_digest x).

Definition decode_lineage : Reader Lineage :=
  origin ← get_id; parent ← get_id; depth ← get_u32; chain_digest ← get_digest;
  mret (mkLineage origin parent depth chain_digest).

Definition wf_lineage (x : Lineage) : Prop :=
  is_u64 (ln_origin x) /\ is_u64 (ln_parent x) /\ is_u32 (ln_depth x) /\
  digest_wf (ln_chain_digest x).

Lemma roundtrips_lineage x : wf_lineage x -> roundtrips (encode_lineage x) decode_lineage x.
Proof. intros Hx. red in Hx. destruct_and?. unfold encode_lineage, decode_lineage. solve_roundtrip x. Qed.
#[export] Hint Resolve roundtrips_lineage : wire.

Definition encode_bound (x : BoundGenerations) : Put :=
  put_id (bg_pool_generation x) >+> put_id (bg_queue_generation x) >+>
  put_id (bg_policy_generation x) >+> put_id (bg_capacity_generation x) >+>
  put_id (bg_backend_generation x) >+> put_id (bg_epoch x) >+> put_u64 (bi_hi (bg_boot x)) >+>
  put_u64 (bi_lo (bg_boot x)).

Definition decode_bound : Reader BoundGenerations :=
  pool_generation ← get_id; queue_generation ← get_id; policy_generation ← get_id;
  capacity_generation ← get_id; backend_generation ← get_id; epoch ← get_id; boot_hi ← get_u64;
  boot_lo ← get_u64;
  mret (mkBoundGenerations pool_generation queue_generation policy_generation
  capacity_generation backend_generation epoch (mkBootIncarnation boot_hi boot_lo)).

Definition wf_bound (x : BoundGenerations) : Prop :=
  is_u64 (bg_pool_generation x) /\ is_u64 (bg_queue_generation x) /\
  is_u64 (bg_policy_generation x) /\ is_u64 (bg_capacity_generation x) /\
  is_u64 (bg_backend_generation x) /\ is_u64 (bg_epoch x) /\ is_u64 (bi_hi (bg_boot x)) /\
  is_u64 (bi_lo (bg_boot x)).

Lemma roundtrips_bound x : wf_bound x -> roundtrips (encode_bound x) decode_bound x.
Proof. intros Hx. red in Hx. destruct_and?. unfold encode_bound, decode_bound. solve_roundtrip x. Qed.
#[export] Hint Resolve roundtrips_bound : wire.

Definition encode_allocation (x : AllocationRecord) : Put :=
  put_id (ar_id x) >+> put_id (ar_pool x) >+> put_id (ar_queue x) >+> put_id (ar_tenant x) >+>
  put_id (ar_traffic_class x) >+> put_u64 (ar_units x) >+> put_enum (ar_state x) >+>
  put_enum (ar_reclaim_class x) >+> put_u64 (ar_reclaim_priority x) >+>
  encode_lineage (ar_lineage x) >+> encode_bound (ar_bound x) >+> put_id (ar_attempt x) >+>
  put_id (ar_provenance x) >+> put_u64 (ar_borrow_units x) >+> put_id (ar_lender x) >+>
  put_u64 (ar_created_at x) >+> put_u64 (ar_last_touched x) >+> put_u64 (ar_expires_at x) >+>
  put_u64 (ar_revision x).

Definition decode_allocation : Reader AllocationRecord :=
  id ← get_id; pool ← get_id; queue ← get_id; tenant ← get_id; traffic_class ← get_id;
  units ← get_u64; state ← get_enum AllocationState; reclaim_class ← get_enum ReclaimClass;
  reclaim_priority ← get_u64; lineage ← decode_lineage; bound ← decode_bound; attempt ← get_id;
  provenance ← get_id; borrow_units ← get_u64; lender ← get_id; created_at ← get_u64;
  last_touched ← get_u64; expires_at ← get_u64; revision ← get_u64;
  mret (mkAllocationRecord id pool queue tenant traffic_class units state reclaim_class
  reclaim_priority lineage bound attempt provenance borrow_units lender created_at last_touched
  expires_at revision).

Definition wf_allocation (x : AllocationRecord) : Prop :=
  is_u64 (ar_id x) /\ is_u64 (ar_pool x) /\ is_u64 (ar_queue x) /\ is_u64 (ar_tenant x) /\
  is_u64 (ar_traffic_class x) /\ is_u64 (ar_units x) /\ is_u64 (ar_reclaim_priority x) /\
  wf_lineage (ar_lineage x) /\ wf_bound (ar_bound x) /\ is_u64 (ar_attempt x) /\
  is_u64 (ar_provenance x) /\ is_u64 (ar_borrow_units x) /\ is_u64 (ar_lender x) /\
  is_u64 (ar_created_at x) /\ is_u64 (ar_last_touched x) /\ is_u64 (ar_expires_at x) /\
  is_u64 (ar_revision x).

Lemma roundtrips_allocation x : wf_allocation x -> roundtrips (encode_allocation x) decode_allocation x.
Proof. intros Hx. red in Hx. destruct_and?. unfold encode_allocation, decode_allocation. solve_roundtrip x. Qed.
#[export] Hint Resolve roundtrips_allocation : wire.

Definition encode_pressure_snapshot (x : PressureSnapshot) : Put :=
  put_id (ps_id x) >+> put_id (ps_pool x) >+> put_id (ps_pool_generation x) >+>
  put_id (ps_epoch x) >+> put_u64 (bi_hi (ps_boot x)) >+> put_u64 (bi_lo (ps_boot x)) >+>
  put_u64 (ps_observed_at x) >+> put_u64 (ps_ttl_ticks x) >+> put_u64 (ps_demand_units x) >+>
  put_u64 (ps_committed_units x) >+> put_u64 (ps_reclaimable_units x) >+>
  put_id (ps_provenance x) >+> put_bool (ps_assert_committed x) >+>
  put_digest (ps_evidence_digest x).

Definition decode_pressure_snapshot : Reader PressureSnapshot :=
  id ← get_id; pool ← get_id; pool_generation ← get_id; epoch ← get_id; boot_hi ← get_u64;
  boot_lo ← get_u64; observed_at ← get_u64; ttl_ticks ← get_u64; demand_units ← get_u64;
  committed_units ← get_u64; reclaimable_units ← get_u64; provenance ← get_id;
  assert_committed ← get_bool; evidence_digest ← get_digest;
  mret (mkPressureSnapshot id pool pool_generation epoch (mkBootIncarnation boot_hi boot_lo)
  observed_at ttl_ticks demand_units committed_units reclaimable_units provenance
  assert_committed evidence_digest).

Definition wf_pressure_snapshot (x : PressureSnapshot) : Prop :=
  is_u64 (ps_id x) /\ is_u64 (ps_pool x) /\ is_u64 (ps_pool_generation x) /\
  is_u64 (ps_epoch x) /\ is_u64 (bi_hi (ps_boot x)) /\ is_u64 (bi_lo (ps_boot x)) /\
  is_u64 (ps_observed_at x) /\ is_u64 (ps_ttl_ticks x) /\ is_u64 (ps_demand_units x) /\
  is_u64 (ps_committed_units x) /\ is_u64 (ps_reclaimable_units x) /\
  is_u64 (ps_provenance x) /\ digest_wf (ps_evidence_digest x).

Lemma roundtrips_pressure_snapshot x : wf_pressure_snapshot x -> roundtrips (encode_pressure_snapshot x) decode_pressure_snapshot x.
Proof. intros Hx. red in Hx. destruct_and?. unfold encode_pressure_snapshot, decode_pressure_snapshot. solve_roundtrip x. Qed.
#[export] Hint Resolve roundtrips_pressure_snapshot : wire.

Definition encode_attempt (x : AttemptRecord) : Put :=
  put_id (at_id x) >+> put_enum (at_kind x) >+> put_digest (at_request_digest x) >+>
  put_u16 (ErrorCode.code (at_outcome x)) >+> put_id (at_allocation x) >+>
  put_u64 (at_granted_units x) >+> put_u64 (at_sequence x) >+> put_u64 (at_recorded_at x) >+>
  put_bool (at_unfinished x).

(** Any 16-bit code up to the largest enumerator is cast to an [ErrorCode]. *)
Definition get_outcome : Reader ErrorCode :=
  outcome ← get_u16;
  if ErrorCode.code ErrorCode.ProtocolVersionMismatch <? outcome then reject
  else mret (ErrorCode.of_code outcome).

Definition decode_attempt : Reader AttemptRecord :=
  id ← get_id; kind ← get_enum AttemptKind; request_digest ← get_digest;
  outcome ← get_outcome; allocation ← get_id; granted_units ← get_u64; sequence ← get_u64;
  recorded_at ← get_u64; unfinished ← get_bool;
  mret (mkAttemptRecord id kind request_digest outcome allocation granted_units sequence
    recorded_at unfinished).

Definition wf_outcome (e : ErrorCode) : Prop :=
  0 <= ErrorCode.code e <= 105 /\ error_canonical e.

Definition wf_attempt (x : AttemptRecord) : Prop :=
  is_u64 (at_id x) /\ digest_wf (at_request_digest x) /\ wf_outcome (at_outcome x) /\
  is_u64 (at_allocation x) /\ is_u64 (at_granted_units x) /\ is_u64 (at_sequence x) /\
  is_u64 (at_recorded_at x).

Lemma roundtrips_outcome e : wf_outcome e -> roundtrips (put_u16 (ErrorCode.code e)) get_outcome e.
Proof.
  intros [Hb Hc]. unfold get_outcome.
  eapply roundtrips_last; [apply roundtrips_u16; u64_lia|]. cbv beta.
  destruct (Z.ltb_spec (ErrorCode.code ErrorCode.ProtocolVersionMismatch) (ErrorCode.code e)) as [H|];
    [simpl in H; lia|]. by rewrite Hc.
Qed.
#[export] Hint Resolve roundtrips_outcome : wire.

Lemma roundtrips_attempt x : wf_attempt x -> roundtrips (encode_attempt x) decode_attempt x.
Proof. intros Hx. red in Hx. destruct_and?. unfold encode_attempt, decode_attempt. solve_roundtrip x. Qed.
#[export] Hint Resolve roundtrips_attempt : wire.

(** ** Instances *)

#[export] Instance wire_policy : Wire PoolPolicy :=
  {| encode := encode_policy; decode := decode_policy; wire_wf := wf_policy; wire_roundtrip := roundtrips_policy |}.

#[export] Instance wire_pool : Wire PoolDescriptor :=
  {| encode := encode_pool; decode := decode_pool; wire_wf := wf_pool; wire_roundtrip := roundtrips_pool |}.

#[export] Instance wire_queue : Wire QueueDescriptor :=
  {| encode := encode_queue; decode := decode_queue; wire_wf := wf_queue; wire_roundtrip := roundtrips_queue |}.

#[export] Instance wire_bound : Wire BoundGenerations :=
  {| encode := encode_bound; decode := decode_bound; wire_wf := wf_bound; wire_roundtrip := roundtrips_bound |}.

#[export] Instance wire_allocation : Wire AllocationRecord :=
  {| encode := encode_allocation; decode := decode_allocation; wire_wf := wf_allocation; wire_roundtrip := roundtrips_allocation |}.

#[export] Instance wire_pressure_snapshot : Wire PressureSnapshot :=
  {| encode := encode_pressure_snapshot; decode := decode_pressure_snapshot; wire_wf := wf_pressure_snapshot; wire_roundtrip := roundtrips_pressure_snapshot |}.

#[export] Instance wire_attempt : Wire AttemptRecord :=
  {| encode := encode_attempt; decode := decode_attempt; wire_wf := wf_attempt; wire_roundtrip := roundtrips_attempt |}.

(** The bytes of one value, and decoding a whole buffer. *)
Definition wire_bytes {A} `{Wire A} (a : A) : list Z := wr_buffer (encode a writer_empty).

Definition wire_parse {A} `{Wire A} (bytes : list Z) : option A := fst (decode (reader_of bytes)).

(** [PoolPolicy::digest] and [BoundGenerations::digest]. *)
Definition policy_digest (p : PoolPolicy) : Digest := digest_bytes (wire_bytes p).

Definition bound_digest (b : BoundGenerations) : Digest := digest_bytes (wire_bytes b).

Lemma wire_bytes_parse {A} {W : Wire A} (a : A) (rest : list Z) :
  wire_wf a ->
  is_bytes (wire_bytes a) /\ wr_failed (encode a writer_empty) = false /\
  wire_parse (wire_bytes a ++ rest) = Some a.
Proof.
  intros Ha. destruct (wire_roundtrip a Ha) as (bs & Hb & Hp & Hg).
  unfold wire_bytes, wire_parse, reader_of. rewrite Hp by done. simpl.
  specialize (Hg [] rest). simpl in Hg. by rewrite Hg.
Qed.

(** ** Properties *)

(** C27. Every durable record survives its encoding: a policy, pool, queue, allocation,
    pressure snapshot or attempt whose fields fit their widths is written to an empty writer
    without setting its failure flag, and is read back exactly from the bytes written, whatever
    bytes follow them. *)
Theorem wire_records_roundtrip (p : PoolPolicy) (d : PoolDescriptor) (q : QueueDescriptor)
    (a : AllocationRecord) (s : PressureSnapshot) (t : AttemptRecord) (rest : list Z) :
  wf_policy p -> wf_pool d -> wf_queue q -> wf_allocation a -> wf_pressure_snapshot s -> wf_attempt t ->
  (wr_failed (encode p writer_empty) = false /\ wire_parse (wire_bytes p ++ rest) = Some p) /\
  (wr_failed (encode d writer_empty) = false /\ wire_parse (wire_bytes d ++ rest) = Some d) /\
  (wr_failed (encode q writer_empty) = false /\ wire_parse (wire_bytes q ++ rest) = Some q) /\
  (wr_failed (encode a writer_empty) = false /\ wire_parse (wire_bytes a ++ rest) = Some a) /\
  (wr_failed (encode s writer_empty) = false /\ wire_parse (wire_bytes s ++ rest) = Some s) /\
  (wr_failed (encode t writer_empty) = false /\ wire_parse (wire_bytes t ++ rest) = Some t).
Proof.
  intros Hp Hd Hq Ha Hs Ht.
  pose proof (proj2 (wire_bytes_parse (W:=wire_policy) p rest Hp)). pose proof (proj2 (wire_bytes_parse (W:=wire_pool) d rest Hd)).
  pose proof (proj2 (wire_bytes_parse (W:=wire_queue) q rest Hq)). pose proof (proj2 (wire_bytes_parse (W:=wire_allocation) a rest Ha)).
  pose proof (proj2 (wire_bytes_parse (W:=wire_pressure_snapshot) s rest Hs)). pose proof (proj2 (wire_bytes_parse (W:=wire_attempt) t rest Ht)).
  destruct_and?. split_and!; assumption.
Qed.

Lemma wire_records_roundtrip_witness :
  wire_parse (wire_bytes (default_PoolPolicy <| pol_name := "gold" |>) ++ [9]) =
    Some (default_PoolPolicy <| pol_name := "gold" |>) /\
  wire_parse (wire_bytes (default_AllocationRecord <| ar_units := 7 |>) ++ [9]) =
    Some (default_AllocationRecord <| ar_units := 7 |>).
Proof.
  destruct (wire_records_roundtrip (default_PoolPolicy <| pol_name := "gold" |>) default_PoolDescriptor
    default_QueueDescriptor (default_AllocationRecord <| ar_units := 7 |>) default_PressureSnapshot
    default_AttemptRecord [9]) as ([_ Hp] & _ & _ & [_ Ha] & _ & _); [vm_compute; intuition congruence..|].
  exact (conj Hp Ha).
Defined.
