(* ===== verification/Policy.v ===== *)
(** * Policies, thresholds and pressure classification

    [src/policy.cpp] and [PoolDescriptor::validate] of [src/topology.cpp]. Utilisation
    is compared with exact 128-bit products, so a band boundary is exact for every
    64-bit operand. *)

From S2P Require Import Prelude Ints Hash Enums Status Model.

Definition kScale : Z := 10000.

Definition pressure_is_known (state : PressureState) : bool :=
  bool_decide (state = PressureState.Clear) || bool_decide (state = PressureState.Elevated)
  || bool_decide (state = PressureState.High) || bool_decide (state = PressureState.Critical).

Definition pressure_at_least (state floor : PressureState) : bool :=
  if negb (pressure_is_known state) then false
  else PressureState.code floor <=? PressureState.code state.

Definition thresholds_validate (t : Thresholds) : Result unit :=
  if th_elevated_bp t =? 0 then
    fail ErrorCode.InvalidArgument "elevated threshold must be at least 1 basis point"
  else if th_high_bp t <=? th_elevated_bp t then
    fail ErrorCode.InvalidArgument "elevated threshold must be below high threshold"
  else if th_critical_bp t <=? th_high_bp t then
    fail ErrorCode.InvalidArgument "high threshold must be below critical threshold"
  else if kScale <? th_critical_bp t then
    fail ErrorCode.InvalidArgument "critical threshold must not exceed 10000 basis points"
  else Good tt.

Definition utilization_at_least (used usable band_bp : Z) : bool :=
  if usable =? 0 then negb (used =? 0)
  else 0 <=? mul_compare used kScale band_bp usable.

Record PressureObservation := mkPressureObservation {
  po_state : PressureState; po_utilization_bp : Z; po_binding_bp : Z; po_overcommitted : bool
}.

#[export] Instance settable_PressureObservation : Settable PressureObservation := fun r =>
  mkPressureObservation (po_state r) (po_utilization_bp r) (po_binding_bp r) (po_overcommitted r).

Definition default_PressureObservation : PressureObservation :=
  mkPressureObservation PressureState.Unknown 0 0 false.

Definition classify_pressure (t : Thresholds) (used usable : Z) (overcommitted : bool) : PressureObservation :=
  let o := default_PressureObservation <| po_overcommitted := overcommitted |> in
  if usable =? 0 then
    if (used =? 0) && negb overcommitted then
      o <| po_state := PressureState.Clear |> <| po_utilization_bp := 0 |> <| po_binding_bp := 0 |>
    else
      o <| po_state := PressureState.Critical |> <| po_utilization_bp := kScale |>
        <| po_binding_bp := th_critical_bp t |>
  else
    let '(overflow, scaled) := mul_overflow used kScale in
    let basis_points := scaled / usable in
    let o := o <| po_utilization_bp :=
      if overflow then kScale else if kScale <=? basis_points then kScale else wrap32 basis_points |> in
    if utilization_at_least used usable (th_critical_bp t) then
      o <| po_state := PressureState.Critical |> <| po_binding_bp := th_critical_bp t |>
    else if utilization_at_least used usable (th_high_bp t) then
      o <| po_state := PressureState.High |> <| po_binding_bp := th_high_bp t |>
    else if utilization_at_least used usable (th_elevated_bp t) then
      o <| po_state := PressureState.Elevated |> <| po_binding_bp := th_elevated_bp t |>
    else o <| po_state := PressureState.Clear |> <| po_binding_bp := 0 |>.

(** [PoolPolicy::validate], in three runs of checks. *)
Definition validate_overcommit_borrow (p : PoolPolicy) : Result unit :=
  BF_TRY
    (if decide (oc_mode (pol_overcommit p) = OvercommitMode.Bounded) then
       if oc_limit_units (pol_overcommit p) =? 0 then
         fail ErrorCode.InvalidArgument "bounded overcommit requires a non-zero limit"
       else if kMaxOvercommitUnits <? oc_limit_units (pol_overcommit p) then
         fail ErrorCode.Overflow "overcommit limit exceeds the supported bound"
       else Good tt
     else reject_if (negb (oc_limit_units (pol_overcommit p) =? 0)) ErrorCode.InvalidArgument
            "overcommit limit must be zero when overcommit is forbidden");
  if bool_decide (bw_mode (pol_borrow p) = BorrowMode.Forbid) && negb (bw_limit_units (pol_borrow p) =? 0) then
    fail ErrorCode.InvalidArgument "borrow limit must be zero when borrowing is forbidden"
  else if decide (bw_mode (pol_borrow p) = BorrowMode.FromAncestorFree) then
    if bw_limit_units (pol_borrow p) =? 0 then
      fail ErrorCode.InvalidArgument "borrowing from ancestors requires a non-zero limit"
    else if kMaxUnitsPerPool <? bw_limit_units (pol_borrow p) then
      fail ErrorCode.Overflow "borrow limit exceeds the supported bound"
    else Good tt
  else Good tt.

Definition validate_bounds (p : PoolPolicy) : Result unit :=
  if kMaxUnitsPerPool <? pol_max_single_allocation_units p then
    fail ErrorCode.Overflow "max_single_allocation_units exceeds the supported bound"
  else if kMaxUnitsPerPool <? pol_max_single_request_units p then
    fail ErrorCode.Overflow "max_single_request_units exceeds the supported bound"
  else if kScale <? pol_soft_limit_bp p then
    fail ErrorCode.InvalidArgument "soft_limit_bp must not exceed 10000"
  else if kMaxUnitsPerPool <? pol_usable_floor_units p then
    fail ErrorCode.Overflow "usable_floor_units exceeds the supported bound"
  else if Z.shiftl 1 20 <? pol_max_pending_reservations p then
    fail ErrorCode.BoundedResourceExhausted "max_pending_reservations exceeds the supported bound"
  else if kMaxUnitsPerPool <? rp_max_units_per_operation (pol_reclaim p) then
    fail ErrorCode.Overflow "reclaim max_units_per_operation exceeds the bound"
  else if kMaxUnitsPerPool <? rp_reserve_units (pol_reclaim p) then
    fail ErrorCode.Overflow "reclaim reserve_units exceeds the bound"
  else Good tt.

Definition validate_pressure (p : PoolPolicy) : Result unit :=
  if pp_refuse_increase_on_unknown (pol_pressure p)
     && bool_decide (pol_refuse_grants_at p = PressureState.Clear) then
    fail ErrorCode.InvalidArgument "refusing grants at CLEAR would refuse every grant"
  else if negb (bool_decide (pol_refuse_grants_at p = PressureState.Unknown))
          && negb (pressure_is_known (pol_refuse_grants_at p))
          && negb (bool_decide (pol_refuse_grants_at p = PressureState.Stale)) then
    fail ErrorCode.InvalidArgument "refuse_grants_at is not a valid pressure state"
  else if negb (pressure_is_known (pol_reduce_at p)) then
    fail ErrorCode.InvalidArgument "reduce_at must be a known pressure state"
  else Good tt.

Definition policy_validate (p : PoolPolicy) : Result unit :=
  if pol_id p =? 0 then fail ErrorCode.InvalidArgument "policy id must be non-zero"
  else if negb (String.eqb (pol_name p) "") && negb (is_valid_name (pol_name p)) then
    fail ErrorCode.NameTooLong "policy name must be 1..64 characters of [A-Za-z0-9_.-]"
  else
    BF_TRY (thresholds_validate (pp_thresholds (pol_pressure p)));
    BF_TRY (validate_overcommit_borrow p);
    BF_TRY (validate_bounds p);
    validate_pressure p.

Definition pool_descriptor_validate (d : PoolDescriptor) : Result unit :=
  if pd_id d =? 0 then fail ErrorCode.InvalidArgument "pool id must be non-zero"
  else if negb (is_valid_name (pd_name d)) then
    fail ErrorCode.NameTooLong "pool name must be 1..64 characters of [A-Za-z0-9_.-]"
  else if pd_raw_units d =? 0 then fail ErrorCode.InvalidArgument "pool raw capacity must be non-zero"
  else if kMaxUnitsPerPool <? pd_raw_units d then
    fail ErrorCode.Overflow "pool raw capacity exceeds the supported bound"
  else if pd_raw_units d <? pd_protected_units d then
    fail ErrorCode.ProtectedHeadroomViolation "protected headroom exceeds raw capacity"
  else if pd_protected_units d =? pd_raw_units d then
    fail ErrorCode.ProtectedHeadroomViolation "a pool whose entire capacity is protected can never allocate"
  else if negb (valid (pd_backend d)) then fail ErrorCode.UnknownBackend "pool must reference a backend"
  else if negb (valid (pd_policy d)) then fail ErrorCode.UnknownPolicy "pool must reference a policy"
  else if pd_parent d =? pd_id d then fail ErrorCode.PoolCycle "pool cannot be its own parent"
  else Good tt.

(** ** Lemmas *)

Lemma thresholds_validate_spec t :
  thresholds_validate t = Good tt <->
  th_elevated_bp t <> 0 /\ th_elevated_bp t < th_high_bp t < th_critical_bp t /\ th_critical_bp t <= kScale.
Proof.
  unfold thresholds_validate, fail.
  destruct (Z.eqb_spec (th_elevated_bp t) 0); [split; [done|lia]|].
  destruct (Z.leb_spec (th_high_bp t) (th_elevated_bp t)); [split; [done|lia]|].
  destruct (Z.leb_spec (th_critical_bp t) (th_high_bp t)); [split; [done|lia]|].
  destruct (Z.ltb_spec kScale (th_critical_bp t)); [split; [done|lia]|].
  split; [intros _; lia|done].
Qed.

Lemma utilization_at_least_spec used usable band :
  is_u64 used -> is_u64 usable -> is_u64 band -> 0 < usable ->
  utilization_at_least used usable band = (band * usable <=? used * kScale).
Proof.
  intros Hu Hs Hb Hpos. unfold utilization_at_least.
  destruct (Z.eqb_spec usable 0) as [|_]; [lia|]. apply Bool.eq_iff_eq_true. rewrite !Z.leb_le.
  assert (is_u64 kScale) as Hk by (unfold kScale; u64_lia).
  destruct (mul_compare_cases used kScale band usable) as [[-> ?]|[[-> ?]|[-> ?]]]; auto; lia.
Qed.

(** The bounds a validated policy gives the grant arithmetic. *)
Lemma policy_validate_bounds p :
  policy_validate p = Good tt ->
  pol_id p <> 0 /\ oc_limit_units (pol_overcommit p) <= kMaxOvercommitUnits /\
  bw_limit_units (pol_borrow p) <= kMaxUnitsPerPool /\
  pol_max_single_allocation_units p <= kMaxUnitsPerPool /\
  thresholds_validate (pp_thresholds (pol_pressure p)) = Good tt.
Proof.
  unfold policy_validate. destruct (Z.eqb_spec (pol_id p) 0); [done|].
  destruct (_ && _); [done|]. rewrite !result_bind_good. intros ([] & Ht & H).
  apply result_bind_good in H as ([] & Hob & H). apply result_bind_good in H as ([] & Hb & _).
  split; [done|]. unfold validate_overcommit_borrow in Hob. apply result_bind_good in Hob as ([] & Hoc & Hbw).
  repeat split; try done.
  - destruct (decide _); [|apply reject_if_good in Hoc; u64_lia].
    destruct (_ =? 0); [done|]. destruct (Z.ltb_spec kMaxOvercommitUnits (oc_limit_units (pol_overcommit p))); [done|lia].
  - destruct (_ && _) eqn:Hf in Hbw; [done|]. clear Hoc. destruct (decide _) as [_|Hn].
    + destruct (_ =? 0); [done|].
      destruct (Z.ltb_spec kMaxUnitsPerPool (bw_limit_units (pol_borrow p))); [done|lia].
    + destruct (bw_mode (pol_borrow p)); [|done]. rewrite bool_decide_true in Hf by done.
      destruct (Z.eqb_spec (bw_limit_units (pol_borrow p)) 0); [u64_lia|done].
  - unfold validate_bounds in Hb.
    destruct (Z.ltb_spec kMaxUnitsPerPool (pol_max_single_allocation_units p)); [done|lia].
Qed.

Lemma pool_descriptor_validate_bounds d :
  pool_descriptor_validate d = Good tt ->
  pd_id d <> 0 /\ pd_raw_units d <> 0 /\ pd_raw_units d <= kMaxUnitsPerPool /\ pd_protected_units d < pd_raw_units d /\
  pd_parent d <> pd_id d.
Proof.
  unfold pool_descriptor_validate.
  repeat match goal with |- context [if ?c then _ else _] => destruct c eqn:?; [done|] end.
  intros _. lia.
Qed.

Definition valid_thresholds (t : Thresholds) : Prop :=
  is_u32 (th_elevated_bp t) /\ is_u32 (th_high_bp t) /\ is_u32 (th_critical_bp t) /\
  thresholds_validate t = Good tt.

(** ** Properties *)

(** Classification is exact and total: with validated thresholds and a non-empty
    pool, the state is the highest band whose boundary [band * usable <= used * 10000]
    holds over the integers (no rounding, no overflow), and [binding_bp] names that band.
    [utilization_bp] is the utilisation in basis points clamped at 10000, except that a
    usage above 2^64 / 10000 units always reports 10000. *)
Theorem classify_pressure_exact (t : Thresholds) (used usable : Z) (overcommitted : bool) :
  valid_thresholds t -> is_u64 used -> is_u64 usable -> 0 < usable ->
  let o := classify_pressure t used usable overcommitted in
  (po_state o = PressureState.Critical <-> th_critical_bp t * usable <= used * kScale) /\
  (po_state o = PressureState.High <->
     th_high_bp t * usable <= used * kScale < th_critical_bp t * usable) /\
  (po_state o = PressureState.Elevated <->
     th_elevated_bp t * usable <= used * kScale < th_high_bp t * usable) /\
  (po_state o = PressureState.Clear <-> used * kScale < th_elevated_bp t * usable) /\
  po_utilization_bp o =
    (if u64_max <? used * kScale then kScale else Z.min kScale (used * kScale / usable)) /\
  po_binding_bp o = match po_state o with
                    | PressureState.Critical => th_critical_bp t
                    | PressureState.High => th_high_bp t
                    | PressureState.Elevated => th_elevated_bp t
                    | _ => 0
                    end /\
  po_overcommitted o = overcommitted.
Proof.
  intros (He & Hh & Hc & Hv) Hu Hs Hpos. apply thresholds_validate_spec in Hv as (Hv0 & Hv1 & Hv2).
  assert (th_elevated_bp t * usable < th_high_bp t * usable < th_critical_bp t * usable) as Hord by nia.
  assert (is_u64 kScale) as Hk by (unfold kScale; u64_lia).
  unfold classify_pressure. destruct (Z.eqb_spec usable 0) as [|_]; [lia|].
  assert ((let '(overflow, scaled) := mul_overflow used kScale in
    if overflow then kScale else if kScale <=? scaled / usable then kScale else wrap32 (scaled / usable))
    = if u64_max <? used * kScale then kScale else Z.min kScale (used * kScale / usable)) as Hbp.
  { destruct (mul_overflow_cases used kScale Hu Hk) as [[? ->]|[? ->]].
    - rewrite (proj2 (Z.ltb_ge _ _)) by done.
      destruct (Z.leb_spec kScale (used * kScale / usable)); [lia|]. unfold wrap32.
      assert (0 <= used * kScale / usable) by (apply Z.div_pos; unfold kScale; u64_lia).
      rewrite Z.mod_small by (unfold kScale in *; lia). lia.
    - by rewrite (proj2 (Z.ltb_lt _ _)). }
  destruct (mul_overflow used kScale) as [ov scaled]. rewrite Hbp.
  rewrite !utilization_at_least_spec by first [done|lia|u64_lia].
  generalize (u64_max <? used * kScale).
  generalize dependent (th_elevated_bp t * usable). generalize dependent (th_high_bp t * usable).
  generalize dependent (th_critical_bp t * usable). generalize (used * kScale / usable).
  generalize (used * kScale). clear. intros u q c h e Hord b.
  destruct (Z.leb_spec c u), (Z.leb_spec h u), (Z.leb_spec e u); simpl; try (exfalso; lia);
    (split_and!; [split; [first [done|intros; lia]|first [done|intros; exfalso; lia]]..|done|done|done]).
Qed.

Lemma classify_pressure_exact_witness :
  po_state (classify_pressure default_Thresholds 85 100 false) = PressureState.High.
Proof.
  destruct (classify_pressure_exact default_Thresholds 85 100 false) as (_ & H & _);
    [vm_compute; intuition congruence|u64_lia|u64_lia|lia|].
  apply H. unfold kScale. simpl. lia.
Defined.

(** A pool a quarter full, whose usage exceeds 2^64 / 10000 units, is classified CLEAR and
    yet reported at 10000 basis points: the fallback of the scaled product. *)
Lemma classify_pressure_saturated_bp :
  let o := classify_pressure default_Thresholds (2 ^ 58) (2 ^ 60) false in
  po_state o = PressureState.Clear /\ po_utilization_bp o = 10000.
Proof. by vm_compute. Qed.
