(* ===== verification/Accounting.v ===== *)
(** * Accounting closure

    [src/accounting.cpp]: the aggregates of one pool, the closure identity they must
    satisfy, and the two checkers that report every violation of it. *)

From stdpp Require Import pretty.
From S2P Require Import Prelude Ints Hash Enums Status Model.

Record AccountingViolation := mkAccountingViolation {
  vl_fault : AccountingFault; vl_pool : Z; vl_detail : string
}.

Record AccountingReport := mkAccountingReport {
  rep_closed : bool; rep_pools_checked : Z; rep_raw_total : Z; rep_protected_total : Z;
  rep_allocated_total : Z; rep_free_total : Z; rep_borrowed_total : Z; rep_lent_total : Z;
  rep_overcommit_total : Z; rep_violations : list AccountingViolation
}.

#[export] Instance settable_AccountingReport : Settable AccountingReport := fun r =>
  mkAccountingReport (rep_closed r) (rep_pools_checked r) (rep_raw_total r) (rep_protected_total r)
    (rep_allocated_total r) (rep_free_total r) (rep_borrowed_total r) (rep_lent_total r)
    (rep_overcommit_total r) (rep_violations r).

Definition default_AccountingReport : AccountingReport :=
  mkAccountingReport true 0 0 0 0 0 0 0 0 [].

Definition kMaxViolations : nat := 64.

Definition add_violation (fault : AccountingFault) (pool : Z) (detail : string)
    (report : AccountingReport) : AccountingReport :=
  let report := report <| rep_closed := false |> in
  if (length (rep_violations report) <? kMaxViolations)%nat then
    report <| rep_violations ::= fun l => l ++ [mkAccountingViolation fault pool detail] |>
  else report.

Definition u64_text (label : string) (value : Z) : string :=
  snprintf 64 (label ++ "=" ++ pretty value)%string.

Definition two_texts (l1 : string) (v1 : Z) (l2 : string) (v2 : Z) : string :=
  (u64_text l1 v1 ++ " " ++ u64_text l2 v2)%string.

(** [if (add_overflow(a, b, &out)) out = max;]. *)
Definition saturated (s : bool * Z) : Z := if fst s then u64_max else snd s.

Definition own_usage (a : PoolAccounting) : Z :=
  let base := if pa_borrowed_in a <=? pa_allocated a then sub64 (pa_allocated a) (pa_borrowed_in a) else 0 in
  saturated (add_overflow base (pa_lent_out a)).

Definition closure_lhs (a : PoolAccounting) : Z :=
  let '(o, sum) := add_overflow (pa_raw a) (pa_borrowed_in a) in
  if o then u64_max else
  let '(o, sum) := add_overflow sum (pa_overcommit_used a) in
  if o then u64_max else sum.

Definition closure_rhs (a : PoolAccounting) : Z :=
  let '(o, sum) := add_overflow (pa_protected_units a) (pa_allocated a) in
  if o then u64_max else
  let '(o, sum) := add_overflow sum (pa_free a) in
  if o then u64_max else
  let '(o, sum) := add_overflow sum (pa_lent_out a) in
  if o then u64_max else sum.

(** [AccountingReport::status]. *)
Definition report_status (r : AccountingReport) : Result unit :=
  if rep_closed r then Good tt
  else
    let detail := match rep_violations r with
      | [] => "accounting closure failed"
      | v :: _ =>
          ("accounting closure failed: " ++ AccountingFault.to_string (vl_fault v) ++
           (if String.eqb (vl_detail v) "" then "" else " (" ++ vl_detail v ++ ")"))%string
      end in
    fail ErrorCode.AccountingViolation detail.

(** ** One pool *)

(** The closure sides as the checker computes them: [add_overflow(...) || add_overflow(...)]. *)
Definition sum_step (s : bool * Z) (y : Z) : bool * Z :=
  if fst s then s else add_overflow (snd s) y.

Definition checked_sum (l : list Z) : bool * Z :=
  match l with
  | [] => (false, 0)
  | x :: l' => fold_left sum_step l' (false, x)
  end.

Definition check_split (a : PoolAccounting) (report : AccountingReport) : AccountingReport :=
  let '(o, split) := add_overflow (pa_reserved a) (pa_committed a) in
  if o then add_violation AccountingFault.SaturatedField (pa_pool a) "reserved + committed" report
  else if negb (split =? pa_allocated a) then
    add_violation AccountingFault.AllocationSplitMismatch (pa_pool a)
      (two_texts "reserved+committed" split "allocated" (pa_allocated a)) report
  else report.

Definition check_classes (a : PoolAccounting) (report : AccountingReport) : AccountingReport :=
  let '(o, classes) := add_overflow (pa_pinned a) (pa_reclaimable a) in
  if o then add_violation AccountingFault.SaturatedField (pa_pool a) "pinned + reclaimable" report
  else if negb (classes =? pa_allocated a) then
    add_violation AccountingFault.PinnedReclaimableMismatch (pa_pool a)
      (two_texts "pinned+reclaimable" classes "allocated" (pa_allocated a)) report
  else report.

Definition check_closure_sides (a : PoolAccounting) (report : AccountingReport) : AccountingReport :=
  let '(sat_l, lhs) := checked_sum [pa_raw a; pa_borrowed_in a; pa_overcommit_used a] in
  let '(sat_r, rhs) := checked_sum [pa_protected_units a; pa_allocated a; pa_free a; pa_lent_out a] in
  if sat_l || sat_r then
    add_violation AccountingFault.SaturatedField (pa_pool a) "closure side saturated" report
  else if negb (lhs =? rhs) then
    add_violation AccountingFault.PoolClosureMismatch (pa_pool a) (two_texts "lhs" lhs "rhs" rhs) report
  else report.

Definition add_violation_if (c : bool) (fault : AccountingFault) (pool : Z) (detail : string)
    (report : AccountingReport) : AccountingReport :=
  if c then add_violation fault pool detail report else report.

Definition check_pool_accounting (a : PoolAccounting) (mode : OvercommitMode) (overcommit_limit : Z) :
    AccountingReport :=
  let report := default_AccountingReport <| rep_pools_checked := 1 |> <| rep_raw_total := pa_raw a |>
    <| rep_protected_total := pa_protected_units a |> <| rep_allocated_total := pa_allocated a |>
    <| rep_free_total := pa_free a |> <| rep_borrowed_total := pa_borrowed_in a |>
    <| rep_lent_total := pa_lent_out a |> <| rep_overcommit_total := pa_overcommit_used a |> in
  let report := add_violation_if (pa_raw a <? pa_protected_units a) AccountingFault.ProtectedExceedsRaw
    (pa_pool a) (two_texts "protected" (pa_protected_units a) "raw" (pa_raw a)) report in
  let expected_usable :=
    if pa_protected_units a <=? pa_raw a then sub64 (pa_raw a) (pa_protected_units a) else 0 in
  let report := add_violation_if (negb (pa_usable a =? expected_usable)) AccountingFault.UsableMismatch
    (pa_pool a) (two_texts "declared" (pa_usable a) "expected" expected_usable) report in
  let report := check_closure_sides a (check_classes a (check_split a report)) in
  let report := add_violation_if (negb (pa_free a =? 0) && negb (pa_overcommit_used a =? 0))
    AccountingFault.FreeWithOvercommit (pa_pool a)
    (two_texts "free" (pa_free a) "overcommit" (pa_overcommit_used a)) report in
  let report := add_violation_if
    (negb (pa_overcommit_used a =? 0) && negb (bool_decide (mode = OvercommitMode.Bounded)))
    AccountingFault.OvercommitWithoutPolicy (pa_pool a)
    (u64_text "overcommit" (pa_overcommit_used a)) report in
  let report := add_violation_if (overcommit_limit <? pa_overcommit_used a)
    AccountingFault.OvercommitBeyondLimit (pa_pool a)
    (two_texts "overcommit" (pa_overcommit_used a) "limit" overcommit_limit) report in
  let allowance := saturated (add_overflow (pa_usable a) (pa_overcommit_used a)) in
  let report := add_violation_if (allowance <? pa_free a) AccountingFault.FreeAboveUsable (pa_pool a)
    (two_texts "free" (pa_free a) "allowance" allowance) report in
  let own := own_usage a in
  let max_own := saturated (add_overflow (pa_usable a) overcommit_limit) in
  add_violation_if (max_own <? own) AccountingFault.OwnUsageAboveAllowance (pa_pool a)
    (two_texts "own_usage" own "allowance" max_own) report.

(** ** All pools *)

(** One running total: [ok = ok && !add_overflow(total, x, &next); total = next;]. *)
Definition total_step (total x : Z) (s : bool * Z) : bool * Z :=
  let '(ok, next) := s in
  if ok then let '(o, out) := add_overflow total x in (negb o, out) else (false, next).

#[global] Arguments total_step : simpl never.

Definition global_step (report : AccountingReport) (pool : PoolAccounting) : AccountingReport :=
  let single := check_pool_accounting pool OvercommitMode.Bounded (pa_overcommit_limit pool) in
  let report := report <| rep_closed ::= fun c => c && rep_closed single |>
    <| rep_violations ::= fun l => take (Nat.max kMaxViolations (length l)) (l ++ rep_violations single) |>
    <| rep_pools_checked ::= fun n => add64 n 1 |> in
  let s := total_step (rep_raw_total report) (pa_raw pool) (true, 0) in
  let report := report <| rep_raw_total := snd s |> in
  let s := total_step (rep_protected_total report) (pa_protected_units pool) s in
  let report := report <| rep_protected_total := snd s |> in
  let s := total_step (rep_allocated_total report) (pa_allocated pool) s in
  let report := report <| rep_allocated_total := snd s |> in
  let s := total_step (rep_free_total report) (pa_free pool) s in
  let report := report <| rep_free_total := snd s |> in
  let s := total_step (rep_borrowed_total report) (pa_borrowed_in pool) s in
  let report := report <| rep_borrowed_total := snd s |> in
  let s := total_step (rep_lent_total report) (pa_lent_out pool) s in
  let report := report <| rep_lent_total := snd s |> in
  let s := total_step (rep_overcommit_total report) (pa_overcommit_used pool) s in
  let report := report <| rep_overcommit_total := snd s |> in
  if fst s then report
  else add_violation AccountingFault.SaturatedField (pa_pool pool) "global totals" report.

(** The checks on the totals, after the loop. *)
Definition global_verdict (report : AccountingReport) : AccountingReport :=
  let report := add_violation_if (negb (rep_borrowed_total report =? rep_lent_total report))
    AccountingFault.GlobalBorrowMismatch 0
    (two_texts "borrowed" (rep_borrowed_total report) "lent" (rep_lent_total report)) report in
  let '(sat_l, lhs) := checked_sum [rep_raw_total report; rep_overcommit_total report] in
  let '(sat_r, rhs) :=
    checked_sum [rep_protected_total report; rep_allocated_total report; rep_free_total report] in
  if sat_l || sat_r then
    add_violation AccountingFault.SaturatedField 0 "global closure" report
  else if negb (lhs =? rhs) then
    add_violation AccountingFault.GlobalClosureMismatch 0 (two_texts "lhs" lhs "rhs" rhs) report
  else report.

Definition check_global_accounting (pools : list PoolAccounting) : AccountingReport :=
  global_verdict (fold_left global_step pools default_AccountingReport).

(** ** What the checkers decide *)

(** Closure of one pool over the integers. *)
Record pool_balanced (a : PoolAccounting) (mode : OvercommitMode) (limit : Z) : Prop := {
  bal_protected : pa_protected_units a <= pa_raw a;
  bal_usable : pa_usable a = pa_raw a - pa_protected_units a;
  bal_split : pa_reserved a + pa_committed a = pa_allocated a;
  bal_classes : pa_pinned a + pa_reclaimable a = pa_allocated a;
  bal_closure : pa_raw a + pa_borrowed_in a + pa_overcommit_used a =
    pa_protected_units a + pa_allocated a + pa_free a + pa_lent_out a;
  bal_range : pa_raw a + pa_borrowed_in a + pa_overcommit_used a <= u64_max;
  bal_exclusive : pa_free a = 0 \/ pa_overcommit_used a = 0;
  bal_mode : pa_overcommit_used a = 0 \/ mode = OvercommitMode.Bounded;
  bal_limit : pa_overcommit_used a <= limit;
  bal_free : pa_free a <= pa_usable a + pa_overcommit_used a;
  bal_own : Z.max 0 (pa_allocated a - pa_borrowed_in a) + pa_lent_out a <= pa_usable a + limit
}.

Definition accounting_wf (a : PoolAccounting) : Prop :=
  is_u64 (pa_raw a) /\ is_u64 (pa_protected_units a) /\ is_u64 (pa_usable a) /\
  is_u64 (pa_allocated a) /\ is_u64 (pa_reserved a) /\ is_u64 (pa_committed a) /\
  is_u64 (pa_pinned a) /\ is_u64 (pa_reclaimable a) /\ is_u64 (pa_borrowed_in a) /\
  is_u64 (pa_lent_out a) /\ is_u64 (pa_overcommit_used a) /\ is_u64 (pa_overcommit_limit a) /\
  is_u64 (pa_free a).

(** ** Lemmas *)

Lemma add_violation_closed fault pool detail r : rep_closed (add_violation fault pool detail r) = false.
Proof. unfold add_violation. by destruct (_ <? _)%nat. Qed.

Lemma add_violation_if_closed c fault pool detail r :
  rep_closed (add_violation_if c fault pool detail r) = negb c && rep_closed r.
Proof. destruct c; [apply add_violation_closed|done]. Qed.

Lemma add_overflow_if (a b : Z) :
  is_u64 a -> is_u64 b ->
  exists out, add_overflow a b = (u64_max <? a + b, out) /\ is_u64 out /\ (a + b <= u64_max -> out = a + b).
Proof.
  intros Ha Hb. destruct (add_overflow_cases a b Ha Hb) as [[H ->]|[H ->]].
  - exists (a + b). rewrite (proj2 (Z.ltb_ge _ _)) by done. split; [done|]. split; [u64_lia|done].
  - eexists. rewrite (proj2 (Z.ltb_lt _ _)) by done. split; [done|]. split; [u64_lia|lia].
Qed.

Lemma saturated_add (a b : Z) :
  is_u64 a -> is_u64 b -> saturated (add_overflow a b) = Z.min u64_max (a + b).
Proof. intros Ha Hb. rewrite <- (sat_add_min a b Ha Hb). unfold sat_add, saturated. by destruct (add_overflow a b). Qed.

(** A chain of checked additions flags exactly the sums that leave 64 bits. *)
Lemma checked_sum_fold l s acc :
  Forall is_u64 l -> is_u64 acc ->
  exists out, fold_left sum_step l (s, acc) = (s || (u64_max <? acc + foldr Z.add 0 l), out) /\
    (s = false -> acc + foldr Z.add 0 l <= u64_max -> out = acc + foldr Z.add 0 l).
Proof.
  intros Hl. revert s acc. induction Hl as [|y l Hy Hl IH]; intros s acc Hacc; simpl.
  - exists acc. split; [|lia]. replace (u64_max <? acc + 0) with false; [by rewrite orb_false_r|].
    symmetry. apply Z.ltb_ge. u64_lia.
  - assert (0 <= foldr Z.add 0 l) as H0.
    { clear -Hl. induction Hl as [|z k Hz _ IH]; simpl; u64_lia. }
    unfold sum_step at 2. simpl. destruct s.
    + destruct (IH true acc Hacc) as (out & -> & _). by exists out.
    + destruct (add_overflow_if acc y Hacc Hy) as (o1 & -> & Ho1 & Heq).
      destruct (IH (u64_max <? acc + y) o1 Ho1) as (out & -> & Hout). exists out.
      destruct (Z.ltb_spec u64_max (acc + y)); simpl.
      * split; [|lia]. f_equal. symmetry. apply Z.ltb_lt. lia.
      * rewrite Heq in * by lia. rewrite Z.add_assoc. by auto.
Qed.

Lemma checked_sum_spec l :
  Forall is_u64 l ->
  exists out, checked_sum l = (u64_max <? foldr Z.add 0 l, out) /\
    (foldr Z.add 0 l <= u64_max -> out = foldr Z.add 0 l).
Proof.
  destruct l as [|x l]; intros Hl.
  - by exists 0.
  - inversion Hl; subst. destruct (checked_sum_fold l false x) as (out & He & H); [done..|].
    exists out. unfold checked_sum. rewrite He. auto.
Qed.

Lemma check_split_closed a r :
  is_u64 (pa_reserved a) -> is_u64 (pa_committed a) -> is_u64 (pa_allocated a) ->
  rep_closed (check_split a r) = (pa_reserved a + pa_committed a =? pa_allocated a) && rep_closed r.
Proof.
  intros H1 H2 H3. unfold check_split.
  destruct (add_overflow_if _ _ H1 H2) as (out & -> & Ho & Heq).
  destruct (Z.ltb_spec u64_max (pa_reserved a + pa_committed a)).
  - rewrite add_violation_closed. symmetry. rewrite (proj2 (Z.eqb_neq _ _)) by u64_lia. done.
  - rewrite Heq by done. destruct (_ =? _); [done|]. apply add_violation_closed.
Qed.

Lemma check_classes_closed a r :
  is_u64 (pa_pinned a) -> is_u64 (pa_reclaimable a) -> is_u64 (pa_allocated a) ->
  rep_closed (check_classes a r) = (pa_pinned a + pa_reclaimable a =? pa_allocated a) && rep_closed r.
Proof.
  intros H1 H2 H3. unfold check_classes.
  destruct (add_overflow_if _ _ H1 H2) as (out & -> & Ho & Heq).
  destruct (Z.ltb_spec u64_max (pa_pinned a + pa_reclaimable a)).
  - rewrite add_violation_closed. symmetry. rewrite (proj2 (Z.eqb_neq _ _)) by u64_lia. done.
  - rewrite Heq by done. destruct (_ =? _); [done|]. apply add_violation_closed.
Qed.

Lemma check_closure_sides_closed a r :
  accounting_wf a ->
  rep_closed (check_closure_sides a r) =
  (pa_raw a + pa_borrowed_in a + pa_overcommit_used a =?
   pa_protected_units a + pa_allocated a + pa_free a + pa_lent_out a) &&
  (pa_raw a + pa_borrowed_in a + pa_overcommit_used a <=? u64_max) && rep_closed r.
Proof.
  intros (?&?&?&?&?&?&?&?&?&?&?&?&?). unfold check_closure_sides.
  destruct (checked_sum_spec [pa_raw a; pa_borrowed_in a; pa_overcommit_used a]) as (l & -> & Hl);
    [by rewrite !Forall_cons, Forall_nil|].
  destruct (checked_sum_spec [pa_protected_units a; pa_allocated a; pa_free a; pa_lent_out a]) as (q & -> & Hq);
    [by rewrite !Forall_cons, Forall_nil|].
  simpl in Hl, Hq |- *. rewrite !Z.add_0_r, !Z.add_assoc in *.
  set (L := pa_raw a + pa_borrowed_in a + pa_overcommit_used a) in *.
  set (R := pa_protected_units a + pa_allocated a + pa_free a + pa_lent_out a) in *.
  destruct (Z.ltb_spec u64_max L), (Z.ltb_spec u64_max R), (Z.eqb_spec L R), (Z.leb_spec L u64_max);
    simpl; rewrite ?add_violation_closed; try done; try lia;
    rewrite ?Hl, ?Hq by lia; destruct (Z.eqb_spec L R); simpl; rewrite ?add_violation_closed; done.
Qed.

Lemma check_pool_accounting_spec a mode limit :
  accounting_wf a -> is_u64 limit ->
  rep_closed (check_pool_accounting a mode limit) = true <-> pool_balanced a mode limit.
Proof.
  intros Hwf Hlim. pose proof Hwf as (?&?&?&?&?&?&?&?&?&?&?&?&?). unfold check_pool_accounting.
  rewrite !saturated_add, !add_violation_if_closed, check_closure_sides_closed, check_classes_closed,
    check_split_closed, !add_violation_if_closed by done.
  assert (own_usage a = Z.min u64_max (Z.max 0 (pa_allocated a - pa_borrowed_in a) + pa_lent_out a)) as ->.
  { unfold own_usage. destruct (Z.leb_spec (pa_borrowed_in a) (pa_allocated a)).
    - rewrite sub64_exact, saturated_add by u64_lia. f_equal. lia.
    - rewrite saturated_add by u64_lia. f_equal. lia. }
  assert ((if pa_protected_units a <=? pa_raw a then sub64 (pa_raw a) (pa_protected_units a) else 0)
    = Z.max 0 (pa_raw a - pa_protected_units a)) as ->.
  { destruct (Z.leb_spec (pa_protected_units a) (pa_raw a)); [rewrite sub64_exact by u64_lia|]; lia. }
  simpl rep_closed. rewrite !andb_true_r, !andb_true_iff, !negb_true_iff, !andb_false_iff, !negb_false_iff,
    bool_decide_eq_true, !Z.ltb_ge, !Z.eqb_eq, Z.leb_le.
  split; [intros H'; destruct_and! H'; constructor; first [done|u64_lia]|].
  intros []. split_and!; first [done|u64_lia].
Qed.

(** Sum of a field over a list of pools. *)
Definition total (f : PoolAccounting -> Z) (pools : list PoolAccounting) : Z :=
  foldr (fun p acc => f p + acc) 0 pools.

Definition totals_exact (r r0 : AccountingReport) (pools : list PoolAccounting) : Prop :=
  rep_raw_total r = rep_raw_total r0 + total pa_raw pools /\
  rep_protected_total r = rep_protected_total r0 + total pa_protected_units pools /\
  rep_allocated_total r = rep_allocated_total r0 + total pa_allocated pools /\
  rep_free_total r = rep_free_total r0 + total pa_free pools /\
  rep_borrowed_total r = rep_borrowed_total r0 + total pa_borrowed_in pools /\
  rep_lent_total r = rep_lent_total r0 + total pa_lent_out pools /\
  rep_overcommit_total r = rep_overcommit_total r0 + total pa_overcommit_used pools.

Definition totals_fit (r : AccountingReport) (pools : list PoolAccounting) : Prop :=
  rep_raw_total r + total pa_raw pools <= u64_max /\
  rep_protected_total r + total pa_protected_units pools <= u64_max /\
  rep_allocated_total r + total pa_allocated pools <= u64_max /\
  rep_free_total r + total pa_free pools <= u64_max /\
  rep_borrowed_total r + total pa_borrowed_in pools <= u64_max /\
  rep_lent_total r + total pa_lent_out pools <= u64_max /\
  rep_overcommit_total r + total pa_overcommit_used pools <= u64_max.

Definition totals_wf (r : AccountingReport) : Prop :=
  is_u64 (rep_raw_total r) /\ is_u64 (rep_protected_total r) /\ is_u64 (rep_allocated_total r) /\
  is_u64 (rep_free_total r) /\ is_u64 (rep_borrowed_total r) /\ is_u64 (rep_lent_total r) /\
  is_u64 (rep_overcommit_total r).

Definition balanced (p : PoolAccounting) : Prop :=
  pool_balanced p OvercommitMode.Bounded (pa_overcommit_limit p).

Lemma total_step_ok t x n :
  is_u64 t -> is_u64 x -> t + x <= u64_max -> total_step t x (true, n) = (true, t + x).
Proof.
  intros Ht Hx H. unfold total_step. destruct (add_overflow_cases t x Ht Hx) as [[_ ->]|[? _]]; [done|lia].
Qed.

Lemma total_step_fail t x s :
  is_u64 t -> is_u64 x -> fst s = true -> fst (total_step t x s) = true -> t + x <= u64_max.
Proof.
  intros Ht Hx. destruct s as [ok n]. cbn [fst]. intros ->. unfold total_step.
  destruct (add_overflow_cases t x Ht Hx) as [[? _]|[? ->]]; done.
Qed.

Lemma total_step_mono t x s : fst (total_step t x s) = true -> fst s = true.
Proof. by destruct s as [[] n]. Qed.

Lemma global_step_closed r p :
  rep_closed (global_step r p) = true ->
  rep_closed r = true /\
  rep_closed (check_pool_accounting p OvercommitMode.Bounded (pa_overcommit_limit p)) = true.
Proof.
  unfold global_step. destruct (fst _); [|by rewrite add_violation_closed].
  simpl. by rewrite andb_true_iff.
Qed.

Lemma global_step_spec r p :
  totals_wf r -> accounting_wf p ->
  (rep_closed (global_step r p) = true <-> rep_closed r = true /\ balanced p /\ totals_fit r [p]) /\
  (rep_closed (global_step r p) = true -> totals_exact (global_step r p) r [p]).
Proof.
  intros Hr Hp. pose proof (check_pool_accounting_spec p OvercommitMode.Bounded (pa_overcommit_limit p) Hp) as Hspec.
  destruct Hr as (?&?&?&?&?&?&?). pose proof Hp as (?&?&?&?&?&?&?&?&?&?&?&?&?).
  assert (rep_closed (global_step r p) = true -> totals_fit r [p]) as Hfit.
  { unfold global_step. destruct (fst _) eqn:Hf; [|by rewrite add_violation_closed]. intros _.
    unfold totals_fit, total. simpl in Hf |- *. rewrite !Z.add_0_r.
    assert (forall t x s, is_u64 t -> is_u64 x -> fst (total_step t x s) = true ->
              t + x <= u64_max /\ fst s = true) as Hstep.
    { intros t x s Ht Hx Hs. pose proof (total_step_mono _ _ _ Hs). split; [|done].
      by eapply total_step_fail. }
    apply Hstep in Hf as [? Hf]; [|done..]. apply Hstep in Hf as [? Hf]; [|done..].
    apply Hstep in Hf as [? Hf]; [|done..]. apply Hstep in Hf as [? Hf]; [|done..].
    apply Hstep in Hf as [? Hf]; [|done..]. apply Hstep in Hf as [? Hf]; [|done..].
    apply Hstep in Hf as [? Hf]; [|done..]. auto 10. }
  assert (totals_fit r [p] ->
    rep_closed (global_step r p) = rep_closed r &&
      rep_closed (check_pool_accounting p OvercommitMode.Bounded (pa_overcommit_limit p)) /\
    totals_exact (global_step r p) r [p]) as Hex.
  { unfold totals_fit, totals_exact, total. simpl foldr. rewrite !Z.add_0_r.
    intros (?&?&?&?&?&?&?). unfold global_step. simpl.
    rewrite !total_step_ok by done. simpl. rewrite ?add64_exact by u64_lia. auto 10. }
  specialize (Hspec ltac:(done)). split; [|by intros H'; apply Hex, Hfit].
  split.
  - intros Hc. destruct (global_step_closed r p Hc) as [? Hb]. rewrite Hspec in Hb. auto.
  - intros (Hc & Hb & Ht). destruct (Hex Ht) as [-> _]. rewrite Hc. by apply Hspec.
Qed.

Lemma global_fold_closed pools r :
  rep_closed (fold_left global_step pools r) = true -> rep_closed r = true.
Proof.
  revert r. induction pools as [|p pools IH]; intros r; simpl; [done|].
  intros H%IH. by apply global_step_closed in H as [].
Qed.

Lemma totals_nonneg pools :
  Forall accounting_wf pools ->
  0 <= total pa_raw pools /\ 0 <= total pa_protected_units pools /\ 0 <= total pa_allocated pools /\
  0 <= total pa_free pools /\ 0 <= total pa_borrowed_in pools /\ 0 <= total pa_lent_out pools /\
  0 <= total pa_overcommit_used pools.
Proof.
  induction 1 as [|q l (?&?&?&?&?&?&?&?&?&?&?&?&?) _ IH]; simpl; [unfold total; simpl; lia|].
  destruct_and! IH. unfold total in *. simpl. split_and!; u64_lia.
Qed.

Lemma global_fold_spec pools r :
  totals_wf r -> Forall accounting_wf pools ->
  (rep_closed (fold_left global_step pools r) = true <->
     rep_closed r = true /\ Forall balanced pools /\ totals_fit r pools) /\
  (rep_closed (fold_left global_step pools r) = true ->
     totals_exact (fold_left global_step pools r) r pools).
Proof.
  intros Hr Hp. revert r Hr.
  induction Hp as [|p pools Hp Hps IH]; intros r Hr; simpl.
  { unfold totals_fit, totals_exact, total. simpl. destruct Hr as (?&?&?&?&?&?&?).
    rewrite !Z.add_0_r. split; [|auto 10].
    split; [intros; repeat split; [done|constructor|u64_lia..]|by intros (? & _)]. }
  destruct (global_step_spec r p Hr Hp) as [Hc He].
  pose proof (totals_nonneg pools Hps) as Hpos.
  destruct (rep_closed (global_step r p)) eqn:Hcl.
  - destruct (proj1 Hc eq_refl) as (Hrc & Hb & Hfit). specialize (He eq_refl).
    destruct Hr as (?&?&?&?&?&?&?). pose proof Hp as (?&?&?&?&?&?&?&?&?&?&?&?&?).
    unfold totals_exact, totals_fit, total in He, Hfit. simpl in He, Hfit.
    destruct_and! He. destruct_and! Hfit.
    destruct (IH (global_step r p)) as [IHc IHe]; [unfold totals_wf; split_and!; u64_lia|].
    rewrite IHc. unfold totals_fit, totals_exact, total in *. simpl.
    split.
    + rewrite Forall_cons. split; intros (?&?&?); destruct_and!; split_and!; try done; lia.
    + intros Hx. destruct IHe as (?&?&?&?&?&?&?); [by apply IHc|]. split_and!; lia.
  - assert (rep_closed (fold_left global_step pools (global_step r p)) = false) as Hf.
    { destruct (rep_closed (fold_left _ _ _)) eqn:Hx; [|done].
      apply global_fold_closed in Hx. congruence. }
    rewrite Hf. split; [|done]. split; [done|]. intros (Hrc & [Hb _]%Forall_cons & Hfit).
    apply Hc. split_and!; [done..|]. unfold totals_fit, total in *. simpl in *.
    destruct_and!. split_and!; lia.
Qed.

Lemma totals_closure pools :
  Forall balanced pools ->
  total pa_raw pools + total pa_borrowed_in pools + total pa_overcommit_used pools =
  total pa_protected_units pools + total pa_allocated pools + total pa_free pools + total pa_lent_out pools.
Proof.
  induction 1 as [|p l [] _ IH]; [done|]. unfold total in *. simpl. lia.
Qed.

Lemma global_verdict_mono r : rep_closed (global_verdict r) = true -> rep_closed r = true.
Proof.
  unfold global_verdict. destruct (checked_sum _) as [s1 l], (checked_sum _) as [s2 q].
  destruct (s1 || s2); [by rewrite add_violation_closed|].
  destruct (negb (l =? q)); [by rewrite add_violation_closed|].
  rewrite add_violation_if_closed, andb_true_iff. by intros [].
Qed.

Lemma global_verdict_closed r :
  totals_wf r ->
  rep_closed (global_verdict r) = true <->
  rep_closed r = true /\ rep_borrowed_total r = rep_lent_total r /\
  rep_raw_total r + rep_overcommit_total r <= u64_max /\
  rep_raw_total r + rep_overcommit_total r =
    rep_protected_total r + rep_allocated_total r + rep_free_total r.
Proof.
  intros (?&?&?&?&?&?&?). unfold global_verdict.
  set (r' := add_violation_if _ _ _ _ r).
  assert (rep_raw_total r' = rep_raw_total r /\ rep_overcommit_total r' = rep_overcommit_total r /\
    rep_protected_total r' = rep_protected_total r /\ rep_allocated_total r' = rep_allocated_total r /\
    rep_free_total r' = rep_free_total r) as (-> & -> & -> & -> & ->).
  { subst r'. unfold add_violation_if, add_violation. destruct (negb _); [|auto 10].
    destruct (_ <? _)%nat; simpl; auto 10. }
  destruct (checked_sum_spec [rep_raw_total r; rep_overcommit_total r]) as (l & -> & Hl);
    [by rewrite !Forall_cons, Forall_nil|].
  destruct (checked_sum_spec [rep_protected_total r; rep_allocated_total r; rep_free_total r])
    as (q & -> & Hq); [by rewrite !Forall_cons, Forall_nil|].
  simpl in Hl, Hq |- *. rewrite !Z.add_0_r in *.
  assert (rep_closed r' = (rep_borrowed_total r =? rep_lent_total r) && rep_closed r) as Hr'.
  { subst r'. rewrite add_violation_if_closed. by rewrite negb_involutive. }
  destruct (Z.ltb_spec u64_max (rep_raw_total r + rep_overcommit_total r)); simpl.
  { rewrite add_violation_closed. split; [done|lia]. }
  destruct (Z.ltb_spec u64_max (rep_protected_total r + (rep_allocated_total r + rep_free_total r))); simpl.
  { rewrite add_violation_closed. split; [done|lia]. }
  rewrite Hl, Hq by done.
  destruct (Z.eqb_spec (rep_raw_total r + rep_overcommit_total r)
    (rep_protected_total r + (rep_allocated_total r + rep_free_total r))); simpl.
  - rewrite Hr', andb_true_iff, Z.eqb_eq. split; [intros []|intros (?&?&?&?)]; split_and!; try done; lia.
  - rewrite add_violation_closed. split; [done|lia].
Qed.

(** The whole check, on lines within 64 bits. *)
Lemma check_global_accounting_spec (pools : list PoolAccounting) :
  Forall accounting_wf pools ->
  rep_closed (check_global_accounting pools) = true <->
  Forall balanced pools /\ total pa_borrowed_in pools = total pa_lent_out pools /\
  total pa_borrowed_in pools <= u64_max /\ total pa_raw pools + total pa_overcommit_used pools <= u64_max.
Proof.
  intros Hwf. unfold check_global_accounting.
  destruct (global_fold_spec pools default_AccountingReport) as [Hc He];
    [by vm_compute; intuition congruence|done|].
  set (r := fold_left global_step pools default_AccountingReport) in *.
  unfold totals_fit, totals_exact in *. simpl in Hc, He.
  destruct (totals_nonneg pools Hwf) as (?&?&?&?&?&?&?).
  assert (Forall balanced pools ->
    total pa_raw pools + total pa_borrowed_in pools + total pa_overcommit_used pools =
    total pa_protected_units pools + total pa_allocated pools + total pa_free pools +
    total pa_lent_out pools) as Hsum by apply totals_closure.
  destruct (rep_closed r) eqn:Hrc.
  - destruct (proj1 Hc eq_refl) as (_ & Hb & Hfit). specialize (He eq_refl). specialize (Hsum Hb).
    destruct_and! He. destruct_and! Hfit.
    rewrite global_verdict_closed by (unfold totals_wf; split_and!; u64_lia).
    split; [intros (?&?&?&?)|intros (?&?&?&?)]; split_and!; try done; lia.
  - split; [intros H'%global_verdict_mono; congruence|].
    intros (Hb & Heq & Hbt & Hro). specialize (Hsum Hb).
    enough (false = true) by done. apply Hc. split_and!; try done; lia.
Qed.

(** ** Properties *)

(** [check_pool_accounting] is an exact decision procedure: it reports a closed pool
    precisely when, over the unbounded integers, the pool satisfies the split, class and
    closure identities [raw + borrowed + overcommit = protected + allocated + free + lent],
    the exclusion of free units and overcommit, and the overcommit limits, and the closure
    sides fit in 64 bits. Wrap-around can neither hide a violation nor invent one. *)
Theorem check_pool_accounting_exact (a : PoolAccounting) (mode : OvercommitMode) (limit : Z) :
  accounting_wf a -> is_u64 limit ->
  rep_closed (check_pool_accounting a mode limit) = true <-> pool_balanced a mode limit.
Proof. apply check_pool_accounting_spec. Qed.

Definition sample_accounting : PoolAccounting :=
  default_PoolAccounting <| pa_raw := 100 |> <| pa_protected_units := 10 |> <| pa_usable := 90 |>
    <| pa_allocated := 40 |> <| pa_committed := 40 |> <| pa_pinned := 40 |> <| pa_free := 50 |>.

Lemma check_pool_accounting_exact_witness :
  rep_closed (check_pool_accounting sample_accounting OvercommitMode.Forbid 0) = true.
Proof.
  apply (check_pool_accounting_exact sample_accounting OvercommitMode.Forbid 0);
    [vm_compute; intuition congruence|u64_lia|].
  constructor; simpl; first [lia|u64_lia|auto].
Defined.

(** [check_global_accounting] closes precisely when every pool balances, the borrowed
    and lent totals agree, and the totals fit in 64 bits: the global closure identity is
    then a consequence and never fails on its own. *)
Theorem check_global_accounting_exact (pools : list PoolAccounting) :
  Forall accounting_wf pools ->
  rep_closed (check_global_accounting pools) = true <->
  Forall balanced pools /\ total pa_borrowed_in pools = total pa_lent_out pools /\
  total pa_borrowed_in pools <= u64_max /\ total pa_raw pools + total pa_overcommit_used pools <= u64_max.
Proof. apply check_global_accounting_spec. Qed.

Lemma check_global_accounting_exact_witness :
  rep_closed (check_global_accounting [sample_accounting; sample_accounting]) = true.
Proof.
  apply (check_global_accounting_exact [sample_accounting; sample_accounting]);
    [repeat constructor; vm_compute; intuition congruence|].
  split; [|vm_compute; intuition congruence].
  rewrite !Forall_cons, Forall_nil. split_and!; [..|done]; constructor; simpl; first [lia|u64_lia|auto].
Defined.
