(* ===== verification/Authority.v ===== *)
(** * Authority vectors and request digests

    [src/authority.cpp] and [src/decision.cpp]: the bounded vector of identities and
    generations a decision binds, its digest, and the digests that identify requests. *)

From S2P Require Import Prelude Ints Hash Enums Status Codec Model Wire.

(** ** Authority vector *)

Definition av_count (v : AuthorityVector) : Z := Z.of_nat (length (av_entries v)).

Definition av_full (v : AuthorityVector) : bool := kMaxAuthorityVectorEntries <=? av_count v.

(** A full vector refuses the binding and stays unchanged. *)
Definition bind (kind : AuthorityKind) (value generation : Z) (v : AuthorityVector) : AuthorityVector :=
  if av_full v then v
  else v <| av_entries ::= fun l => l ++ [mkAuthorityEntry kind value generation] |>.

Definition bind_generation (kind : AuthorityKind) (generation : Z) : AuthorityVector -> AuthorityVector :=
  bind kind generation generation.

Definition bind_id (kind : AuthorityKind) (id : Z) : AuthorityVector -> AuthorityVector := bind kind id 0.

Definition has (kind : AuthorityKind) (v : AuthorityVector) : bool :=
  existsb (fun e => bool_decide (ae_kind e = kind)) (av_entries v).

Definition encode_authority (v : AuthorityVector) : Put :=
  put_u8 (av_count v) >+>
  fun w => fold_left (fun w e =>
    (put_enum (ae_kind e) >+> put_u64 (ae_value e) >+> put_u64 (ae_generation e)) w) (av_entries v) w.

Definition seal (v : AuthorityVector) : AuthorityVector :=
  v <| av_digest := digest_bytes (wr_buffer (encode_authority v writer_empty)) |>.

Definition bound_step (out : BoundGenerations) (e : AuthorityEntry) : BoundGenerations :=
  match ae_kind e with
  | AuthorityKind.Capacity => out <| bg_capacity_generation := ae_generation e |>
  | AuthorityKind.Pool => out <| bg_pool_generation := ae_generation e |>
  | AuthorityKind.Queue => out <| bg_queue_generation := ae_generation e |>
  | AuthorityKind.Policy => out <| bg_policy_generation := ae_generation e |>
  | AuthorityKind.Backend => out <| bg_backend_generation := ae_generation e |>
  | AuthorityKind.Epoch => out <| bg_epoch := ae_value e |>
  | AuthorityKind.BootIncarnation => out <| bg_boot := mkBootIncarnation (ae_value e) (ae_generation e) |>
  | _ => out
  end.

Definition bound (v : AuthorityVector) : BoundGenerations :=
  fold_left bound_step (av_entries v) default_BoundGenerations.

(** ** Request digests *)

Definition finish (p : Put) : Digest := digest_bytes (wr_buffer (p writer_empty)).

Definition encode_allocate_request (r : AllocateRequest) : Put :=
  put_enum AttemptKind.Allocate >+> put_id (aq_attempt r) >+> put_id (aq_pool r) >+> put_id (aq_queue r) >+>
  put_u64 (aq_requested_units r) >+> put_enum (aq_reclaim_class r) >+> put_u64 (aq_reclaim_priority r) >+>
  put_u64 (aq_ttl_ticks r) >+> put_bool (aq_commit_immediately r) >+> put_id (aq_parent_allocation r) >+>
  put_id (aq_provenance r) >+> put_id (aq_expected_pool_generation r) >+>
  put_id (aq_expected_policy_generation r) >+> put_id (aq_expected_queue_generation r) >+>
  put_id (aq_expected_capacity_generation r) >+> put_id (aq_expected_epoch r).

Definition allocate_digest (r : AllocateRequest) : Digest := finish (encode_allocate_request r).

Definition encode_commit_request (r : CommitRequest) : Put :=
  put_enum AttemptKind.Commit >+> put_id (cq_attempt r) >+> put_id (cq_allocation r) >+>
  put_u64 (cq_commit_units r) >+> put_id (cq_expected_pool_generation r) >+> put_id (cq_expected_epoch r).

Definition commit_digest (r : CommitRequest) : Digest := finish (encode_commit_request r).

Definition encode_release_request (r : ReleaseRequest) : Put :=
  put_enum AttemptKind.Release >+> put_id (rq_attempt r) >+> put_id (rq_allocation r) >+>
  put_u64 (rq_units r) >+> put_bool (rq_release_all r) >+> put_id (rq_expected_pool_generation r) >+>
  put_id (rq_expected_epoch r).

Definition release_digest (r : ReleaseRequest) : Digest := finish (encode_release_request r).

Definition encode_revalidate_request (r : RevalidateRequest) : Put :=
  put_enum AttemptKind.Revalidate >+> put_id (vq_attempt r) >+> put_id (vq_allocation r) >+>
  put_id (vq_expected_pool_generation r) >+> put_id (vq_expected_epoch r).

Definition revalidate_digest (r : RevalidateRequest) : Digest := finish (encode_revalidate_request r).

Definition encode_reclaim_request (r : ReclaimRequest) : Put :=
  put_enum AttemptKind.Reclaim >+> put_id (lq_attempt r) >+> put_id (lq_pool r) >+>
  put_u64 (lq_target_units r) >+> put_bool (lq_dry_run r) >+> put_id (lq_expected_pool_generation r) >+>
  put_id (lq_expected_epoch r).

Definition reclaim_digest (r : ReclaimRequest) : Digest := finish (encode_reclaim_request r).

(** ** Lemmas *)

Lemma bind_count kind value generation v :
  av_count v <= kMaxAuthorityVectorEntries -> av_count (bind kind value generation v) <= kMaxAuthorityVectorEntries.
Proof.
  unfold bind, av_full. destruct (Z.leb_spec kMaxAuthorityVectorEntries (av_count v)); [done|].
  intros _. unfold av_count. simpl. rewrite length_app. simpl. unfold av_count in *. lia.
Qed.

(** Binding into a vector with room appends the entry, so it is the one [bound] sees. *)
Lemma bound_bind kind value generation v :
  av_count v < kMaxAuthorityVectorEntries ->
  bound (bind kind value generation v) = bound_step (bound v) (mkAuthorityEntry kind value generation).
Proof.
  intros Hv. unfold bind, av_full. destruct (Z.leb_spec kMaxAuthorityVectorEntries (av_count v)); [lia|].
  unfold bound. simpl. by rewrite fold_left_app.
Qed.

Lemma has_bind kind kind' value generation v :
  av_count v < kMaxAuthorityVectorEntries ->
  has kind (bind kind' value generation v) = has kind v || bool_decide (kind' = kind).
Proof.
  intros Hv. unfold bind, av_full. destruct (Z.leb_spec kMaxAuthorityVectorEntries (av_count v)); [lia|].
  unfold has. simpl. rewrite existsb_app. simpl. by rewrite orb_false_r.
Qed.
