(* ===== verification/Persist.v ===== *)
(** * Durable store: journal, snapshot container, recovery

    [src/persistence.cpp]. The two files are byte lists. A file operation consumes one
    outcome of [ds_io] (an empty list means every later operation succeeds): a failed
    write may leave any prefix of its bytes in the file. Handles and buffering are not
    modelled; [ds_writable] stands for the open append handle. *)

From stdpp Require Import pretty.
From S2P Require Import Prelude Ints Hash Enums Status Codec Model.

(** ** Configuration *)

Record PersistenceConfig := mkPersistenceConfig {
  pc_directory : string; pc_mode : DurabilityMode; pc_compact_journal_bytes : Z;
  pc_max_journal_bytes : Z; pc_max_snapshot_bytes : Z; pc_truncate_damaged_tail : bool;
  pc_refuse_on_midfile_damage : bool
}.

#[export] Instance settable_PersistenceConfig : Settable PersistenceConfig := fun c =>
  mkPersistenceConfig (pc_directory c) (pc_mode c) (pc_compact_journal_bytes c)
    (pc_max_journal_bytes c) (pc_max_snapshot_bytes c) (pc_truncate_damaged_tail c)
    (pc_refuse_on_midfile_damage c).

Definition default_PersistenceConfig : PersistenceConfig :=
  mkPersistenceConfig "" DurabilityMode.None (Z.shiftl 64 20) (Z.shiftl 512 20) kMaxSnapshotBytes true true.

Definition persistence_validate (c : PersistenceConfig) : Result unit :=
  if String.eqb (pc_directory c) "" then
    fail ErrorCode.InvalidArgument "persistence directory must be set"
  else if 1024 <? Z.of_nat (String.length (pc_directory c)) then
    fail ErrorCode.InvalidArgument "persistence directory path is too long"
  else if (pc_max_journal_bytes c =? 0) || (Z.shiftl 4 30 <? pc_max_journal_bytes c) then
    fail ErrorCode.InvalidArgument "max_journal_bytes out of range"
  else if (pc_compact_journal_bytes c =? 0) || (pc_max_journal_bytes c <? pc_compact_journal_bytes c) then
    fail ErrorCode.InvalidArgument
      "compact_journal_bytes must be non-zero and no larger than max_journal_bytes"
  else if (pc_max_snapshot_bytes c =? 0) || (kMaxSnapshotBytes <? pc_max_snapshot_bytes c) then
    fail ErrorCode.InvalidArgument "max_snapshot_bytes out of range"
  else Good tt.

(** ** Formats *)

Definition kJournalFrameMagic : Z := 0x42464A31.
Definition kSnapshotFrameMagic : Z := 0x42465331.
Definition kSnapshotEndMagic : Z := 0x42465345.
Definition kJournalFormatVersion : Z := 1.
Definition kPersistenceFormatVersion : Z := 1.
Definition kSnapshotHeaderBytes : Z := 4 + 4 + 4 + 4 + 8 + 8 + 8 + 8.

Record SnapshotHeader := mkSnapshotHeader {
  sh_format_version : Z; sh_flags : Z; sh_payload_bytes : Z; sh_epoch : Z;
  sh_boot : BootIncarnation; sh_record_count : Z
}.

#[export] Instance settable_SnapshotHeader : Settable SnapshotHeader := fun h =>
  mkSnapshotHeader (sh_format_version h) (sh_flags h) (sh_payload_bytes h) (sh_epoch h) (sh_boot h)
    (sh_record_count h).

Definition put_snapshot_header (h : SnapshotHeader) (payload_size : Z) : Put :=
  put_u32 kSnapshotFrameMagic >+> put_u32 (sh_format_version h) >+> put_u32 (sh_flags h) >+>
  put_u32 (wrap32 payload_size) >+> put_u64 (sh_epoch h) >+> put_u64 (bi_hi (sh_boot h)) >+>
  put_u64 (bi_lo (sh_boot h)) >+> put_u64 (sh_record_count h).

Definition encode_snapshot (h : SnapshotHeader) (payload : list Z) : list Z :=
  let writer := put_snapshot_header h (Z.of_nat (length payload)) writer_empty in
  let header_crc := crc32c (wr_buffer writer) 0 in
  wr_buffer ((put_bytes payload >+> put_u32 (crc32c payload 0) >+> put_u32 header_crc >+>
              put_u32 kSnapshotEndMagic) writer).

(** The fields after the magic. *)
Definition get_snapshot_fields : Reader SnapshotHeader :=
  format_version ← get_u32; flags ← get_u32; payload_bytes ← get_u32; epoch ← get_u64;
  boot_hi ← get_u64; boot_lo ← get_u64; record_count ← get_u64;
  mret (mkSnapshotHeader format_version flags payload_bytes epoch (mkBootIncarnation boot_hi boot_lo)
    record_count).

Definition get_snapshot_trailer : Reader (Z * Z * Z) :=
  payload_crc ← get_u32; header_crc ← get_u32; end_magic ← get_u32;
  mret (payload_crc, header_crc, end_magic).

(** The header and the payload. *)
Definition decode_snapshot (data : list Z) (max_payload : Z) : Result (SnapshotHeader * list Z) :=
  let size := Z.of_nat (length data) in
  if size <? kSnapshotHeaderBytes + 12 then
    fail ErrorCode.CorruptRecord "snapshot container is truncated"
  else match get_u32 (reader_of data) with
  | (None, _) => fail ErrorCode.CorruptRecord "snapshot header"
  | (Some magic, reader) =>
    if negb (magic =? kSnapshotFrameMagic) then fail ErrorCode.CorruptRecord "snapshot magic mismatch"
    else match fst (get_snapshot_fields reader) with
    | None => fail ErrorCode.CorruptRecord "snapshot header"
    | Some header =>
      let payload_bytes := sh_payload_bytes header in
      let stored_header_crc := crc32c (take (Z.to_nat kSnapshotHeaderBytes) data) 0 in
      if negb (sh_format_version header =? kPersistenceFormatVersion) then
        fail ErrorCode.VersionMismatch "snapshot format version is not supported"
      else if max_payload <? payload_bytes then
        fail ErrorCode.SnapshotOversized "snapshot payload exceeds the configured bound"
      else if size <? kSnapshotHeaderBytes + payload_bytes + 12 then
        fail ErrorCode.CorruptRecord "snapshot payload is truncated"
      else
        let body := drop (Z.to_nat kSnapshotHeaderBytes) data in
        let payload := take (Z.to_nat payload_bytes) body in
        match fst (get_snapshot_trailer (reader_of (take 12 (drop (Z.to_nat payload_bytes) body)))) with
        | None => fail ErrorCode.CorruptRecord "snapshot trailer"
        | Some (expected_payload_crc, header_crc, end_magic) =>
          if negb (end_magic =? kSnapshotEndMagic) then
            fail ErrorCode.CorruptRecord "snapshot end magic mismatch"
          else if negb (header_crc =? stored_header_crc) then
            fail ErrorCode.IntegrityFailure "snapshot header checksum mismatch"
          else if negb (crc32c payload 0 =? expected_payload_crc) then
            fail ErrorCode.IntegrityFailure "snapshot payload checksum mismatch"
          else Good (header, payload)
        end
    end
  end.

(** ** Reading the journal *)

Definition hex_digit (d : Z) : Ascii.ascii :=
  Ascii.ascii_of_N (Z.to_N (if d <? 10 then 48 + d else 87 + d)).

(** [%08x] of a 32-bit value. *)
Definition hex8 (v : Z) : string :=
  fold_right (fun i s => String.String (hex_digit (Z.land (Z.shiftr v (4 * i)) 15)) s) ""
    [7; 6; 5; 4; 3; 2; 1; 0].

Definition record_context (offset magic version payload_bytes crc : Z) : string :=
  snprintf 192 ("journal record at byte " ++ pretty offset ++ " (magic=" ++ hex8 magic ++ " version=" ++
    pretty version ++ " payload=" ++ pretty payload_bytes ++ " crc=" ++ hex8 crc ++ ")")%string.

(** [Journal::read_next] at [offset]: nothing at the end of the file, otherwise the
    payload and the offset of the next record. *)
Definition read_next (file : list Z) (offset : nat) : Result (option (list Z * nat)) :=
  let file_size := Z.of_nat (length file) in
  if file_size <=? Z.of_nat offset then Good None
  else
    let rest := drop offset file in
    if Z.of_nat (length rest) <? kFrameHeaderBytes then
      fail ErrorCode.JournalTruncated (snprintf 160
        ("journal record header truncated at byte " ++ pretty (Z.of_nat offset) ++ " of " ++ pretty file_size)%string)
    else match fst (get_frame_header (reader_of (take (Z.to_nat kFrameHeaderBytes) rest))) with
    | None => fail ErrorCode.CorruptRecord "journal record header is not decodable"
    | Some (magic, version, payload_bytes, expected_crc) =>
      let context := record_context (Z.of_nat offset) magic version payload_bytes expected_crc in
      if negb (magic =? kJournalFrameMagic) then
        fail ErrorCode.CorruptRecord ("journal record magic mismatch: " ++ context)
      else if negb (version =? kJournalFormatVersion) then
        fail ErrorCode.VersionMismatch ("journal record version mismatch: " ++ context)
      else if kMaxJournalRecordBytes <? payload_bytes then
        fail ErrorCode.OversizedMessage ("journal record payload exceeds the bound: " ++ context)
      else if file_size <? Z.of_nat offset + kFrameHeaderBytes + payload_bytes then
        fail ErrorCode.JournalTruncated ("journal record payload is truncated: " ++ context)
      else
        let payload := take (Z.to_nat payload_bytes) (drop (Z.to_nat kFrameHeaderBytes) rest) in
        if negb (crc32c payload 0 =? expected_crc) then
          fail ErrorCode.IntegrityFailure ("journal record checksum mismatch: " ++ context)
        else Good (Some (payload, (offset + Z.to_nat kFrameHeaderBytes + Z.to_nat payload_bytes)%nat))
    end.

(** An intact frame starts at [probe]. *)
Definition intact_frame_at (raw : list Z) (probe : nat) : bool :=
  match fst (get_frame_header (reader_of (take (Z.to_nat kFrameHeaderBytes) (drop probe raw)))) with
  | None => false
  | Some (magic, version, payload_bytes, crc) =>
      if negb (magic =? kJournalFrameMagic) then false
      else if negb (version =? kJournalFormatVersion) then false
      else if Z.of_nat (length raw) <? Z.of_nat probe + kFrameHeaderBytes + payload_bytes then false
      else crc32c (take (Z.to_nat payload_bytes) (drop (probe + Z.to_nat kFrameHeaderBytes) raw)) 0 =? crc
  end.

(** Some intact frame starts strictly after [damage_offset]. *)
Definition intact_after (raw : list Z) (damage_offset : nat) : bool :=
  existsb (fun probe => (probe + Z.to_nat kFrameHeaderBytes <=? length raw)%nat && intact_frame_at raw probe)
    (seq (S damage_offset) (length raw - S damage_offset)).

(** ** The store *)

Inductive IoOutcome := IoOk | IoFail (written : nat).

Record DurableStore := mkDurableStore {
  ds_config : PersistenceConfig; ds_configured : bool; ds_writable : bool;
  ds_journal : option (list Z); ds_snapshot : option (list Z);
  ds_bytes_written : Z; ds_journal_bytes : Z; ds_recovery_count : Z; ds_io : list IoOutcome
}.

#[export] Instance settable_DurableStore : Settable DurableStore := fun s =>
  mkDurableStore (ds_config s) (ds_configured s) (ds_writable s) (ds_journal s) (ds_snapshot s)
    (ds_bytes_written s) (ds_journal_bytes s) (ds_recovery_count s) (ds_io s).

Definition default_DurableStore : DurableStore :=
  mkDurableStore default_PersistenceConfig false false None None 0 0 0 [].

(** One file operation: on failure [on_fail] sees how many bytes had been written. *)
Definition io_step (on_fail : nat -> DurableStore -> DurableStore) (code : ErrorCode) (message : string) :
    StateR DurableStore unit := fun s =>
  match ds_io s with
  | IoFail n :: io => (fail code message, on_fail n (s <| ds_io := io |>))
  | IoOk :: io => (Good tt, s <| ds_io := io |>)
  | [] => (Good tt, s)
  end.

Definition io_plain (message : string) : StateR DurableStore unit :=
  io_step (fun _ s => s) ErrorCode.PersistenceError message.

Definition journal_contents (s : DurableStore) : list Z := default [] (ds_journal s).

(** [Journal::open_append]. *)
Definition open_append : StateR DurableStore unit :=
  sm_modify (fun s => s <| ds_writable := false |>) ;;;
  io_plain "cannot open journal for append" ;;;
  sm_modify (fun s => s <| ds_writable := true |> <| ds_journal := Some (journal_contents s) |>
    <| ds_bytes_written := Z.of_nat (length (journal_contents s)) |>).

(** [Journal::append]. *)
Definition journal_append (payload : list Z) : StateR DurableStore unit :=
  let* s := sm_get in
  let size := Z.of_nat (length payload) in
  if negb (ds_writable s) then
    sm_fail ErrorCode.LifecycleViolation "journal is not open for append"
  else if kMaxJournalRecordBytes <? size then
    sm_fail ErrorCode.OversizedMessage "journal record exceeds the record bound"
  else if negb (pc_max_journal_bytes (ds_config s) =? 0)
          && (pc_max_journal_bytes (ds_config s) <?
                add64 (add64 (ds_bytes_written s) kFrameHeaderBytes) size) then
    sm_fail ErrorCode.BoundedResourceExhausted "journal would exceed the configured byte bound"
  else
    let frame := encode_frame payload kJournalFrameMagic kJournalFormatVersion in
    io_step (fun n s => s <| ds_journal := Some (journal_contents s ++ take n frame) |>)
      ErrorCode.PersistenceError "short journal write" ;;;
    sm_modify (fun s => s <| ds_journal := Some (journal_contents s ++ frame) |>
      <| ds_bytes_written ::= fun b => add64 b (Z.of_nat (length frame)) |>).

(** [Journal::sync]. *)
Definition journal_sync : StateR DurableStore unit :=
  let* s := sm_get in
  if negb (ds_writable s) then sm_fail ErrorCode.LifecycleViolation "journal is not open for append"
  else io_plain "fsync failed".

(** [Journal::truncate_to]. *)
Definition journal_truncate (offset : nat) : StateR DurableStore unit :=
  let* s := sm_get in
  if negb (ds_writable s) then sm_fail ErrorCode.LifecycleViolation "journal is not open for append"
  else
    io_plain "truncate failed" ;;;
    sm_modify (fun s => s <| ds_journal := Some (take offset (journal_contents s)) |>
      <| ds_bytes_written := Z.of_nat offset |>).

Definition journal_close : StateR DurableStore unit := sm_modify (fun s => s <| ds_writable := false |>).

Definition store_configure (config : PersistenceConfig) : StateR DurableStore unit :=
  sm_lift (persistence_validate config) ;;;
  sm_modify (fun s => s <| ds_config := config |> <| ds_configured := true |>).

Definition store_close (s : DurableStore) : DurableStore :=
  s <| ds_writable := false |> <| ds_configured := false |>.

Definition store_enabled (s : DurableStore) : bool :=
  negb (bool_decide (pc_mode (ds_config s) = DurabilityMode.None)).

Definition needs_compaction (s : DurableStore) : bool :=
  pc_compact_journal_bytes (ds_config s) <=? ds_journal_bytes s.

Definition append_record (payload : list Z) : StateR DurableStore unit :=
  let* s := sm_get in
  if negb (ds_configured s) then sm_fail ErrorCode.LifecycleViolation "durable store is not configured"
  else
    when (negb (ds_writable s)) do
      (open_append ;;; sm_modify (fun s => s <| ds_journal_bytes := ds_bytes_written s |>)) ;;;
    journal_append payload ;;;
    when (bool_decide (pc_mode (ds_config s) = DurabilityMode.JournalSync)) do journal_sync ;;;
    sm_modify (fun s => s <| ds_journal_bytes := ds_bytes_written s |>).

(** The snapshot file is replaced atomically, then the journal is emptied. *)
Definition write_snapshot (header : SnapshotHeader) (payload : list Z) : StateR DurableStore unit :=
  let* s := sm_get in
  if negb (ds_configured s) then sm_fail ErrorCode.LifecycleViolation "durable store is not configured"
  else if pc_max_snapshot_bytes (ds_config s) <? Z.of_nat (length payload) then
    sm_fail ErrorCode.SnapshotOversized "snapshot payload exceeds the configured bound"
  else
    let bytes := encode_snapshot (header <| sh_format_version := kPersistenceFormatVersion |>) payload in
    io_plain "write_file_atomic" ;;;
    sm_modify (fun s => s <| ds_snapshot := Some bytes |>) ;;;
    io_plain "sync_directory" ;;;
    journal_close ;;;
    open_append ;;;
    journal_truncate 0 ;;;
    journal_sync ;;;
    sm_modify (fun s => s <| ds_journal_bytes := 0 |>).

(** ** Recovery *)

Record UnfinishedAttempt := mkUnfinishedAttempt {
  ua_attempt : Z; ua_kind : AttemptKind; ua_allocation : Z; ua_units : Z; ua_journaled_at : Z;
  ua_request_digest : Digest
}.

Record RecoveryReport := mkRecoveryReport {
  rr_outcome : RecoveryOutcome; rr_durable_state_present : bool; rr_snapshot_loaded : bool;
  rr_snapshot_integrity_verified : bool; rr_journal_loaded : bool; rr_snapshot_format_version : Z;
  rr_journal_format_version : Z; rr_snapshot_payload_bytes : Z; rr_journal_records_read : Z;
  rr_journal_records_applied : Z; rr_journal_records_rejected : Z; rr_journal_bytes_discarded : Z;
  rr_journal_records_discarded : Z; rr_durable_epoch : Z; rr_new_epoch : Z;
  rr_previous_boot : BootIncarnation; rr_boot : BootIncarnation; rr_pools_restored : Z;
  rr_policies_restored : Z; rr_queues_restored : Z; rr_allocations_restored : Z;
  rr_allocations_restored_as_uncommitted : Z; rr_pressure_snapshots_invalidated : Z;
  rr_fences_restored : Z; rr_unfinished_attempts : list UnfinishedAttempt; rr_warnings : list string
}.

#[export] Instance settable_RecoveryReport : Settable RecoveryReport := fun r =>
  mkRecoveryReport (rr_outcome r) (rr_durable_state_present r) (rr_snapshot_loaded r)
    (rr_snapshot_integrity_verified r) (rr_journal_loaded r) (rr_snapshot_format_version r)
    (rr_journal_format_version r) (rr_snapshot_payload_bytes r) (rr_journal_records_read r)
    (rr_journal_records_applied r) (rr_journal_records_rejected r) (rr_journal_bytes_discarded r)
    (rr_journal_records_discarded r) (rr_durable_epoch r) (rr_new_epoch r) (rr_previous_boot r)
    (rr_boot r) (rr_pools_restored r) (rr_policies_restored r) (rr_queues_restored r)
    (rr_allocations_restored r) (rr_allocations_restored_as_uncommitted r)
    (rr_pressure_snapshots_invalidated r) (rr_fences_restored r) (rr_unfinished_attempts r)
    (rr_warnings r).

Definition default_RecoveryReport : RecoveryReport :=
  mkRecoveryReport RecoveryOutcome.Created false false false false 0 0 0 0 0 0 0 0 0 0
    default_BootIncarnation default_BootIncarnation 0 0 0 0 0 0 0 [] [].

(** How the replay loop stopped: at the end of the file, at a damaged record, or because
    a record could not be applied. *)
Inductive ReplayStop := ReplayEof | ReplayDamaged (reason : Status) | ReplayRefused (status : Status).

Record Replay := mkReplay { rp_stop : ReplayStop; rp_offset : nat; rp_applied : Z }.

(** The replay loop, from [offset]; a record takes at least its header, so a fuel above the
    file's length is enough. *)
Fixpoint replay_loop {T} (visit : list Z -> Z -> T -> Result unit * T) (file : list Z)
    (fuel : nat) (offset : nat) (ordinal : Z) (s : T) : Replay * T :=
  match fuel with
  | O => (mkReplay ReplayEof offset ordinal, s)
  | S fuel' =>
      match read_next file offset with
      | Bad e => (mkReplay (ReplayDamaged e) offset ordinal, s)
      | Good None => (mkReplay ReplayEof offset ordinal, s)
      | Good (Some (payload, next)) =>
          match visit payload ordinal s with
          | (Bad e, s') => (mkReplay (ReplayRefused e) next ordinal, s')
          | (Good _, s') => replay_loop visit file fuel' next (ordinal + 1) s'
          end
      end
  end.

#[global] Arguments replay_loop : simpl never.

Definition replay_journal {T} (visit : list Z -> Z -> T -> Result unit * T) (file : list Z) (s : T) : Replay * T :=
  replay_loop visit file (S (length file)) 0 0 s.

(** The report as the replay starts and after the loop. *)
Definition recover_report (present : bool) : RecoveryReport :=
  default_RecoveryReport <| rr_durable_state_present := present |>.

Definition report_of_replay (applied : Z) (report : RecoveryReport) : RecoveryReport :=
  report <| rr_journal_loaded := true |> <| rr_journal_format_version := kJournalFormatVersion |>
    <| rr_journal_records_read := applied |>
    <| rr_journal_records_applied := applied |>.

(** What follows the loop: a damaged tail is refused, or cut off and reported. *)
Definition repair_journal (raw : list Z) (reason : Status) (damage_offset : nat) (report : RecoveryReport) :
    StateR DurableStore RecoveryReport :=
  let* s := sm_get in
  let damaged_bytes := Z.of_nat (length raw - damage_offset) in
  if intact_after raw damage_offset && pc_refuse_on_midfile_damage (ds_config s) then
    sm_fail ErrorCode.CorruptRecord (snprintf 256
      ("journal contains damaged records followed by intact records (damage at byte " ++
       pretty (Z.of_nat damage_offset) ++ " of " ++ pretty (Z.of_nat (length raw)) ++ ", " ++
       pretty damaged_bytes ++ " bytes follow; " ++ status_to_string reason ++ ")")%string)
  else if negb (pc_truncate_damaged_tail (ds_config s)) then
    sm_fail ErrorCode.IntegrityFailure "journal tail is damaged and tail truncation is disabled"
  else
    open_append ;;;
    journal_truncate damage_offset ;;;
    journal_sync ;;;
    journal_close ;;;
    sm_ret (report <| rr_journal_bytes_discarded := damaged_bytes |>
      <| rr_journal_records_discarded := if damaged_bytes =? 0 then 0 else 1 |>
      <| rr_warnings ::= fun l => l ++
          ["journal tail was damaged by an interrupted write and discarded: " ++ status_to_string reason]%string |>
      <| rr_outcome := RecoveryOutcome.TailTruncated |>).

Section Recover.
Context {T : Type}.
Context (visit_snapshot : SnapshotHeader -> list Z -> T -> Result unit * T)
        (visit_record : list Z -> Z -> T -> Result unit * T).

Definition on_store {A} (m : StateR DurableStore A) : StateR (DurableStore * T) A := fun '(d, s) =>
  let '(r, d') := m d in (r, (d', s)).
Definition on_state {A} (m : StateR T A) : StateR (DurableStore * T) A := fun '(d, s) =>
  let '(r, s') := m s in (r, (d, s')).

(** A file that cannot be looked at is taken for absent. *)
Definition io_probe : StateR DurableStore bool := fun s =>
  match ds_io s with
  | IoFail _ :: io => (Good false, s <| ds_io := io |>)
  | IoOk :: io => (Good true, s <| ds_io := io |>)
  | [] => (Good true, s)
  end.

(** [read_file_bounded]: the bytes, and whether the file existed; a missing file is empty. *)
Definition read_file_bounded (file : option (list Z)) (bound : Z) : StateR DurableStore (list Z * bool) :=
  let* seen := io_probe in
  match (if seen then file else None) with
  | None => sm_ret ([], false)
  | Some bytes =>
      io_plain "cannot size file" ;;;
      if bound <? Z.of_nat (length bytes) then
        sm_fail ErrorCode.OversizedMessage "file exceeds the configured bound"
      else
        io_plain "short read" ;;;
        sm_ret (bytes, true)
  end.

Definition recover_snapshot (bytes : list Z) (report : RecoveryReport) :
    StateR (DurableStore * T) RecoveryReport :=
  let* ds := sm_get in
  let* hp := sm_lift (decode_snapshot bytes (pc_max_snapshot_bytes (ds_config (fst ds)))) in
  let report := report <| rr_snapshot_loaded := true |>
      <| rr_snapshot_integrity_verified := true |> <| rr_snapshot_format_version := sh_format_version (fst hp) |>
    <| rr_snapshot_payload_bytes := Z.of_nat (length (snd hp)) |>
    <| rr_durable_epoch := sh_epoch (fst hp) |> <| rr_previous_boot := sh_boot (fst hp) |> in
  on_state (visit_snapshot (fst hp) (snd hp)) ;;;
  sm_ret report.

Definition recover_journal (bytes : list Z) (report : RecoveryReport) :
    StateR (DurableStore * T) (RecoveryReport * Z) :=
  on_store (journal_close ;;; io_plain "cannot open journal for read") ;;;
  let* stop := on_state (fun s => let '(r, s') := replay_journal visit_record bytes s in (Good r, s')) in
  let report := report_of_replay (rp_applied stop) report in
  match rp_stop stop with
  | ReplayRefused e => sm_lift (Bad e)
  | ReplayDamaged reason =>
      let* report := on_store (repair_journal bytes reason (rp_offset stop) report) in
      sm_ret (report, Z.of_nat (rp_offset stop))
  | ReplayEof =>
      sm_ret (report <| rr_outcome := if rr_snapshot_loaded report then RecoveryOutcome.JournalReplayed
                                      else RecoveryOutcome.JournalOnly |>,
              Z.of_nat (length bytes))
  end.

(** [DurableStore::recover]. *)
Definition recover : StateR (DurableStore * T) RecoveryReport :=
  let* ds := sm_get in
  let d := fst ds in
  if negb (ds_configured d) then sm_fail ErrorCode.LifecycleViolation "durable store is not configured"
  else
    on_store (io_plain "ensure_directory") ;;;
    let* snapshot := on_store (read_file_bounded (ds_snapshot d) (pc_max_snapshot_bytes (ds_config d))) in
    let* journal := on_store (read_file_bounded (ds_journal d) (pc_max_journal_bytes (ds_config d))) in
    let report := recover_report (snd snapshot || snd journal) in
    let* report :=
      match fst snapshot with [] => sm_ret report | _ => recover_snapshot (fst snapshot) report end in
    let* rj :=
      match fst journal with
      | [] => sm_ret (report <| rr_outcome := if rr_snapshot_loaded report then RecoveryOutcome.SnapshotOnly
                                              else RecoveryOutcome.Created |>, 0)
      | _ => recover_journal (fst journal) report
      end in
    on_store (sm_modify (fun d => d <| ds_journal_bytes := snd rj |>
      <| ds_recovery_count ::= fun n => add64 n 1 |>)) ;;;
    sm_ret (fst rj).
End Recover.

(** ** Lemmas *)

Definition frame_of (payload : list Z) : list Z := encode_frame payload kJournalFrameMagic kJournalFormatVersion.

#[global] Arguments frame_of : simpl never.

Definition frames_of (rs : list (list Z)) : list Z := concat (map frame_of rs).

Definition journal_payload (p : list Z) : Prop :=
  is_bytes p /\ Z.of_nat (length p) <= kMaxJournalRecordBytes.

Lemma frame_of_length p : length (frame_of p) = (16 + length p)%nat.
Proof. unfold frame_of. by rewrite encode_frame_eq, length_app, frame_header_length. Qed.

Lemma journal_record_small p : journal_payload p -> Z.of_nat (length p) <= u32_max.
Proof. intros [_ H]. unfold kMaxJournalRecordBytes in H. change (Z.shiftl 4 20) with 4194304 in H. u64_lia. Qed.

(** The header of the frame of [p], read at its place. *)
Lemma frame_header_read p n :
  journal_payload p -> (16 <= n)%nat ->
  fst (get_frame_header (reader_of (take (Z.to_nat kFrameHeaderBytes) (take n (frame_of p))))) =
  Some (kJournalFrameMagic, kJournalFormatVersion, Z.of_nat (length p), crc32c p 0).
Proof.
  intros Hp Hn. pose proof (journal_record_small p Hp). destruct Hp as [Hb _].
  unfold frame_of, kFrameHeaderBytes. rewrite encode_frame_eq. rewrite take_take.
  change (Z.to_nat 16) with 16%nat. rewrite Nat.min_l by lia.
  rewrite take_app_le by (by rewrite frame_header_length).
  rewrite take_ge by (by rewrite frame_header_length). unfold frame_header.
  assert (wrap32 (Z.of_nat (length p)) = Z.of_nat (length p)) as ->
    by (unfold wrap32; apply Z.mod_small; u64_lia).
  apply get_frame_header_words; [by vm_compute|by vm_compute|u64_lia|by apply crc32c_range].
Qed.

Lemma frame_body p rest : drop (Z.to_nat kFrameHeaderBytes) (frame_of p ++ rest) = p ++ rest.
Proof.
  unfold frame_of. rewrite encode_frame_eq, <- app_assoc. change (Z.to_nat kFrameHeaderBytes) with 16%nat.
  by rewrite drop_app_ge, frame_header_length, drop_0 by (by rewrite frame_header_length).
Qed.

Lemma read_next_frame pre p rest :
  journal_payload p ->
  read_next (pre ++ frame_of p ++ rest) (length pre) = Good (Some (p, (length pre + length (frame_of p))%nat)).
Proof.
  intros Hp. pose proof Hp as [Hb Hm]. unfold read_next.
  rewrite (drop_app_length pre), !length_app, frame_of_length.
  destruct (Z.leb_spec (Z.of_nat (length pre + (16 + length p + length rest))) (Z.of_nat (length pre))); [lia|].
  unfold kFrameHeaderBytes at 1.
  destruct (Z.ltb_spec (Z.of_nat (16 + length p + length rest)) 16); [lia|].
  assert (take (Z.to_nat kFrameHeaderBytes) (frame_of p ++ rest) =
          take (Z.to_nat kFrameHeaderBytes) (take 16 (frame_of p))) as ->.
  { change (Z.to_nat kFrameHeaderBytes) with 16%nat. rewrite take_app_le by (rewrite frame_of_length; lia).
    by rewrite take_take. }
  rewrite frame_header_read by (done || lia). rewrite !Z.eqb_refl. cbn [negb].
  destruct (Z.ltb_spec kMaxJournalRecordBytes (Z.of_nat (length p))); [lia|].
  unfold kFrameHeaderBytes at 1.
  destruct (Z.ltb_spec (Z.of_nat (length pre + (16 + length p + length rest)))
    (Z.of_nat (length pre) + 16 + Z.of_nat (length p))); [lia|].
  rewrite frame_body, !Nat2Z.id, take_app_length, Z.eqb_refl.
  cbn [negb]. change (Z.to_nat kFrameHeaderBytes) with 16%nat. do 3 f_equal. lia.
Qed.

(** A record cut short is a damaged record, not the end of the file. *)
Lemma read_next_torn pre p n :
  journal_payload p -> (0 < n < length (frame_of p))%nat ->
  exists e, read_next (pre ++ take n (frame_of p)) (length pre) = Bad e /\ st_code e = ErrorCode.JournalTruncated.
Proof.
  intros Hp Hn. rewrite frame_of_length in Hn. unfold read_next.
  rewrite length_app, drop_app_length, length_take, frame_of_length, Nat.min_l by lia.
  destruct (Z.leb_spec (Z.of_nat (length pre + n)) (Z.of_nat (length pre))); [lia|].
  unfold kFrameHeaderBytes at 1. destruct (Z.ltb_spec (Z.of_nat n) 16); [by eexists|].
  rewrite frame_header_read by (done || lia). rewrite !Z.eqb_refl. cbn [negb].
  destruct Hp as [_ Hm]. destruct (Z.ltb_spec kMaxJournalRecordBytes (Z.of_nat (length p))); [lia|].
  unfold kFrameHeaderBytes at 1.
  destruct (Z.ltb_spec (Z.of_nat (length pre + n)) (Z.of_nat (length pre) + 16 + Z.of_nat (length p))); [|lia].
  by eexists.
Qed.

Lemma read_next_end pre : read_next pre (length pre) = Good None.
Proof. unfold read_next. by rewrite Z.leb_refl. Qed.

(** Visiting records one after the other, stopping at the first refusal. *)
Fixpoint visit_all {T} (visit : list Z -> Z -> T -> Result unit * T) (rs : list (list Z)) (ordinal : Z) (s : T) :
    Result unit * T :=
  match rs with
  | [] => (Good tt, s)
  | p :: rs' =>
      match visit p ordinal s with
      | (Bad e, s') => (Bad e, s')
      | (Good _, s') => visit_all visit rs' (ordinal + 1) s'
      end
  end.

Lemma replay_loop_S {T} (visit : list Z -> Z -> T -> Result unit * T) file fuel offset ordinal s :
  replay_loop visit file (S fuel) offset ordinal s =
  match read_next file offset with
  | Bad e => (mkReplay (ReplayDamaged e) offset ordinal, s)
  | Good None => (mkReplay ReplayEof offset ordinal, s)
  | Good (Some (payload, next)) =>
      match visit payload ordinal s with
      | (Bad e, s') => (mkReplay (ReplayRefused e) next ordinal, s')
      | (Good _, s') => replay_loop visit file fuel next (ordinal + 1) s'
      end
  end.
Proof. done. Qed.

Lemma replay_loop_frames {T} (visit : list Z -> Z -> T -> Result unit * T) rs pre tail fuel ordinal s s' :
  Forall journal_payload rs -> (length rs < fuel)%nat -> visit_all visit rs ordinal s = (Good tt, s') ->
  replay_loop visit (pre ++ frames_of rs ++ tail) fuel (length pre) ordinal s =
  replay_loop visit (pre ++ frames_of rs ++ tail) (fuel - length rs) (length (pre ++ frames_of rs))
    (ordinal + Z.of_nat (length rs)) s'.
Proof.
  intros Hrs. revert pre fuel ordinal s. induction Hrs as [|p rs Hp Hrs IH]; intros pre fuel ordinal s Hf Hv.
  - simpl in Hv. injection Hv as ->. unfold frames_of. simpl. rewrite app_nil_r, Z.add_0_r. f_equal. lia.
  - simpl in Hv. destruct fuel as [|fuel]; [simpl in Hf; lia|].
    assert (frames_of (p :: rs) = frame_of p ++ frames_of rs) as Hfr by done.
    rewrite Hfr, <- !app_assoc. rewrite replay_loop_S, read_next_frame by done.
    change (S fuel - length (p :: rs))%nat with (fuel - length rs)%nat.
    destruct (visit p ordinal s) as [[u|e] s1]; [|done].
    specialize (IH (pre ++ frame_of p) fuel (ordinal + 1) s1 ltac:(simpl in Hf; lia) Hv).
    rewrite <- !app_assoc, length_app in IH. rewrite IH. f_equal. simpl. lia.
Qed.

Lemma frames_of_length_ge rs : (length rs <= length (frames_of rs))%nat.
Proof.
  unfold frames_of. induction rs as [|p rs IH]; [simpl; lia|]. cbn [map concat length].
  rewrite length_app, frame_of_length. lia.
Qed.

(** Replay of intact records followed by a record cut at byte [n]. *)
Lemma replay_torn {T} (visit : list Z -> Z -> T -> Result unit * T) rs p n s s' :
  Forall journal_payload rs -> journal_payload p -> (n < length (frame_of p))%nat ->
  visit_all visit rs 0 s = (Good tt, s') ->
  exists stop, replay_journal visit (frames_of rs ++ take n (frame_of p)) s =
    (mkReplay stop (length (frames_of rs)) (Z.of_nat (length rs)), s') /\
    match stop with
    | ReplayEof => n = 0%nat
    | ReplayDamaged e => (0 < n)%nat /\ st_code e = ErrorCode.JournalTruncated
    | ReplayRefused _ => False
    end.
Proof.
  intros Hrs Hp Hn Hv. unfold replay_journal. set (file := frames_of rs ++ take n (frame_of p)).
  assert (length (frames_of rs) <= length file)%nat by (unfold file; rewrite length_app; lia).
  pose proof (frames_of_length_ge rs).
  pose proof (replay_loop_frames visit rs [] (take n (frame_of p)) (S (length file)) 0 s s' Hrs) as Hl.
  rewrite !app_nil_l in Hl. change (length (@nil Z)) with 0%nat in Hl. fold file in Hl.
  rewrite Hl by (done || lia).
  assert (exists fuel, (S (length file) - length rs = S fuel)%nat) as [fuel ->]
    by (exists (length file - length rs)%nat; lia).
  rewrite replay_loop_S. destruct (decide (n = 0)%nat) as [->|Hpos].
  - exists ReplayEof. split; [|done]. unfold file. simpl (take 0 _). by rewrite app_nil_r, read_next_end.
  - destruct (read_next_torn (frames_of rs) p n Hp) as (e & He & Hcode); [lia|]. fold file in He.
    exists (ReplayDamaged e). rewrite He. split; [done|split; [lia|done]].
Qed.

Lemma io_plain_ok message s : ds_io s = [] -> io_plain message s = (Good tt, s).
Proof. intros H. unfold io_plain, io_step. by rewrite H. Qed.

Lemma read_file_ok file bound s :
  ds_io s = [] -> Z.of_nat (length (default [] file)) <= bound ->
  read_file_bounded file bound s = (Good (default [] file, bool_decide (is_Some file)), s).
Proof.
  intros Hio Hb. unfold read_file_bounded, io_probe, sm_bind. rewrite Hio. destruct file as [bytes|]; [|done].
  rewrite io_plain_ok by done. cbn in Hb. destruct (Z.ltb_spec bound (Z.of_nat (length bytes))); [lia|].
  by rewrite io_plain_ok.
Qed.

(** The remembered length of an open journal is the length of its file. *)
Definition store_consistent (s : DurableStore) : Prop :=
  ds_writable s = true -> ds_bytes_written s = Z.of_nat (length (journal_contents s)).

Definition journal_room (s : DurableStore) (p : list Z) : Prop :=
  Z.of_nat (length (journal_contents s) + length (frame_of p)) <= pc_max_journal_bytes (ds_config s) <= u64_max.

(** Appending to an open journal: the file outcome decides how much of the frame is there. *)
Lemma journal_append_open s p :
  ds_writable s = true -> store_consistent s -> journal_payload p -> journal_room s p ->
  journal_append p s =
  match ds_io s with
  | IoFail n :: io =>
      (fail ErrorCode.PersistenceError "short journal write",
       s <| ds_io := io |> <| ds_journal := Some (journal_contents s ++ take n (frame_of p)) |>)
  | io =>
      (Good tt, s <| ds_io := drop 1 io |> <| ds_journal := Some (journal_contents s ++ frame_of p) |>
         <| ds_bytes_written := Z.of_nat (length (journal_contents s ++ frame_of p)) |>)
  end.
Proof.
  intros Hw Hc Hp [Hroom Hmax]. specialize (Hc Hw). pose proof Hp as [_ Hm].
  pose proof (frame_of_length p) as Hfl. rewrite Hfl in Hroom.
  unfold journal_append, sm_bind, sm_get. rewrite Hw. cbn [negb].
  destruct (Z.ltb_spec kMaxJournalRecordBytes (Z.of_nat (length p))); [lia|].
  unfold kFrameHeaderBytes. rewrite Hc, !add64_exact by (rewrite ?add64_exact by u64_lia; u64_lia).
  destruct (Z.ltb_spec (pc_max_journal_bytes (ds_config s))
    (Z.of_nat (length (journal_contents s)) + 16 + Z.of_nat (length p))); [lia|].
  rewrite andb_false_r. unfold io_step. fold (frame_of p).
  assert (add64 (ds_bytes_written s) (Z.of_nat (length (frame_of p))) =
    Z.of_nat (length (journal_contents s ++ frame_of p))) as Hadd.
  { rewrite Hc, add64_exact by (rewrite Hfl; u64_lia). rewrite length_app. lia. }
  destruct (ds_io s) as [|[|n] io] eqn:Hio; [| |done]; unfold sm_modify; cbn; rewrite Hadd; by rewrite ?Hio.
Qed.

Lemma repair_journal_ok raw reason offset report s :
  ds_io s = [] -> ds_journal s = Some raw -> intact_after raw offset = false ->
  pc_truncate_damaged_tail (ds_config s) = true ->
  exists report' s', repair_journal raw reason offset report s = (Good report', s') /\
    ds_journal s' = Some (take offset raw) /\ ds_snapshot s' = ds_snapshot s /\
    rr_journal_bytes_discarded report' = Z.of_nat (length raw - offset).
Proof.
  intros Hio Hj Hia Htr. unfold repair_journal, sm_bind, sm_get. rewrite Hia, Htr. cbn [andb negb].
  unfold open_append, journal_truncate, journal_sync, journal_close, sm_bind, sm_get, sm_modify, sm_ret.
  rewrite io_plain_ok by done. cbn. rewrite io_plain_ok by done. cbn. rewrite io_plain_ok by done.
  do 2 eexists. split; [done|]. unfold journal_contents. cbn. by rewrite Hj.
Qed.

Section RecoverLemmas.
Context {T : Type}.
Context (visit_snapshot : SnapshotHeader -> list Z -> T -> Result unit * T)
        (visit_record : list Z -> Z -> T -> Result unit * T).

(** Recovery of a journal whose last append may have been interrupted. *)
Lemma recover_torn d rs p n (s s' : T) :
  ds_configured d = true -> ds_io d = [] -> ds_snapshot d = None ->
  pc_truncate_damaged_tail (ds_config d) = true ->
  ds_journal d = Some (frames_of rs ++ take n (frame_of p)) ->
  Z.of_nat (length (frames_of rs ++ take n (frame_of p))) <= pc_max_journal_bytes (ds_config d) ->
  Forall journal_payload rs -> journal_payload p -> (n < length (frame_of p))%nat ->
  0 <= pc_max_snapshot_bytes (ds_config d) ->
  intact_after (frames_of rs ++ take n (frame_of p)) (length (frames_of rs)) = false ->
  visit_all visit_record rs 0 s = (Good tt, s') ->
  exists report d', recover visit_snapshot visit_record (d, s) = (Good report, (d', s')) /\
    ds_journal d' = Some (frames_of rs) /\ ds_snapshot d' = None /\
    ds_journal_bytes d' = Z.of_nat (length (frames_of rs)) /\
    rr_journal_bytes_discarded report = Z.of_nat n.
Proof.
  intros Hcf Hio Hsn Htr Hj Hlen Hrs Hp Hn Hms Hia Hv.
  destruct (replay_torn visit_record rs p n s s' Hrs Hp Hn Hv) as (stop & Hreplay & Hstop).
  set (file := frames_of rs ++ take n (frame_of p)) in *.
  assert (length file = length (frames_of rs) + n)%nat as Hfl.
  { unfold file. rewrite length_app, length_take. lia. }
  assert (take (length (frames_of rs)) file = frames_of rs) as Htake by (unfold file; by rewrite take_app_length).
  clearbody file.
  unfold recover, sm_bind, sm_get, on_store, sm_ret. cbn [fst snd]. rewrite Hcf. cbn [negb].
  rewrite io_plain_ok, !read_file_ok by (rewrite ?Hsn, ?Hj; done). rewrite Hsn, Hj. cbn [from_option id fst snd].
  generalize (bool_decide (is_Some (@None (list Z))) || bool_decide (is_Some (Some file))). intros present.
  destruct file as [|b file'] eqn:Hfile.
  { assert (frames_of rs = []) as Hnil by (apply length_zero_iff_nil; simpl in Hfl; lia).
    assert (n = 0)%nat as -> by (simpl in Hfl; lia).
    assert (s' = s) as ->.
    { destruct rs as [|r rs0]; [simpl in Hv; by injection Hv|]. exfalso.
      pose proof (frames_of_length_ge (r :: rs0)) as Hl. rewrite Hnil in Hl. simpl in Hl. lia. }
    do 2 eexists. split; [done|]. cbn. by rewrite Hnil, Hj. }
  cbv iota. rewrite <- Hfile in *. clear Hfile b file'.
  unfold recover_journal, on_state, on_store, sm_bind, journal_close, sm_modify, sm_ret. cbn [fst snd].
  rewrite io_plain_ok by done. rewrite Hreplay. cbn [rp_stop rp_offset rp_applied].
  destruct stop as [|e|]; [| |done].
  - subst n. do 2 eexists. split; [done|]. cbn. rewrite Hfl, Nat.add_0_r.
    split; [|done]. rewrite Hj. f_equal. rewrite <- Htake. rewrite take_ge by lia. done.
  - destruct Hstop as [Hpos Hcode].
    destruct (repair_journal_ok file e (length (frames_of rs))
      (report_of_replay (Z.of_nat (length rs)) (recover_report present))
      (d <| ds_writable := false |>))
      as (report' & d' & Hrep & Hj' & Hsn' & Hdis); [done..|].
    rewrite Hrep.
    do 2 eexists. split; [done|]. cbn. rewrite Hj', Hsn', Htake, Hdis. split_and!; [done..|lia].
Qed.
End RecoverLemmas.

(** A fresh process over the same files. *)
Definition reopen (d : DurableStore) : DurableStore :=
  default_DurableStore <| ds_config := ds_config d |> <| ds_configured := true |>
    <| ds_journal := ds_journal d |> <| ds_snapshot := ds_snapshot d |>.

Lemma journal_sync_ok s : ds_writable s = true -> ds_io s = [] -> journal_sync s = (Good tt, s).
Proof. intros Hw Hio. unfold journal_sync, sm_bind, sm_get. rewrite Hw. cbn [negb]. by apply io_plain_ok. Qed.

(** A record written in full is durable: the journal is extended by exactly its frame. *)
Lemma append_record_ok s p :
  ds_configured s = true -> ds_writable s = true -> ds_io s = [] -> store_consistent s ->
  journal_payload p -> journal_room s p ->
  exists s', append_record p s = (Good tt, s') /\ ds_journal s' = Some (journal_contents s ++ frame_of p) /\
    ds_config s' = ds_config s /\ ds_snapshot s' = ds_snapshot s /\ ds_configured s' = true /\
    ds_writable s' = true /\ ds_io s' = [] /\ store_consistent s'.
Proof.
  intros Hcf Hw Hio Hc Hp Hr. unfold append_record, sm_bind, sm_get. rewrite Hcf, Hw. cbn [negb].
  unfold sm_ret. rewrite journal_append_open by done. rewrite Hio. simpl drop.
  destruct (bool_decide _); unfold sm_modify.
  - rewrite journal_sync_ok by done. eexists. split; [done|]. cbn. by rewrite Hcf, Hw.
  - eexists. split; [done|]. cbn. by rewrite Hcf, Hw.
Qed.

Lemma visit_all_app {T} (visit : list Z -> Z -> T -> Result unit * T) rs p ordinal s s1 s2 :
  visit_all visit rs ordinal s = (Good tt, s1) ->
  visit p (ordinal + Z.of_nat (length rs)) s1 = (Good tt, s2) ->
  visit_all visit (rs ++ [p]) ordinal s = (Good tt, s2).
Proof.
  revert ordinal s. induction rs as [|r rs IH]; intros ordinal s; simpl.
  - intros [= ->]. rewrite Z.add_0_r. by intros ->.
  - destruct (visit r ordinal s) as [[[]|e] s']; [|done]. intros H1 H2. apply IH; [done|].
    by replace (ordinal + 1 + Z.of_nat (length rs)) with (ordinal + Z.of_nat (S (length rs))) by lia.
Qed.

(** ** Snapshot container *)

Lemma appends_seq p q bs cs : appends p bs -> appends q cs -> appends (p >+> q) (bs ++ cs).
Proof. exact (appends_comp p q bs cs). Qed.

Lemma appends_u32 v : appends (put_u32 v) (le_bytes 4 v).
Proof. exact (appends_le v (seqZ 0 4)). Qed.

Lemma appends_u64 v : appends (put_u64 v) (le_bytes 8 v).
Proof. exact (appends_le v (seqZ 0 8)). Qed.

Lemma appends_bytes l : appends (put_bytes l) l.
Proof. intros [b f] Hf. simpl in Hf. by subst. Qed.

Ltac solve_appends :=
  repeat match goal with
    | |- appends (_ >+> _) _ => apply appends_seq
    | |- appends (put_u32 _) _ => apply appends_u32
    | |- appends (put_u64 _) _ => apply appends_u64
    | |- appends (put_bytes _) _ => apply appends_bytes
    end.

Definition snapshot_fields (h : SnapshotHeader) (size : Z) : list Z :=
  le_bytes 4 (sh_format_version h) ++ le_bytes 4 (sh_flags h) ++ le_bytes 4 (wrap32 size) ++
  le_bytes 8 (sh_epoch h) ++ le_bytes 8 (bi_hi (sh_boot h)) ++ le_bytes 8 (bi_lo (sh_boot h)) ++
  le_bytes 8 (sh_record_count h) ++ [].

Definition snapshot_head (h : SnapshotHeader) (size : Z) : list Z :=
  le_bytes 4 kSnapshotFrameMagic ++ snapshot_fields h size.

Lemma snapshot_head_length h size : length (snapshot_head h size) = 48%nat.
Proof. unfold snapshot_head, snapshot_fields. by rewrite !length_app, !le_bytes_length. Qed.

Lemma encode_snapshot_eq h payload :
  let head := snapshot_head h (Z.of_nat (length payload)) in
  encode_snapshot h payload =
  head ++ payload ++ le_bytes 4 (crc32c payload 0) ++ le_bytes 4 (crc32c head 0) ++ le_bytes 4 kSnapshotEndMagic ++ [].
Proof.
  intros head. unfold encode_snapshot.
  assert (appends (put_snapshot_header h (Z.of_nat (length payload))) head) as Hh.
  { unfold head, snapshot_head, snapshot_fields. rewrite app_nil_r. unfold put_snapshot_header.
    solve_appends. }
  rewrite (Hh writer_empty) by done. cbn [wr_buffer writer_empty]. rewrite app_nil_l.
  assert (forall c, appends (put_bytes payload >+> put_u32 (crc32c payload 0) >+> put_u32 c >+> put_u32 kSnapshotEndMagic)
    (payload ++ le_bytes 4 (crc32c payload 0) ++ le_bytes 4 c ++ le_bytes 4 kSnapshotEndMagic)) as Ht.
  { intros c. solve_appends. }
  rewrite Ht by done. cbn [wr_buffer]. by rewrite app_nil_r.
Qed.

Definition wf_snapshot_header (h : SnapshotHeader) : Prop :=
  is_u32 (sh_format_version h) /\ is_u32 (sh_flags h) /\ is_u64 (sh_epoch h) /\
  is_u64 (bi_hi (sh_boot h)) /\ is_u64 (bi_lo (sh_boot h)) /\ is_u64 (sh_record_count h).

Lemma reads_snapshot_fields h size :
  wf_snapshot_header h -> is_u32 size ->
  reads get_snapshot_fields (snapshot_fields h size) (h <| sh_payload_bytes := size |>).
Proof.
  intros (?&?&?&?&?&?) Hs. unfold get_snapshot_fields, snapshot_fields.
  assert (wrap32 size = size) as -> by (unfold wrap32; apply Z.mod_small; u64_lia).
  repeat (eapply reads_bind; [first [apply (reads_le 4); u64_lia|apply (reads_le 8); u64_lia]|]).
  destruct h as [? ? ? ? [] ?]. apply reads_ret.
Qed.

Lemma reads_snapshot_trailer a b c :
  is_u32 a -> is_u32 b -> is_u32 c ->
  reads get_snapshot_trailer (le_bytes 4 a ++ le_bytes 4 b ++ le_bytes 4 c ++ []) (a, b, c).
Proof.
  intros. unfold get_snapshot_trailer.
  repeat (eapply reads_bind; [apply (reads_le 4); u64_lia|]). apply reads_ret.
Qed.

Lemma is_bytes_head h size : is_bytes (snapshot_head h size).
Proof.
  unfold snapshot_head, snapshot_fields. repeat apply Forall_app_2; try apply le_bytes_is_bytes. constructor.
Qed.

Lemma decode_encode_snapshot h payload max_payload :
  wf_snapshot_header h -> sh_format_version h = kPersistenceFormatVersion -> is_bytes payload ->
  Z.of_nat (length payload) <= max_payload -> max_payload <= u32_max ->
  decode_snapshot (encode_snapshot h payload) max_payload =
  Good (h <| sh_payload_bytes := Z.of_nat (length payload) |>, payload).
Proof.
  intros Hh Hv Hb Hl Hm. rewrite encode_snapshot_eq. set (size := Z.of_nat (length payload)) in *.
  set (head := snapshot_head h size). assert (length head = 48%nat) as Hhl by apply snapshot_head_length.
  set (trailer := le_bytes 4 (crc32c payload 0) ++ _).
  assert (length trailer = 12%nat) as Htl by (unfold trailer; by rewrite !length_app, !le_bytes_length).
  unfold decode_snapshot, kSnapshotHeaderBytes. rewrite !length_app, Hhl, Htl.
  destruct (Z.ltb_spec (Z.of_nat (48 + (length payload + 12))) (4 + 4 + 4 + 4 + 8 + 8 + 8 + 8 + 12)); [lia|].
  assert (get_u32 (reader_of (head ++ payload ++ trailer)) =
    (Some kSnapshotFrameMagic, mkReader (head ++ payload ++ trailer) 4 false)) as ->.
  { assert (reads get_u32 (le_bytes 4 kSnapshotFrameMagic) kSnapshotFrameMagic) as Hr
      by (apply (reads_le 4); by vm_compute).
    specialize (Hr [] (snapshot_fields h size ++ payload ++ trailer)). rewrite !app_nil_l in Hr.
    unfold reader_of, head, snapshot_head. rewrite <- app_assoc. exact Hr. }
  rewrite Z.eqb_refl. cbn [negb].
  assert (fst (get_snapshot_fields (mkReader (head ++ payload ++ trailer) 4 false)) =
    Some (h <| sh_payload_bytes := size |>)) as ->.
  { pose proof (reads_snapshot_fields h size Hh ltac:(u64_lia) (le_bytes 4 kSnapshotFrameMagic) (payload ++ trailer)) as Hr.
    change (length (le_bytes 4 kSnapshotFrameMagic)) with 4%nat in Hr.
    unfold head, snapshot_head. rewrite <- app_assoc. by rewrite Hr. }
  change (Z.to_nat (4 + 4 + 4 + 4 + 8 + 8 + 8 + 8)) with 48%nat.
  rewrite (take_app_le head) by lia. rewrite (take_ge head) by lia.
  rewrite (drop_app_ge head), Hhl, drop_0 by lia.
  change (sh_payload_bytes (h <| sh_payload_bytes := size |>)) with size.
  change (sh_format_version (h <| sh_payload_bytes := size |>)) with (sh_format_version h).
  rewrite Hv, Z.eqb_refl. cbn [negb]. destruct (Z.ltb_spec max_payload size); [lia|].
  destruct (Z.ltb_spec (Z.of_nat (48 + (length payload + 12))) (4 + 4 + 4 + 4 + 8 + 8 + 8 + 8 + size + 12)); [lia|].
  assert (Z.to_nat size = length payload) as Hsz by (unfold size; by rewrite Nat2Z.id).
  rewrite Hsz, take_app_length, drop_app_length, (take_ge trailer) by lia.
  pose proof (reads_snapshot_trailer (crc32c payload 0) (crc32c head 0) kSnapshotEndMagic) as Hr.
  specialize (Hr (crc32c_range _ Hb) (crc32c_range _ (is_bytes_head h size)) ltac:(u64_unfold; vm_compute; intuition congruence) [] []).
  rewrite app_nil_l, app_nil_r in Hr. fold trailer in Hr. change (length (@nil Z)) with 0%nat in Hr.
  unfold reader_of. rewrite Hr. cbn [fst]. by rewrite !Z.eqb_refl.
Qed.

(** ** Properties *)

(** Replay of a torn journal: the loop hands exactly the intact records, in order, to
    the visitor and stops at the byte where the cut record starts; a record cut at a
    record boundary is the end of the file, any other cut is reported as truncation. *)
Theorem replay_journal_torn {T} (visit : list Z -> Z -> T -> Result unit * T)
    (rs : list (list Z)) (p : list Z) (n : nat) (s s' : T) :
  Forall journal_payload rs -> journal_payload p -> (n < length (frame_of p))%nat ->
  visit_all visit rs 0 s = (Good tt, s') ->
  exists stop, replay_journal visit (frames_of rs ++ take n (frame_of p)) s =
    (mkReplay stop (length (frames_of rs)) (Z.of_nat (length rs)), s') /\
    match stop with
    | ReplayEof => n = 0%nat
    | ReplayDamaged e => (0 < n)%nat /\ st_code e = ErrorCode.JournalTruncated
    | ReplayRefused _ => False
    end.
Proof. apply replay_torn. Qed.

(** The visitor that keeps every payload. *)
Definition keep_payload (p : list Z) (_ : Z) (l : list (list Z)) : Result unit * list (list Z) :=
  (Good tt, l ++ [p]).

Ltac solve_journal_payload := split; [decide_closed|vm_compute; congruence].

Lemma replay_journal_torn_witness :
  exists stop, replay_journal keep_payload (frames_of [[1; 2]; [3]] ++ take 5 (frame_of [4])) [] =
    (mkReplay stop (length (frames_of [[1; 2]; [3]])) 2, [[1; 2]; [3]]) /\
    match stop with
    | ReplayEof => 5%nat = 0%nat
    | ReplayDamaged e => (0 < 5)%nat /\ st_code e = ErrorCode.JournalTruncated
    | ReplayRefused _ => False
    end.
Proof.
  apply (replay_journal_torn keep_payload [[1; 2]; [3]] [4] 5 [] [[1; 2]; [3]]).
  - rewrite !Forall_cons, Forall_nil. split_and!; [solve_journal_payload..|done].
  - solve_journal_payload.
  - vm_compute. lia.
  - reflexivity.
Defined.

(** C26. Crash safety of an append, for an open, writable store that has a journal of intact
    records and no snapshot yet, and that is configured to drop a damaged tail: let record [p],
    which fits the bounds of a record and the room left in the journal, be appended, and let
    the write be interrupted after any number [n] of its bytes short of the whole frame. If
    the bytes written do not happen to contain an intact frame themselves (recovery would take
    that for damage in the middle of the file and refuse), then the append reports an error,
    and recovery in a fresh process, no call of which fails and whose visitor accepts the
    earlier records, replays exactly the records that were there before, repairs the file to
    them and reports the [n] bytes it dropped; no earlier record is lost. *)
Theorem interrupted_append_recovers {T} (visit_snapshot : SnapshotHeader -> list Z -> T -> Result unit * T)
    (visit_record : list Z -> Z -> T -> Result unit * T) (d : DurableStore) (rs : list (list Z))
    (p : list Z) (n : nat) (s s' : T) :
  ds_configured d = true -> ds_writable d = true -> store_consistent d -> ds_io d = [IoFail n] ->
  ds_snapshot d = None -> ds_journal d = Some (frames_of rs) ->
  pc_truncate_damaged_tail (ds_config d) = true -> 0 <= pc_max_snapshot_bytes (ds_config d) ->
  Forall journal_payload rs -> journal_payload p -> journal_room d p -> (n < length (frame_of p))%nat ->
  intact_after (frames_of rs ++ take n (frame_of p)) (length (frames_of rs)) = false ->
  visit_all visit_record rs 0 s = (Good tt, s') ->
  exists e d1 report d2,
    append_record p d = (Bad e, d1) /\
    recover visit_snapshot visit_record (reopen d1, s) = (Good report, (d2, s')) /\
    ds_journal d2 = Some (frames_of rs) /\ rr_journal_bytes_discarded report = Z.of_nat n.
Proof.
  intros Hcf Hw Hc Hio Hsn Hj Htr Hms Hrs Hp Hr Hn Hia Hv.
  unfold append_record, sm_bind, sm_get. rewrite Hcf, Hw. cbn [negb]. unfold sm_ret.
  rewrite journal_append_open by done. rewrite Hio.
  set (d1 := d <| ds_io := [] |> <| ds_journal := Some (journal_contents d ++ take n (frame_of p)) |>).
  assert (journal_contents d = frames_of rs) as Hjc by (unfold journal_contents; by rewrite Hj).
  destruct (recover_torn visit_snapshot visit_record (reopen d1) rs p n s s')
    as (report & d2 & Hrec & Hj2 & _ & _ & Hdis); try done.
  - unfold d1. cbn. by rewrite Hjc.
  - unfold d1. cbn [reopen]. destruct Hr as [Hr _]. rewrite Hjc in Hr. rewrite length_app, length_take.
    change (ds_config (reopen _)) with (ds_config d). lia.
  - eexists _, d1, report, d2. by split_and!.
Qed.

Definition sample_store : DurableStore :=
  default_DurableStore <| ds_configured := true |> <| ds_writable := true |>
    <| ds_journal := Some (frames_of [[1; 2]; [3]]) |> <| ds_bytes_written := 35 |> <| ds_io := [IoFail 17] |>.

Lemma interrupted_append_recovers_witness :
  exists e d1 report d2,
    append_record [4; 5] sample_store = (Bad e, d1) /\
    recover (fun _ _ l => (Good tt, l)) keep_payload (reopen d1, []) = (Good report, (d2, [[1; 2]; [3]])) /\
    ds_journal d2 = Some (frames_of [[1; 2]; [3]]) /\ rr_journal_bytes_discarded report = 17.
Proof.
  apply (interrupted_append_recovers _ keep_payload sample_store [[1; 2]; [3]] [4; 5] 17); try reflexivity.
  - intros _. reflexivity.
  - vm_compute. congruence.
  - rewrite !Forall_cons, Forall_nil. split_and!; [solve_journal_payload..|done].
  - solve_journal_payload.
  - vm_compute. split; congruence.
  - vm_compute. lia.
Defined.

(** The snapshot container round-trips: a header of the supported version and a payload
    within the bound are decoded exactly as they were encoded, with both checksums and both
    magic numbers in place. *)
Theorem snapshot_container_roundtrip (h : SnapshotHeader) (payload : list Z) (max_payload : Z) :
  wf_snapshot_header h -> sh_format_version h = kPersistenceFormatVersion -> is_bytes payload ->
  Z.of_nat (length payload) <= max_payload -> max_payload <= u32_max ->
  decode_snapshot (encode_snapshot h payload) max_payload =
  Good (h <| sh_payload_bytes := Z.of_nat (length payload) |>, payload).
Proof. apply decode_encode_snapshot. Qed.

Definition sample_header : SnapshotHeader := mkSnapshotHeader 1 0 0 7 (mkBootIncarnation 3 4) 9.

Lemma snapshot_container_roundtrip_witness :
  decode_snapshot (encode_snapshot sample_header [1; 2; 3]) 100 =
  Good (sample_header <| sh_payload_bytes := 3 |>, [1; 2; 3]).
Proof.
  apply (snapshot_container_roundtrip sample_header [1; 2; 3] 100);
    [vm_compute; intuition congruence|reflexivity|decide_closed|vm_compute; congruence|u64_lia].
Defined.

(** A snapshot accepted by [write_snapshot] can be refused by [recover]: the writer bounds
    the payload by [max_snapshot_bytes], the reader bounds the whole container by it. *)
Lemma snapshot_bound_mismatch :
  let d := default_DurableStore <| ds_configured := true |>
    <| ds_config ::= fun c => c <| pc_max_snapshot_bytes := 100 |> |> in
  let '(written, d1) := write_snapshot sample_header (repeat 0 90) d in
  written = Good tt /\
  result_code (fst (recover (fun _ _ u => (Good tt, u)) (fun _ _ u => (Good tt, u)) (reopen d1, tt))) =
    ErrorCode.OversizedMessage.
Proof. by vm_compute. Qed.
