(* ===== verification/State.v ===== *)
(** * The fabric's state and its shared helpers

    [src/fabric_impl.hpp] and the helpers of [src/fabric.cpp]: every authoritative table,
    the lookups, the per-pool aggregates and the closure check, attempt de-duplication,
    decision history, events and the journaling of mutations. The hash tables are finite
    maps keyed as in the source. A C++ reference into a table is the key: every access
    looks the entry up again, so that two references to one entry alias. *)

From S2P Require Import Prelude Ints Hash Enums Status Codec Model Wire Policy Accounting Authority Persist.

(** ** State *)

Record FabricEvent := mkFabricEvent {
  fe_kind : EventKind; fe_at : Z; fe_epoch : Z; fe_sequence : Z; fe_pool : Z; fe_queue : Z;
  fe_allocation : Z; fe_units : Z; fe_outcome : ErrorCode; fe_detail : string
}.

#[export] Instance settable_FabricEvent : Settable FabricEvent :=
  fun r => mkFabricEvent (fe_kind r) (fe_at r) (fe_epoch r) (fe_sequence r) (fe_pool r)
  (fe_queue r) (fe_allocation r) (fe_units r) (fe_outcome r) (fe_detail r).
Definition default_FabricEvent : FabricEvent :=
  mkFabricEvent EventKind.DecisionRefused 0 0 0 0 0 0 0 ErrorCode.Ok "".

(** Lifetime counters. *)
Record FabricMetrics := mkFabricMetrics {
  mt_decisions : Z; mt_grants : Z; mt_partial_grants : Z; mt_refusals : Z; mt_reductions : Z;
  mt_fences : Z; mt_reclaims : Z; mt_revalidations : Z; mt_idempotent_replays : Z;
  mt_attempt_conflicts : Z; mt_allocations_created : Z; mt_allocations_committed : Z;
  mt_allocations_released : Z; mt_allocations_reclaimed : Z; mt_allocations_fenced : Z;
  mt_allocations_expired : Z; mt_pressure_snapshots_accepted : Z;
  mt_pressure_snapshots_rejected : Z; mt_journal_records_written : Z;
  mt_journal_bytes_written : Z; mt_journal_records_replayed : Z;
  mt_journal_tail_truncations : Z; mt_snapshots_written : Z; mt_recoveries : Z;
  mt_epoch_advances : Z; mt_backend_effects_attempted : Z; mt_backend_effects_unsupported : Z;
  mt_live_allocations : Z; mt_live_committed_units : Z; mt_peak_committed_units : Z
}.

#[export] Instance settable_FabricMetrics : Settable FabricMetrics :=
  fun r => mkFabricMetrics (mt_decisions r) (mt_grants r) (mt_partial_grants r) (mt_refusals r)
  (mt_reductions r) (mt_fences r) (mt_reclaims r) (mt_revalidations r)
  (mt_idempotent_replays r) (mt_attempt_conflicts r) (mt_allocations_created r)
  (mt_allocations_committed r) (mt_allocations_released r) (mt_allocations_reclaimed r)
  (mt_allocations_fenced r) (mt_allocations_expired r) (mt_pressure_snapshots_accepted r)
  (mt_pressure_snapshots_rejected r) (mt_journal_records_written r)
  (mt_journal_bytes_written r) (mt_journal_records_replayed r) (mt_journal_tail_truncations r)
  (mt_snapshots_written r) (mt_recoveries r) (mt_epoch_advances r)
  (mt_backend_effects_attempted r) (mt_backend_effects_unsupported r) (mt_live_allocations r)
  (mt_live_committed_units r) (mt_peak_committed_units r).
Definition default_FabricMetrics : FabricMetrics :=
  mkFabricMetrics 0 0 0 0 0 0 0 0 0 0 0 0 0 0 0 0 0 0 0 0 0 0 0 0 0 0 0 0 0 0.

Record FabricConfig := mkFabricConfig {
  fc_persistence : PersistenceConfig; fc_decision_history_capacity : Z;
  fc_attempt_memory_capacity : Z; fc_verify_accounting_on_mutation : bool;
  fc_strict_generation_binding : bool; fc_refuse_work_after_shutdown : bool;
  fc_pressure_history_capacity : Z; fc_max_inspection_rows : Z;
  fc_auto_fence_on_queue_retirement : bool; fc_program_backend_effects : bool
}.

#[export] Instance settable_FabricConfig : Settable FabricConfig :=
  fun r => mkFabricConfig (fc_persistence r) (fc_decision_history_capacity r)
  (fc_attempt_memory_capacity r) (fc_verify_accounting_on_mutation r)
  (fc_strict_generation_binding r) (fc_refuse_work_after_shutdown r)
  (fc_pressure_history_capacity r) (fc_max_inspection_rows r)
  (fc_auto_fence_on_queue_retirement r) (fc_program_backend_effects r).
Definition default_FabricConfig : FabricConfig :=
  mkFabricConfig default_PersistenceConfig 4096 kMaxAttemptMemory true true true 64 65536 true
  false.

(** A pool, its live counters and its authoritative aggregates. *)
Record PoolEntry := mkPoolEntry {
  en_descriptor : PoolDescriptor; en_capacity_generation : Z; en_runtime : PoolRuntime;
  en_reserved_units : Z; en_committed_units : Z; en_pinned_units : Z; en_reclaimable_units : Z;
  en_own_usage : Z; en_borrowed_in : Z; en_lent_out : Z; en_queue_committed : gmap Z Z;
  en_queue_reserved : gmap Z Z; en_members : gset Z
}.

#[export] Instance settable_PoolEntry : Settable PoolEntry :=
  fun r => mkPoolEntry (en_descriptor r) (en_capacity_generation r) (en_runtime r)
  (en_reserved_units r) (en_committed_units r) (en_pinned_units r) (en_reclaimable_units r)
  (en_own_usage r) (en_borrowed_in r) (en_lent_out r) (en_queue_committed r)
  (en_queue_reserved r) (en_members r).
Definition default_PoolEntry : PoolEntry :=
  mkPoolEntry default_PoolDescriptor 0 default_PoolRuntime 0 0 0 0 0 0 0 ∅ ∅ ∅.

Record CapacityEntry := mkCapacityEntry {
  cp_resource : Z; cp_backend : Z; cp_generation : Z; cp_raw_units : Z; cp_observed_at : Z
}.

#[export] Instance settable_CapacityEntry : Settable CapacityEntry :=
  fun r => mkCapacityEntry (cp_resource r) (cp_backend r) (cp_generation r) (cp_raw_units r)
  (cp_observed_at r).
Definition default_CapacityEntry : CapacityEntry :=
  mkCapacityEntry 0 0 0 0 0.

Record PressureEntry := mkPressureEntry {
  pr_history : list PressureSnapshot; pr_has_latest : bool; pr_latest : PressureSnapshot;
  pr_latest_revalidated : bool
}.

#[export] Instance settable_PressureEntry : Settable PressureEntry :=
  fun r => mkPressureEntry (pr_history r) (pr_has_latest r) (pr_latest r)
  (pr_latest_revalidated r).
Definition default_PressureEntry : PressureEntry :=
  mkPressureEntry [] false default_PressureSnapshot false.

(** The backend pointer is not modelled. *)
Record BackendEntry := mkBackendEntry {
  be_kind : Z; be_generation : Z; be_ready : bool
}.

#[export] Instance settable_BackendEntry : Settable BackendEntry :=
  fun r => mkBackendEntry (be_kind r) (be_generation r) (be_ready r).
Definition default_BackendEntry : BackendEntry :=
  mkBackendEntry 0 0 false.

(** The authoritative state. [im_events] is the local event vector of the running operation. *)
Record Impl := mkImpl {
  im_tick : Z; im_config : FabricConfig; im_open : bool; im_shutting_down : bool; im_epoch : Z;
  im_boot : BootIncarnation; im_next_pool_id : Z; im_next_queue_id : Z;
  im_next_allocation_id : Z; im_next_policy_id : Z; im_next_snapshot_id : Z;
  im_next_attempt_sequence : Z; im_next_decision_sequence : Z;
  im_backends : gmap Z BackendEntry; im_capacities : gmap Z CapacityEntry;
  im_policies : gmap Z PoolPolicy; im_policy_names : gmap string Z;
  im_pools : gmap Z PoolEntry; im_pool_names : gmap string Z;
  im_queues : gmap Z QueueDescriptor; im_queue_names : gmap string Z;
  im_allocations : gmap Z AllocationRecord; im_pressure : gmap Z PressureEntry;
  im_attempts : gmap Z AttemptRecord; im_attempt_order : list Z;
  im_decisions : list DecisionRecord; im_recovery : RecoveryReport; im_store : DurableStore;
  im_metrics : FabricMetrics; im_allocations_total : Z; im_events : list FabricEvent
}.

#[export] Instance settable_Impl : Settable Impl :=
  fun r => mkImpl (im_tick r) (im_config r) (im_open r) (im_shutting_down r) (im_epoch r)
  (im_boot r) (im_next_pool_id r) (im_next_queue_id r) (im_next_allocation_id r)
  (im_next_policy_id r) (im_next_snapshot_id r) (im_next_attempt_sequence r)
  (im_next_decision_sequence r) (im_backends r) (im_capacities r) (im_policies r)
  (im_policy_names r) (im_pools r) (im_pool_names r) (im_queues r) (im_queue_names r)
  (im_allocations r) (im_pressure r) (im_attempts r) (im_attempt_order r) (im_decisions r)
  (im_recovery r) (im_store r) (im_metrics r) (im_allocations_total r) (im_events r).
Definition default_Impl : Impl :=
  mkImpl 0 default_FabricConfig false false 0 default_BootIncarnation 1 1 1 1 1 1 1 ∅ ∅ ∅ ∅ ∅ ∅
  ∅ ∅ ∅ ∅ ∅ [] [] default_RecoveryReport default_DurableStore default_FabricMetrics 0 [].

#[global] Arguments default_Impl : simpl never.

(** Operations on the state, with early return on error. *)
Definition M (A : Type) : Type := StateR Impl A.

Definition gets {A} (f : Impl -> A) : M A := fun s => (Good (f s), s).
Definition modify (f : Impl -> Impl) : M unit := sm_modify f.
Definition raise {A} (code : ErrorCode) (message : string) : M A := sm_fail code message.
Definition ret {A} (a : A) : M A := sm_ret a.

(** [if (c) return Status(code, message);]. *)
Definition reject_when (c : bool) (code : ErrorCode) (message : string) : M unit :=
  sm_lift (reject_if c code message).

Definition metric (f : FabricMetrics -> FabricMetrics) : M unit := modify (fun s => s <| im_metrics ::= f |>).

(** [x += n] on a 64-bit counter. *)
Definition plus (n : Z) : Z -> Z := fun x => add64 x n.

(** [x -= n]. *)
Definition minus (n : Z) : Z -> Z := fun x => sub64 x n.

(** ** Pool entry *)

Definition en_allocated (e : PoolEntry) : Z := add64 (en_reserved_units e) (en_committed_units e).

Definition en_usable (e : PoolEntry) : Z :=
  if pd_protected_units (en_descriptor e) <=? pd_raw_units (en_descriptor e)
  then sub64 (pd_raw_units (en_descriptor e)) (pd_protected_units (en_descriptor e)) else 0.

Definition en_overcommit_used (e : PoolEntry) : Z :=
  if en_usable e <? en_own_usage e then sub64 (en_own_usage e) (en_usable e) else 0.

Definition en_free_units (e : PoolEntry) : Z := sub64 (add64 (en_usable e) (en_overcommit_used e)) (en_own_usage e).

(** ** Lookups *)

Definition require_pool (id : Z) : M PoolEntry := fun s =>
  if negb (valid id) then (fail ErrorCode.InvalidArgument "pool id must be non-zero", s)
  else match im_pools s !! id with
       | None => (fail ErrorCode.UnknownPool "no such pool", s)
       | Some e => (Good e, s)
       end.

Definition require_queue (id : Z) : M QueueDescriptor := fun s =>
  if negb (valid id) then (fail ErrorCode.InvalidArgument "queue id must be non-zero", s)
  else match im_queues s !! id with
       | None => (fail ErrorCode.UnknownQueue "no such queue", s)
       | Some q => (Good q, s)
       end.

(** A table lookup whose absence returns a status. *)
Definition require {A} (o : option A) (code : ErrorCode) (message : string) : M A :=
  match o with Some a => ret a | None => raise code message end.

(** Write through a reference to the entry of pool [id]. *)
Definition update_pool (id : Z) (f : PoolEntry -> PoolEntry) : M unit :=
  modify (fun s => s <| im_pools ::= alter f id |>).

Definition update_runtime (id : Z) (f : PoolRuntime -> PoolRuntime) : M unit :=
  update_pool id (fun e => e <| en_runtime ::= f |>).

(** ** Accounting *)

Definition accounting_of (s : Impl) (e : PoolEntry) : PoolAccounting :=
  mkPoolAccounting (pd_id (en_descriptor e)) (pd_generation (en_descriptor e))
    (pd_raw_units (en_descriptor e)) (pd_protected_units (en_descriptor e)) (en_usable e)
    (en_allocated e) (en_reserved_units e) (en_committed_units e) (en_pinned_units e)
    (en_reclaimable_units e) (en_borrowed_in e) (en_lent_out e) (en_overcommit_used e)
    (match im_policies s !! pd_policy (en_descriptor e) with
     | Some p => if decide (oc_mode (pol_overcommit p) = OvercommitMode.Bounded)
                 then oc_limit_units (pol_overcommit p) else 0
     | None => 0
     end)
    (en_free_units e).

Definition check_closure (s : Impl) (e : PoolEntry) : Result unit :=
  let '(mode, limit) :=
    match im_policies s !! pd_policy (en_descriptor e) with
    | Some p => (oc_mode (pol_overcommit p), oc_limit_units (pol_overcommit p))
    | None => (OvercommitMode.Forbid, 0)
    end in
  report_status (check_pool_accounting (accounting_of s e) mode limit).

(** [rebuild_aggregates], in its three loops. *)
Definition reset_entry (e : PoolEntry) : PoolEntry :=
  e <| en_reserved_units := 0 |> <| en_committed_units := 0 |> <| en_pinned_units := 0 |>
    <| en_reclaimable_units := 0 |> <| en_own_usage := 0 |> <| en_borrowed_in := 0 |>
    <| en_lent_out := 0 |> <| en_queue_committed := ∅ |> <| en_queue_reserved := ∅ |> <| en_members := ∅ |>.

Definition bucket_add (queue units : Z) (bucket : gmap Z Z) : gmap Z Z :=
  <[queue := add64 (default 0 (bucket !! queue)) units]> bucket.

Definition effective_borrow (r : AllocationRecord) : Z :=
  if ar_borrow_units r <=? ar_units r then ar_borrow_units r else ar_units r.

Definition add_to_holder (r : AllocationRecord) (e : PoolEntry) : PoolEntry :=
  let borrowed := effective_borrow r in
  let e := match ar_reclaim_class r with
    | ReclaimClass.Pinned => e <| en_pinned_units ::= plus (ar_units r) |>
    | ReclaimClass.Reclaimable => e <| en_reclaimable_units ::= plus (ar_units r) |>
    end in
  let reserved := bool_decide (ar_state r = AllocationState.Reserved) in
  let e := if reserved then e <| en_reserved_units ::= plus (ar_units r) |>
           else e <| en_committed_units ::= plus (ar_units r) |> in
  let e := e <| en_borrowed_in ::= plus borrowed |> <| en_own_usage ::= plus (sub64 (ar_units r) borrowed) |>
    <| en_members ::= fun m => {[ar_id r]} ∪ m |> in
  if reserved then e <| en_queue_reserved ::= bucket_add (ar_queue r) (ar_units r) |>
  else e <| en_queue_committed ::= bucket_add (ar_queue r) (ar_units r) |>.

Definition add_to_lender (borrowed : Z) (e : PoolEntry) : PoolEntry :=
  e <| en_lent_out ::= plus borrowed |> <| en_own_usage ::= plus borrowed |>.

Definition add_record (r : AllocationRecord) (pools : gmap Z PoolEntry) : gmap Z PoolEntry :=
  if negb (allocation_holds_units (ar_state r)) then pools
  else match pools !! ar_pool r with
  | None => pools
  | Some _ =>
      let pools := alter (add_to_holder r) (ar_pool r) pools in
      let borrowed := effective_borrow r in
      if negb (borrowed =? 0) && valid (ar_lender r)
      then alter (add_to_lender borrowed) (ar_lender r) pools else pools
  end.

Definition refresh_runtime (e : PoolEntry) : PoolEntry :=
  e <| en_runtime ::= fun rt =>
    rt <| rt_borrowed_in := en_borrowed_in e |> <| rt_lent_out := en_lent_out e |>
       <| rt_overcommit_used := en_overcommit_used e |> <| rt_free_units := en_free_units e |>
       <| rt_reserved_units := en_reserved_units e |> <| rt_committed_units := en_committed_units e |>
       <| rt_pinned_units := en_pinned_units e |> <| rt_reclaimable_units := en_reclaimable_units e |> |>.

Definition rebuild_pools (pools : gmap Z PoolEntry) (allocations : gmap Z AllocationRecord) : gmap Z PoolEntry :=
  refresh_runtime <$> map_fold (fun _ r acc => add_record r acc) (reset_entry <$> pools) allocations.

Definition rebuild_aggregates (s : Impl) : Impl := s <| im_pools ::= fun p => rebuild_pools p (im_allocations s) |>.

(** Accounting recomputed from the allocation table alone. *)
Definition verify_seed (s : Impl) (e : PoolEntry) : PoolAccounting :=
  default_PoolAccounting <| pa_pool := pd_id (en_descriptor e) |>
    <| pa_pool_generation := pd_generation (en_descriptor e) |> <| pa_raw := pd_raw_units (en_descriptor e) |>
    <| pa_protected_units := pd_protected_units (en_descriptor e) |> <| pa_usable := en_usable e |>
    <| pa_overcommit_limit := pa_overcommit_limit (accounting_of s e) |>.

Definition verify_holder (r : AllocationRecord) (a : PoolAccounting) : PoolAccounting :=
  let a := a <| pa_allocated ::= plus (ar_units r) |> in
  let a := match ar_reclaim_class r with
    | ReclaimClass.Pinned => a <| pa_pinned ::= plus (ar_units r) |>
    | ReclaimClass.Reclaimable => a <| pa_reclaimable ::= plus (ar_units r) |>
    end in
  let a := if decide (ar_state r = AllocationState.Reserved) then a <| pa_reserved ::= plus (ar_units r) |>
           else a <| pa_committed ::= plus (ar_units r) |> in
  a <| pa_borrowed_in ::= plus (effective_borrow r) |>.

Definition verify_record (r : AllocationRecord) (m : gmap Z PoolAccounting) : gmap Z PoolAccounting :=
  if negb (allocation_holds_units (ar_state r)) then m
  else match m !! ar_pool r with
  | None => m
  | Some _ =>
      let m := alter (verify_holder r) (ar_pool r) m in
      let borrowed := effective_borrow r in
      if negb (borrowed =? 0) && valid (ar_lender r)
      then alter (fun a => a <| pa_lent_out ::= plus borrowed |>) (ar_lender r) m else m
  end.

Definition verify_finish (a : PoolAccounting) : PoolAccounting :=
  let own := saturating_add
    (if pa_borrowed_in a <=? pa_allocated a then sub64 (pa_allocated a) (pa_borrowed_in a) else 0) (pa_lent_out a) in
  let over := if pa_usable a <? own then sub64 own (pa_usable a) else 0 in
  a <| pa_overcommit_used := over |> <| pa_free := sub64 (add64 (pa_usable a) over) own |>.

(** [emplace]: an entry already present is kept. *)
Definition emplace {A} (k : Z) (a : A) (m : gmap Z A) : gmap Z A :=
  match m !! k with Some _ => m | None => <[k := a]> m end.

Definition deep_verify (s : Impl) : AccountingReport :=
  let seeds := map_fold (fun _ e m => emplace (pd_id (en_descriptor e)) (verify_seed s e) m) ∅ (im_pools s) in
  let recomputed := map_fold (fun _ r m => verify_record r m) seeds (im_allocations s) in
  check_global_accounting (map snd (map_to_list (verify_finish <$> recomputed))).

(** ** Attempts *)

(** Nothing when the attempt is new, the remembered record on a replay. *)
Definition lookup_attempt (id : Z) (digest : Digest) : M (option AttemptRecord) := fun s =>
  if negb (valid id) then (fail ErrorCode.InvalidArgument "attempt id must be non-zero", s)
  else match im_attempts s !! id with
  | None => (Good None, s)
  | Some a =>
      if decide (at_request_digest a = digest) then (Good (Some a), s)
      else (fail ErrorCode.AttemptConflict "attempt id was already used for a different request", s)
  end.

(** The eviction loop; each round pops the order queue, so its length is enough fuel. *)
Fixpoint evict_loop (fuel : nat) (s : Impl) : Impl :=
  match fuel with
  | O => s
  | S fuel' =>
      if fc_attempt_memory_capacity (im_config s) <? Z.of_nat (size (im_attempts s)) then
        match im_attempt_order s with
        | [] => s
        | oldest :: order =>
            evict_loop fuel' (s <| im_attempt_order := order |> <| im_attempts ::= delete oldest |>)
        end
      else s
  end.

Definition evict_attempts (s : Impl) : Impl := evict_loop (length (im_attempt_order s)) s.

Definition record_attempt (a : AttemptRecord) : M unit := modify (fun s =>
  if fc_attempt_memory_capacity (im_config s) =? 0 then s
  else
    let s := match im_attempts s !! at_id a with
      | None => s <| im_attempt_order ::= fun o => o ++ [at_id a] |>
      | Some _ => s
      end in
    evict_attempts (s <| im_attempts ::= <[at_id a := a]> |>)).

(** ** Decision history *)

Definition decision_record (d : Decision) : DecisionRecord :=
  mkDecisionRecord (dc_sequence d) (dc_decided_at d) (dc_kind d) (dc_status d) (dc_pool d) (dc_queue d)
    (dc_allocation d) (dc_requested_units d) (dc_granted_units d) (dc_binding d) (dc_pressure d)
    (av_digest (dc_authority d)) (dc_reason d).

Definition record_decision (d : Decision) : M unit := modify (fun s =>
  let history := im_decisions s ++ [decision_record d] in
  s <| im_decisions := drop (length history - Z.to_nat (fc_decision_history_capacity (im_config s))) history |>).

Definition next_sequence : M unit := modify (fun s => s <| im_next_decision_sequence ::= plus 1 |>).

(** ** Events *)

Definition kMaxEvents : nat := 64.

Definition push_event (kind : EventKind) (outcome : ErrorCode) (detail : string)
    (pool queue allocation units sequence : Z) : M unit := modify (fun s =>
  if (kMaxEvents <=? length (im_events s))%nat then s
  else s <| im_events ::= fun l =>
    l ++ [mkFabricEvent kind (im_tick s) (im_epoch s) sequence pool queue allocation units outcome detail] |>).

(** ** Full snapshot *)

Definition put_list {A} (put : A -> Put) (l : list A) : Put := fun w => fold_left (fun w a => put a w) l w.

Definition values {A} (m : gmap Z A) : list A := map snd (map_to_list m).

Definition put_table {A} (put : A -> Put) (m : gmap Z A) : Put :=
  put_u32 (wrap32 (Z.of_nat (size m))) >+> put_list put (values m).

Definition encode_capacity (c : CapacityEntry) : Put :=
  put_id (cp_resource c) >+> put_id (cp_backend c) >+> put_id (cp_generation c) >+>
  put_u64 (cp_raw_units c) >+> put_u64 (cp_observed_at c).

Definition encode_pool_entry (e : PoolEntry) : Put :=
  encode_pool (en_descriptor e) >+> put_id (en_capacity_generation e).

Definition latest_snapshots (s : Impl) : list PressureSnapshot :=
  map pr_latest (List.filter pr_has_latest (values (im_pressure s))).

Definition encode_image (s : Impl) : Put :=
  put_u8 0xFF >+> put_u64 (im_epoch s) >+> put_u64 (bi_hi (im_boot s)) >+> put_u64 (bi_lo (im_boot s)) >+>
  put_u64 (im_next_pool_id s) >+> put_u64 (im_next_queue_id s) >+> put_u64 (im_next_allocation_id s) >+>
  put_u64 (im_next_policy_id s) >+> put_u64 (im_next_snapshot_id s) >+>
  put_u64 (im_next_decision_sequence s) >+> put_u64 (im_next_attempt_sequence s) >+>
  put_table encode_policy (im_policies s) >+> put_table encode_pool_entry (im_pools s) >+>
  put_table encode_queue (im_queues s) >+> put_table encode_allocation (im_allocations s) >+>
  (put_u32 (wrap32 (Z.of_nat (length (latest_snapshots s)))) >+>
   put_list encode_pressure_snapshot (latest_snapshots s)) >+>
  put_table encode_attempt (im_attempts s) >+> put_table encode_capacity (im_capacities s).

Definition on_store_m {A} (m : StateR DurableStore A) : M A := fun s =>
  let '(r, d) := m (im_store s) in (r, s <| im_store := d |>).

Definition durable (s : Impl) : bool := store_enabled (im_store s).

Definition write_full_snapshot : M unit :=
  let* s := sm_get in
  if negb (durable s) then ret tt
  else
    let writer := encode_image s writer_empty in
    if wr_failed writer then raise ErrorCode.OversizedMessage "snapshot image could not be encoded"
    else
      let header := mkSnapshotHeader kPersistenceFormatVersion 0 0 (im_epoch s) (im_boot s)
        (mt_journal_records_written (im_metrics s)) in
      on_store_m (write_snapshot header (wr_buffer writer)) ;;;
      metric (fun m => m <| mt_snapshots_written ::= plus 1 |>).

(** ** Journaling *)

Definition journal (op : JournalOp) (payload : list Z) : M unit :=
  let* s := sm_get in
  if negb (durable s) then ret tt
  else
    when (needs_compaction (im_store s)) do write_full_snapshot ;;;
    let writer := (put_enum op >+> put_bytes payload) writer_empty in
    if wr_failed writer then raise ErrorCode.OversizedMessage "journal payload could not be encoded"
    else
      on_store_m (append_record (wr_buffer writer)) ;;;
      metric (fun m => m <| mt_journal_records_written ::= plus 1 |>
        <| mt_journal_bytes_written ::= plus (Z.of_nat (length (wr_buffer writer))) |>).

(** A record is encoded, and journaled when the encoding did not fail. *)
Definition journal_encoded (op : JournalOp) (p : Put) (message : string) : M unit :=
  let writer := p writer_empty in
  if wr_failed writer then raise ErrorCode.OversizedMessage message
  else journal op (wr_buffer writer).

Definition journal_policy (p : PoolPolicy) : M unit :=
  journal_encoded JournalOp.PolicyUpsert (encode_policy p) "policy record could not be encoded".

Definition journal_pool (e : PoolEntry) : M unit :=
  journal_encoded JournalOp.PoolUpsert (encode_pool_entry e) "pool record could not be encoded".

Definition journal_queue (q : QueueDescriptor) : M unit :=
  journal_encoded JournalOp.QueueUpsert (encode_queue q) "queue record could not be encoded".

Definition journal_allocation (op : JournalOp) (r : AllocationRecord) : M unit :=
  journal_encoded op (encode_allocation r) "allocation record could not be encoded".

Definition journal_capacity (c : CapacityEntry) : M unit :=
  journal_encoded JournalOp.CapacitySet (encode_capacity c) "capacity record could not be encoded".

Definition journal_attempt (a : AttemptRecord) : M unit :=
  journal_encoded JournalOp.AttemptRecorded (encode_attempt a) "attempt record could not be encoded".

Definition journal_pressure (p : PressureSnapshot) : M unit :=
  journal_encoded JournalOp.PressureObserved (encode_pressure_snapshot p) "pressure record could not be encoded".

Definition ensure_alloc_capacity : M unit :=
  let* s := sm_get in
  reject_when (kMaxAllocationCount <=? Z.of_nat (size (im_allocations s))) ErrorCode.BoundedResourceExhausted
    "the allocation table has reached its configured bound".

(** ** Members and queue buckets *)

(** [sorted_members]: the member ids in increasing order. *)
Definition sorted_members (e : PoolEntry) : list Z := merge_sort Z.le (elements (en_members e)).

(** [adjust_queue] on one bucket. *)
Definition adjust_bucket (queue delta : Z) (bucket : gmap Z Z) : gmap Z Z :=
  if 0 <=? delta then bucket_add queue delta bucket
  else match bucket !! queue with
  | None => bucket
  | Some held => if held <=? - delta then delete queue bucket
                 else <[queue := sub64 held (- delta)]> bucket
  end.

(** [static_cast<i64>] of a [u64]. *)
Definition to_i64 (z : Z) : Z := if z <? 2 ^ 63 then z else z - 2 ^ 64.

Lemma to_i64_small z : z < 2 ^ 63 -> to_i64 z = z.
Proof. intros Hz. unfold to_i64. by rewrite (proj2 (Z.ltb_lt _ _) Hz). Qed.

Definition adjust_queue (queue delta : Z) (reserved : bool) (e : PoolEntry) : PoolEntry :=
  if reserved then e <| en_queue_reserved ::= adjust_bucket queue delta |>
  else e <| en_queue_committed ::= adjust_bucket queue delta |>.
