(* ===== verification/Grant.v ===== *)
(** * Evidence, capacity arithmetic and decision assembly

    The first half of [src/fabric_alloc.cpp]: resolution of pressure evidence, the grant
    arithmetic, the application and release of units on the pool aggregates, fencing of
    one allocation, and the assembly of decisions. *)

From S2P Require Import Prelude Ints Hash Enums Status Codec Model Wire Policy Accounting Authority Persist State.

Definition journal_op_for (state : AllocationState) : JournalOp :=
  match state with
  | AllocationState.Reserved => JournalOp.AllocationReserved
  | AllocationState.Committed => JournalOp.AllocationCommitted
  | AllocationState.Fenced => JournalOp.AllocationFenced
  | AllocationState.Reclaimed => JournalOp.AllocationReclaimed
  | AllocationState.Released => JournalOp.AllocationReleased
  | AllocationState.Expired => JournalOp.AllocationExpired
  end.

Definition event_for (state : AllocationState) : EventKind :=
  match state with
  | AllocationState.Reserved => EventKind.AllocationReserved
  | AllocationState.Committed => EventKind.AllocationCommitted
  | AllocationState.Fenced => EventKind.AllocationFenced
  | AllocationState.Reclaimed => EventKind.AllocationReclaimed
  | AllocationState.Released => EventKind.AllocationReleased
  | AllocationState.Expired => EventKind.AllocationExpired
  end.

Definition is_stale_binding (r : AllocationRecord) (e : PoolEntry) (p : PoolPolicy) (epoch : Z) : bool :=
  negb (bg_pool_generation (ar_bound r) =? pd_generation (en_descriptor e))
  || negb (bg_capacity_generation (ar_bound r) =? en_capacity_generation e)
  || negb (bg_policy_generation (ar_bound r) =? pol_generation p)
  || negb (bg_epoch (ar_bound r) =? epoch).

(** ** Evidence *)

(** The evidence before any snapshot is considered. *)
Definition observed_evidence (s : Impl) (e : PoolEntry) : PressureEvidence * PressureObservation :=
  let thresholds := match im_policies s !! pd_policy (en_descriptor e) with
    | Some p => pp_thresholds (pol_pressure p)
    | None => default_Thresholds
    end in
  let o := classify_pressure thresholds (en_own_usage e) (en_usable e) (negb (en_overcommit_used e =? 0)) in
  (default_PressureEvidence <| pe_pool_generation := pd_generation (en_descriptor e) |>
     <| pe_epoch := im_epoch s |> <| pe_utilization_bp := po_utilization_bp o |>
     <| pe_binding_bp := po_binding_bp o |> <| pe_overcommitted := po_overcommitted o |>, o).

Definition evidence_of_snapshot (s : Impl) (e : PoolEntry) (snapshot : PressureSnapshot)
    (ev : PressureEvidence) : PressureEvidence :=
  let stamp := im_tick s in
  ev <| pe_snapshot := ps_id snapshot |> <| pe_observed_at := ps_observed_at snapshot |>
    <| pe_age_ticks := if ps_observed_at snapshot <=? stamp then sub64 stamp (ps_observed_at snapshot) else 0 |>
    <| pe_epoch_match := ps_epoch snapshot =? im_epoch s |>
    <| pe_generation_match := ps_pool_generation snapshot =? pd_generation (en_descriptor e) |>
    <| pe_fresh := is_fresh stamp (ps_observed_at snapshot) (ps_ttl_ticks snapshot) |>.

Definition conclude (state : PressureState) (reason : ErrorCode) (detail : string) (ev : PressureEvidence) :
    PressureEvidence :=
  ev <| pe_state := state |> <| pe_reason := reason |> <| pe_detail := detail |>.

Definition resolve_evidence (s : Impl) (e : PoolEntry) : PressureEvidence :=
  let '(ev, observation) := observed_evidence s e in
  match im_pressure s !! pd_id (en_descriptor e) with
  | None =>
      conclude PressureState.Unknown ErrorCode.EvidenceUnknown
        "no pressure snapshot has been observed for this pool" ev
  | Some entry =>
    if negb (pr_has_latest entry) then
      conclude PressureState.Unknown ErrorCode.EvidenceUnknown
        "no pressure snapshot has been observed for this pool" ev
    else
      let snapshot := pr_latest entry in
      let ev := evidence_of_snapshot s e snapshot ev in
      if negb (pe_epoch_match ev) then
        conclude PressureState.Stale ErrorCode.StaleEpoch
          "pressure snapshot was produced under a different fabric epoch" ev
      else if negb (pe_generation_match ev) then
        conclude PressureState.Stale ErrorCode.StaleGeneration
          "pressure snapshot describes a different pool generation" ev
      else if negb (pe_fresh ev) then
        conclude PressureState.Stale ErrorCode.StaleEvidence
          "pressure snapshot is older than its declared lifetime" ev
      else if ps_assert_committed snapshot && negb (ps_committed_units snapshot =? en_own_usage e) then
        conclude PressureState.Stale ErrorCode.StaleEvidence
          "pressure snapshot disagrees with authoritative accounting" ev
      else
        conclude (po_state observation) ErrorCode.Ok "fresh, epoch-matched, generation-matched evidence" ev
  end.

Definition evidence_usable (ev : PressureEvidence) : bool := pressure_is_known (pe_state ev).

(** ** Capacity arithmetic *)

Record GrantComputation := mkGrantComputation {
  gc_own_free : Z; gc_own_overcommit_headroom : Z; gc_borrowable : Z; gc_borrow_limit_remaining : Z;
  gc_lender : Z; gc_lender_free : Z; gc_max_grant : Z; gc_binding : BindingConstraint
}.

(** The walk up the ancestors: the first live one with free units, at most [depth] of them. *)
Fixpoint find_lender (depth : nat) (pools : gmap Z PoolEntry) (cursor : Z) : option PoolEntry :=
  match depth with
  | O => None
  | S depth' =>
      if negb (valid cursor) then None
      else match pools !! cursor with
      | None => None
      | Some ancestor =>
          if negb (pd_retired (en_descriptor ancestor)) && negb (en_free_units ancestor =? 0)
          then Some ancestor
          else find_lender depth' pools (pd_parent (en_descriptor ancestor))
      end
  end.

Definition overcommit_headroom (e : PoolEntry) (p : PoolPolicy) : Z :=
  if bool_decide (oc_mode (pol_overcommit p) = OvercommitMode.Bounded)
     && (en_overcommit_used e <? oc_limit_units (pol_overcommit p))
  then sub64 (oc_limit_units (pol_overcommit p)) (en_overcommit_used e) else 0.

Definition compute_grant (s : Impl) (e : PoolEntry) (p : PoolPolicy) : GrantComputation :=
  let own_free := en_free_units e in
  let headroom := overcommit_headroom e p in
  let own_allowance := sat_add own_free headroom in
  let '(borrowable, remaining, lender, lender_free) :=
    if decide (bw_mode (pol_borrow p) = BorrowMode.FromAncestorFree) then
      let remaining := if en_borrowed_in e <? bw_limit_units (pol_borrow p)
                       then sub64 (bw_limit_units (pol_borrow p)) (en_borrowed_in e) else 0 in
      let '(lender, lender_free) :=
        match find_lender (Z.to_nat kMaxPoolDepth) (im_pools s) (pd_parent (en_descriptor e)) with
        | Some a => (pd_id (en_descriptor a), en_free_units a)
        | None => (0, 0)
        end in
      (Z.min lender_free remaining, remaining, lender, lender_free)
    else (0, 0, 0, 0) in
  let max_grant := sat_add own_allowance borrowable in
  mkGrantComputation own_free headroom borrowable remaining lender lender_free max_grant
    (if (max_grant =? 0) && bool_decide (oc_mode (pol_overcommit p) = OvercommitMode.Bounded)
     then BindingConstraint.OvercommitLimit else BindingConstraint.Capacity).

(** ** Applying and releasing units *)

(** The entry behind a reference to pool [id]. *)
Definition pool_ref (id : Z) : M PoolEntry := fun s =>
  match im_pools s !! id with
  | Some e => (Good e, s)
  | None => (fail ErrorCode.UnknownPool "no such pool", s)
  end.

(** [if (add_overflow(a, b, &out)) return Status(Overflow, message);]. *)
Definition checked_add (a b : Z) (message : string) : M Z :=
  let '(o, out) := add_overflow a b in
  if o then raise ErrorCode.Overflow message else ret out.

Definition apply_commit_units (id units borrow_units lender : Z) : M unit :=
  if units <? borrow_units then
    raise ErrorCode.InvariantViolation "borrowed units exceed allocated units"
  else
    let own := sub64 units borrow_units in
    let* e := pool_ref id in
    let* next_own := checked_add (en_own_usage e) own "pool own usage overflowed" in
    let* next_borrowed := checked_add (en_borrowed_in e) borrow_units "pool borrowed units overflowed" in
    update_pool id (fun e => e <| en_own_usage := next_own |> <| en_borrowed_in := next_borrowed |>) ;;;
    if borrow_units =? 0 then ret tt
    else if negb (valid lender) then
      raise ErrorCode.InvariantViolation "borrowed units without a lender"
    else
      let* s := sm_get in
      let* l := require (im_pools s !! lender) ErrorCode.UnknownPool "lender pool is not registered" in
      let* next_lent := checked_add (en_lent_out l) borrow_units "lender lent units overflowed" in
      let* next_lender_own := checked_add (en_own_usage l) borrow_units "lender own usage overflowed" in
      if sat_add (en_usable l) kMaxOvercommitUnits <? next_lender_own then
        raise ErrorCode.CapacityExceeded "lender has no capacity to lend"
      else update_pool lender (fun l => l <| en_lent_out := next_lent |> <| en_own_usage := next_lender_own |>).

Definition release_state_units (id : Z) (r : AllocationRecord) : M unit :=
  let* e := pool_ref id in
  let units := ar_units r in
  if decide (ar_state r = AllocationState.Reserved) then
    reject_when (en_reserved_units e <? units) ErrorCode.InvariantViolation "pool reserved units underflow" ;;;
    update_pool id (fun e => e <| en_reserved_units ::= minus units |>)
  else
    reject_when (en_committed_units e <? units) ErrorCode.InvariantViolation "pool committed units underflow" ;;;
    update_pool id (fun e => e <| en_committed_units ::= minus units |>).

Definition release_class_units (id : Z) (r : AllocationRecord) : M unit :=
  let* e := pool_ref id in
  let units := ar_units r in
  if decide (ar_reclaim_class r = ReclaimClass.Pinned) then
    reject_when (en_pinned_units e <? units) ErrorCode.InvariantViolation "pool pinned units underflow" ;;;
    update_pool id (fun e => e <| en_pinned_units ::= minus units |>)
  else
    reject_when (en_reclaimable_units e <? units) ErrorCode.InvariantViolation "pool reclaimable units underflow" ;;;
    update_pool id (fun e => e <| en_reclaimable_units ::= minus units |>).

Definition release_lender_units (r : AllocationRecord) (borrowed : Z) : M unit :=
  if borrowed =? 0 then ret tt
  else
    let* s := sm_get in
    let* l := require (if valid (ar_lender r) then im_pools s !! ar_lender r else None)
                ErrorCode.InvariantViolation "lender pool is missing" in
    reject_when ((en_lent_out l <? borrowed) || (en_own_usage l <? borrowed))
      ErrorCode.InvariantViolation "lender accounting underflow" ;;;
    update_pool (ar_lender r) (fun l => l <| en_lent_out ::= minus borrowed |> <| en_own_usage ::= minus borrowed |>).

Definition apply_release_units (id : Z) (r : AllocationRecord) : M unit :=
  reject_when (negb (allocation_holds_units (ar_state r))) ErrorCode.InvariantViolation
    "allocation does not hold units" ;;;
  let units := ar_units r in
  let borrowed := effective_borrow r in
  let own := sub64 units borrowed in
  let* e := pool_ref id in
  reject_when (en_own_usage e <? own) ErrorCode.InvariantViolation "pool own usage underflow" ;;;
  reject_when (en_borrowed_in e <? borrowed) ErrorCode.InvariantViolation "pool borrowed units underflow" ;;;
  release_state_units id r ;;;
  release_class_units id r ;;;
  update_pool id (fun e => e <| en_own_usage ::= minus own |> <| en_borrowed_in ::= minus borrowed |>) ;;;
  release_lender_units r borrowed ;;;
  update_pool id (fun e =>
    adjust_queue (ar_queue r) (- to_i64 units) (bool_decide (ar_state r = AllocationState.Reserved)) e
      <| en_members ::= fun m => m ∖ {[ar_id r]} |>).

Definition update_allocation (id : Z) (f : AllocationRecord -> AllocationRecord) : M unit :=
  modify (fun s => s <| im_allocations ::= alter f id |>).

(** The counters of a fence, by the state it leaves the record in. *)
Definition count_fence (new_state : AllocationState) (pool : Z) : M unit :=
  match new_state with
  | AllocationState.Fenced =>
      metric (fun m => m <| mt_allocations_fenced ::= plus 1 |>) ;;;
      update_runtime pool (fun rt => rt <| rt_fenced_count ::= plus 1 |>)
  | AllocationState.Reclaimed =>
      metric (fun m => m <| mt_allocations_reclaimed ::= plus 1 |>) ;;;
      update_runtime pool (fun rt => rt <| rt_reclaim_count ::= plus 1 |>)
  | AllocationState.Released => metric (fun m => m <| mt_allocations_released ::= plus 1 |>)
  | AllocationState.Expired => metric (fun m => m <| mt_allocations_expired ::= plus 1 |>)
  | _ => ret tt
  end.

(** Revoke the record stored under [key]. *)
Definition fence_allocation_locked (key : Z) (new_state : AllocationState) (reason : ErrorCode) : M unit :=
  let* s := sm_get in
  let* r := require (im_allocations s !! key) ErrorCode.UnknownAllocation "no such allocation" in
  match im_pools s !! ar_pool r with
  | None => raise ErrorCode.UnknownPool "allocation references an unknown pool"
  | Some _ =>
    if negb (allocation_holds_units (ar_state r)) then
      raise ErrorCode.NoChange "allocation no longer holds units"
    else
      apply_release_units (ar_pool r) r ;;;
      let r' := r <| ar_state := new_state |> <| ar_last_touched := im_tick s |> <| ar_revision ::= plus 1 |> in
      update_allocation key (fun _ => r') ;;;
      journal_allocation (journal_op_for new_state) r' ;;;
      push_event (event_for new_state) ErrorCode.Ok (ErrorCode.to_string reason)
        (ar_pool r) (ar_queue r) (ar_id r) (ar_units r) 0 ;;;
      count_fence new_state (ar_pool r)
  end.

(** ** Decisions *)

Definition bind_authority (e : PoolEntry) (queue_generation policy_generation attempt provenance snapshot epoch : Z)
    (boot : BootIncarnation) (lender : Z) (v : AuthorityVector) : AuthorityVector :=
  let v := bind AuthorityKind.Capacity (en_capacity_generation e) (en_capacity_generation e) v in
  let v := bind_generation AuthorityKind.Pool (pd_generation (en_descriptor e)) v in
  let v := bind_generation AuthorityKind.Queue queue_generation v in
  let v := bind_generation AuthorityKind.Policy policy_generation v in
  let v := bind_id AuthorityKind.Pressure snapshot v in
  let v := bind_id AuthorityKind.Epoch epoch v in
  let v := bind_id AuthorityKind.Backend (pd_backend (en_descriptor e)) v in
  let v := bind_id AuthorityKind.Provenance provenance v in
  let v := bind_id AuthorityKind.Attempt attempt v in
  let v := bind AuthorityKind.BootIncarnation (bi_hi boot) (bi_lo boot) v in
  let v := if valid lender then bind_id AuthorityKind.Reservation lender v else v in
  seal v.

Definition make_decision (kind : DecisionKind) (code : ErrorCode) (reason : string) (e : PoolEntry)
    (queue requested granted allocation : Z) (binding : BindingConstraint) (ev : PressureEvidence)
    (accounting : PoolAccounting) (stamp sequence : Z) : Decision :=
  mkDecision kind code reason (pd_id (en_descriptor e)) queue requested granted allocation binding
    (pe_state ev) (pe_utilization_bp ev) default_CorrectiveIntent default_AuthorityVector accounting stamp
    sequence (mkDigest 0 0).

(** The answer to an attempt that was already applied: the remembered outcome. *)
Definition replay_decision (s : Impl) (previous : AttemptRecord) (e : PoolEntry) (queue requested attempt allocation : Z)
    (ev : PressureEvidence) : Decision :=
  make_decision DecisionKind.IdempotentReplay (at_outcome previous) "attempt already applied" e queue requested
      (at_granted_units previous) allocation BindingConstraint.None ev (accounting_of s e) (im_tick s)
      (im_next_decision_sequence s)
    <| dc_authority ::= fun v => seal (bind_id AuthorityKind.Attempt attempt v) |>.
