(* ===== verification/Alloc.v ===== *)
(** * Allocation

    [allocate_locked] of [src/fabric_alloc.cpp], on top of the grant arithmetic. [Context]
    gathers what [allocate_locked] reads once and keeps for the rest of the call. *)

From S2P Require Import Prelude Ints Hash Enums Status Codec Model Wire Policy Accounting Authority Persist State Grant.

Definition kMaxLineageDepth : Z := 32.

(** ** Allocate *)

Record AllocContext := mkAllocContext {
  cx_request : AllocateRequest; cx_queue : QueueDescriptor; cx_policy : PoolPolicy;
  cx_evidence : PressureEvidence; cx_digest : Digest; cx_stamp : Z
}.

(** Remember the outcome of an attempt. *)
Definition remember (attempt : Z) (kind : AttemptKind) (digest : Digest) (outcome : ErrorCode)
    (allocation granted sequence stamp : Z) : M unit :=
  record_attempt (mkAttemptRecord attempt kind digest outcome allocation granted sequence stamp false).

(** The [finish] closure: every decision of an allocation request goes through it. *)
Definition finish_decision (cx : AllocContext) (kind : DecisionKind) (code : ErrorCode) (reason : string)
    (granted allocation : Z) (binding : BindingConstraint) (intent : CorrectiveIntent) (lender : Z) : M Decision :=
  let rq := cx_request cx in
  let* e := pool_ref (aq_pool rq) in
  let* s := sm_get in
  let decision := make_decision kind code reason e (qd_id (cx_queue cx)) (aq_requested_units rq) granted
      allocation binding (cx_evidence cx) (accounting_of s e) (cx_stamp cx) (im_next_decision_sequence s)
    <| dc_intent := intent |>
    <| dc_authority ::= bind_authority e (qd_generation (cx_queue cx)) (pol_generation (cx_policy cx))
         (aq_attempt rq) (aq_provenance rq) (pe_snapshot (cx_evidence cx)) (im_epoch s) (im_boot s) lender |> in
  when (negb (bool_decide (code = ErrorCode.Ok))) do
    (metric (fun m => m <| mt_refusals ::= plus 1 |>) ;;;
     update_runtime (aq_pool rq) (fun rt => rt <| rt_refuse_count ::= plus 1 |>)) ;;;
  record_decision decision ;;;
  next_sequence ;;;
  remember (aq_attempt rq) AttemptKind.Allocate (cx_digest cx) code allocation granted (dc_sequence decision)
    (cx_stamp cx) ;;;
  update_runtime (aq_pool rq) (fun rt => rt <| rt_last_decision_at := cx_stamp cx |>) ;;;
  metric (fun m => m <| mt_decisions ::= plus 1 |>) ;;;
  when ((granted =? 0) && negb (bool_decide (code = ErrorCode.Ok))) do
    (push_event EventKind.DecisionRefused code reason (aq_pool rq) (aq_queue rq) allocation
       (aq_requested_units rq) (dc_sequence decision)) ;;;
  ret decision.

(** The refusals that precede the capacity arithmetic: kind, code, reason, binding, intent. *)
Definition refusal_gate (cx : AllocContext) (e : PoolEntry) :
    option (DecisionKind * ErrorCode * string * BindingConstraint * CorrectiveIntent) :=
  let policy := cx_policy cx in
  let ev := cx_evidence cx in
  if pd_retired (en_descriptor e) then
    Some (DecisionKind.Refuse, ErrorCode.WrongState, "pool is retired"%string, BindingConstraint.PoolRetired,
          default_CorrectiveIntent)
  else if qd_retired (cx_queue cx) then
    Some (DecisionKind.Refuse, ErrorCode.WrongState, "queue is retired"%string, BindingConstraint.QueueRetired,
          default_CorrectiveIntent)
  else if negb (evidence_usable ev) && pp_refuse_increase_on_unknown (pol_pressure policy) then
    Some (DecisionKind.Revalidate, pe_reason ev,
          "fresh pressure evidence is required before capacity can be granted"%string,
          (if decide (pe_state ev = PressureState.Unknown) then BindingConstraint.EvidenceUnknown
           else BindingConstraint.EvidenceStale),
          default_CorrectiveIntent <| ci_revalidate_required := true |>)
  else if pressure_is_known (pe_state ev)
          && negb (bool_decide (pol_refuse_grants_at policy = PressureState.Unknown))
          && pressure_at_least (pe_state ev) (pol_refuse_grants_at policy) then
    Some (DecisionKind.Reduce, ErrorCode.PolicyForbids, "pressure is at or above the refusal band"%string,
          BindingConstraint.PressureRefuse,
          default_CorrectiveIntent <| ci_reduce_required := true |> <| ci_reduce_to_units := en_usable e |>)
  else None.

(** [apply_cap]: lower the limit and remember what lowered it. *)
Definition apply_cap (cap : Z) (constraint : BindingConstraint) (l : Z * BindingConstraint) : Z * BindingConstraint :=
  if cap <? fst l then (cap, constraint) else l.

(** Units a queue already holds in the pool, committed and reserved. *)
Definition queue_held (e : PoolEntry) (queue : Z) : Z :=
  add64 (default 0 (en_queue_committed e !! queue)) (default 0 (en_queue_reserved e !! queue)).

Definition room_below (cap held : Z) : Z := if held <? cap then sub64 cap held else 0.

Definition queue_cap (e : PoolEntry) (q : QueueDescriptor) (l : Z * BindingConstraint) : Z * BindingConstraint :=
  if negb (qd_max_committed_units q =? 0) then
    apply_cap (room_below (qd_max_committed_units q) (queue_held e (qd_id q))) BindingConstraint.QueueMaxCommitted l
  else if negb (qd_demand_units q =? 0) then
    apply_cap (room_below (qd_demand_units q) (queue_held e (qd_id q))) BindingConstraint.QueueShare l
  else l.

Definition soft_cap (e : PoolEntry) (p : PoolPolicy) (state : PressureState) (l : Z * BindingConstraint) :
    Z * BindingConstraint :=
  if negb (pol_soft_limit_bp p =? 0) && negb (en_usable e =? 0) then
    let soft_units := sat_mul (en_usable e) (pol_soft_limit_bp p) / kScale in
    if pressure_at_least state PressureState.High then
      apply_cap (room_below soft_units (en_own_usage e)) BindingConstraint.PolicySoftLimit l
    else l
  else l.

Definition grant_limit (cx : AllocContext) (e : PoolEntry) (g : GrantComputation) : Z * BindingConstraint :=
  let policy := cx_policy cx in
  let l := (gc_max_grant g, gc_binding g) in
  let l := if negb (pol_max_single_request_units policy =? 0)
           then apply_cap (pol_max_single_request_units policy) BindingConstraint.PolicyMaxSingleRequest l else l in
  let l := if negb (pol_max_single_allocation_units policy =? 0)
           then apply_cap (pol_max_single_allocation_units policy) BindingConstraint.PolicyMaxSingleAllocation l else l in
  soft_cap e policy (pe_state (cx_evidence cx)) (queue_cap e (cx_queue cx) l).

(** The units granted and the binding constraint; a policy without partial grants turns a
    smaller grant into none. *)
Definition grant_units (cx : AllocContext) (l : Z * BindingConstraint) : Z * BindingConstraint :=
  let '(limit, binding) := l in
  let requested := aq_requested_units (cx_request cx) in
  let grant := Z.min requested limit in
  if negb (pol_allow_partial_grant (cx_policy cx)) && (grant <? requested) then
    (0, if decide (binding = BindingConstraint.None) then BindingConstraint.Capacity else binding)
  else (grant, binding).

(** The refusal of a request for which nothing is left. *)
Definition refuse_capacity (cx : AllocContext) (e : PoolEntry) (binding : BindingConstraint) : M Decision :=
  let state := pe_state (cx_evidence cx) in
  if pressure_is_known state && pressure_at_least state (pol_reduce_at (cx_policy cx)) then
    finish_decision cx DecisionKind.Reduce ErrorCode.PolicyForbids
      "pressure requires committed usage to be reduced" 0 0 binding
      (default_CorrectiveIntent <| ci_reduce_required := true |> <| ci_reduce_to_units := en_usable e |>) 0
  else
    finish_decision cx DecisionKind.Refuse ErrorCode.CapacityExceeded
      "no capacity is available under the governing policy" 0 0 binding default_CorrectiveIntent 0.

(** Own free capacity first, then the lender's, then the overcommit allowance. *)
Definition borrow_of (g : GrantComputation) (grant : Z) : Z :=
  if gc_own_free g <? grant then Z.min (sub64 grant (gc_own_free g)) (gc_borrowable g) else 0.

Definition chain_root (id grant pool queue : Z) : Digest :=
  finish (put_id id >+> put_u64 grant >+> put_id pool >+> put_id queue).

Definition chain_child (origin parent depth grant pool queue : Z) (parent_chain : Digest) : Digest :=
  finish (put_id origin >+> put_id parent >+> put_u32 depth >+> put_u64 grant >+> put_id pool >+>
          put_id queue >+> put_digest parent_chain).

Definition build_lineage (cx : AllocContext) (id grant pool queue : Z) : M Lineage :=
  let parent := aq_parent_allocation (cx_request cx) in
  if valid parent then
    let* s := sm_get in
    let* p := require (im_allocations s !! parent) ErrorCode.UnknownAllocation "parent allocation does not exist" in
    let depth := wrap32 (ln_depth (ar_lineage p) + 1) in
    if kMaxLineageDepth <? depth then
      raise ErrorCode.BoundedResourceExhausted "allocation lineage is too deep"
    else
      let origin := if valid (ln_origin (ar_lineage p)) then ln_origin (ar_lineage p) else ar_id p in
      ret (mkLineage origin (ar_id p) depth
        (chain_child origin (ar_id p) depth grant pool queue (ln_chain_digest (ar_lineage p))))
  else ret (mkLineage id 0 0 (chain_root id grant pool queue)).

Definition bound_now (s : Impl) (e : PoolEntry) (q : QueueDescriptor) (p : PoolPolicy) : BoundGenerations :=
  mkBoundGenerations (pd_generation (en_descriptor e)) (qd_generation q) (pol_generation p)
    (en_capacity_generation e)
    (match im_backends s !! pd_backend (en_descriptor e) with Some b => be_generation b | None => 0 end)
    (im_epoch s) (im_boot s).

(** The allocation record, and the next allocation id. *)
Definition build_record (cx : AllocContext) (g : GrantComputation) (grant : Z) : M (AllocationRecord * Z) :=
  let rq := cx_request cx in
  let q := cx_queue cx in
  let borrow := borrow_of g grant in
  let* s := sm_get in
  let* e := pool_ref (aq_pool rq) in
  let id := im_next_allocation_id s in
  let* next_alloc := checked_add id 1 "allocation id space is exhausted" in
  let* expiry := (if aq_ttl_ticks rq =? 0 then ret 0
                  else checked_add (cx_stamp cx) (aq_ttl_ticks rq) "allocation expiry overflowed") in
  let pool := pd_id (en_descriptor e) in
  let* lineage := build_lineage cx id grant pool (qd_id q) in
  ret (mkAllocationRecord id pool (qd_id q) (qd_tenant q) (qd_traffic_class q) grant
         (if aq_commit_immediately rq then AllocationState.Committed else AllocationState.Reserved)
         (aq_reclaim_class rq) (aq_reclaim_priority rq) lineage (bound_now s e q (cx_policy cx))
         (aq_attempt rq) (aq_provenance rq) borrow (if negb (borrow =? 0) then gc_lender g else 0)
         (cx_stamp cx) (cx_stamp cx) expiry 1,
       next_alloc).

(** The units of a grant on the split and class counters of its pool. *)
Definition add_grant_units (immediately : bool) (class : ReclaimClass) (grant : Z) (e : PoolEntry) : PoolEntry :=
  let e := if immediately then e <| en_committed_units ::= plus grant |>
           else e <| en_reserved_units ::= plus grant |> in
  match class with
  | ReclaimClass.Pinned => e <| en_pinned_units ::= plus grant |>
  | ReclaimClass.Reclaimable => e <| en_reclaimable_units ::= plus grant |>
  end.

(** The planned state of the pool must close before anything is journaled. *)
Definition plan_closes (s : Impl) (cx : AllocContext) (e : PoolEntry) (r : AllocationRecord) : bool :=
  let scratch := e <| en_own_usage ::= plus (sub64 (ar_units r) (ar_borrow_units r)) |>
                   <| en_borrowed_in ::= plus (ar_borrow_units r) |> in
  let scratch := add_grant_units (aq_commit_immediately (cx_request cx)) (ar_reclaim_class r) (ar_units r) scratch in
  let scratch := scratch <| en_members ::= fun m => {[ar_id r]} ∪ m |> in
  let oc := pol_overcommit (cx_policy cx) in
  rep_closed (check_pool_accounting (accounting_of s scratch) (oc_mode oc) (oc_limit_units oc)).

(** Journal, then apply: pool counters, queue bucket, member set, allocation table. *)
Definition apply_grant (cx : AllocContext) (r : AllocationRecord) (next_alloc : Z) : M unit :=
  let pool := aq_pool (cx_request cx) in
  let immediately := aq_commit_immediately (cx_request cx) in
  journal_allocation (journal_op_for (ar_state r)) r ;;;
  apply_commit_units pool (ar_units r) (ar_borrow_units r) (ar_lender r) ;;;
  update_pool pool (add_grant_units immediately (ar_reclaim_class r) (ar_units r)) ;;;
  update_pool pool (fun e =>
    adjust_queue (ar_queue r) (to_i64 (ar_units r)) (negb immediately) e <| en_members ::= fun m => {[ar_id r]} ∪ m |>) ;;;
  modify (fun s => s <| im_next_allocation_id := next_alloc |> <| im_allocations ::= <[ar_id r := r]> |>
    <| im_allocations_total ::= plus 1 |>).

Definition count_grant (cx : AllocContext) (grant : Z) : M unit :=
  modify (fun s => s <| im_metrics ::= fun m =>
    let m := m <| mt_allocations_created ::= plus 1 |> in
    let m := if aq_commit_immediately (cx_request cx) then m <| mt_allocations_committed ::= plus 1 |> else m in
    let m := m <| mt_live_allocations := Z.of_nat (size (im_allocations s)) |>
               <| mt_live_committed_units ::= plus grant |> in
    if mt_peak_committed_units m <? mt_live_committed_units m
    then m <| mt_peak_committed_units := mt_live_committed_units m |> else m |>) ;;;
  update_pool (aq_pool (cx_request cx)) (fun e => e <| en_runtime ::= fun rt =>
    rt <| rt_grant_count ::= plus 1 |> <| rt_peak_committed_units ::= fun p => Z.max p (en_committed_units e) |> |>).

(** A pool that no longer closes stops the fabric. *)
Definition verify_closure (id : Z) (report : Status -> M unit) : M unit :=
  let* e := pool_ref id in
  let* s := sm_get in
  match check_closure s e with
  | Good _ => ret tt
  | Bad status =>
      modify (fun s => s <| im_shutting_down := true |>) ;;;
      report status ;;;
      sm_lift (Bad status)
  end.

Definition complete_grant (cx : AllocContext) (r : AllocationRecord) (binding : BindingConstraint) : M Decision :=
  let grant := ar_units r in
  let full := grant =? aq_requested_units (cx_request cx) in
  let* decision := finish_decision cx (if full then DecisionKind.Grant else DecisionKind.GrantPartial)
    ErrorCode.Ok "capacity granted" grant (ar_id r) binding default_CorrectiveIntent (ar_lender r) in
  metric (fun m => if full then m <| mt_grants ::= plus 1 |> else m <| mt_partial_grants ::= plus 1 |>) ;;;
  let* e := pool_ref (aq_pool (cx_request cx)) in
  let rp := pol_reclaim (cx_policy cx) in
  ret (if rp_enabled rp && (en_free_units e =? 0) then
         decision <| dc_intent ::= fun i => i <| ci_reclaim_target_units :=
           if en_free_units e <? rp_reserve_units rp then sub64 (rp_reserve_units rp) (en_free_units e) else 0 |> |>
       else decision).

(** Past the gates: capacity arithmetic, then a refusal or plan, journal, apply, verify. *)
Definition grant_or_refuse (cx : AllocContext) : M Decision :=
  let pool := aq_pool (cx_request cx) in
  let* e := pool_ref pool in
  let* s := sm_get in
  let g := compute_grant s e (cx_policy cx) in
  let '(grant, binding) := grant_units cx (grant_limit cx e g) in
  if grant =? 0 then refuse_capacity cx e binding
  else
    let* rn := build_record cx g grant in
    let r := fst rn in
    if negb (plan_closes s cx e r) then
      raise ErrorCode.InvariantViolation "planned allocation would break the accounting identity"
    else
      apply_grant cx r (snd rn) ;;;
      count_grant cx grant ;;;
      verify_closure pool (fun status =>
        push_event EventKind.AccountingViolation (st_code status) (st_message status)
          (pd_id (en_descriptor e)) 0 0 0 0) ;;;
      complete_grant cx r binding.

Definition decide_allocation (cx : AllocContext) : M Decision :=
  let* e := pool_ref (aq_pool (cx_request cx)) in
  match refusal_gate cx e with
  | Some (kind, code, reason, binding, intent) => finish_decision cx kind code reason 0 0 binding intent 0
  | None => grant_or_refuse cx
  end.

(** [expected.valid() && expected != current]. *)
Definition stale (expected current : Z) : bool := valid expected && negb (expected =? current).

(** The expectations a request carries about the current generations. *)
Definition check_expectations (rq : AllocateRequest) (e : PoolEntry) (q : QueueDescriptor) (p : PoolPolicy) : M unit :=
  let* epoch := gets im_epoch in
  reject_when (stale (aq_expected_epoch rq) epoch) ErrorCode.StaleEpoch
    "request epoch does not match the fabric epoch" ;;;
  reject_when (stale (aq_expected_pool_generation rq) (pd_generation (en_descriptor e))) ErrorCode.StaleGeneration
    "request pool generation is not current" ;;;
  reject_when (stale (aq_expected_policy_generation rq) (pol_generation p)) ErrorCode.StaleGeneration
    "request policy generation is not current" ;;;
  reject_when (stale (aq_expected_capacity_generation rq) (en_capacity_generation e)) ErrorCode.StaleGeneration
    "request capacity generation is not current" ;;;
  reject_when (stale (aq_expected_queue_generation rq) (qd_generation q)) ErrorCode.StaleGeneration
    "request queue generation is not current" ;;;
  reject_when (negb (qd_pool q =? pd_id (en_descriptor e))) ErrorCode.InvalidArgument
    "queue is not bound to the requested pool".

(** The checks on the request itself, before any table is read. *)
Definition check_request (rq : AllocateRequest) : M unit :=
  let* s := sm_get in
  reject_when (negb (im_open s)) ErrorCode.LifecycleViolation "fabric is not open" ;;;
  reject_when (im_shutting_down s && fc_refuse_work_after_shutdown (im_config s)) ErrorCode.ShuttingDown
    "fabric is shutting down" ;;;
  reject_when (negb (valid (aq_attempt rq))) ErrorCode.InvalidArgument "attempt id must be non-zero" ;;;
  reject_when (aq_requested_units rq =? 0) ErrorCode.InvalidArgument "requested units must be non-zero" ;;;
  reject_when (kMaxUnitsPerPool <? aq_requested_units rq) ErrorCode.Overflow
    "requested units exceed the supported bound" ;;;
  ensure_alloc_capacity.

Definition allocate_locked (rq : AllocateRequest) : M Decision :=
  check_request rq ;;;
  let digest := allocate_digest rq in
  let* previous := lookup_attempt (aq_attempt rq) digest in
  let* e := require_pool (aq_pool rq) in
  let* q := require_queue (aq_queue rq) in
  let* s := sm_get in
  let* policy := require (im_policies s !! pd_policy (en_descriptor e)) ErrorCode.UnknownPolicy
                   "pool policy is not published" in
  match previous with
  | Some a =>
      metric (fun m => m <| mt_idempotent_replays ::= plus 1 |>) ;;;
      ret (replay_decision s a e (qd_id q) (aq_requested_units rq) (aq_attempt rq) (at_allocation a)
             (resolve_evidence s e))
  | None =>
      check_expectations rq e q policy ;;;
      decide_allocation (mkAllocContext rq q policy (resolve_evidence s e) digest (im_tick s))
  end.
