(* ===== verification/Lifecycle.v ===== *)
(** * Commit, release, revalidation, fencing and expiry

    The second half of [src/fabric_alloc.cpp]: what happens to an allocation after it was
    granted. [Target] holds what the three requests on one allocation look up before they
    act; [sweep] is the member loop that fencing of stale allocations and expiry of
    reservations share. *)

From S2P Require Import Prelude Ints Hash Enums Status Codec Model Wire Policy Accounting Authority Persist State Grant Alloc.

(** ** Requests on one allocation *)

Record Target := mkTarget {
  tg_kind : AttemptKind; tg_attempt : Z; tg_digest : Digest; tg_key : Z; tg_record : AllocationRecord;
  tg_policy : PoolPolicy; tg_queue : QueueDescriptor; tg_evidence : PressureEvidence; tg_stamp : Z
}.

Definition lookup_target (kind : AttemptKind) (attempt : Z) (digest : Digest) (allocation : Z) :
    M (Target * option AttemptRecord) :=
  let* s := sm_get in
  reject_when (negb (im_open s)) ErrorCode.LifecycleViolation "fabric is not open" ;;;
  reject_when (negb (valid attempt)) ErrorCode.InvalidArgument "attempt id must be non-zero" ;;;
  let* previous := lookup_attempt attempt digest in
  let* r := require (im_allocations s !! allocation) ErrorCode.UnknownAllocation "no such allocation" in
  let* e := require_pool (ar_pool r) in
  let* policy := require (im_policies s !! pd_policy (en_descriptor e)) ErrorCode.UnknownPolicy
                   "pool policy is not published" in
  let* q := require_queue (ar_queue r) in
  ret (mkTarget kind attempt digest allocation r policy q (resolve_evidence s e) (im_tick s), previous).

(** A replayed attempt gets the remembered answer; any other request must name the current
    epoch, or none, before [body] runs. *)
Definition on_target (kind : AttemptKind) (attempt : Z) (digest : Digest) (allocation expected_epoch : Z)
    (body : Target -> M Decision) : M Decision :=
  let* t := lookup_target kind attempt digest allocation in
  match snd t with
  | Some a =>
      metric (fun m => m <| mt_idempotent_replays ::= plus 1 |>) ;;;
      let* s := sm_get in
      let* e := pool_ref (ar_pool (tg_record (fst t))) in
      ret (replay_decision s a e (qd_id (tg_queue (fst t))) 0 attempt (ar_id (tg_record (fst t)))
             (tg_evidence (fst t)))
  | None =>
      let* epoch := gets im_epoch in
      reject_when (stale expected_epoch epoch) ErrorCode.StaleEpoch
        "request epoch does not match the fabric epoch" ;;;
      body (fst t)
  end.

(** A decision over pool [pool], bound to its authority and put in the history. *)
Definition decide_on (pool queue queue_generation : Z) (policy : PoolPolicy) (ev : PressureEvidence)
    (stamp attempt provenance : Z) (kind : DecisionKind) (code : ErrorCode) (reason : string)
    (requested granted allocation : Z) (binding : BindingConstraint) (intent : CorrectiveIntent) : M Decision :=
  let* e := pool_ref pool in
  let* s := sm_get in
  let decision := make_decision kind code reason e queue requested granted allocation binding ev
      (accounting_of s e) stamp (im_next_decision_sequence s)
    <| dc_intent := intent |>
    <| dc_authority ::= bind_authority e queue_generation (pol_generation policy) attempt provenance
         (pe_snapshot ev) (im_epoch s) (im_boot s) 0 |> in
  record_decision decision ;;;
  next_sequence ;;;
  ret decision.

Definition answer (t : Target) (kind : DecisionKind) (code : ErrorCode) (reason : string)
    (requested granted : Z) (binding : BindingConstraint) (intent : CorrectiveIntent) : M Decision :=
  let r := tg_record t in
  decide_on (ar_pool r) (qd_id (tg_queue t)) (qd_generation (tg_queue t)) (tg_policy t) (tg_evidence t)
    (tg_stamp t) (tg_attempt t) (ar_provenance r) kind code reason requested granted (ar_id r) binding intent.

(** An answer that succeeds is remembered under its attempt. *)
Definition settle (t : Target) (reason : string) (requested granted : Z) : M Decision :=
  let* decision := answer t DecisionKind.NoOp ErrorCode.Ok reason requested granted BindingConstraint.None
                     default_CorrectiveIntent in
  remember (tg_attempt t) (tg_kind t) (tg_digest t) ErrorCode.Ok (ar_id (tg_record t)) granted
    (dc_sequence decision) (tg_stamp t) ;;;
  metric (fun m => m <| mt_decisions ::= plus 1 |>) ;;;
  ret decision.

(** The record as this operation leaves it: touched, one revision on. *)
Definition touched (t : Target) (r : AllocationRecord) : AllocationRecord :=
  r <| ar_last_touched := tg_stamp t |> <| ar_revision := add64 (ar_revision (tg_record t)) 1 |>.

Definition allocation_event (kind : EventKind) (r : AllocationRecord) (detail : string) (units : Z) : M unit :=
  push_event kind ErrorCode.Ok detail (ar_pool r) (ar_queue r) (ar_id r) units 0.

(** ** Commit *)

Definition commit_units (r : AllocationRecord) (e : PoolEntry) : PoolEntry :=
  let e := e <| en_reserved_units ::= minus (ar_units r) |> <| en_committed_units ::= plus (ar_units r) |> in
  adjust_queue (ar_queue r) (to_i64 (ar_units r)) false (adjust_queue (ar_queue r) (- to_i64 (ar_units r)) true e).

Definition commit_target (expected_pool_generation : Z) (t : Target) : M Decision :=
  let r := tg_record t in
  let* e := pool_ref (ar_pool r) in
  let* epoch := gets im_epoch in
  reject_when (stale expected_pool_generation (pd_generation (en_descriptor e))) ErrorCode.StaleGeneration
    "request pool generation is not current" ;;;
  reject_when (negb (bool_decide (ar_state r = AllocationState.Reserved))) ErrorCode.WrongState
    "allocation is not in the reserved state" ;;;
  reject_when (is_stale_binding r e (tg_policy t) epoch) ErrorCode.StaleGeneration
    "allocation is bound to generations that are no longer current" ;;;
  let next := touched t (r <| ar_state := AllocationState.Committed |>) in
  journal_allocation JournalOp.AllocationCommitted next ;;;
  update_pool (ar_pool r) (commit_units r) ;;;
  update_allocation (tg_key t) (fun _ => next) ;;;
  metric (fun m => m <| mt_allocations_committed ::= plus 1 |>) ;;;
  allocation_event EventKind.AllocationCommitted next "allocation committed" (ar_units next) ;;;
  verify_closure (ar_pool r) (fun _ => ret tt) ;;;
  settle t "allocation committed" (ar_units r) (ar_units r).

Definition commit_locked (rq : CommitRequest) : M Decision :=
  on_target AttemptKind.Commit (cq_attempt rq) (commit_digest rq) (cq_allocation rq) (cq_expected_epoch rq)
    (commit_target (cq_expected_pool_generation rq)).

(** ** Release *)

(** The units to release; a partial release names a positive amount within the record. *)
Definition release_amount (rq : ReleaseRequest) (r : AllocationRecord) : M Z :=
  if rq_release_all rq then ret (ar_units r)
  else
    reject_when (rq_units rq =? 0) ErrorCode.InvalidArgument "partial release requires a non-zero amount" ;;;
    reject_when (ar_units r <? rq_units rq) ErrorCode.InvalidArgument "release exceeds the allocation" ;;;
    ret (rq_units rq).

(** Borrowed units returned with [amount] of the record's units: all of them, or the
    proportional share, whose 64-bit product may wrap. *)
Definition released_borrow (r : AllocationRecord) (amount : Z) : Z :=
  if amount =? ar_units r then effective_borrow r else mul64 (effective_borrow r) amount / ar_units r.

Definition released_part (t : Target) (amount : Z) : AllocationRecord :=
  let r := tg_record t in
  touched t (r <| ar_units := amount |> <| ar_borrow_units := released_borrow r amount |>).

Definition remainder_part (t : Target) (amount : Z) : AllocationRecord :=
  let r := tg_record t in
  let rest := touched t (r <| ar_units := sub64 (ar_units r) amount |>
                <| ar_borrow_units := sub64 (effective_borrow r) (released_borrow r amount) |>) in
  if ar_units rest =? 0 then
    rest <| ar_state := AllocationState.Released |> <| ar_borrow_units := 0 |> <| ar_lender := 0 |>
  else rest.

Definition count_release (amount : Z) : M unit := metric (fun m =>
  m <| mt_allocations_released ::= plus 1 |>
    <| mt_live_committed_units ::= fun u => if amount <=? u then sub64 u amount else 0 |>).

Definition release_target (rq : ReleaseRequest) (t : Target) : M Decision :=
  let r := tg_record t in
  if allocation_is_terminal (ar_state r) || bool_decide (ar_state r = AllocationState.Fenced) then
    settle t "allocation no longer holds units" 0 0
  else
    let* amount := release_amount rq r in
    apply_release_units (ar_pool r) (released_part t amount) ;;;
    let rest := remainder_part t amount in
    journal_allocation JournalOp.AllocationReleased rest ;;;
    update_allocation (tg_key t) (fun _ => rest) ;;;
    count_release amount ;;;
    allocation_event EventKind.AllocationReleased rest "allocation released" amount ;;;
    verify_closure (ar_pool r) (fun _ => ret tt) ;;;
    settle t "allocation released" amount amount.

Definition release_locked (rq : ReleaseRequest) : M Decision :=
  on_target AttemptKind.Release (rq_attempt rq) (release_digest rq) (rq_allocation rq) (rq_expected_epoch rq)
    (release_target rq).

(** ** Revalidate *)

Definition rebound (t : Target) (e : PoolEntry) (epoch : Z) (boot : BootIncarnation) : AllocationRecord :=
  touched t (tg_record t <| ar_bound ::= fun b =>
    b <| bg_pool_generation := pd_generation (en_descriptor e) |>
      <| bg_queue_generation := qd_generation (tg_queue t) |>
      <| bg_policy_generation := pol_generation (tg_policy t) |>
      <| bg_capacity_generation := en_capacity_generation e |>
      <| bg_epoch := epoch |> <| bg_boot := boot |> |>).

Definition revalidate_target (t : Target) : M Decision :=
  let r := tg_record t in
  let* e := pool_ref (ar_pool r) in
  let* s := sm_get in
  reject_when (negb (allocation_holds_units (ar_state r))) ErrorCode.Fenced
    "a fenced allocation must be re-allocated rather than revalidated" ;;;
  reject_when (negb (qd_pool (tg_queue t) =? pd_id (en_descriptor e))) ErrorCode.StaleGeneration
    "queue is bound to a different pool" ;;;
  if is_stale_binding r e (tg_policy t) (im_epoch s) then
    answer t DecisionKind.Fence ErrorCode.StaleGeneration "allocation is bound to stale generations" 0 0
      BindingConstraint.GenerationMismatch (default_CorrectiveIntent <| ci_fence_required := true |>)
  else
    let next := rebound t e (im_epoch s) (im_boot s) in
    journal_allocation JournalOp.AllocationRevalidated next ;;;
    update_allocation (tg_key t) (fun _ => next) ;;;
    metric (fun m => m <| mt_revalidations ::= plus 1 |>) ;;;
    allocation_event EventKind.AllocationRevalidated next "allocation revalidated" (ar_units next) ;;;
    settle t "allocation revalidated" 0 (ar_units r).

Definition revalidate_locked (rq : RevalidateRequest) : M Decision :=
  on_target AttemptKind.Revalidate (vq_attempt rq) (revalidate_digest rq) (vq_allocation rq)
    (vq_expected_epoch rq) revalidate_target.

(** ** Fencing and expiry of a whole pool *)

(** The member loop: the selected records are revoked in increasing order of their ids;
    how many there were and the units they held. *)
Fixpoint sweep (select : Impl -> PoolEntry -> AllocationRecord -> bool) (new_state : AllocationState)
    (reason : ErrorCode) (pool : Z) (members : list Z) (count units : Z) : M (Z * Z) :=
  match members with
  | [] => ret (count, units)
  | raw_id :: rest =>
      let* s := sm_get in
      let* e := pool_ref pool in
      match im_allocations s !! raw_id with
      | None => sweep select new_state reason pool rest count units
      | Some r =>
          if select s e r then
            fence_allocation_locked raw_id new_state reason ;;;
            sweep select new_state reason pool rest (add64 count 1) (add64 units (ar_units r))
          else sweep select new_state reason pool rest count units
      end
  end.

Definition select_stale (policy : PoolPolicy) (s : Impl) (e : PoolEntry) (r : AllocationRecord) : bool :=
  allocation_holds_units (ar_state r) && is_stale_binding r e policy (im_epoch s).

(** When a reservation expires: its own time, or the policy's after its creation; 0 is never. *)
Definition expiry_of (policy : PoolPolicy) (r : AllocationRecord) : Z :=
  if (ar_expires_at r =? 0) && negb (pol_reservation_ttl_ticks policy =? 0) then
    let '(o, expiry) := add_overflow (ar_created_at r) (pol_reservation_ttl_ticks policy) in
    if o then u64_max else expiry
  else ar_expires_at r.

Definition select_expired (policy : PoolPolicy) (s : Impl) (e : PoolEntry) (r : AllocationRecord) : bool :=
  bool_decide (ar_state r = AllocationState.Reserved)
  && negb ((expiry_of policy r =? 0) || (im_tick s <? expiry_of policy r)).

(** What a whole-pool operation looks up first: policy, evidence and time. *)
Definition pool_scope (pool : Z) : M (PoolEntry * PoolPolicy * PressureEvidence * Z) :=
  let* s := sm_get in
  reject_when (negb (im_open s)) ErrorCode.LifecycleViolation "fabric is not open" ;;;
  let* e := require_pool pool in
  let* policy := require (im_policies s !! pd_policy (en_descriptor e)) ErrorCode.UnknownPolicy
                   "pool policy is not published" in
  ret (e, policy, resolve_evidence s e, im_tick s).

Definition fence_stale_locked (pool : Z) : M Decision :=
  let* scope := pool_scope pool in
  let '(e, policy, ev, stamp) := scope in
  let* swept := sweep (select_stale policy) AllocationState.Fenced ErrorCode.StaleGeneration pool
                  (sorted_members e) 0 0 in
  let '(fenced, units) := swept in
  metric (fun m => m <| mt_fences ::= plus 1 |>) ;;;
  let none := fenced =? 0 in
  let* decision := decide_on pool 0 0 policy ev stamp 0 0
    (if none then DecisionKind.NoOp else DecisionKind.Fence) ErrorCode.Ok
    (if none then "no stale allocations"%string else "stale allocations fenced"%string) 0 units 0
    BindingConstraint.GenerationMismatch (default_CorrectiveIntent <| ci_fence_required := negb none |>) in
  metric (fun m => m <| mt_decisions ::= plus 1 |>) ;;;
  ret decision.

Definition expire_reservations_locked (pool : Z) : M Decision :=
  let* scope := pool_scope pool in
  let '(e, policy, ev, stamp) := scope in
  let* swept := sweep (select_expired policy) AllocationState.Expired ErrorCode.StaleEvidence pool
                  (sorted_members e) 0 0 in
  let '(expired, units) := swept in
  let none := expired =? 0 in
  let* decision := decide_on pool 0 0 policy ev stamp 0 0
    (if none then DecisionKind.NoOp else DecisionKind.Reclaim) ErrorCode.Ok
    (if none then "no reservations expired"%string else "reservations expired"%string) 0 units 0
    BindingConstraint.None default_CorrectiveIntent in
  metric (fun m => m <| mt_decisions ::= plus 1 |>) ;;;
  ret decision.
