(* ===== verification/Books.v ===== *)
(** * The books: pool aggregates against the allocation table

    The invariant every operation on allocations keeps: each counter of a pool is the sum,
    over the allocation table, of what every record that holds units contributes to it. A
    counter is named by a [Field]; [counter] reads it from a pool entry and [share] is the
    contribution of one record, so that one statement covers the split, class, borrowing
    and per-queue counters of [PoolEntry]. *)

From S2P Require Import Prelude Ints Hash Enums Status Codec Model Wire Policy Accounting Authority Persist State.

(** ** Sums over a table *)

Section Total.
Context {R : Type}.
Implicit Types (f g : R -> Z) (m : gmap Z R).

Definition total_of (f : R -> Z) (m : gmap Z R) : Z := map_fold (fun _ r acc => f r + acc) 0 m.

Lemma total_of_empty f : total_of f ∅ = 0.
Proof. apply map_fold_empty. Qed.

Lemma total_of_insert_new f m k r : m !! k = None -> total_of f (<[k := r]> m) = f r + total_of f m.
Proof. intros Hk. unfold total_of. rewrite map_fold_insert_L; [done| |done]. intros. lia. Qed.

Lemma total_of_insert f m k r :
  total_of f (<[k := r]> m) = total_of f m - from_option f 0 (m !! k) + f r.
Proof.
  destruct (m !! k) as [r0|] eqn:Hk; simpl; [|rewrite total_of_insert_new by done; lia].
  rewrite <- (insert_delete_id m k r0 Hk) at 2. rewrite <- insert_delete_eq.
  rewrite !total_of_insert_new by apply lookup_delete_eq. lia.
Qed.

Lemma total_of_delete f m k : total_of f (delete k m) = total_of f m - from_option f 0 (m !! k).
Proof.
  destruct (m !! k) as [r|] eqn:Hk; simpl; [|rewrite delete_id by done; lia].
  rewrite <- (insert_delete_id m k r Hk) at 2. rewrite total_of_insert_new by apply lookup_delete_eq. lia.
Qed.

Lemma total_of_list f m : total_of f m = foldr (fun kr acc => f kr.2 + acc) 0 (map_to_list m).
Proof. unfold total_of. rewrite map_fold_foldr. induction (map_to_list m) as [|[k r] l IH]; [done|]. simpl. by rewrite IH. Qed.

Lemma total_of_le f g m : map_Forall (fun _ r => f r <= g r) m -> total_of f m <= total_of g m.
Proof.
  induction m as [|k r m Hk IH] using map_ind; [by rewrite !total_of_empty|].
  rewrite map_Forall_insert by done. intros [Hr Hm]. rewrite !total_of_insert_new by done.
  specialize (IH Hm). lia.
Qed.

Lemma total_of_add f g m : total_of (fun r => f r + g r) m = total_of f m + total_of g m.
Proof.
  induction m as [|k r m Hk IH] using map_ind; [by rewrite !total_of_empty|].
  rewrite !total_of_insert_new by done. lia.
Qed.

Lemma total_of_const0 m : total_of (fun _ => 0) m = 0.
Proof.
  induction m as [|k r m Hk IH] using map_ind; [apply total_of_empty|].
  rewrite total_of_insert_new by done. lia.
Qed.

Lemma total_of_nonneg f m : map_Forall (fun _ r => 0 <= f r) m -> 0 <= total_of f m.
Proof. intros H. rewrite <- (total_of_const0 m). by apply total_of_le. Qed.

Lemma total_of_zero f m : map_Forall (fun _ r => f r = 0) m -> total_of f m = 0.
Proof.
  intros H. rewrite <- (total_of_const0 m). apply Z.le_antisymm; apply total_of_le;
    intros k r Hk; rewrite (H k r Hk); lia.
Qed.

Lemma total_of_lookup f m k r :
  map_Forall (fun _ r => 0 <= f r) m -> m !! k = Some r -> f r <= total_of f m.
Proof.
  intros H Hk. rewrite <- (insert_delete_id m k r Hk), total_of_insert_new by apply lookup_delete_eq.
  assert (0 <= total_of f (delete k m)); [|lia].
  by apply total_of_nonneg, map_Forall_delete.
Qed.
End Total.

(** ** Counters and contributions *)

Inductive Field :=
| FReserved | FCommitted | FPinned | FReclaimable | FOwn | FBorrowed | FLent
| FQueueReserved (queue : Z) | FQueueCommitted (queue : Z).

Definition counter (f : Field) (e : PoolEntry) : Z :=
  match f with
  | FReserved => en_reserved_units e
  | FCommitted => en_committed_units e
  | FPinned => en_pinned_units e
  | FReclaimable => en_reclaimable_units e
  | FOwn => en_own_usage e
  | FBorrowed => en_borrowed_in e
  | FLent => en_lent_out e
  | FQueueReserved q => default 0 (en_queue_reserved e !! q)
  | FQueueCommitted q => default 0 (en_queue_committed e !! q)
  end.

(** The record holds units of pool [p]; the record borrows from pool [p]. *)
Definition here (p : Z) (r : AllocationRecord) : bool :=
  allocation_holds_units (ar_state r) && (ar_pool r =? p).

Definition lends (p : Z) (r : AllocationRecord) : bool :=
  allocation_holds_units (ar_state r) && valid (ar_lender r) && (ar_lender r =? p).

Definition is_reserved (r : AllocationRecord) : bool := bool_decide (ar_state r = AllocationState.Reserved).
Definition is_pinned (r : AllocationRecord) : bool := bool_decide (ar_reclaim_class r = ReclaimClass.Pinned).

#[global] Arguments here : simpl never.
#[global] Arguments lends : simpl never.
#[global] Arguments is_reserved : simpl never.
#[global] Arguments is_pinned : simpl never.
#[global] Arguments effective_borrow : simpl never.

Definition only (b : bool) (x : Z) : Z := if b then x else 0.

Definition share (f : Field) (p : Z) (r : AllocationRecord) : Z :=
  match f with
  | FReserved => only (here p r && is_reserved r) (ar_units r)
  | FCommitted => only (here p r && negb (is_reserved r)) (ar_units r)
  | FPinned => only (here p r && is_pinned r) (ar_units r)
  | FReclaimable => only (here p r && negb (is_pinned r)) (ar_units r)
  | FOwn => only (here p r) (ar_units r - effective_borrow r) + only (lends p r) (effective_borrow r)
  | FBorrowed => only (here p r) (effective_borrow r)
  | FLent => only (lends p r) (effective_borrow r)
  | FQueueReserved q => only (here p r && is_reserved r && (ar_queue r =? q)) (ar_units r)
  | FQueueCommitted q => only (here p r && negb (is_reserved r) && (ar_queue r =? q)) (ar_units r)
  end.

(** ** The invariant *)

Definition kMaxOwnUsage : Z := kMaxUnitsPerPool + kMaxOvercommitUnits.

(** A record with its units in range, whose pool, and lender if any, are registered. *)
Record record_ok (pools : gmap Z PoolEntry) (r : AllocationRecord) : Prop := {
  ro_units : 0 <= ar_units r;
  ro_borrow : 0 <= ar_borrow_units r;
  ro_pool : allocation_holds_units (ar_state r) = true -> is_Some (pools !! ar_pool r);
  ro_lender : allocation_holds_units (ar_state r) = true -> effective_borrow r <> 0 ->
    valid (ar_lender r) = true /\ is_Some (pools !! ar_lender r) /\ ar_lender r <> ar_pool r
}.

(** What does not depend on the allocations: the identity and the size of the pool. *)
Record descriptor_ok (p : Z) (d : PoolDescriptor) : Prop := {
  do_id : pd_id d = p;
  do_valid : valid p = true;
  do_raw : 0 <= pd_raw_units d <= kMaxUnitsPerPool;
  do_protected : 0 <= pd_protected_units d <= pd_raw_units d
}.

Record entry_ok (allocations : gmap Z AllocationRecord) (p : Z) (e : PoolEntry) : Prop := {
  eo_descriptor : descriptor_ok p (en_descriptor e);
  eo_counter : forall f, counter f e = total_of (share f p) allocations;
  eo_own : en_own_usage e <= kMaxOwnUsage;
  eo_borrowed : en_borrowed_in e <= kMaxUnitsPerPool;
  eo_members : forall k, k ∈ en_members e -> exists r, allocations !! k = Some r /\ here p r = true
}.

Record books (pools : gmap Z PoolEntry) (allocations : gmap Z AllocationRecord) : Prop := {
  bk_id : forall k r, allocations !! k = Some r -> ar_id r = k;
  bk_record : forall k r, allocations !! k = Some r -> record_ok pools r;
  bk_entry : forall p e, pools !! p = Some e -> entry_ok allocations p e
}.

(** ** Shares and counters *)

Ltac shares := unfold share, only in *; simpl in *.

Ltac case_flags :=
  repeat match goal with
  | |- context [if ?b then _ else _] => destruct b eqn:?
  | H : context [if ?b then _ else _] |- _ => destruct b eqn:?
  end.

Lemma effective_borrow_min r : effective_borrow r = Z.min (ar_borrow_units r) (ar_units r).
Proof. unfold effective_borrow. destruct (Z.leb_spec (ar_borrow_units r) (ar_units r)); lia. Qed.

Lemma effective_borrow_range P r : record_ok P r -> 0 <= effective_borrow r <= ar_units r.
Proof. intros [Hu Hb _ _]. rewrite effective_borrow_min. lia. Qed.

Lemma share_nonneg P f p r : record_ok P r -> 0 <= share f p r.
Proof.
  intros Hr. pose proof (effective_borrow_range P r Hr). pose proof (ro_units P r Hr).
  destruct f; shares; case_flags; lia.
Qed.

Lemma share_not_here f p r : here p r = false -> lends p r = false -> share f p r = 0.
Proof. intros H1 H2. destruct f; shares; by rewrite ?H1, ?H2. Qed.

Lemma share_idle f p r : allocation_holds_units (ar_state r) = false -> share f p r = 0.
Proof. intros H. apply share_not_here; [unfold here|unfold lends]; by rewrite H. Qed.

Section Books.
Context {P : gmap Z PoolEntry} {A : gmap Z AllocationRecord} (HB : books P A).

Lemma share_le_counter f p e k r :
  P !! p = Some e -> A !! k = Some r -> 0 <= share f p r <= counter f e.
Proof.
  intros Hp Hk. split; [by eapply share_nonneg, (bk_record _ _ HB)|].
  rewrite (eo_counter _ _ _ (bk_entry _ _ HB p e Hp)). eapply total_of_lookup; [|done].
  intros j q Hj. by eapply share_nonneg, (bk_record _ _ HB).
Qed.

Lemma counter_nonneg f p e : P !! p = Some e -> 0 <= counter f e.
Proof.
  intros Hp. rewrite (eo_counter _ _ _ (bk_entry _ _ HB p e Hp)). apply total_of_nonneg.
  intros j q Hj. by eapply share_nonneg, (bk_record _ _ HB).
Qed.

(** The split, the classes and the borrowing identity describe the same units. *)
Lemma counter_identities p e :
  P !! p = Some e ->
  en_pinned_units e + en_reclaimable_units e = en_reserved_units e + en_committed_units e /\
  en_own_usage e + en_borrowed_in e = en_reserved_units e + en_committed_units e + en_lent_out e.
Proof.
  intros Hp. pose proof (eo_counter _ _ _ (bk_entry _ _ HB p e Hp)) as HC.
  rewrite (HC FReserved : en_reserved_units e = _), (HC FCommitted : en_committed_units e = _),
    (HC FPinned : en_pinned_units e = _), (HC FReclaimable : en_reclaimable_units e = _),
    (HC FOwn : en_own_usage e = _), (HC FBorrowed : en_borrowed_in e = _), (HC FLent : en_lent_out e = _).
  rewrite <- !total_of_add. split; apply Z.le_antisymm; apply total_of_le; intros k r _; shares;
    destruct (here p r), (lends p r), (is_reserved r), (is_pinned r); simpl; lia.
Qed.

Lemma lent_le_own p e : P !! p = Some e -> en_lent_out e <= en_own_usage e.
Proof.
  intros Hp. pose proof (eo_counter _ _ _ (bk_entry _ _ HB p e Hp)) as HC.
  rewrite (HC FOwn : en_own_usage e = _), (HC FLent : en_lent_out e = _).
  apply total_of_le. intros k r Hk. pose proof (effective_borrow_range P r (bk_record _ _ HB _ _ Hk)).
  shares. case_flags; lia.
Qed.

Lemma queue_le_pool q p e :
  P !! p = Some e ->
  default 0 (en_queue_reserved e !! q) <= en_reserved_units e /\
  default 0 (en_queue_committed e !! q) <= en_committed_units e.
Proof.
  intros Hp. pose proof (eo_counter _ _ _ (bk_entry _ _ HB p e Hp)) as HC.
  rewrite (HC FReserved : en_reserved_units e = _), (HC FCommitted : en_committed_units e = _).
  rewrite (HC (FQueueReserved q) : default 0 (en_queue_reserved e !! q) = _),
    (HC (FQueueCommitted q) : default 0 (en_queue_committed e !! q) = _).
  split; apply total_of_le; intros k r Hk; pose proof (ro_units P r (bk_record _ _ HB _ _ Hk)); shares;
    destruct (here p r), (is_reserved r), (ar_queue r =? q); simpl; lia.
Qed.

(** No counter comes near the 64-bit bound. *)
Lemma counter_bound f p e : P !! p = Some e -> 0 <= counter f e <= kMaxOwnUsage + kMaxUnitsPerPool.
Proof.
  intros Hp. pose proof (bk_entry _ _ HB p e Hp) as [_ _ Ho Hb _]. split; [by eapply counter_nonneg|].
  pose proof (counter_identities p e Hp). pose proof (lent_le_own p e Hp).
  pose proof (fun g => counter_nonneg g p e Hp) as Hnn.
  pose proof (Hnn FReserved). pose proof (Hnn FCommitted). pose proof (Hnn FPinned). pose proof (Hnn FReclaimable).
  pose proof (Hnn FOwn). pose proof (Hnn FBorrowed). pose proof (Hnn FLent).
  destruct f as [| | | | | | |q|q]; simpl in *; try pose proof (queue_le_pool q p e Hp);
    unfold kMaxOwnUsage in *; u64_lia.
Qed.

(** The accounting identity follows from the books alone: it is no longer a check. *)
Lemma usable_range p e : P !! p = Some e -> 0 <= en_usable e <= kMaxUnitsPerPool.
Proof.
  intros Hp. destruct (eo_descriptor _ _ _ (bk_entry _ _ HB p e Hp)). unfold en_usable.
  case_match; [rewrite sub64_exact|]; u64_lia.
Qed.

Lemma usage_exact p e :
  P !! p = Some e ->
  en_overcommit_used e = Z.max 0 (en_own_usage e - en_usable e) /\
  en_free_units e = Z.max 0 (en_usable e - en_own_usage e) /\
  en_allocated e = en_reserved_units e + en_committed_units e.
Proof.
  intros Hp. pose proof (usable_range p e Hp). pose proof (bk_entry _ _ HB p e Hp) as [_ _ Ho Hb _].
  pose proof (counter_bound FOwn p e Hp) as H1; pose proof (counter_bound FReserved p e Hp) as H2;
    pose proof (counter_bound FCommitted p e Hp) as H3. simpl in H1, H2, H3. unfold kMaxOwnUsage in *.
  assert (en_overcommit_used e = Z.max 0 (en_own_usage e - en_usable e)) as Hov.
  { unfold en_overcommit_used. destruct (Z.ltb_spec (en_usable e) (en_own_usage e)); [rewrite sub64_exact|]; u64_lia. }
  split; [done|]. split.
  - unfold en_free_units. rewrite Hov, add64_exact, sub64_exact; u64_lia.
  - unfold en_allocated. apply add64_exact. u64_lia.
Qed.
End Books.

(** ** Changing one record *)

(** What entry [e] of pool [p] may become when record [k] changes from [old] to [r]. *)
Record shifted (k : Z) (old : option AllocationRecord) (r : AllocationRecord) (p : Z) (e e' : PoolEntry) : Prop := {
  sh_descriptor : en_descriptor e' = en_descriptor e;
  sh_counter : forall f, counter f e' = counter f e - from_option (share f p) 0 old + share f p r;
  sh_own : en_own_usage e' <= kMaxOwnUsage;
  sh_borrowed : en_borrowed_in e' <= kMaxUnitsPerPool;
  sh_members : forall j, j ∈ en_members e' -> if decide (j = k) then here p r = true else j ∈ en_members e
}.

Lemma record_ok_pools P P' r :
  (forall p, is_Some (P !! p) -> is_Some (P' !! p)) -> record_ok P r -> record_ok P' r.
Proof.
  intros Hd [Hu Hb Hp Hl]. split; [done|done|by auto|]. intros Hh Hn.
  destruct (Hl Hh Hn) as (Hv & Hs & Hne). by auto.
Qed.

Lemma books_update P A P' r :
  books P A -> record_ok P r ->
  (forall p, is_Some (P !! p) -> is_Some (P' !! p)) ->
  (forall p e', P' !! p = Some e' -> exists e, P !! p = Some e /\ shifted (ar_id r) (A !! ar_id r) r p e e') ->
  books P' (<[ar_id r := r]> A).
Proof.
  intros HB Hr Hd HS. split.
  - intros k r0 Hk. apply lookup_insert_Some in Hk as [[<- <-]|[Hne Hk]]; [done|by apply HB].
  - intros k r0 Hk. apply (record_ok_pools P P'); [done|].
    apply lookup_insert_Some in Hk as [[<- <-]|[Hne Hk]]; [done|by eapply HB].
  - intros p e' Hp. destruct (HS p e' Hp) as (e & He & [Hdesc Hc Ho Hb Hm]).
    destruct (bk_entry _ _ HB p e He) as [Hd0 Hc0 _ _ Hm0]. split; [by rewrite Hdesc| |done|done|].
    + intros f. rewrite total_of_insert, Hc, Hc0. done.
    + intros j Hj. specialize (Hm j Hj). case_decide as Hjk.
      * subst. exists r. by rewrite lookup_insert_eq.
      * destruct (Hm0 j Hm) as (r0 & H1 & H2). exists r0. by rewrite lookup_insert_ne by congruence.
Qed.

(** Changes of an entry the books do not see. *)
Lemma books_entry P A p (g : PoolEntry -> PoolEntry) :
  books P A ->
  (forall e, P !! p = Some e -> entry_ok A p e -> entry_ok A p (g e)) ->
  books (alter g p P) A.
Proof.
  intros HB Hg. split.
  - apply HB.
  - intros k r Hk. apply (record_ok_pools P); [|by eapply HB]. intros q Hq. by rewrite lookup_alter_is_Some.
  - intros q e He. apply lookup_alter_Some in He as [(<- & e0 & H0 & ->)|[Hne He]].
    + apply Hg; [done|]. by apply HB.
    + by apply HB.
Qed.

Lemma books_runtime P A p (g : PoolRuntime -> PoolRuntime) :
  books P A -> books (alter (fun e => e <| en_runtime ::= g |>) p P) A.
Proof.
  intros HB. apply books_entry; [done|]. intros e _ [H1 H2 H3 H4 H5]. by split.
Qed.

(** ** Adding a record to the pools *)

(** Entry [e] of pool [p] after [add_record r]. *)
Definition add_at (r : AllocationRecord) (p : Z) (e : PoolEntry) : PoolEntry :=
  let e := if ar_pool r =? p then add_to_holder r e else e in
  if negb (effective_borrow r =? 0) && valid (ar_lender r) && (ar_lender r =? p)
  then add_to_lender (effective_borrow r) e else e.

Lemma lookup_add_record r pools p :
  allocation_holds_units (ar_state r) = true -> is_Some (pools !! ar_pool r) ->
  add_record r pools !! p = add_at r p <$> pools !! p.
Proof.
  intros Hh [e0 He0]. unfold add_record, add_at. rewrite Hh, He0. simpl.
  assert (pools !! p = id <$> pools !! p) as Hid by (by rewrite option_fmap_id).
  destruct (negb (effective_borrow r =? 0) && valid (ar_lender r)); simpl; rewrite !lookup_alter;
    destruct (Z.eqb_spec (ar_pool r) p), (Z.eqb_spec (ar_lender r) p); repeat (case_decide; try congruence);
    subst; rewrite <- ?option_fmap_compose; try done; congruence.
Qed.

Lemma lookup_bucket_add q u b q' :
  default 0 (bucket_add q u b !! q') = if q =? q' then add64 (default 0 (b !! q')) u else default 0 (b !! q').
Proof.
  unfold bucket_add. destruct (Z.eqb_spec q q') as [->|]; [by rewrite lookup_insert_eq|by rewrite lookup_insert_ne].
Qed.

(** Each counter moves by the record's share, as long as nothing leaves 64 bits. *)
Lemma counter_add_at P r p e f :
  record_ok P r -> allocation_holds_units (ar_state r) = true ->
  (forall g, 0 <= counter g e) -> (forall g, counter g e + share g p r <= u64_max) ->
  counter f (add_at r p e) = counter f e + share f p r.
Proof.
  intros Hr Hh H0 H1. pose proof (effective_borrow_range P r Hr) as Hb. pose proof (ro_units P r Hr) as Hu.
  specialize (H1 f). pose proof (H0 f) as H0f. unfold add_at.
  assert (here p r = (ar_pool r =? p)) as Hhere by (unfold here; by rewrite Hh).
  assert (lends p r = valid (ar_lender r) && (ar_lender r =? p)) as Hlends by (unfold lends; by rewrite Hh).
  assert (is_pinned r = match ar_reclaim_class r with ReclaimClass.Pinned => true | _ => false end) as Hpin.
  { unfold is_pinned. by destruct (ar_reclaim_class r). }
  destruct f; shares; rewrite ?Hhere, ?Hlends, ?Hpin in *; unfold add_to_holder;
    fold (is_reserved r); destruct (ar_pool r =? p), (valid (ar_lender r)), (ar_lender r =? p), (is_reserved r),
      (ar_reclaim_class r), (Z.eqb_spec (effective_borrow r) 0); simpl in *; unfold plus;
    rewrite ?lookup_bucket_add; case_flags; rewrite ?(sub64_exact (ar_units r)) by u64_lia;
    rewrite ?add64_exact by (rewrite ?add64_exact by u64_lia; u64_lia); try lia.
Qed.

Lemma share_le_usage P f p r : record_ok P r -> share f p r <= share FOwn p r + share FBorrowed p r.
Proof.
  intros Hr. pose proof (effective_borrow_range P r Hr).
  destruct f; shares; destruct (here p r), (lends p r), (is_reserved r), (is_pinned r); simpl; case_flags; lia.
Qed.

Lemma add_to_holder_frame r e :
  en_descriptor (add_to_holder r e) = en_descriptor e /\ en_members (add_to_holder r e) = {[ar_id r]} ∪ en_members e.
Proof. unfold add_to_holder. by destruct (ar_reclaim_class r), (bool_decide _). Qed.

Lemma add_at_frame r p e :
  en_descriptor (add_at r p e) = en_descriptor e /\
  en_members (add_at r p e) = if ar_pool r =? p then {[ar_id r]} ∪ en_members e else en_members e.
Proof.
  unfold add_at. destruct (add_to_holder_frame r e) as [H1 H2].
  by destruct (ar_pool r =? p), (negb _ && _ && _); simpl; rewrite ?H1, ?H2.
Qed.

(** Recording a holding record that the pools have room for keeps the books. *)
Lemma add_record_books P P' A r :
  books P A -> (forall p, P' !! p = add_at r p <$> P !! p) -> A !! ar_id r = None -> record_ok P r -> allocation_holds_units (ar_state r) = true ->
  (forall p e, P !! p = Some e ->
     en_own_usage e + share FOwn p r <= kMaxOwnUsage /\ en_borrowed_in e + share FBorrowed p r <= kMaxUnitsPerPool) ->
  books P' (<[ar_id r := r]> A).
Proof.
  intros HB HP' Hnew Hr Hh Hroom. pose proof (ro_pool P r Hr Hh) as Hpool. apply (books_update P); [done|done| |].
  { intros p Hp. rewrite HP'. by rewrite fmap_is_Some. }
  intros p e'. rewrite HP'. intros He'.
  destruct (P !! p) as [e|] eqn:He; [|done]. injection He' as <-. exists e. split; [done|].
  destruct (Hroom p e He) as [Ho Hb].
  assert (forall f, counter f (add_at r p e) = counter f e + share f p r) as HC.
  { intros f. eapply counter_add_at; [done..| |].
    - intros g. by eapply counter_nonneg.
    - intros g. pose proof (share_le_usage P g p r Hr). pose proof (counter_bound HB g p e He).
      pose proof (counter_nonneg HB FOwn p e He) as H1. pose proof (counter_nonneg HB FBorrowed p e He) as H2.
      simpl in H1, H2. unfold kMaxOwnUsage in *. u64_lia. }
  destruct (add_at_frame r p e) as [Hd Hm]. split.
  - done.
  - intros f. rewrite Hnew, HC. simpl. lia.
  - by rewrite (HC FOwn : en_own_usage _ = _).
  - by rewrite (HC FBorrowed : en_borrowed_in _ = _).
  - intros j. rewrite Hm. unfold here. rewrite Hh. destruct (ar_pool r =? p) eqn:Hp; simpl.
    + rewrite elem_of_union, elem_of_singleton. case_decide; [done|]. by intros [->|].
    + intros Hj. case_decide as Hjk; [|done]. subst j.
      destruct (eo_members _ _ _ (bk_entry _ _ HB p e He) _ Hj) as (r0 & Hr0 & _). congruence.
Qed.

(** ** Removing units from the pools *)

Definition remove_from_holder (r : AllocationRecord) (e : PoolEntry) : PoolEntry :=
  let e := if is_reserved r then e <| en_reserved_units ::= minus (ar_units r) |>
           else e <| en_committed_units ::= minus (ar_units r) |> in
  let e := if is_pinned r then e <| en_pinned_units ::= minus (ar_units r) |>
           else e <| en_reclaimable_units ::= minus (ar_units r) |> in
  let e := e <| en_own_usage ::= minus (sub64 (ar_units r) (effective_borrow r)) |>
             <| en_borrowed_in ::= minus (effective_borrow r) |> in
  adjust_queue (ar_queue r) (- ar_units r) (is_reserved r) e <| en_members ::= fun m => m ∖ {[ar_id r]} |>.

Definition remove_from_lender (borrowed : Z) (e : PoolEntry) : PoolEntry :=
  e <| en_lent_out ::= minus borrowed |> <| en_own_usage ::= minus borrowed |>.

Definition remove_at (r : AllocationRecord) (p : Z) (e : PoolEntry) : PoolEntry :=
  let e := if ar_pool r =? p then remove_from_holder r e else e in
  if negb (effective_borrow r =? 0) && (ar_lender r =? p) then remove_from_lender (effective_borrow r) e else e.

Lemma lookup_adjust_down q u b q' :
  0 <= u <= default 0 (b !! q) -> default 0 (b !! q) <= u64_max ->
  default 0 (adjust_bucket q (- u) b !! q') = if q =? q' then default 0 (b !! q') - u else default 0 (b !! q').
Proof.
  intros Hu Hb. unfold adjust_bucket. destruct (Z.leb_spec 0 (- u)).
  - replace u with 0 in * by lia. rewrite lookup_bucket_add.
    destruct (Z.eqb_spec q q') as [->|]; [|done]. rewrite add64_exact; u64_lia.
  - destruct (b !! q) as [held|] eqn:Hq; simpl in *; [|lia]. rewrite Z.opp_involutive.
    destruct (Z.leb_spec held u); destruct (Z.eqb_spec q q') as [<-|];
      rewrite ?lookup_delete_eq, ?lookup_insert_eq, ?lookup_delete_ne, ?lookup_insert_ne by done;
      rewrite ?Hq; simpl; rewrite ?sub64_exact; u64_lia.
Qed.

Lemma counter_remove_at P r p e f :
  record_ok P r -> allocation_holds_units (ar_state r) = true ->
  (effective_borrow r <> 0 -> valid (ar_lender r) = true) ->
  (forall g, share g p r <= counter g e <= u64_max) ->
  counter f (remove_at r p e) = counter f e - share f p r.
Proof.
  intros Hr Hh Hv H1. pose proof (effective_borrow_range P r Hr) as Hb. pose proof (ro_units P r Hr) as Hu.
  pose proof (H1 f) as Hf. pose proof (H1 (FQueueReserved (ar_queue r))) as Hqr.
  pose proof (H1 (FQueueCommitted (ar_queue r))) as Hqc. clear H1. unfold remove_at.
  assert (here p r = (ar_pool r =? p)) as Hhere by (unfold here; by rewrite Hh).
  assert (lends p r = valid (ar_lender r) && (ar_lender r =? p)) as Hlends by (unfold lends; by rewrite Hh).
  destruct f; shares; rewrite ?Hhere, ?Hlends, ?Z.eqb_refl in *; unfold remove_from_holder, adjust_queue;
    destruct (ar_pool r =? p), (Z.eqb_spec (effective_borrow r) 0) as [|Hn]; try rewrite (Hv Hn) in *;
    destruct (ar_lender r =? p), (is_reserved r), (is_pinned r); simpl in *; unfold minus;
    rewrite ?lookup_adjust_down by u64_lia; case_flags; rewrite ?(sub64_exact (ar_units r)) by u64_lia;
    rewrite ?sub64_exact by (rewrite ?sub64_exact by u64_lia; u64_lia); lia.
Qed.

Lemma remove_at_frame r p e :
  en_descriptor (remove_at r p e) = en_descriptor e /\
  en_members (remove_at r p e) = if ar_pool r =? p then en_members e ∖ {[ar_id r]} else en_members e.
Proof.
  unfold remove_at, remove_from_holder, adjust_queue.
  by destruct (ar_pool r =? p), (negb _ && _), (is_reserved r), (is_pinned r).
Qed.

(** Taking the units of [rel] out of record [r0] and leaving [rest] in its place. *)
Lemma remove_record_books P P' A r0 rel rest :
  books P A -> A !! ar_id rest = Some r0 -> record_ok P rel -> record_ok P rest ->
  allocation_holds_units (ar_state rel) = true -> ar_id rel = ar_id rest -> ar_pool rel = ar_pool r0 ->
  (effective_borrow rel <> 0 -> valid (ar_lender rel) = true) ->
  (forall f p, share f p r0 = share f p rel + share f p rest) ->
  (forall p, P' !! p = remove_at rel p <$> P !! p) ->
  books P' (<[ar_id rest := rest]> A).
Proof.
  intros HB Hk Hrel Hrest Hh Hid Hpool Hv Hsplit HP'. apply (books_update P); [done|done| |].
  { intros p Hp. rewrite HP'. by rewrite fmap_is_Some. }
  intros p e'. rewrite HP'. intros He'. destruct (P !! p) as [e|] eqn:He; [|done]. injection He' as <-.
  exists e. split; [done|].
  assert (forall f, 0 <= share f p rel /\ 0 <= share f p rest /\ share f p rel + share f p rest <= counter f e <= u64_max) as HS.
  { intros f. rewrite <- Hsplit. pose proof (share_le_counter HB f p e _ r0 He Hk).
    pose proof (counter_bound HB f p e He). unfold kMaxOwnUsage in *.
    pose proof (share_nonneg P f p rel Hrel). pose proof (share_nonneg P f p rest Hrest). u64_lia. }
  assert (forall f, counter f (remove_at rel p e) = counter f e - share f p rel) as HC.
  { intros f. eapply counter_remove_at; [done..|]. intros g. specialize (HS g). lia. }
  pose proof (bk_entry _ _ HB p e He) as [_ _ Ho Hb Hm0].
  destruct (remove_at_frame rel p e) as [Hd Hm]. split.
  - done.
  - intros f. rewrite Hk, HC. simpl. rewrite Hsplit. lia.
  - rewrite (HC FOwn : en_own_usage _ = _). specialize (HS FOwn). simpl in *. lia.
  - rewrite (HC FBorrowed : en_borrowed_in _ = _). specialize (HS FBorrowed). simpl in *. lia.
  - intros j. rewrite Hm, Hid. destruct (Z.eqb_spec (ar_pool rel) p) as [Hp|Hp].
    + rewrite elem_of_difference, elem_of_singleton. intros [Hj Hne]. by case_decide.
    + intros Hj. case_decide; [|done]. subst j. destruct (Hm0 _ Hj) as (r1 & Hr1 & Hh1).
      rewrite Hk in Hr1. injection Hr1 as <-. unfold here in Hh1.
      apply andb_true_iff in Hh1 as [_ Hh1%Z.eqb_eq]. congruence.
Qed.

(** ** Rebuilding the aggregates from the table *)

Lemma reset_books P :
  (forall p e, P !! p = Some e -> descriptor_ok p (en_descriptor e)) -> books (reset_entry <$> P) ∅.
Proof.
  intros HP. split; [done|done|]. intros p e'. rewrite lookup_fmap.
  destruct (P !! p) as [e|] eqn:He; [|done]. intros [= <-]. split.
  - by apply HP in He.
  - intros f. rewrite total_of_empty. by destruct f.
  - done.
  - done.
  - intros k Hk. by apply not_elem_of_empty in Hk.
Qed.

(** A record that holds nothing does not touch the pools. *)
Lemma idle_record_books P A r :
  books P A -> A !! ar_id r = None -> record_ok P r -> allocation_holds_units (ar_state r) = false ->
  books P (<[ar_id r := r]> A).
Proof.
  intros HB Hnew Hr Hh. apply (books_update P); [done..|]. intros p e He. exists e. split; [done|].
  destruct (bk_entry _ _ HB p e He) as [_ _ Ho Hb Hm]. split; [done| |done|done|].
  - intros f. rewrite Hnew, share_idle by done. simpl. lia.
  - intros j Hj. case_decide as Hjk; [|done]. subst j. destruct (Hm _ Hj) as (r0 & Hr0 & _). congruence.
Qed.

(** The totals of a table fit the bounds of the counters. *)
Definition totals_fit (P : gmap Z PoolEntry) (A : gmap Z AllocationRecord) : Prop :=
  forall p e, P !! p = Some e ->
    total_of (share FOwn p) A <= kMaxOwnUsage /\ total_of (share FBorrowed p) A <= kMaxUnitsPerPool.

(** The tables a recovered state starts from. *)
Record tables_ok (P : gmap Z PoolEntry) (A : gmap Z AllocationRecord) : Prop := {
  tb_id : forall k r, A !! k = Some r -> ar_id r = k;
  tb_record : forall k r, A !! k = Some r -> record_ok P r
}.

Lemma dom_add_record r P p : is_Some (add_record r P !! p) <-> is_Some (P !! p).
Proof.
  unfold add_record. repeat case_match; rewrite ?lookup_alter_is_Some; done.
Qed.

Lemma fold_books P A :
  (forall p e, P !! p = Some e -> descriptor_ok p (en_descriptor e)) -> tables_ok P A -> totals_fit P A ->
  let P' := map_fold (fun _ r acc => add_record r acc) (reset_entry <$> P) A in
  books P' A /\ (forall p, is_Some (P' !! p) <-> is_Some (P !! p)).
Proof.
  intros HP. simpl. revert A. apply (map_fold_weak_ind (fun P' A => tables_ok P A -> totals_fit P A ->
    books P' A /\ (forall p, is_Some (P' !! p) <-> is_Some (P !! p)))).
  { intros _ _. split; [by apply reset_books|]. intros p. cbv beta. by rewrite lookup_fmap, fmap_is_Some. }
  intros k r A P' Hk IH [Hid Hrec] Hfit.
  assert (ar_id r = k) as <- by (apply Hid, lookup_insert_eq).
  assert (record_ok P r) as Hr by (eapply Hrec, lookup_insert_eq).
  assert (tables_ok P A) as HT.
  { split; intros j r0 Hj; [apply Hid|eapply Hrec]; rewrite lookup_insert_ne; [done| |done|]; congruence. }
  destruct IH as [HB Hdom]; [done| |].
  { intros p e He. destruct (Hfit p e He) as [H1 H2]. rewrite !total_of_insert_new in H1, H2 by done.
    pose proof (share_nonneg P FOwn p r Hr). pose proof (share_nonneg P FBorrowed p r Hr). lia. }
  assert (record_ok P' r) as Hr' by (apply (record_ok_pools P); [by intros p; apply Hdom|done]).
  split; [|intros p; by rewrite dom_add_record].
  destruct (allocation_holds_units (ar_state r)) eqn:Hh.
  - eapply add_record_books; [done| |done|done|done|].
    { intros p. apply lookup_add_record; [done|]. by apply (ro_pool _ _ Hr'). }
    intros p e He. assert (is_Some (P !! p)) as [e0 He0] by (apply Hdom; by exists e).
    destruct (Hfit p e0 He0) as [H1 H2]. rewrite !total_of_insert_new in H1, H2 by done.
    pose proof (bk_entry _ _ HB p e He) as [_ HC _ _ _].
    rewrite (HC FOwn : en_own_usage e = _), (HC FBorrowed : en_borrowed_in e = _). lia.
  - replace (add_record r P') with P' by (unfold add_record; by rewrite Hh). by apply idle_record_books.
Qed.

Lemma refresh_books P A : books P A -> books (refresh_runtime <$> P) A.
Proof.
  intros HB. split.
  - apply HB.
  - intros k r Hk. apply (record_ok_pools P); [|by eapply HB]. intros p Hp. by rewrite lookup_fmap, fmap_is_Some.
  - intros p e'. rewrite lookup_fmap. destruct (P !! p) as [e|] eqn:He; [|done]. intros [= <-].
    destruct (bk_entry _ _ HB p e He) as [H1 H2 H3 H4 H5]. by split.
Qed.

(** ** Properties *)

(** Recovery's rebuild is exact: for every recovered pool and allocation table whose
    records name registered pools and whose totals fit the supported bounds, the rebuilt
    aggregates are the exact per-pool, per-class, per-queue and borrowing sums of the table,
    with no wrap-around, whatever the aggregates were before; and a rebuild registers or
    drops no pool. *)
Theorem rebuild_aggregates_exact (s : Impl) :
  (forall p e, im_pools s !! p = Some e -> descriptor_ok p (en_descriptor e)) ->
  tables_ok (im_pools s) (im_allocations s) -> totals_fit (im_pools s) (im_allocations s) ->
  let s' := rebuild_aggregates s in
  im_allocations s' = im_allocations s /\ books (im_pools s') (im_allocations s') /\
  dom (im_pools s') = dom (im_pools s).
Proof.
  intros HP HT Hfit. destruct (fold_books _ _ HP HT Hfit) as [HB Hdom]. simpl. unfold rebuild_pools.
  split; [done|]. split; [by apply refresh_books|].
  apply set_eq. intros p. by rewrite dom_fmap, !elem_of_dom, Hdom.
Qed.
