(* ===== verification/Triples.v ===== *)
(** * Reasoning about operations

    Weakest preconditions of the operations of the fabric, and the part of the state an
    operation may touch without the authoritative tables noticing: counters, history,
    events, remembered attempts and the durable store. *)

From S2P Require Import Prelude Ints Hash Enums Status Codec Model Wire Policy Accounting Authority Persist State Grant.

(** ** Rules for the operations of the fabric *)

Lemma wp_reject (c : bool) code message (s : Impl) (Q : unit -> Impl -> Prop) (E : Status -> Impl -> Prop) :
  (c = true -> forall e, st_code e = code -> E e s) -> (c = false -> Q tt s) -> wp (reject_when c code message) s Q E.
Proof. unfold wp, reject_when, sm_lift, reject_if, fail. destruct c; intros H1 H2; [by apply H1|by apply H2]. Qed.

Lemma wp_require {A} (o : option A) code message (s : Impl) (Q : A -> Impl -> Prop) (E : Status -> Impl -> Prop) :
  (o = None -> forall e, st_code e = code -> E e s) -> (forall a, o = Some a -> Q a s) ->
  wp (require o code message) s Q E.
Proof. unfold wp, require. destruct o; intros H1 H2; [by apply H2|by apply H1]. Qed.

Lemma wp_pool_ref id (s : Impl) (Q : PoolEntry -> Impl -> Prop) (E : Status -> Impl -> Prop) :
  (im_pools s !! id = None -> forall e, st_code e = ErrorCode.UnknownPool -> E e s) ->
  (forall e, im_pools s !! id = Some e -> Q e s) -> wp (pool_ref id) s Q E.
Proof. unfold wp, pool_ref. destruct (im_pools s !! id); intros H1 H2; [by apply H2|by apply H1]. Qed.

Lemma wp_require_pool id (s : Impl) (Q : PoolEntry -> Impl -> Prop) (E : Status -> Impl -> Prop) :
  (forall e, st_code e = ErrorCode.InvalidArgument \/ st_code e = ErrorCode.UnknownPool -> E e s) ->
  (forall e, im_pools s !! id = Some e -> Q e s) -> wp (require_pool id) s Q E.
Proof.
  unfold wp, require_pool, fail. intros H1 H2. destruct (negb (valid id)); [apply H1; by left|].
  destruct (im_pools s !! id); [by apply H2|apply H1; by right].
Qed.

Lemma wp_require_queue id (s : Impl) (Q : QueueDescriptor -> Impl -> Prop) (E : Status -> Impl -> Prop) :
  (forall e, st_code e = ErrorCode.InvalidArgument \/ st_code e = ErrorCode.UnknownQueue -> E e s) ->
  (forall q, im_queues s !! id = Some q -> Q q s) -> wp (require_queue id) s Q E.
Proof.
  unfold wp, require_queue, fail. intros H1 H2. destruct (negb (valid id)); [apply H1; by left|].
  destruct (im_queues s !! id); [by apply H2|apply H1; by right].
Qed.

Lemma wp_lookup_attempt id digest (s : Impl) (Q : option AttemptRecord -> Impl -> Prop) (E : Status -> Impl -> Prop) :
  (forall e, st_code e = ErrorCode.InvalidArgument \/ st_code e = ErrorCode.AttemptConflict -> E e s) ->
  (im_attempts s !! id = None -> Q None s) ->
  (forall a, im_attempts s !! id = Some a -> at_request_digest a = digest -> Q (Some a) s) ->
  wp (lookup_attempt id digest) s Q E.
Proof.
  unfold wp, lookup_attempt, fail. intros H1 H2 H3. destruct (negb (valid id)); [apply H1; by left|].
  destruct (im_attempts s !! id) as [a|]; [|by apply H2].
  case_decide; [by apply H3|apply H1; by right].
Qed.

Lemma wp_checked_add a b message (s : Impl) (Q : Z -> Impl -> Prop) (E : Status -> Impl -> Prop) :
  is_u64 a -> is_u64 b ->
  (u64_max < a + b -> forall e, st_code e = ErrorCode.Overflow -> E e s) -> (a + b <= u64_max -> Q (a + b) s) ->
  wp (checked_add a b message) s Q E.
Proof.
  intros Ha Hb H1 H2. unfold wp, checked_add.
  destruct (add_overflow_cases a b Ha Hb) as [[H ->]|[H ->]]; [by apply H2|by apply H1].
Qed.

(** One step of symbolic execution. *)
Ltac wp_step :=
  cbv zeta;
  lazymatch goal with
  | |- wp (sm_bind _ _) _ _ _ => apply wp_bind
  | |- wp (sm_ret _) _ _ _ => apply wp_ret
  | |- wp (ret _) _ _ _ => apply wp_ret
  | |- wp sm_get _ _ _ => apply wp_get
  | |- wp (gets _) _ _ _ => unfold wp, gets
  | |- wp (reject_when _ _ _) _ _ _ => apply wp_reject; intros
  | |- wp (require _ _ _) _ _ _ => apply wp_require; intros
  | |- wp (raise _ _) _ _ _ => apply wp_fail
  | |- wp (pool_ref _) _ _ _ => apply wp_pool_ref; intros
  | |- wp (require_pool _) _ _ _ => apply wp_require_pool; intros
  | |- wp (require_queue _) _ _ _ => apply wp_require_queue; intros
  | |- wp (lookup_attempt _ _) _ _ _ => apply wp_lookup_attempt; intros
  end.

(** ** Quiet changes *)

(** An entry without its statistics, on which no decision depends; the state without what the tables do not depend on. *)
Definition strip (e : PoolEntry) : PoolEntry := e <| en_runtime := default_PoolRuntime |>.

Definition core (s : Impl) : Impl :=
  s <| im_store := default_DurableStore |> <| im_metrics := default_FabricMetrics |> <| im_events := [] |>
    <| im_attempts := ∅ |> <| im_attempt_order := [] |> <| im_decisions := [] |>
    <| im_next_decision_sequence := 0 |> <| im_pools ::= fmap strip |>.

Definition quiet (s s' : Impl) : Prop := core s = core s'.

#[export] Instance quiet_equivalence : Equivalence quiet.
Proof. split; unfold quiet; [by intros s|by intros s s' ->|by intros s s' s'' -> ->]. Qed.

(** Only the durable store and the counters differ. *)
Definition logged (s s' : Impl) : Prop :=
  exists store metrics, s' = s <| im_store := store |> <| im_metrics := metrics |>.

#[export] Instance logged_preorder : PreOrder logged.
Proof.
  split; unfold logged.
  - intros s. exists (im_store s), (im_metrics s). destruct s. reflexivity.
  - intros s1 s2 s3 (d & m & ->) (d' & m' & ->). exists d', m'. reflexivity.
Qed.

Lemma logged_quiet s s' : logged s s' -> quiet s s'.
Proof. intros (d & m & ->). reflexivity. Qed.

(** An operation whose changes stay within [R], whether it succeeds or not. *)
Class Within {A} (R : Impl -> Impl -> Prop) (m : M A) : Prop :=
  within : forall s, wp m s (fun _ => R s) (fun _ => R s).
Abbreviation Hushed := (Within quiet).

#[export] Instance within_bind {A B} R `{!PreOrder R} (m : M A) (k : A -> M B) :
  Within R m -> (forall a, Within R (k a)) -> Within R (sm_bind m k).
Proof.
  intros Hm Hk s. apply wp_bind. eapply wp_mono; [apply Hm| |done].
  intros a s' Hs. eapply wp_mono; [apply Hk| |]; intros ? s'' Hs'; by transitivity s'.
Qed.

Section Within.
Context (R : Impl -> Impl -> Prop) {HR : PreOrder R}.
#[export] Instance within_ret {A} (a : A) : Within R (sm_ret a).
Proof. intros s. apply HR. Qed.
#[export] Instance within_ret' {A} (a : A) : Within R (ret a).
Proof. intros s. apply HR. Qed.
#[export] Instance within_get : Within R (sm_get : M Impl).
Proof. intros s. apply HR. Qed.
#[export] Instance within_gets {A} (f : Impl -> A) : Within R (gets f).
Proof. intros s. apply HR. Qed.
#[export] Instance within_raise {A} code message : Within R (raise (A := A) code message).
Proof. intros s. apply HR. Qed.
#[export] Instance within_lift {A} (r : Result A) : Within R (sm_lift r).
Proof. intros s. destruct r; apply HR. Qed.
#[export] Instance within_reject c code message : Within R (reject_when c code message).
Proof. intros s. destruct c; apply HR. Qed.
#[export] Instance within_require {A} (o : option A) code message : Within R (require o code message).
Proof. intros s. destruct o; apply HR. Qed.
#[export] Instance within_pool_ref id : Within R (pool_ref id).
Proof. intros s. unfold wp, pool_ref. destruct (im_pools s !! id); apply HR. Qed.
End Within.

#[export] Instance within_if {A} R (b : bool) (m1 m2 : M A) : Within R m1 -> Within R m2 -> Within R (if b then m1 else m2).
Proof. by destruct b. Qed.
#[export] Instance within_option {A B} R (o : option A) (f : A -> M B) (m : M B) :
  (forall a, Within R (f a)) -> Within R m -> Within R (match o with Some a => f a | None => m end).
Proof. by destruct o. Qed.
#[export] Instance within_decide {A} R (P : Prop) (d : {P} + {~ P}) (m1 m2 : M A) :
  Within R m1 -> Within R m2 -> Within R (if d then m1 else m2).
Proof. by destruct d. Qed.
#[export] Instance within_require_pool R `{!PreOrder R} id : Within R (require_pool id).
Proof. intros s. apply wp_require_pool; reflexivity. Qed.
#[export] Instance within_require_queue R `{!PreOrder R} id : Within R (require_queue id).
Proof. intros s. apply wp_require_queue; reflexivity. Qed.
#[export] Instance within_lookup_attempt R `{!PreOrder R} id digest : Within R (lookup_attempt id digest).
Proof. intros s. apply wp_lookup_attempt; reflexivity. Qed.
#[export] Instance within_metric f : Within logged (metric f).
Proof. intros s. hnf. exists (im_store s), (f (im_metrics s)). destruct s. reflexivity. Qed.
#[export] Instance within_store {A} (m : StateR DurableStore A) : Within logged (on_store_m m).
Proof.
  intros s. unfold wp, on_store_m. destruct (m (im_store s)) as [[a|e] d]; exists d, (im_metrics s);
    destruct s; reflexivity.
Qed.
#[export] Instance within_journal op payload : Within logged (journal op payload).
Proof. unfold journal, write_full_snapshot. apply _. Qed.
#[export] Instance within_journal_encoded op p message : Within logged (journal_encoded op p message).
Proof. unfold journal_encoded. apply _. Qed.
#[export] Instance within_journal_allocation op r : Within logged (journal_allocation op r).
Proof. unfold journal_allocation. apply _. Qed.

#[export] Instance hushed_logged {A} (m : M A) : Within logged m -> Hushed m | 10.
Proof. intros Hm s. eapply wp_mono; [apply Hm| |]; intros ? s' Hs; by apply logged_quiet. Qed.
#[export] Instance hushed_event kind outcome detail pool queue allocation units sequence :
  Hushed (push_event kind outcome detail pool queue allocation units sequence).
Proof. intros s. unfold wp, push_event, modify, sm_modify. by case_match. Qed.
#[export] Instance hushed_decision d : Hushed (record_decision d).
Proof. intros s. by hnf. Qed.
#[export] Instance hushed_sequence : Hushed next_sequence.
Proof. intros s. by hnf. Qed.

Lemma evict_loop_quiet fuel s : quiet s (evict_loop fuel s).
Proof.
  revert s. induction fuel as [|fuel IH]; intros s; simpl; [done|].
  case_match; [|done]. case_match; [done|]. by rewrite <- IH.
Qed.

#[export] Instance hushed_attempt a : Hushed (record_attempt a).
Proof.
  intros s. unfold wp, record_attempt, modify, sm_modify. case_match; [done|].
  unfold evict_attempts. rewrite <- evict_loop_quiet. by destruct (im_attempts s !! at_id a).
Qed.

Lemma strip_alter_runtime (g : PoolRuntime -> PoolRuntime) p (pools : gmap Z PoolEntry) :
  strip <$> alter (fun e => e <| en_runtime ::= g |>) p pools = strip <$> pools.
Proof.
  apply map_eq. intros q. rewrite !lookup_fmap, lookup_alter. case_decide; [subst|done].
  by destruct (pools !! q).
Qed.

#[export] Instance hushed_runtime p g : Hushed (update_runtime p g).
Proof.
  intros s. pose proof (strip_alter_runtime g p (im_pools s)) as H.
  unfold wp, update_runtime, update_pool, modify, sm_modify, quiet, core. simpl in *. by rewrite H.
Qed.

(** Operations that only write the live counters of an entry. *)
Lemma hushed_entry p (g : PoolEntry -> PoolEntry) :
  (forall e, strip (g e) = strip e) -> Hushed (update_pool p g).
Proof.
  intros Hg s. unfold wp, update_pool, modify, sm_modify, quiet, core. simpl.
  assert (strip <$> alter g p (im_pools s) = strip <$> im_pools s) as H; [|simpl in H; by rewrite H].
  apply map_eq. intros q. rewrite !lookup_fmap, lookup_alter. case_decide; [subst|done].
  destruct (im_pools s !! q); simpl; [|done]. f_equal. apply Hg.
Qed.

#[export] Instance hushed_counters (f : Impl -> FabricMetrics) : Hushed (modify (fun s => s <| im_metrics := f s |>)).
Proof. intros s. by hnf. Qed.

(** A quiet operation keeps what quiet changes preserve. *)
Lemma wp_hushed {A} (m : M A) (P : Impl -> Prop) s (Q : A -> Impl -> Prop) (E : Status -> Impl -> Prop) :
  Hushed m -> (forall s s', quiet s s' -> P s -> P s') -> P s ->
  (forall a s', P s' -> Q a s') -> (forall e s', P s' -> E e s') -> wp m s Q E.
Proof.
  intros Hm HP Hs HQ HE. eapply wp_mono; [apply Hm|intros a s' Hq; apply HQ|intros e s' Hq; apply HE]; exact (HP _ _ Hq Hs).
Qed.

Lemma update_allocation_eq k r r' s :
  im_allocations s !! k = Some r ->
  update_allocation k (fun _ => r') s = (Good tt, s <| im_allocations ::= <[k := r']> |>).
Proof.
  intros Hk. unfold update_allocation, modify, sm_modify. f_equal. simpl. f_equal. apply map_eq. intros j.
  rewrite lookup_alter. case_decide; [subst; by rewrite Hk, lookup_insert_eq|by rewrite lookup_insert_ne].
Qed.
