(* ===== verification/Layout.v ===== *)
(** * The layout of the fabric: pools, resources, queues and their names

    What the topology operations arrange and the allocation operations never touch. The
    pools form a forest whose parents are registered; the pools of a resource together
    never exceed its published capacity; each pool's policy and each queue's pool are
    registered; and the name tables are exactly the names in use. *)

From S2P Require Import Prelude Ints Hash Enums Status Codec Model Wire Policy Accounting Authority Persist State Grant Alloc Books Triples.

Record Layout := mkLayout {
  ly_pools : gmap Z PoolDescriptor; ly_capacities : gmap Z CapacityEntry; ly_policies : gmap Z PoolPolicy;
  ly_queues : gmap Z QueueDescriptor; ly_pool_names : gmap string Z; ly_queue_names : gmap string Z
}.

Definition layout (s : Impl) : Layout :=
  mkLayout (en_descriptor <$> im_pools s) (im_capacities s) (im_policies s) (im_queues s) (im_pool_names s)
    (im_queue_names s).

(** ** Arranged layouts *)

(** The units of resource [r] that descriptor [d] partitions off. *)
Definition carve (r : Z) (d : PoolDescriptor) : Z := only (pd_resource d =? r) (pd_raw_units d).

(** Parents are registered, and following them ends. *)
Definition forest (pools : gmap Z PoolDescriptor) : Prop :=
  exists rank : Z -> nat, forall p d, pools !! p = Some d -> valid (pd_parent d) = true ->
    is_Some (pools !! pd_parent d) /\ (rank (pd_parent d) < rank p)%nat.

(** [names] lists exactly the names of [items]. *)
Definition named {A} (name : A -> string) (items : gmap Z A) (names : gmap string Z) : Prop :=
  forall n k, names !! n = Some k <-> exists a, items !! k = Some a /\ name a = n.

Record arranged (L : Layout) : Prop := {
  ly_forest : forest (ly_pools L);
  ly_partition : forall r, (exists p d, ly_pools L !! p = Some d /\ pd_resource d = r) ->
    exists c, ly_capacities L !! r = Some c /\ total_of (carve r) (ly_pools L) <= cp_raw_units c;
  ly_policy : forall p d, ly_pools L !! p = Some d -> is_Some (ly_policies L !! pd_policy d);
  ly_queue : forall k q, ly_queues L !! k = Some q -> qd_id q = k /\ is_Some (ly_pools L !! qd_pool q);
  ly_pool_named : named pd_name (ly_pools L) (ly_pool_names L);
  ly_queue_named : named qd_name (ly_queues L) (ly_queue_names L)
}.

(** ** What leaves the layout alone *)

Lemma descriptors_pointwise (f : Z -> PoolEntry -> PoolEntry) (P P' : gmap Z PoolEntry) :
  (forall p, P' !! p = f p <$> P !! p) -> (forall p e, en_descriptor (f p e) = en_descriptor e) ->
  en_descriptor <$> P' = en_descriptor <$> P.
Proof.
  intros H Hf. apply map_eq. intros p. rewrite !lookup_fmap, H. destruct (P !! p); [|done]. simpl. by rewrite Hf.
Qed.

Lemma descriptors_alter (f : PoolEntry -> PoolEntry) p (P : gmap Z PoolEntry) :
  (forall e, en_descriptor (f e) = en_descriptor e) -> en_descriptor <$> alter f p P = en_descriptor <$> P.
Proof.
  intros Hf. apply map_eq. intros q. rewrite !lookup_fmap, lookup_alter. case_decide; [subst|done].
  destruct (P !! _); simpl; [by rewrite Hf|done].
Qed.

Lemma layout_pools s P :
  en_descriptor <$> P = en_descriptor <$> im_pools s -> layout (s <| im_pools := P |>) = layout s.
Proof. intros H. unfold layout. simpl. by rewrite H. Qed.

Lemma layout_entry s p d :
  ly_pools (layout s) !! p = Some d <-> exists e, im_pools s !! p = Some e /\ en_descriptor e = d.
Proof.
  simpl. rewrite lookup_fmap. destruct (im_pools s !! p) as [e|]; simpl; [|by split; [|intros (? & ? & _)]].
  split; [intros [= <-]; by exists e|]. intros (e' & He & <-). by injection He as <-.
Qed.

Lemma layout_entry_is_Some s p : is_Some (ly_pools (layout s) !! p) <-> is_Some (im_pools s !! p).
Proof. simpl. by rewrite lookup_fmap, fmap_is_Some. Qed.

#[export] Instance layout_proper : Proper (quiet ==> eq) layout.
Proof.
  intros s s' H. unfold layout.
  assert (en_descriptor <$> im_pools s = en_descriptor <$> im_pools s') as HP.
  { assert (strip <$> im_pools s = strip <$> im_pools s') as Hs by exact (f_equal im_pools H).
    assert (forall P : gmap Z PoolEntry, en_descriptor <$> P = en_descriptor <$> (strip <$> P)) as He
      by (intros P; by rewrite <- map_fmap_compose).
    by rewrite He, Hs, <- He. }
  rewrite HP. f_equal; [exact (f_equal im_capacities H)|exact (f_equal im_policies H)|exact (f_equal im_queues H)|
    exact (f_equal im_pool_names H)|exact (f_equal im_queue_names H)].
Qed.

(** ** Rearranging *)

Section Named.
Context {A : Type} (name : A -> string).
Implicit Types (items : gmap Z A) (names : gmap string Z).

Lemma named_insert items names k a :
  named name items names -> items !! k = None -> names !! name a = None ->
  named name (<[k := a]> items) (<[name a := k]> names).
Proof.
  intros H Hk Hn n j. rewrite lookup_insert_Some. split.
  - intros [[<- <-]|[Hne Hj]]; [exists a; by rewrite lookup_insert_eq|].
    apply H in Hj as (b & Hb & Hnb). exists b. rewrite lookup_insert_ne by congruence. done.
  - intros (b & Hb & <-). apply lookup_insert_Some in Hb as [[<- <-]|[Hne Hb]]; [by left|]. right.
    assert (names !! name b = Some j) as Hj by (apply H; by exists b). split; [congruence|done].
Qed.

Lemma named_delete items names k a :
  named name items names -> items !! k = Some a -> named name (delete k items) (delete (name a) names).
Proof.
  intros H Hk n j. rewrite lookup_delete_Some. split.
  - intros [Hne Hj]. apply H in Hj as (b & Hb & Hnb). exists b. split; [|done]. apply lookup_delete_Some.
    split; [congruence|done].
  - intros (b & Hb & <-). apply lookup_delete_Some in Hb as [Hne Hb].
    assert (names !! name b = Some j) as Hj by (apply H; by exists b). split; [|done].
    intros Heq. assert (names !! name a = Some k) as Hk' by (apply H; by exists a). congruence.
Qed.

Lemma named_update items names k a a' :
  named name items names -> items !! k = Some a -> name a' = name a -> named name (<[k := a']> items) names.
Proof.
  intros H Hk Ha n j. rewrite (H n j). split.
  - intros (b & Hb & <-). destruct (decide (j = k)) as [->|Hne]; [|by exists b; rewrite lookup_insert_ne].
    exists a'. rewrite lookup_insert_eq. split; congruence.
  - intros (b & Hb & <-). apply lookup_insert_Some in Hb as [[<- <-]|[Hne Hb]]; [by exists a|by exists b].
Qed.
End Named.

Definition partition_fits (pools : gmap Z PoolDescriptor) (capacities : gmap Z CapacityEntry) (r : Z) : Prop :=
  exists c, capacities !! r = Some c /\ total_of (carve r) pools <= cp_raw_units c.

Section Arrange.
Context (P : gmap Z PoolDescriptor) (C : gmap Z CapacityEntry) (Pol : gmap Z PoolPolicy) (Q : gmap Z QueueDescriptor)
  (PN QN : gmap string Z) (HL : arranged (mkLayout P C Pol Q PN QN)).

Lemma forest_root p d : P !! p = Some d -> pd_parent d <> p \/ valid p = false.
Proof.
  destruct (ly_forest _ HL) as [rank H]. intros Hp. destruct (valid p) eqn:Hv; [left|by right]. intros Heq.
  specialize (H p d Hp). rewrite Heq in H. destruct (H Hv). lia.
Qed.

(** A new pool, a leaf under a registered parent. *)
Lemma arranged_add_pool p d :
  P !! p = None -> PN !! pd_name d = None -> (valid (pd_parent d) = true -> is_Some (P !! pd_parent d)) ->
  is_Some (Pol !! pd_policy d) -> partition_fits (<[p := d]> P) C (pd_resource d) ->
  arranged (mkLayout (<[p := d]> P) C Pol Q (<[pd_name d := p]> PN) QN).
Proof.
  destruct HL as [[rank Hf] Hpart Hpol Hq Hpn Hqn]. simpl in *. intros Hp Hn Hpar Hpl Hfit.
  assert (forall q, is_Some (P !! q) -> is_Some (<[p := d]> P !! q) /\ q <> p) as Hmono.
  { intros q Hs. split; [apply lookup_insert_is_Some; destruct (decide (p = q)); auto|]. intros ->. by rewrite Hp in Hs; destruct Hs. }
  split; simpl; try done.
  - exists (fun q => if decide (q = p) then S (rank (pd_parent d)) else rank q). intros q x Hx Hv.
    apply lookup_insert_Some in Hx as [[<- <-]|[Hne Hx]].
    + destruct (Hmono _ (Hpar Hv)) as [H1 H2]. split; [done|]. repeat case_decide; try congruence. lia.
    + destruct (Hf q x Hx Hv) as [Hs Hlt]. destruct (Hmono _ Hs) as [H1 H2]. split; [done|].
      by rewrite !decide_False by congruence.
  - intros r (q & x & Hx & Hr). destruct (decide (r = pd_resource d)) as [->|Hne]; [done|].
    apply lookup_insert_Some in Hx as [[<- <-]|[Hqp Hx]]; [congruence|].
    destruct (Hpart r) as (c & Hc & Hle); [by exists q, x|]. exists c. split; [done|].
    rewrite total_of_insert_new by done. unfold carve at 1. rewrite (proj2 (Z.eqb_neq _ _)) by congruence. simpl. lia.
  - intros q x Hx. apply lookup_insert_Some in Hx as [[<- <-]|[_ Hx]]; eauto.
  - intros k q Hk. destruct (Hq k q Hk) as [H1 H2]. split; [done|]. by apply Hmono.
  - by apply named_insert.
Qed.

(** A pool without children or queues leaves. *)
Lemma arranged_remove_pool p d :
  P !! p = Some d -> valid p = true -> (forall q x, P !! q = Some x -> pd_parent x <> p) ->
  (forall k q, Q !! k = Some q -> qd_pool q <> p) ->
  (forall r q x, P !! q = Some x -> 0 <= carve r x) ->
  arranged (mkLayout (delete p P) C Pol Q (delete (pd_name d) PN) QN).
Proof.
  destruct HL as [[rank Hf] Hpart Hpol Hq Hpn Hqn]. simpl in *. intros Hp Hv Hleaf Hnoq Hcarve.
  split; simpl; try done.
  - exists rank. intros q x [Hqp Hx]%lookup_delete_Some Hvx. destruct (Hf q x Hx Hvx) as [Hs Hlt]. split; [|done].
    apply lookup_delete_is_Some. split; [|done]. intros Heq. by apply (Hleaf q x Hx).
  - intros r (q & x & [Hqp Hx]%lookup_delete_Some & Hr). destruct (Hpart r) as (c & Hc & Hle); [by exists q, x|].
    exists c. split; [done|]. rewrite total_of_delete, Hp. simpl. pose proof (Hcarve r p d Hp). lia.
  - intros q x [_ Hx]%lookup_delete_Some. eauto.
  - intros k q Hk. destruct (Hq k q Hk) as [H1 H2]. split; [done|]. apply lookup_delete_is_Some.
    split; [|done]. intros Heq. by apply (Hnoq k q Hk).
  - by apply named_delete.
Qed.

(** A pool changes size. *)
Lemma arranged_resize_pool p d d' :
  P !! p = Some d -> pd_name d' = pd_name d -> pd_parent d' = pd_parent d -> pd_policy d' = pd_policy d ->
  pd_resource d' = pd_resource d -> partition_fits (<[p := d']> P) C (pd_resource d) ->
  arranged (mkLayout (<[p := d']> P) C Pol Q PN QN).
Proof.
  destruct HL as [[rank Hf] Hpart Hpol Hq Hpn Hqn]. simpl in *. intros Hp Hn Hpar Hpl Hres Hfit.
  assert (forall q, is_Some (P !! q) -> is_Some (<[p := d']> P !! q)) as Hmono.
  { intros q Hs. apply lookup_insert_is_Some. destruct (decide (p = q)); auto. }
  assert (forall q x, <[p := d']> P !! q = Some x -> exists y, P !! q = Some y /\ pd_parent x = pd_parent y /\
    pd_policy x = pd_policy y /\ pd_resource x = pd_resource y) as Hold.
  { intros q x [[<- <-]|[Hne Hx]]%lookup_insert_Some; [by exists d|by exists x]. }
  split; simpl; try done.
  - exists rank. intros q x Hx Hv. destruct (Hold q x Hx) as (y & Hy & Hpp & _). rewrite Hpp in *.
    destruct (Hf q y Hy Hv). auto.
  - intros r (q & x & Hx & Hr). destruct (decide (r = pd_resource d)) as [->|Hne]; [done|].
    destruct (Hold q x Hx) as (y & Hy & _ & _ & Hry). destruct (Hpart r) as (c & Hc & Hle); [by exists q, y; rewrite <- Hry|].
    exists c. split; [done|]. rewrite total_of_insert, Hp. simpl. unfold carve at 2 3.
    rewrite Hres, !(proj2 (Z.eqb_neq _ _)) by congruence. simpl. lia.
  - intros q x Hx. destruct (Hold q x Hx) as (y & Hy & _ & -> & _). eauto.
  - intros k q Hk. destruct (Hq k q Hk). auto.
  - by eapply named_update.
Qed.

Lemma arranged_set_capacity r c :
  total_of (carve r) P <= cp_raw_units c -> arranged (mkLayout P (<[r := c]> C) Pol Q PN QN).
Proof.
  destruct HL as [Hf Hpart Hpol Hq Hpn Hqn]. simpl in *. intros Hfit. split; simpl; try done.
  intros r' Hr'. destruct (decide (r = r')) as [<-|Hne]; [exists c; by rewrite lookup_insert_eq|].
  rewrite lookup_insert_ne by done. auto.
Qed.

Lemma arranged_set_policy k p : arranged (mkLayout P C (<[k := p]> Pol) Q PN QN).
Proof.
  destruct HL as [Hf Hpart Hpol Hq Hpn Hqn]. simpl in *. split; simpl; try done.
  intros q d Hd. apply lookup_insert_is_Some. destruct (decide (k = pd_policy d)); eauto.
Qed.

Lemma arranged_add_queue k q :
  Q !! k = None -> QN !! qd_name q = None -> qd_id q = k -> is_Some (P !! qd_pool q) ->
  arranged (mkLayout P C Pol (<[k := q]> Q) PN (<[qd_name q := k]> QN)).
Proof.
  destruct HL as [Hf Hpart Hpol Hq Hpn Hqn]. simpl in *. intros Hk Hn Hid Hp. split; simpl; try done.
  - intros j x [[<- <-]|[_ Hx]]%lookup_insert_Some; eauto.
  - by apply named_insert.
Qed.

Lemma arranged_update_queue k q q' :
  Q !! k = Some q -> qd_name q' = qd_name q -> qd_id q' = qd_id q -> is_Some (P !! qd_pool q') ->
  arranged (mkLayout P C Pol (<[k := q']> Q) PN QN).
Proof.
  destruct HL as [Hf Hpart Hpol Hq Hpn Hqn]. simpl in *. intros Hk Hn Hid Hp. split; simpl; try done.
  - intros j x [[<- <-]|[_ Hx]]%lookup_insert_Some; [|eauto]. destruct (Hq _ _ Hk). split; [congruence|done].
  - by eapply named_update.
Qed.

Lemma arranged_remove_queue k q :
  Q !! k = Some q -> arranged (mkLayout P C Pol (delete k Q) PN (delete (qd_name q) QN)).
Proof.
  destruct HL as [Hf Hpart Hpol Hq Hpn Hqn]. simpl in *. intros Hk. split; simpl; try done.
  - intros j x [_ Hx]%lookup_delete_Some. eauto.
  - by apply named_delete.
Qed.
End Arrange.
