(* ===== verification/Safety.v ===== *)
(** * The invariant of the fabric, and grants that keep it

    [Inv] is what holds between operations: the books, fresh allocation ids, and policies
    within their validated bounds. This file shows that it only depends on the
    authoritative tables, and that the capacity arithmetic of [compute_grant] never plans a
    grant that its pool or its lender cannot carry. *)

From S2P Require Import Prelude Ints Hash Enums Status Codec Model Wire Policy Accounting Authority Persist State Grant Alloc Books Triples Layout.

(** ** The invariant *)

Record policy_ok (p : PoolPolicy) : Prop := {
  po_overcommit : 0 <= oc_limit_units (pol_overcommit p) <= kMaxOvercommitUnits;
  po_borrow : 0 <= bw_limit_units (pol_borrow p) <= kMaxUnitsPerPool;
  po_single_request : 0 <= pol_max_single_request_units p;
  po_single_allocation : 0 <= pol_max_single_allocation_units p
}.

Record Inv (s : Impl) : Prop := {
  inv_books : books (im_pools s) (im_allocations s);
  inv_ids : forall k r, im_allocations s !! k = Some r -> 0 < k < im_next_allocation_id s;
  inv_next : 0 < im_next_allocation_id s <= u64_max;
  inv_policies : forall k p, im_policies s !! k = Some p -> policy_ok p;
  inv_layout : arranged (layout s);
  inv_live : forall k r, im_allocations s !! k = Some r -> allocation_holds_units (ar_state r) = true -> 0 < ar_units r
}.

(** ** What quiet changes preserve *)

Lemma strip_lookup (P P' : gmap Z PoolEntry) p e :
  strip <$> P = strip <$> P' -> P !! p = Some e -> exists e', P' !! p = Some e' /\ strip e = strip e'.
Proof.
  intros H He. assert (strip <$> P !! p = strip <$> P' !! p) as Hp by (by rewrite <- !lookup_fmap, H).
  rewrite He in Hp. destruct (P' !! p) as [e'|]; [|done]. exists e'. split; [done|]. exact (inj Some _ _ Hp).
Qed.

Lemma entry_ok_strip A p e e' : strip e = strip e' -> entry_ok A p e -> entry_ok A p e'.
Proof.
  intros H [H1 H2 H3 H4 H5].
  assert (forall f, counter f e' = counter f e) as HC.
  { intros f. transitivity (counter f (strip e)); [rewrite H|]; by destruct f. }
  pose proof (f_equal en_descriptor H) as Hd. pose proof (f_equal en_members H) as Hm. simpl in Hd, Hm.
  split.
  - by rewrite <- Hd.
  - intros f. by rewrite HC.
  - by rewrite (HC FOwn : en_own_usage e' = _).
  - by rewrite (HC FBorrowed : en_borrowed_in e' = _).
  - by rewrite <- Hm.
Qed.

Lemma books_strip P P' A : strip <$> P = strip <$> P' -> books P A -> books P' A.
Proof.
  intros H HB. split.
  - apply HB.
  - intros k r Hk. apply (record_ok_pools P); [|by eapply HB]. intros p [e He].
    destruct (strip_lookup P P' p e H He) as (e' & He' & _). by exists e'.
  - intros p e' He'. destruct (strip_lookup P' P p e' (eq_sym H) He') as (e & He & Hs).
    by apply (entry_ok_strip A p e), HB.
Qed.

Lemma quiet_pools s s' : quiet s s' -> strip <$> im_pools s = strip <$> im_pools s'.
Proof. intros H. exact (f_equal im_pools H). Qed.
Lemma quiet_allocations s s' : quiet s s' -> im_allocations s = im_allocations s'.
Proof. intros H. exact (f_equal im_allocations H). Qed.
Lemma quiet_policies s s' : quiet s s' -> im_policies s = im_policies s'.
Proof. intros H. exact (f_equal im_policies H). Qed.
Lemma quiet_queues s s' : quiet s s' -> im_queues s = im_queues s'.
Proof. intros H. exact (f_equal im_queues H). Qed.
Lemma quiet_next s s' : quiet s s' -> im_next_allocation_id s = im_next_allocation_id s'.
Proof. intros H. exact (f_equal im_next_allocation_id H). Qed.
Lemma quiet_shutdown s s' : quiet s s' -> im_shutting_down s = im_shutting_down s'.
Proof. intros H. exact (f_equal im_shutting_down H). Qed.

#[export] Instance Inv_proper : Proper (quiet ==> iff) Inv.
Proof.
  assert (forall s s', quiet s s' -> Inv s -> Inv s') as Hgo.
  { intros s s' H [H1 H2 H3 H4 H5 H6]. split.
    - rewrite <- (quiet_allocations _ _ H). by apply (books_strip (im_pools s)), H1; apply quiet_pools.
    - by rewrite <- (quiet_allocations _ _ H), <- (quiet_next _ _ H).
    - by rewrite <- (quiet_next _ _ H).
    - by rewrite <- (quiet_policies _ _ H).
    - by rewrite <- H.
    - by rewrite <- (quiet_allocations _ _ H). }
  intros s s' H. split; [by apply Hgo|]. apply Hgo. by symmetry.
Qed.

(** ** The capacity arithmetic *)

(** The walk towards the root never comes back to where it started. *)
Lemma find_lender_spec P depth cursor a (rank : Z -> nat) :
  (forall p e, P !! p = Some e -> valid (pd_parent (en_descriptor e)) = true ->
     (rank (pd_parent (en_descriptor e)) < rank p)%nat) ->
  find_lender depth P cursor = Some a ->
  exists q, P !! q = Some a /\ valid q = true /\ (rank q <= rank cursor)%nat /\
    pd_retired (en_descriptor a) = false /\ en_free_units a <> 0.
Proof.
  intros Hrank. revert cursor. induction depth as [|depth IH]; intros cursor; simpl; [done|].
  intros Hf. destruct (valid cursor) eqn:Hv; [|done]. simpl in Hf.
  destruct (P !! cursor) as [e|] eqn:He; [|done].
  destruct (negb (pd_retired (en_descriptor e)) && negb (en_free_units e =? 0)) eqn:Hr.
  - injection Hf as <-. exists cursor. repeat split; [done|done|lia| |].
    + by destruct (pd_retired _).
    + destruct (Z.eqb_spec (en_free_units e) 0); [|done]. by rewrite andb_false_r in Hr.
  - destruct (IH _ Hf) as (q & Hq & Hvq & Hle & Hrest). exists q. split_and!; try done; [|apply Hrest..].
    assert (valid (pd_parent (en_descriptor e)) = true) as Hvp.
    { destruct depth; [done|]. simpl in Hf. by destruct (valid (pd_parent (en_descriptor e))). }
    specialize (Hrank _ _ He Hvp). lia.
Qed.

(** What a planned grant of [units], [borrow] of them borrowed, may rely on. *)
Record affordable (s : Impl) (p : Z) (e : PoolEntry) (units borrow lender : Z) : Prop := {
  af_borrow : 0 <= borrow <= units;
  af_own : en_own_usage e + (units - borrow) <= kMaxOwnUsage;
  af_borrowed : en_borrowed_in e + borrow <= kMaxUnitsPerPool;
  af_lender : borrow <> 0 -> exists l, im_pools s !! lender = Some l /\ valid lender = true /\ lender <> p /\
    en_own_usage l + borrow <= en_usable l
}.

Lemma sat_add_range a b : is_u64 (sat_add a b).
Proof. unfold sat_add, add_overflow. case_match; [u64_lia|apply add64_range]. Qed.

Lemma max_grant_range s e pol : is_u64 (gc_max_grant (compute_grant s e pol)).
Proof. unfold compute_grant. repeat case_match; simpl; apply sat_add_range. Qed.

Section Grants.
Context (s : Impl) (HI : Inv s) (p : Z) (e : PoolEntry) (Hp : im_pools s !! p = Some e)
  (pol : PoolPolicy) (Hpol : policy_ok pol).

Lemma headroom_range :
  0 <= overcommit_headroom e pol <= kMaxOvercommitUnits /\
  (overcommit_headroom e pol <> 0 -> en_overcommit_used e + overcommit_headroom e pol <= kMaxOvercommitUnits).
Proof.
  destruct Hpol as [Ho _ _ _]. pose proof (usage_exact (inv_books s HI) p e Hp) as (Hov & _ & _).
  unfold overcommit_headroom. case_match eqn:Hb; [|u64_lia].
  apply andb_true_iff in Hb as [_ Hb%Z.ltb_lt]. rewrite sub64_exact by u64_lia. lia.
Qed.

Let lender_of := find_lender (Z.to_nat kMaxPoolDepth) (im_pools s) (pd_parent (en_descriptor e)).

Lemma compute_grant_borrow (g := compute_grant s e pol) :
  0 <= gc_borrowable g <= kMaxUnitsPerPool /\
  en_borrowed_in e + gc_borrowable g <= Z.max (en_borrowed_in e) kMaxUnitsPerPool /\
  (gc_borrowable g <> 0 -> exists l, im_pools s !! gc_lender g = Some l /\ valid (gc_lender g) = true /\
     gc_lender g <> p /\ gc_borrowable g <= en_free_units l).
Proof.
  subst g. unfold compute_grant. destruct Hpol as [_ Hbw _ _].
  pose proof (counter_bound (inv_books s HI) FBorrowed p e Hp) as Hbi. simpl in Hbi. unfold kMaxOwnUsage in Hbi.
  destruct (decide _); cbn -[Z.min]; [|u64_lia].
  set (remaining := if _ <? _ then _ else 0).
  assert (0 <= remaining <= kMaxUnitsPerPool /\ (remaining <> 0 -> en_borrowed_in e + remaining <= kMaxUnitsPerPool)) as [Hr1 Hr2].
  { subst remaining. case_match eqn:Hlt; [apply Z.ltb_lt in Hlt; rewrite sub64_exact|]; u64_lia. }
  destruct (find_lender _ _ _) as [a|] eqn:Hf; cbn -[Z.min]; [|rewrite Z.min_l; u64_lia].
  destruct (ly_forest _ (inv_layout s HI)) as [rank Hrank].
  assert (forall j d, im_pools s !! j = Some d -> valid (pd_parent (en_descriptor d)) = true ->
    (rank (pd_parent (en_descriptor d)) < rank j)%nat) as Hrank'.
  { intros j d Hj. apply (Hrank j). apply layout_entry. by exists d. }
  destruct (find_lender_spec _ _ _ _ rank Hrank' Hf) as (q & Hq & Hvq & Hle & _ & Hfree).
  assert (q <> p) as Hne.
  { intros ->. assert (valid (pd_parent (en_descriptor e)) = true) as Hvp.
    { assert (exists k, Z.to_nat kMaxPoolDepth = S k) as [k Hk] by (by exists 15%nat). rewrite Hk in Hf. simpl in Hf.
      by destruct (valid (pd_parent (en_descriptor e))). }
    specialize (Hrank' _ _ Hp Hvp). lia. }
  destruct (eo_descriptor _ _ _ (bk_entry _ _ (inv_books s HI) _ _ Hq)) as [Hidq _ _ _].
  pose proof (usage_exact (inv_books s HI) q a Hq) as (_ & Hfr & _).
  split; [lia|]. split; [lia|]. intros _. exists a. rewrite Hidq. split; [done|].
  split; [done|]. split; [done|lia].
Qed.

Lemma borrow_of_range g grant :
  0 <= gc_own_free g -> gc_own_free g <= u64_max -> 0 <= gc_borrowable g -> 0 <= grant <= u64_max ->
  borrow_of g grant = Z.max 0 (Z.min (grant - gc_own_free g) (gc_borrowable g)).
Proof.
  intros. unfold borrow_of. destruct (Z.ltb_spec (gc_own_free g) grant); [rewrite sub64_exact by u64_lia|]; lia.
Qed.

(** Every grant within [max_grant] is affordable. *)
Lemma compute_grant_affordable grant (g := compute_grant s e pol) :
  0 <= grant <= gc_max_grant g -> affordable s p e grant (borrow_of g grant) (gc_lender g).
Proof.
  intros Hg. destruct compute_grant_borrow as (Hb & Hbi & Hl). fold g in Hb, Hbi, Hl.
  destruct headroom_range as [Hh1 Hh2].
  pose proof (usage_exact (inv_books s HI) p e Hp) as (Hov & Hfr & _).
  pose proof (usable_range (inv_books s HI) p e Hp) as Hus.
  pose proof (bk_entry _ _ (inv_books s HI) p e Hp) as [_ _ Hown Hbor _].
  pose proof (counter_bound (inv_books s HI) FOwn p e Hp) as Hou. simpl in Hou. unfold kMaxOwnUsage in *.
  assert (gc_own_free g = en_free_units e) as Hof by (subst g; unfold compute_grant; by repeat case_match).
  assert (gc_max_grant g = en_free_units e + overcommit_headroom e pol + gc_borrowable g) as Hmax.
  { subst g. unfold compute_grant in *. repeat case_match; simplify_eq; simpl in *;
      rewrite !sat_add_min by (rewrite ?sat_add_min by u64_lia; u64_lia); u64_lia. }
  assert (borrow_of g grant = Z.max 0 (Z.min (grant - en_free_units e) (gc_borrowable g))) as Hbo.
  { rewrite borrow_of_range, Hof; [done|u64_lia..]. }
  assert (overcommit_headroom e pol = 0 \/ en_overcommit_used e + overcommit_headroom e pol <= kMaxOvercommitUnits)
    as Hh3 by (destruct (decide (overcommit_headroom e pol = 0)); auto).
  rewrite Hbo. split; [lia|unfold kMaxOwnUsage; lia|lia|].
  intros Hnz. destruct Hl as (l & Hl & Hv & Hne & Hle); [lia|]. exists l. split_and!; [done..|].
  pose proof (usage_exact (inv_books s HI) _ l Hl) as (_ & Hfl & _). lia.
Qed.
End Grants.

(** ** A small fabric

    Two pools: 1 with a thousand units, and 2, its child, with eighty usable units and the
    right to borrow fifty. One queue on pool 2, whose pressure was just observed. *)

Definition sample_policy : PoolPolicy :=
  default_PoolPolicy <| pol_id := 1 |> <| pol_generation := 1 |> <| pol_allow_partial_grant := true |>
    <| pol_borrow := default_BorrowPolicy <| bw_mode := BorrowMode.FromAncestorFree |> <| bw_limit_units := 50 |> |>.

Definition sample_pool (id : Z) (name : string) (parent raw protected : Z) : PoolEntry :=
  default_PoolEntry <| en_capacity_generation := 1 |>
    <| en_descriptor := default_PoolDescriptor <| pd_id := id |> <| pd_name := name |> <| pd_parent := parent |>
         <| pd_resource := 3 |> <| pd_raw_units := raw |> <| pd_protected_units := protected |> <| pd_policy := 1 |>
         <| pd_generation := 1 |> |>.

Definition sample_pressure : PressureEntry :=
  default_PressureEntry <| pr_has_latest := true |>
    <| pr_latest := default_PressureSnapshot <| ps_id := 1 |> <| ps_pool := 2 |> <| ps_pool_generation := 1 |>
         <| ps_epoch := 1 |> <| ps_observed_at := 5 |> <| ps_ttl_ticks := 100 |> |>.

Definition sample_queue : QueueDescriptor :=
  default_QueueDescriptor <| qd_id := 7 |> <| qd_name := "rx" |> <| qd_pool := 2 |> <| qd_generation := 1 |>.

Definition sample_capacity : CapacityEntry :=
  default_CapacityEntry <| cp_resource := 3 |> <| cp_backend := 1 |> <| cp_generation := 1 |> <| cp_raw_units := 1500 |>.

Definition sample_pools : gmap Z PoolEntry :=
  {[1 := sample_pool 1 "root" 0 1000 0; 2 := sample_pool 2 "leaf" 1 100 20]}.

Definition sample_state : Impl :=
  default_Impl <| im_open := true |> <| im_tick := 10 |> <| im_epoch := 1 |>
    <| im_next_pool_id := 3 |> <| im_next_queue_id := 8 |> <| im_next_policy_id := 2 |>
    <| im_backends := {[1 := default_BackendEntry <| be_ready := true |>]} |>
    <| im_capacities := {[3 := sample_capacity]} |> <| im_policies := {[1 := sample_policy]} |>
    <| im_pools := sample_pools |> <| im_pool_names := {["root"%string := 1; "leaf"%string := 2]} |>
    <| im_queues := {[7 := sample_queue]} |> <| im_queue_names := {["rx"%string := 7]} |>
    <| im_pressure := {[2 := sample_pressure]} |>.

Lemma sample_arranged : arranged (layout sample_state).
Proof.
  assert (forall p d, ly_pools (layout sample_state) !! p = Some d ->
    p = 1 /\ d = en_descriptor (sample_pool 1 "root" 0 1000 0) \/
    p = 2 /\ d = en_descriptor (sample_pool 2 "leaf" 1 100 20)) as Hp.
  { intros p d (e & He & <-)%layout_entry. change (sample_pools !! p = Some e) in He. unfold sample_pools in He. apply lookup_insert_Some in He as [[<- <-]|[_ He]]; [by left|].
    apply lookup_singleton_Some in He as [<- <-]. by right. }
  split.
  - exists Z.to_nat. intros p d [[-> ->]|[-> ->]]%Hp; simpl; [done|]. intros _. split; [|lia]. by eexists.
  - intros r (p & d & Hd & <-). exists sample_capacity. by destruct (Hp _ _ Hd) as [[-> ->]|[-> ->]].
  - intros p d [[-> ->]|[-> ->]]%Hp; by eexists.
  - intros k q Hq. simpl in Hq. apply lookup_singleton_Some in Hq as [<- <-]. split; [done|by eexists].
  - intros n k. simpl ly_pool_names. rewrite lookup_insert_Some, lookup_singleton_Some. split.
    + by intros [[<- <-]|[_ [<- <-]]]; eexists.
    + intros (d & Hd & <-). destruct (Hp _ _ Hd) as [[-> ->]|[-> ->]]; [by left|by right].
  - intros n k. simpl ly_queue_names. rewrite lookup_singleton_Some. split.
    + by intros [<- <-]; eexists.
    + intros (q & Hq & <-). simpl in Hq. by apply lookup_singleton_Some in Hq as [<- <-].
Qed.

Lemma sample_inv : Inv sample_state.
Proof.
  split; [| | | |apply sample_arranged|done]; simpl.
  - assert (sample_pools = reset_entry <$> sample_pools) as -> by (by unfold sample_pools; rewrite fmap_insert, map_fmap_singleton).
    apply reset_books. unfold sample_pools. intros p e Hp. apply lookup_insert_Some in Hp as [[<- <-]|[_ Hp]].
    + split; simpl; (done || u64_lia).
    + apply lookup_singleton_Some in Hp as [<- <-]. split; simpl; (done || u64_lia).
  - done.
  - u64_lia.
  - intros k p Hp. apply lookup_singleton_Some in Hp as [<- <-]. split; simpl; u64_lia.
Qed.
