(* ===== verification/AllocSafety.v ===== *)
(** * Allocation keeps the invariant

    The grant that [allocate_locked] plans is applied exactly as the books record it, the
    closure check that follows cannot fail, and every outcome of a request, refusals and
    failed journal writes included, leaves a state that satisfies [Inv]. *)

From S2P Require Import Prelude Ints Hash Enums Status Codec Model Wire Policy Accounting Authority Persist State Grant Alloc Books Triples Layout Safety.

(** ** Applying a grant *)

Definition commit_entry (units borrow : Z) (e : PoolEntry) : PoolEntry :=
  e <| en_own_usage ::= plus (sub64 units borrow) |> <| en_borrowed_in ::= plus borrow |>.

Lemma alter_const {A} (f : A -> A) (a : A) k (m : gmap Z A) :
  m !! k = Some a -> alter (fun _ => f a) k m = alter f k m.
Proof.
  intros Hk. apply map_eq. intros j. rewrite !lookup_alter. case_decide; [|done]. by rewrite Hk.
Qed.

Lemma apply_commit_ok s p e units borrow lender :
  Inv s -> im_pools s !! p = Some e -> affordable s p e units borrow lender -> units <= u64_max ->
  apply_commit_units p units borrow lender s =
    (Good tt, s <| im_pools ::= fun P =>
       if borrow =? 0 then alter (commit_entry units borrow) p P
       else alter (add_to_lender borrow) lender (alter (commit_entry units borrow) p P) |>).
Proof.
  intros HI Hp [Hb Ho Hbb Hl] Hu. pose proof (inv_books s HI) as HB. unfold kMaxOwnUsage in *.
  pose proof (counter_bound HB FOwn p e Hp) as H1; pose proof (counter_bound HB FBorrowed p e Hp) as H2.
  simpl in H1, H2. unfold kMaxOwnUsage in *.
  unfold apply_commit_units. rewrite (proj2 (Z.ltb_ge units borrow)) by lia.
  assert (forall a b message, is_u64 a -> is_u64 b -> a + b <= u64_max ->
    forall t : Impl, checked_add a b message t = (Good (add64 a b), t)) as Hadd.
  { intros a b message Ha Hb' Hab t. unfold checked_add.
    destruct (add_overflow_cases a b Ha Hb') as [[_ ->]|[? _]]; [|lia]. by rewrite add64_exact by u64_lia. }
  unfold sm_bind, pool_ref. rewrite Hp.
  rewrite !Hadd by (rewrite ?sub64_exact by u64_lia; u64_lia). unfold update_pool, modify, sm_modify.
  assert (forall P : gmap Z PoolEntry, P !! p = Some e ->
    alter (fun e0 => e0 <| en_own_usage := add64 (en_own_usage e) (sub64 units borrow) |>
                        <| en_borrowed_in := add64 (en_borrowed_in e) borrow |>) p P =
    alter (commit_entry units borrow) p P) as Hcommit.
  { intros P HP. apply map_eq. intros j. rewrite !lookup_alter. case_decide; [|done]. by rewrite HP. }
  simpl in Hcommit.
  destruct (Z.eqb_spec borrow 0) as [Hz|Hz].
  { unfold ret, sm_ret. simpl. by rewrite Hcommit. }
  destruct (Hl Hz) as (l & Hlk & Hv & Hne & Hlu). rewrite Hv. simpl.
  pose proof (counter_bound HB FOwn _ _ Hlk) as H3; pose proof (counter_bound HB FLent _ _ Hlk) as H4.
  pose proof (usable_range HB _ _ Hlk) as H5. simpl in H3, H4. unfold kMaxOwnUsage in *.
  rewrite lookup_alter_ne, Hlk by done. unfold require, ret, sm_ret.
  rewrite !Hadd by u64_lia. rewrite sat_add_min by u64_lia.
  rewrite (proj2 (Z.ltb_ge _ _)) by (rewrite ?add64_exact by u64_lia; u64_lia).
  simpl. rewrite Hcommit by done. do 2 f_equal.
  apply map_eq. intros j. rewrite !(lookup_alter _ _ lender). case_decide; [subst|done].
  rewrite lookup_alter_ne by done. by rewrite Hlk.
Qed.

(** The counters a grant changes on its own pool are those of [add_to_holder]. *)
Lemma holder_entry r e :
  0 <= ar_units r < 2 ^ 63 -> ar_borrow_units r <= ar_units r ->
  adjust_queue (ar_queue r) (to_i64 (ar_units r)) (is_reserved r)
    (add_grant_units (negb (is_reserved r)) (ar_reclaim_class r) (ar_units r)
       (commit_entry (ar_units r) (ar_borrow_units r) e)) <| en_members ::= fun m => {[ar_id r]} ∪ m |>
  = add_to_holder r e.
Proof.
  intros [Hu Hu'] Hb. rewrite to_i64_small by done. unfold add_to_holder, adjust_queue, adjust_bucket, add_grant_units, commit_entry, is_reserved, effective_borrow.
  rewrite (proj2 (Z.leb_le 0 (ar_units r)) Hu), (proj2 (Z.leb_le _ _) Hb).
  by destruct (bool_decide _), (ar_reclaim_class r).
Qed.

(** [s'] is [s] with [r] recorded in the table and in the pools. *)
Definition granted (s : Impl) (r : AllocationRecord) (next : Z) (s' : Impl) : Prop :=
  exists s0 pools, logged s s0 /\
    s' = s0 <| im_pools := pools |> <| im_next_allocation_id := next |> <| im_allocations ::= <[ar_id r := r]> |>
            <| im_allocations_total ::= plus 1 |> /\
    forall q, pools !! q = add_at r q <$> im_pools s !! q.

Lemma apply_grant_ok cx r next s e :
  Inv s -> im_pools s !! aq_pool (cx_request cx) = Some e -> ar_pool r = aq_pool (cx_request cx) ->
  aq_commit_immediately (cx_request cx) = negb (is_reserved r) ->
  affordable s (ar_pool r) e (ar_units r) (ar_borrow_units r) (ar_lender r) -> ar_units r <= u64_max ->
  (ar_borrow_units r = 0 -> ar_lender r = 0) ->
  wp (apply_grant cx r next) s (fun _ => granted s r next) (fun _ => logged s).
Proof.
  intros HI He Hpool Himm Haf Hu Hnolend. unfold apply_grant. rewrite <- Hpool in *. rewrite Himm.
  apply wp_bind. eapply wp_mono; [apply within| |done]. intros [] s0 Hlog.
  pose proof Hlog as (d & m & ->).
  set (s0 := s <| im_store := d |> <| im_metrics := m |>) in *.
  assert (Inv s0) as HI0 by (by rewrite <- (logged_quiet _ _ Hlog)).
  assert (affordable s0 (ar_pool r) e (ar_units r) (ar_borrow_units r) (ar_lender r)) as Haf0 by (by destruct Haf; split).
  unfold wp, sm_bind at 1. rewrite (apply_commit_ok s0 _ e) by done.
  unfold update_pool, modify, sm_modify, sm_bind. eexists s0, _. split; [done|]. split; [reflexivity|].
  destruct Haf as [Hb Hmax Hmaxb Hl]. intros q. rewrite negb_involutive.
  assert (effective_borrow r = ar_borrow_units r) as Heff by (rewrite effective_borrow_min; lia).
  assert (forall e0, Some (adjust_queue (ar_queue r) (to_i64 (ar_units r)) (is_reserved r)
      (add_grant_units (negb (is_reserved r)) (ar_reclaim_class r) (ar_units r)
        (commit_entry (ar_units r) (ar_borrow_units r) e0)) <| en_members ::= fun m => {[ar_id r]} ∪ m |>)
    = Some (add_to_holder r e0)) as Hh.
  { intros e0. f_equal. apply holder_entry; [|lia]. pose proof (counter_bound (inv_books s HI) FOwn _ e He) as Hown.
    pose proof (counter_bound (inv_books s HI) FBorrowed _ e He) as Hbw. simpl in Hown, Hbw.
    unfold kMaxOwnUsage in *. u64_lia. }
  unfold add_at. rewrite Heff. simpl. rewrite !lookup_alter.
  assert (forall o : option PoolEntry, o = (fun e0 => e0) <$> o) as Hid by (by intros []).
  destruct (Z.eqb_spec (ar_borrow_units r) 0) as [Hz|Hz]; simpl.
  - destruct (Z.eqb_spec (ar_pool r) q); repeat case_decide; try done; subst;
      rewrite ?lookup_alter_eq, ?lookup_alter_ne by done; try apply Hid.
    destruct (im_pools s !! ar_pool r); [exact (Hh _)|done].
  - destruct (Hl Hz) as (l & _ & -> & Hne & _). simpl.
    destruct (Z.eqb_spec (ar_pool r) q), (Z.eqb_spec (ar_lender r) q); repeat case_decide; try congruence; subst;
      rewrite ?lookup_alter_eq, ?lookup_alter_ne, ?lookup_alter_eq by done; try apply Hid.
    + destruct (im_pools s !! ar_pool r); [exact (Hh _)|done].
    + by destruct (im_pools s !! ar_lender r).
Qed.

(** The grant keeps the books and the rest of the invariant. *)
Lemma granted_inv s r next s' e :
  Inv s -> granted s r next s' -> ar_id r = im_next_allocation_id s -> next = ar_id r + 1 -> next <= u64_max ->
  im_pools s !! ar_pool r = Some e -> allocation_holds_units (ar_state r) = true ->
  affordable s (ar_pool r) e (ar_units r) (ar_borrow_units r) (ar_lender r) -> 0 < ar_units r ->
  Inv s'.
Proof.
  intros HI (s0 & pools & (d & m & ->) & -> & Hpools) Hid -> Hnext He Hh [Hb Ho Hbb Hl] Hpos.
  pose proof HI as [HB Hids Hn Hpol Hly Hlive].
  assert (effective_borrow r = ar_borrow_units r) as Heff by (rewrite effective_borrow_min; lia).
  assert (im_allocations s !! ar_id r = None) as Hnew.
  { destruct (im_allocations s !! ar_id r) as [r0|] eqn:Hr0; [|done]. apply Hids in Hr0. lia. }
  split; simpl.
  - eapply add_record_books; [done|exact Hpools|done| |done|].
    + split; [lia|lia|by exists e|]. intros _. rewrite Heff. intros Hz.
      destruct (Hl Hz) as (l & Hlk & Hv & Hne & _). split_and!; [done|by exists l|done].
    + intros p e0 Hp. shares. unfold here, lends. rewrite Hh, Heff. simpl.
      pose proof (bk_entry _ _ HB p e0 Hp) as [_ _ Ho0 Hb0 _].
      destruct (Z.eqb_spec (ar_pool r) p) as [<-|Hne].
      * rewrite He in Hp. injection Hp as <-. destruct (decide (ar_borrow_units r = 0)) as [Hz|Hz].
        -- rewrite Hz in *. destruct (valid _ && _); lia.
        -- destruct (Hl Hz) as (l & _ & _ & Hne & _). rewrite (proj2 (Z.eqb_neq _ _) Hne), andb_false_r. lia.
      * destruct (decide (ar_borrow_units r = 0)) as [Hz|Hz]; [rewrite Hz; destruct (valid _ && _); lia|].
        destruct (Hl Hz) as (l & Hlk & Hv & _ & Hle). rewrite Hv. simpl.
        destruct (Z.eqb_spec (ar_lender r) p) as [<-|]; [|lia].
        rewrite Hlk in Hp. injection Hp as <-. pose proof (usable_range HB _ _ Hlk). unfold kMaxOwnUsage. u64_lia.
  - intros k r0 Hk. apply lookup_insert_Some in Hk as [[<- _]|[_ Hk]]; [lia|]. apply Hids in Hk. lia.
  - lia.
  - done.
  - change (arranged (layout (s <| im_pools := pools |>))). rewrite layout_pools; [done|].
    apply (descriptors_pointwise (add_at r)); [done|]. intros p e0. apply add_at_frame.
  - intros k r0 Hk. apply lookup_insert_Some in Hk as [[<- <-]|[_ Hk]]; eauto.
Qed.

(** ** Gates, caps and the limit *)

Section Limit.
Context (cx : AllocContext) (Hcx : policy_ok (cx_policy cx)).

Lemma apply_cap_le cap c l : fst (apply_cap cap c l) = Z.min cap (fst l).
Proof. unfold apply_cap. destruct (Z.ltb_spec cap (fst l)); simpl; lia. Qed.

Lemma room_below_range cap held : 0 <= room_below cap held.
Proof. unfold room_below. case_match; [|lia]. pose proof (sub64_range cap held). u64_lia. Qed.

Lemma queue_cap_range e q l : 0 <= fst l -> 0 <= fst (queue_cap e q l) <= fst l.
Proof.
  intros H. unfold queue_cap. repeat case_match; rewrite ?apply_cap_le; try lia;
    match goal with |- context [room_below ?a ?b] => pose proof (room_below_range a b) end; lia.
Qed.

Lemma soft_cap_range e state l : 0 <= fst l -> 0 <= fst (soft_cap e (cx_policy cx) state l) <= fst l.
Proof.
  intros H. unfold soft_cap. repeat case_match; rewrite ?apply_cap_le; try lia;
    match goal with |- context [room_below ?a ?b] => pose proof (room_below_range a b) end; lia.
Qed.

(** The limit lies below the capacity arithmetic and below the policy's two bounds. *)
Lemma grant_limit_range e g :
  0 <= gc_max_grant g ->
  0 <= fst (grant_limit cx e g) <= gc_max_grant g /\
  (pol_max_single_request_units (cx_policy cx) <> 0 ->
     fst (grant_limit cx e g) <= pol_max_single_request_units (cx_policy cx)) /\
  (pol_max_single_allocation_units (cx_policy cx) <> 0 ->
     fst (grant_limit cx e g) <= pol_max_single_allocation_units (cx_policy cx)).
Proof.
  intros Hg. destruct Hcx as [_ _ Hr Ha]. unfold grant_limit.
  set (l1 := if negb (pol_max_single_request_units _ =? 0) then _ else _).
  assert (0 <= fst l1 <= gc_max_grant g /\ (pol_max_single_request_units (cx_policy cx) <> 0 ->
     fst l1 <= pol_max_single_request_units (cx_policy cx))) as [H1 H1'].
  { subst l1. destruct (Z.eqb_spec (pol_max_single_request_units (cx_policy cx)) 0); simpl;
      rewrite ?apply_cap_le; simpl; lia. }
  set (l2 := if negb (pol_max_single_allocation_units _ =? 0) then _ else _).
  assert (0 <= fst l2 <= fst l1 /\ (pol_max_single_allocation_units (cx_policy cx) <> 0 ->
     fst l2 <= pol_max_single_allocation_units (cx_policy cx))) as [H2 H2'].
  { subst l2. destruct (Z.eqb_spec (pol_max_single_allocation_units (cx_policy cx)) 0); simpl;
      rewrite ?apply_cap_le; simpl; lia. }
  pose proof (queue_cap_range e (cx_queue cx) l2) as H3.
  pose proof (soft_cap_range e (pe_state (cx_evidence cx)) (queue_cap e (cx_queue cx) l2)) as H4.
  lia.
Qed.

Lemma grant_units_range l :
  0 <= fst l -> 0 <= aq_requested_units (cx_request cx) ->
  0 <= fst (grant_units cx l) <= Z.min (aq_requested_units (cx_request cx)) (fst l).
Proof. intros. unfold grant_units. destruct l. simpl in *. case_match; simpl; lia. Qed.
End Limit.

(** ** The record of a grant *)

Lemma wp_checked_any a b message (s : Impl) (Q : Z -> Impl -> Prop) (E : Status -> Impl -> Prop) :
  (forall e, st_code e = ErrorCode.Overflow -> E e s) -> (forall out, Q out s) -> wp (checked_add a b message) s Q E.
Proof. intros H1 H2. unfold wp, checked_add. destruct (add_overflow a b) as [[] out]; [by apply H1|apply H2]. Qed.

Lemma build_lineage_ro cx id grant pool queue s :
  wp (build_lineage cx id grant pool queue) s (fun _ s' => s' = s) (fun _ s' => s' = s).
Proof.
  unfold build_lineage. case_match; [|by wp_step]. repeat wp_step; try done.
  cbv zeta. by case_match; wp_step.
Qed.

Record record_for (s : Impl) (cx : AllocContext) (g : GrantComputation) (grant : Z) (r : AllocationRecord) (next : Z) : Prop := {
  rf_id : ar_id r = im_next_allocation_id s;
  rf_next : next = ar_id r + 1;
  rf_bound : next <= u64_max;
  rf_pool : ar_pool r = aq_pool (cx_request cx);
  rf_queue : ar_queue r = qd_id (cx_queue cx);
  rf_units : ar_units r = grant;
  rf_state : ar_state r = if aq_commit_immediately (cx_request cx) then AllocationState.Committed else AllocationState.Reserved;
  rf_borrow : ar_borrow_units r = borrow_of g grant;
  rf_lender : ar_lender r = if ar_borrow_units r =? 0 then 0 else gc_lender g;
  rf_class : ar_reclaim_class r = aq_reclaim_class (cx_request cx);
  rf_attempt : ar_attempt r = aq_attempt (cx_request cx);
  rf_stamp : ar_created_at r = cx_stamp cx
}.

Lemma build_record_spec cx g grant s :
  Inv s ->
  wp (build_record cx g grant) s
    (fun rn s' => s' = s /\ record_for s cx g grant (fst rn) (snd rn)) (fun _ s' => s' = s).
Proof.
  intros HI. pose proof (inv_next s HI) as Hn. unfold build_record. repeat wp_step; try done.
  eapply wp_checked_add; [u64_lia|u64_lia|done|]. intros Hnext. wp_step.
  apply wp_mono with (Q := fun _ s' => s' = s) (E := fun _ s' => s' = s); [|intros expiry s' ->|done].
  - case_match; [by wp_step|by apply wp_checked_any].
  - wp_step. eapply wp_mono; [apply build_lineage_ro| |done]. intros lineage s' ->. wp_step.
    split; [done|]. split; simpl; try done.
    + match goal with H : im_pools s !! _ = Some _ |- _ =>
        exact (do_id _ _ (eo_descriptor _ _ _ (bk_entry _ _ (inv_books s HI) _ _ H))) end.
    + by destruct (borrow_of g grant =? 0).
Qed.

(** ** The closure check after a grant *)

Lemma accounting_quiet s s' e e' : quiet s s' -> strip e = strip e' -> accounting_of s e = accounting_of s' e'.
Proof.
  intros Hq He. transitivity (accounting_of s (strip e)); [done|].
  rewrite He. unfold accounting_of. by rewrite (quiet_policies _ _ Hq).
Qed.

(** What the plan checked is what the applied grant closes to. *)
Lemma plan_is_applied s cx e r :
  Inv s -> ar_borrow_units r <= ar_units r -> aq_commit_immediately (cx_request cx) = negb (is_reserved r) ->
  (ar_borrow_units r <> 0 -> ar_lender r <> ar_pool r) ->
  im_policies s !! pd_policy (en_descriptor e) = Some (cx_policy cx) ->
  plan_closes s cx e r = true -> check_closure s (add_at r (ar_pool r) e) = Good tt.
Proof.
  intros HI Hb Himm Hne Hpol Hplan. unfold plan_closes in Hplan.
  assert (effective_borrow r = ar_borrow_units r) as Heff by (rewrite effective_borrow_min; lia).
  assert (add_at r (ar_pool r) e = add_to_holder r e) as ->.
  { unfold add_at. rewrite Z.eqb_refl, Heff. destruct (Z.eqb_spec (ar_borrow_units r) 0) as [|Hz]; simpl; [done|].
    by rewrite (proj2 (Z.eqb_neq _ _) (Hne Hz)), andb_false_r. }
  unfold check_closure. destruct (add_to_holder_frame r e) as [Hd _]. rewrite Hd, Hpol. unfold report_status.
  match type of Hplan with rep_closed (check_pool_accounting ?a _ _) = _ =>
    assert (accounting_of s (add_to_holder r e) = a) as ->; [|by rewrite Hplan] end.
  unfold accounting_of, add_to_holder, add_grant_units, is_reserved in *. rewrite Himm, Heff.
  by destruct (bool_decide _), (ar_reclaim_class r).
Qed.

(** ** Outcomes *)

(** What every operation on allocations guarantees. *)
Definition sound (s s' : Impl) : Prop := Inv s' /\ im_shutting_down s' = im_shutting_down s.

Lemma sound_quiet s0 s s' : sound s0 s -> quiet s s' -> sound s0 s'.
Proof. intros [HI Hs] Hq. split; by rewrite <- ?Hq, <- ?(quiet_shutdown _ _ Hq). Qed.

Lemma hushed_sound {A} (m : M A) s0 s :
  Hushed m -> sound s0 s -> wp m s (fun _ => sound s0) (fun _ => sound s0).
Proof.
  intros Hm Hs. eapply wp_mono; [apply Hm| |]; intros ? s' Hq; by eapply sound_quiet.
Qed.

#[export] Instance hushed_finish cx kind code reason granted allocation binding intent lender :
  Hushed (finish_decision cx kind code reason granted allocation binding intent lender).
Proof. unfold finish_decision, remember. apply _. Qed.

#[export] Instance hushed_refuse cx e binding : Hushed (refuse_capacity cx e binding).
Proof. unfold refuse_capacity. apply _. Qed.

#[export] Instance hushed_complete cx r binding : Hushed (complete_grant cx r binding).
Proof. unfold complete_grant. apply _. Qed.

#[export] Instance hushed_count cx grant : Hushed (count_grant cx grant).
Proof.
  unfold count_grant. apply within_bind; [apply _|intros s; by hnf|]. intros [].
  apply hushed_entry. by intros [].
Qed.

(** ** A request *)

(** What [allocate_locked] has looked up when it decides. *)
Record context_ok (s : Impl) (cx : AllocContext) (e : PoolEntry) : Prop := {
  xo_pool : im_pools s !! aq_pool (cx_request cx) = Some e;
  xo_policy : im_policies s !! pd_policy (en_descriptor e) = Some (cx_policy cx);
  xo_units : 0 <= aq_requested_units (cx_request cx) <= kMaxUnitsPerPool
}.

Lemma granted_lookup s r next s' p e :
  granted s r next s' -> im_pools s !! p = Some e -> im_pools s' !! p = Some (add_at r p e).
Proof. intros (s0 & pools & _ & -> & Hpools) He. simpl. by rewrite Hpools, He. Qed.

Lemma granted_frame s r next s' :
  granted s r next s' -> im_policies s' = im_policies s /\ im_shutting_down s' = im_shutting_down s.
Proof. by intros (s0 & pools & (d & m & ->) & -> & _). Qed.

Lemma granted_closure s cx e r next s1 s2 :
  Inv s -> context_ok s cx e -> ar_pool r = aq_pool (cx_request cx) -> ar_borrow_units r <= ar_units r ->
  aq_commit_immediately (cx_request cx) = negb (is_reserved r) ->
  (ar_borrow_units r <> 0 -> ar_lender r <> ar_pool r) -> plan_closes s cx e r = true ->
  granted s r next s1 -> quiet s1 s2 ->
  exists e2, im_pools s2 !! aq_pool (cx_request cx) = Some e2 /\ check_closure s2 e2 = Good tt.
Proof.
  intros HI [He Hpol _] Hpool Hb Himm Hne Hplan HG HQ.
  pose proof (granted_lookup _ _ _ _ _ _ HG He) as He1. destruct (granted_frame _ _ _ _ HG) as [HP1 _].
  destruct (strip_lookup _ _ _ _ (quiet_pools _ _ HQ) He1) as (e2 & He2 & Hs). exists e2. split; [done|].
  pose proof (plan_is_applied s cx e r HI Hb Himm Hne Hpol Hplan) as HC. rewrite Hpool in HC.
  unfold check_closure in *. rewrite <- (accounting_quiet s1 s2 _ e2 HQ Hs), <- (quiet_policies _ _ HQ), HP1.
  pose proof (f_equal en_descriptor Hs) as Hd. simpl in Hd. rewrite <- Hd.
  replace (accounting_of s1 (add_at r (aq_pool (cx_request cx)) e))
    with (accounting_of s (add_at r (aq_pool (cx_request cx)) e)); [done|].
  unfold accounting_of. by rewrite HP1.
Qed.

Lemma count_grant_runs cx grant s : wp (count_grant cx grant) s (fun _ => quiet s) (fun _ _ => False).
Proof. exact (hushed_count cx grant s). Qed.

(** ** What a decision reports *)

Definition reports (d : Decision) (kind : DecisionKind) (code : ErrorCode) (granted allocation : Z) : Prop :=
  dc_kind d = kind /\ dc_status d = code /\ dc_granted_units d = granted /\ dc_allocation d = allocation.

Lemma finish_decision_reports cx kind code reason granted allocation binding intent lender s :
  is_Some (im_pools s !! aq_pool (cx_request cx)) ->
  wp (finish_decision cx kind code reason granted allocation binding intent lender) s
    (fun d s' => reports d kind code granted allocation /\ quiet s s') (fun _ _ => False).
Proof.
  intros [e He]. pose proof (hushed_finish cx kind code reason granted allocation binding intent lender s) as Hq.
  unfold wp in *. destruct (finish_decision _ _ _ _ _ _ _ _ _ s) as [r s'] eqn:H. revert Hq H.
  unfold finish_decision, pool_ref, sm_bind, sm_get. rewrite He.
  unfold record_decision, next_sequence, remember, record_attempt, metric, update_runtime, update_pool, push_event,
    modify, sm_modify, ret, sm_ret.
  repeat case_match; intros Hq [= <- <-]; done.
Qed.

(** A grant: the record [r] and what it is bounded by. *)
Record grants (s : Impl) (cx : AllocContext) (e : PoolEntry) (d : Decision) (r : AllocationRecord) (next : Z) : Prop := {
  gr_reports : reports d
    (if ar_units r =? aq_requested_units (cx_request cx) then DecisionKind.Grant else DecisionKind.GrantPartial)
    ErrorCode.Ok (ar_units r) (ar_id r);
  gr_units : 0 < ar_units r <= aq_requested_units (cx_request cx);
  gr_partial : pol_allow_partial_grant (cx_policy cx) = false -> ar_units r = aq_requested_units (cx_request cx);
  gr_limit : ar_units r <= fst (grant_limit cx e (compute_grant s e (cx_policy cx)));
  gr_record : record_for s cx (compute_grant s e (cx_policy cx)) (ar_units r) r next;
  gr_affordable : affordable s (ar_pool r) e (ar_units r) (ar_borrow_units r) (ar_lender r);
  gr_closes : plan_closes s cx e r = true;
  gr_admitted : refusal_gate cx e = None
}.

(** A refusal leaves the tables alone; a grant records [r]. *)
Definition decided (s : Impl) (cx : AllocContext) (e : PoolEntry) (d : Decision) (s' : Impl) : Prop :=
  (dc_status d <> ErrorCode.Ok /\ dc_granted_units d = 0 /\ quiet s s') \/
  (exists r next s1, grants s cx e d r next /\ granted s r next s1 /\ quiet s1 s').

Lemma decided_refusal s cx e kind code reason binding intent lender :
  code <> ErrorCode.Ok -> is_Some (im_pools s !! aq_pool (cx_request cx)) ->
  wp (finish_decision cx kind code reason 0 0 binding intent lender) s (decided s cx e) (fun _ => quiet s).
Proof.
  intros Hc He. eapply wp_mono; [by apply finish_decision_reports| |done].
  intros d s' [(_ & Hs & Hg & _) Hq]. left. by rewrite Hs.
Qed.

Lemma complete_grant_reports cx r binding s :
  is_Some (im_pools s !! aq_pool (cx_request cx)) ->
  wp (complete_grant cx r binding) s (fun d s' => reports d
      (if ar_units r =? aq_requested_units (cx_request cx) then DecisionKind.Grant else DecisionKind.GrantPartial)
      ErrorCode.Ok (ar_units r) (ar_id r) /\ quiet s s') (fun _ _ => False).
Proof.
  intros He. unfold complete_grant. cbv zeta. apply wp_bind. eapply wp_mono; [by apply finish_decision_reports| |done].
  intros d s1 [Hr Hq]. assert (is_Some (im_pools s1 !! aq_pool (cx_request cx))) as [e1 He1].
  { destruct He as [e He]. destruct (strip_lookup _ _ _ _ (quiet_pools _ _ Hq) He) as (e1 & He1 & _). by exists e1. }
  unfold wp, metric, modify, sm_bind, sm_modify, pool_ref, ret, sm_ret. simpl. rewrite He1.
  split; [destruct (rp_enabled _ && _); exact Hr|]. rewrite Hq. by hnf.
Qed.

Lemma affordable_grant s cx e r next :
  Inv s -> context_ok s cx e -> 0 <= ar_units r <= gc_max_grant (compute_grant s e (cx_policy cx)) ->
  record_for s cx (compute_grant s e (cx_policy cx)) (ar_units r) r next ->
  affordable s (ar_pool r) e (ar_units r) (ar_borrow_units r) (ar_lender r).
Proof.
  intros HI [He Hpol _] Hu Hr. pose proof (inv_policies s HI _ _ Hpol) as Hpok.
  pose proof (compute_grant_affordable s HI _ e He (cx_policy cx) Hpok (ar_units r) Hu) as [H1 H2 H3 H4].
  rewrite (rf_lender _ _ _ _ _ _ Hr), (rf_pool _ _ _ _ _ _ Hr), (rf_borrow _ _ _ _ _ _ Hr).
  split; [done..|]. intros Hz. rewrite (proj2 (Z.eqb_neq _ _) Hz). auto.
Qed.

(** Applying, counting and verifying a planned grant. *)
Lemma apply_and_verify s cx e r next binding :
  Inv s -> context_ok s cx e -> plan_closes s cx e r = true -> ar_units r <= u64_max ->
  record_for s cx (compute_grant s e (cx_policy cx)) (ar_units r) r next ->
  affordable s (ar_pool r) e (ar_units r) (ar_borrow_units r) (ar_lender r) ->
  wp (apply_grant cx r next ;;; count_grant cx (ar_units r) ;;;
      verify_closure (aq_pool (cx_request cx)) (fun status =>
        push_event EventKind.AccountingViolation (st_code status) (st_message status)
          (pd_id (en_descriptor e)) 0 0 0 0) ;;;
      complete_grant cx r binding) s
    (fun d s' => reports d
      (if ar_units r =? aq_requested_units (cx_request cx) then DecisionKind.Grant else DecisionKind.GrantPartial)
      ErrorCode.Ok (ar_units r) (ar_id r) /\ exists s1, granted s r next s1 /\ quiet s1 s')
    (fun _ => quiet s).
Proof.
  intros HI Hcx Hplan Hu [Hid Hnext Hbound Hpool Hqueue _ Hstate Hborrow Hlender _ _ _] Haf.
  pose proof Hcx as [He _ _].
  assert (aq_commit_immediately (cx_request cx) = negb (is_reserved r)) as Himm.
  { unfold is_reserved. rewrite Hstate. by destruct (aq_commit_immediately _). }
  wp_step. eapply wp_mono; [eapply apply_grant_ok; try done| |by intros ? s' ?%logged_quiet].
  { intros Hz. by rewrite Hlender, Hz. }
  intros [] s1 HG. wp_step. eapply wp_mono; [apply count_grant_runs| |done]. intros [] s2 HQ.
  destruct (granted_closure s cx e r next s1 s2) as (e2 & He2 & Hclosed); try done.
  { pose proof (af_borrow _ _ _ _ _ _ Haf). lia. }
  { intros Hz. by destruct (af_lender _ _ _ _ _ _ Haf Hz) as (l & _ & _ & Hne & _). }
  wp_step. unfold verify_closure. wp_step. apply wp_pool_ref; [congruence|]. intros e3 He3. simplify_eq.
  do 2 wp_step. rewrite Hclosed. wp_step. eapply wp_mono; [apply complete_grant_reports; by eexists| |done].
  intros d s' [Hr Hq]. split; [done|]. exists s1. split; [done|]. by rewrite HQ.
Qed.

Lemma grant_or_refuse_decides s cx e :
  Inv s -> context_ok s cx e -> refusal_gate cx e = None ->
  wp (grant_or_refuse cx) s (decided s cx e) (fun _ => quiet s).
Proof.
  intros HI Hcx Hgate. pose proof Hcx as [He Hpol Hu]. pose proof (inv_policies s HI _ _ Hpol) as Hpok.
  unfold grant_or_refuse. apply wp_bind, wp_pool_ref; [done|]. intros e0 He0. simplify_eq. do 2 wp_step.
  set (g := compute_grant s e (cx_policy cx)). pose proof (max_grant_range s e (cx_policy cx)) as Hg. fold g in Hg.
  destruct (grant_units cx (grant_limit cx e g)) as [grant binding] eqn:Hgu.
  destruct (grant_limit_range cx Hpok e g) as (Hlim & _ & _); [u64_lia|].
  destruct (grant_units_range cx (grant_limit cx e g)) as [Hgr1 Hgr2]; [lia|lia|].
  rewrite Hgu in Hgr1, Hgr2. simpl in Hgr1, Hgr2.
  destruct (Z.eqb_spec grant 0) as [|Hnz].
  { unfold refuse_capacity. case_match; by apply decided_refusal. }
  wp_step. eapply wp_mono; [by apply build_record_spec| |by intros ? s' ->].
  intros [r next] s' [-> Hr]. simpl in Hr |- *. pose proof (rf_units _ _ _ _ _ _ Hr) as Hunits.
  destruct (plan_closes s cx e r) eqn:Hplan; simpl; [|by wp_step].
  subst grant. pose proof (affordable_grant s cx e r next HI Hcx ltac:(fold g; lia) Hr) as Haf.
  eapply wp_mono; [eapply apply_and_verify; try done; u64_lia| |done].
  intros d s' (Hrep & s1 & HG & HQ). right. exists r, next, s1. split; [|done]. split; try done; [lia| |fold g; lia].
  intros Hpart. revert Hgu. unfold grant_units. rewrite Hpart. destruct (grant_limit cx e g). simpl.
  destruct (Z.ltb_spec (Z.min (aq_requested_units (cx_request cx)) z) (aq_requested_units (cx_request cx)));
    intros Heq; apply (f_equal fst) in Heq; simpl in Heq; lia.
Qed.

(** The refusal gate never reports success. *)
Lemma classify_known t used usable over : pressure_is_known (po_state (classify_pressure t used usable over)) = true.
Proof. unfold classify_pressure. by repeat case_match. Qed.

Lemma resolve_evidence_reason s e :
  evidence_usable (resolve_evidence s e) = false -> pe_reason (resolve_evidence s e) <> ErrorCode.Ok.
Proof.
  unfold resolve_evidence, observed_evidence, evidence_usable.
  repeat (case_match; simpl; try done); by rewrite ?classify_known.
Qed.

Lemma decide_allocation_decides s cx e :
  Inv s -> context_ok s cx e -> cx_evidence cx = resolve_evidence s e ->
  wp (decide_allocation cx) s (decided s cx e) (fun _ => quiet s).
Proof.
  intros HI Hcx Hev. pose proof Hcx as [He _ _]. unfold decide_allocation. apply wp_bind, wp_pool_ref; [congruence|].
  intros e0 He0. simplify_eq.
  destruct (refusal_gate cx e) as [[[[[kind code] reason] binding] intent]|] eqn:Hgate.
  - apply decided_refusal; [|done]. revert Hgate. unfold refusal_gate. rewrite Hev.
    pose proof (resolve_evidence_reason s e). repeat case_match; intros [= <- <- <- <- <-]; try done;
    match goal with H : _ && _ = true |- _ => apply andb_true_iff in H as [Hu%negb_true_iff _] end; auto.
  - by apply grant_or_refuse_decides.
Qed.

(** The checks on a request change nothing, and bound the units it asks for. *)
Lemma check_request_ok rq s :
  wp (check_request rq) s
    (fun _ s' => s' = s /\ aq_requested_units rq <= kMaxUnitsPerPool) (fun _ s' => s' = s).
Proof.
  unfold check_request, ensure_alloc_capacity. repeat (wp_step; try done).
  split; [done|]. by apply Z.ltb_ge.
Qed.

Lemma check_expectations_ro rq e q p s :
  wp (check_expectations rq e q p) s
    (fun _ s' => s' = s /\ qd_pool q = pd_id (en_descriptor e)) (fun _ s' => s' = s).
Proof.
  unfold check_expectations. wp_step. unfold wp at 1, gets. repeat (wp_step; try done).
  split; [done|]. apply Z.eqb_eq. by destruct (_ =? _).
Qed.

(** What a request resolved before it was decided. *)
Record resolved (rq : AllocateRequest) (s : Impl) (e : PoolEntry) (cx : AllocContext) : Prop := {
  rs_context : context_ok s cx e;
  rs_request : cx_request cx = rq;
  rs_queue : im_queues s !! aq_queue rq = Some (cx_queue cx);
  rs_bound : qd_pool (cx_queue cx) = pd_id (en_descriptor e);
  rs_evidence : cx_evidence cx = resolve_evidence s e;
  rs_stamp : cx_stamp cx = im_tick s
}.

(** Every way an allocation request can end. *)
Definition outcome (rq : AllocateRequest) (s : Impl) (d : Decision) (s' : Impl) : Prop :=
  (exists a, im_attempts s !! aq_attempt rq = Some a /\ at_request_digest a = allocate_digest rq /\
     reports d DecisionKind.IdempotentReplay (at_outcome a) (at_granted_units a) (at_allocation a) /\
     s' = s <| im_metrics ::= fun m => m <| mt_idempotent_replays ::= plus 1 |> |>) \/
  (im_attempts s !! aq_attempt rq = None /\ exists e cx, resolved rq s e cx /\ decided s cx e d s').

Lemma allocate_locked_outcome rq s :
  Inv s -> 0 <= aq_requested_units rq -> wp (allocate_locked rq) s (outcome rq s) (fun _ => quiet s).
Proof.
  intros HI Hu. unfold allocate_locked. wp_step. eapply wp_mono; [apply check_request_ok| |by intros ? ? ->].
  intros [] s1 [-> Hmax]. cbv zeta. wp_step. apply wp_lookup_attempt; [done|intros Hnew|intros a Ha Hd].
  - apply wp_bind, wp_require_pool; [done|]. intros e He. apply wp_bind, wp_require_queue; [done|].
    intros q Hq. do 2 wp_step. wp_step; apply wp_require; [done|]. intros policy Hpol.
    wp_step. eapply wp_mono; [apply check_expectations_ro| |by intros ? ? ->].
    intros [] s1 [-> Hbound].
    set (cx := mkAllocContext rq q policy (resolve_evidence s e) (allocate_digest rq) (im_tick s)).
    eapply wp_mono; [eapply (decide_allocation_decides s cx e HI)| |done]; try done.
    intros d s' Hd. right. split; [done|]. by exists e, cx.
  - apply wp_bind, wp_require_pool; [done|]. intros e He. apply wp_bind, wp_require_queue; [done|].
    intros q Hq. do 2 wp_step. wp_step; apply wp_require; [done|]. intros policy Hpol.
    left. by exists a.
Qed.

Lemma decided_sound s cx e d s' : Inv s -> context_ok s cx e -> decided s cx e d s' -> sound s s'.
Proof.
  intros HI [He Hpol _] [(_ & _ & Hq)|(r & next & s1 & Hgr & HG & Hq)].
  - split; by rewrite <- ?Hq, <- ?(quiet_shutdown _ _ Hq).
  - destruct Hgr as [_ Hgu _ _ [Hid Hnext Hb Hpool _ _ Hstate _ _ _ _ _] Haf _ _].
    assert (Inv s1) as HI1.
    { eapply granted_inv; try done; [by rewrite Hpool|rewrite Hstate; by case_match|lia]. }
    destruct (granted_frame _ _ _ _ HG) as [_ Hsd].
    split; [by rewrite <- Hq|by rewrite <- (quiet_shutdown _ _ Hq)].
Qed.

(** ** The contract of a grant *)

(** What a request was promised when it is answered with a new allocation [r]: [e], [q] and
    [p] are the pool, queue and policy it resolved to in [s]. *)
Record grant_contract (rq : AllocateRequest) (s : Impl) (e : PoolEntry) (q : QueueDescriptor) (p : PoolPolicy)
    (r : AllocationRecord) (d : Decision) (s' : Impl) : Prop := {
  ct_resolved : im_pools s !! aq_pool rq = Some e /\ im_queues s !! aq_queue rq = Some q /\
    im_policies s !! pd_policy (en_descriptor e) = Some p /\ qd_pool q = aq_pool rq;
  ct_live : pd_retired (en_descriptor e) = false /\ qd_retired q = false;
  ct_evidence : pp_refuse_increase_on_unknown (pol_pressure p) = true -> evidence_usable (resolve_evidence s e) = true;
  ct_decision : dc_granted_units d = ar_units r /\ dc_allocation d = ar_id r;
  ct_units : 0 < ar_units r <= aq_requested_units rq;
  ct_whole : pol_allow_partial_grant p = false -> ar_units r = aq_requested_units rq;
  ct_single_request : pol_max_single_request_units p <> 0 -> ar_units r <= pol_max_single_request_units p;
  ct_single_allocation : pol_max_single_allocation_units p <> 0 -> ar_units r <= pol_max_single_allocation_units p;
  ct_queue : qd_max_committed_units q <> 0 -> queue_held e (qd_id q) + ar_units r <= qd_max_committed_units q;
  ct_fresh : im_allocations s !! ar_id r = None;
  ct_recorded : im_allocations s' = <[ar_id r := r]> (im_allocations s);
  ct_counters : forall x e', im_pools s' !! x = Some e' ->
    exists e0, im_pools s !! x = Some e0 /\ forall f, counter f e' = counter f e0 + share f x r
}.

Lemma wrap64_le x : 0 <= x -> wrap64 x <= x.
Proof. intros. unfold wrap64. by apply Z.mod_le. Qed.

Lemma room_below_le cap held : 0 < room_below cap held -> held + room_below cap held <= cap.
Proof.
  unfold room_below. destruct (Z.ltb_spec held cap); [|lia]. intros _.
  pose proof (wrap64_le (cap - held)). unfold sub64. lia.
Qed.

Lemma queue_cap_held e q l units :
  qd_max_committed_units q <> 0 -> 0 < units <= fst (queue_cap e q l) ->
  queue_held e (qd_id q) + units <= qd_max_committed_units q.
Proof.
  intros Hm. unfold queue_cap. rewrite (proj2 (Z.eqb_neq _ _) Hm). simpl. rewrite apply_cap_le. intros Hu.
  pose proof (room_below_le (qd_max_committed_units q) (queue_held e (qd_id q))). lia.
Qed.

Lemma grant_limit_queue cx e g units :
  policy_ok (cx_policy cx) -> 0 <= gc_max_grant g -> qd_max_committed_units (cx_queue cx) <> 0 ->
  0 < units <= fst (grant_limit cx e g) ->
  queue_held e (qd_id (cx_queue cx)) + units <= qd_max_committed_units (cx_queue cx).
Proof.
  intros Hcx Hg Hm. unfold grant_limit. set (l := if negb (pol_max_single_allocation_units _ =? 0) then _ else _).
  intros Hu. apply (queue_cap_held e _ l); [done|].
  assert (0 <= fst l) as Hl.
  { subst l. destruct Hcx as [_ _ Hr Ha]. repeat case_match; rewrite ?apply_cap_le; simpl; rewrite ?apply_cap_le; simpl; lia. }
  pose proof (queue_cap_range e (cx_queue cx) l Hl) as [H0 _].
  pose proof (soft_cap_range cx e (pe_state (cx_evidence cx)) _ H0). lia.
Qed.

Lemma refusal_gate_none cx e :
  refusal_gate cx e = None ->
  pd_retired (en_descriptor e) = false /\ qd_retired (cx_queue cx) = false /\
  (pp_refuse_increase_on_unknown (pol_pressure (cx_policy cx)) = true -> evidence_usable (cx_evidence cx) = true).
Proof.
  unfold refusal_gate. destruct (pd_retired _); [done|]. destruct (qd_retired _); [done|].
  destruct (evidence_usable _), (pp_refuse_increase_on_unknown _); done.
Qed.

Lemma decided_grant rq s e cx d s' :
  Inv s -> Inv s' -> resolved rq s e cx -> decided s cx e d s' -> dc_status d = ErrorCode.Ok ->
  exists r, grant_contract rq s e (cx_queue cx) (cx_policy cx) r d s'.
Proof.
  intros HI HI' [[He Hpol Hu] <- Hq Hb Hev _] Hd Hok.
  destruct Hd as [(Hn & _)|(r & next & s1 & [Hrep Hun Hpart Hlim Hrec Haf _ Hgate] & HG & Hquiet)]; [done|].
  pose proof (inv_policies s HI _ _ Hpol) as Hpok. pose proof (max_grant_range s e (cx_policy cx)) as [Hmg _].
  destruct (grant_limit_range cx Hpok e _ Hmg) as (_ & H1 & H2).
  destruct (refusal_gate_none _ _ Hgate) as (G1 & G2 & G3). destruct Hrep as (_ & _ & R3 & R4).
  assert (im_allocations s' = <[ar_id r := r]> (im_allocations s)) as Hrecd.
  { rewrite <- (quiet_allocations _ _ Hquiet). by destruct HG as (s0 & pools & (dd & mm & ->) & -> & _). }
  assert (im_allocations s !! ar_id r = None) as Hfresh.
  { destruct (im_allocations s !! ar_id r) as [r0|] eqn:Hr0; [|done]. apply (inv_ids s HI) in Hr0.
    pose proof (rf_id _ _ _ _ _ _ Hrec). lia. }
  exists r. split; try done; try (intros; lia).
  - split_and!; try done. rewrite Hb. exact (do_id _ _ (eo_descriptor _ _ _ (bk_entry _ _ (inv_books s HI) _ _ He))).
  - by rewrite <- Hev.
  - intros Hm. eapply grant_limit_queue; try done. lia.
  - intros x e' He'. destruct (strip_lookup _ _ _ _ (eq_sym (quiet_pools _ _ Hquiet)) He') as (e1 & He1 & _).
    assert (exists e0, im_pools s !! x = Some e0) as [e0 He0].
    { destruct HG as (s0 & pools & _ & -> & Hpools). simpl in He1. rewrite Hpools in He1.
      destruct (im_pools s !! x) as [e0|]; [by exists e0|done]. }
    exists e0. split; [done|]. intros f.
    rewrite (eo_counter _ _ _ (bk_entry _ _ (inv_books s' HI') _ _ He')),
      (eo_counter _ _ _ (bk_entry _ _ (inv_books s HI) _ _ He0)), Hrecd, total_of_insert, Hfresh. simpl. lia.
Qed.

(** The tables are as before, and every pool is apart from its live counters. *)
Definition same_tables (s s' : Impl) : Prop :=
  im_allocations s' = im_allocations s /\ im_policies s' = im_policies s /\ im_queues s' = im_queues s /\
  strip <$> im_pools s' = strip <$> im_pools s /\ im_next_allocation_id s' = im_next_allocation_id s.

Lemma quiet_same_tables s s' : quiet s s' -> same_tables s s'.
Proof.
  intros Hq. unfold same_tables. by rewrite <- (quiet_allocations _ _ Hq), <- (quiet_policies _ _ Hq),
    <- (quiet_queues _ _ Hq), <- (quiet_pools _ _ Hq), <- (quiet_next _ _ Hq).
Qed.

(** Any outcome keeps the invariant and the fabric running. *)
Lemma allocate_keeps rq s : Inv s -> 0 <= aq_requested_units rq -> sound s (snd (allocate_locked rq s)).
Proof.
  intros HI Hu. pose proof (allocate_locked_outcome rq s HI Hu) as Hwp. unfold wp in Hwp.
  destruct (allocate_locked rq s) as [[d|e] s']; simpl.
  - destruct Hwp as [(a & _ & _ & _ & ->)|(_ & e & cx & Hr & Hd)]; [by destruct HI; split|].
    by destruct (decided_sound s cx e d s' HI (rs_context _ _ _ _ Hr) Hd).
  - split; [by rewrite <- Hwp|by rewrite <- (quiet_shutdown _ _ Hwp)].
Qed.

(** A request of the small fabric's queue. *)
Definition sample_request (attempt units : Z) : AllocateRequest :=
  default_AllocateRequest <| aq_attempt := attempt |> <| aq_pool := 2 |> <| aq_queue := 7 |>
    <| aq_requested_units := units |>.

(** The small fabric after an allocation of 100 units, 20 of them borrowed from pool 1. *)
Definition sample_granted : Impl := snd (allocate_locked (sample_request 1 100) sample_state).

Lemma sample_granted_inv : Inv sample_granted.
Proof. apply (allocate_keeps (sample_request 1 100)); [apply sample_inv|done]. Qed.

Lemma Inv_rebuildable s :
  Inv s -> (forall p e, im_pools s !! p = Some e -> descriptor_ok p (en_descriptor e)) /\
  tables_ok (im_pools s) (im_allocations s) /\ totals_fit (im_pools s) (im_allocations s).
Proof.
  intros HI. pose proof (inv_books s HI) as HB. split_and!.
  - intros p e Hp. by apply (bk_entry _ _ HB).
  - split; apply HB.
  - intros p e Hp. destruct (bk_entry _ _ HB p e Hp) as [_ HC Ho Hb _].
    by rewrite <- (HC FOwn), <- (HC FBorrowed).
Qed.

(** ** Properties *)

(** C7. An allocation request keeps the books whatever its outcome: on a grant, a refusal,
    a replay, a rejected request or a failed journal write, every pool counter is still the
    exact sum of what the allocation table contributes to it, no counter leaves its bounds,
    and the fabric is not shut down by a closure violation. *)
Theorem allocate_locked_sound (rq : AllocateRequest) (s : Impl) :
  Inv s -> 0 <= aq_requested_units rq ->
  let '(_, s') := allocate_locked rq s in sound s s'.
Proof.
  intros HI Hu. pose proof (allocate_keeps rq s HI Hu) as H. by destruct (allocate_locked rq s).
Qed.

Lemma allocate_locked_sound_witness :
  Inv sample_state /\ let '(_, s') := allocate_locked (sample_request 1 100) sample_state in sound sample_state s'.
Proof. split; [apply sample_inv|]. apply (allocate_locked_sound (sample_request 1 100) sample_state); [apply sample_inv|done]. Defined.

(** C8. A new allocation honours its contract: pool, queue and policy are the published ones
    and not retired, evidence was usable where the policy asks for it, the units are
    positive, within the request, within both policy bounds and within what the queue may
    hold, the whole request where partial grants are forbidden; exactly one record with a
    fresh id is added to the table, and every counter of every pool moves by exactly that
    record's share. *)
Theorem allocate_locked_grant (rq : AllocateRequest) (s : Impl) (d : Decision) (s' : Impl) :
  Inv s -> 0 <= aq_requested_units rq -> allocate_locked rq s = (Good d, s') ->
  dc_status d = ErrorCode.Ok -> dc_kind d <> DecisionKind.IdempotentReplay ->
  exists e q p r, grant_contract rq s e q p r d s'.
Proof.
  intros HI Hu Hrun Hok Hkind. pose proof (allocate_locked_outcome rq s HI Hu) as Hwp.
  apply (wp_run _ _ _ _ _ _ Hwp) in Hrun as [(a & _ & _ & (Hk & _) & _)|(_ & e & cx & Hr & Hd)]; [done|].
  destruct (decided_sound s cx e d s' HI (rs_context _ _ _ _ Hr) Hd) as [HI' _].
  destruct (decided_grant rq s e cx d s' HI HI' Hr Hd Hok) as [r Hc]. by exists e, (cx_queue cx), (cx_policy cx), r.
Qed.

Lemma allocate_locked_grant_witness :
  match allocate_locked (sample_request 1 100) sample_state with
  | (Good d, s') => exists e q p r, grant_contract (sample_request 1 100) sample_state e q p r d s'
  | (Bad _, _) => False
  end.
Proof.
  assert (match fst (allocate_locked (sample_request 1 100) sample_state) with
    | Good d => dc_status d = ErrorCode.Ok /\ dc_kind d = DecisionKind.Grant | Bad _ => False end) as H
    by (vm_compute; split; reflexivity).
  destruct (allocate_locked (sample_request 1 100) sample_state) as [[d|e] s'] eqn:Hrun; simpl in H; [|done].
  destruct H as [H1 H2].
  apply (allocate_locked_grant (sample_request 1 100) sample_state d s'); [apply sample_inv|done|done|done|by rewrite H2].
Defined.

(** An allocation request that is not granted changes nothing but history: when it ends
    in an error, a refusal or a replay, the allocation table, the policies, the queues and
    every pool apart from its live counters are as before. *)
Theorem allocate_locked_refusal (rq : AllocateRequest) (s s' : Impl) (res : Result Decision) :
  Inv s -> 0 <= aq_requested_units rq -> allocate_locked rq s = (res, s') ->
  (forall d, res = Good d -> dc_status d <> ErrorCode.Ok \/ dc_kind d = DecisionKind.IdempotentReplay) ->
  same_tables s s'.
Proof.
  intros HI Hu Hrun Hno. pose proof (allocate_locked_outcome rq s HI Hu) as Hwp.
  assert (quiet s s') as Hq.
  { apply (wp_run _ _ _ _ _ _ Hwp) in Hrun. destruct res as [d|e]; [|done].
    destruct Hrun as [(a & _ & _ & _ & ->)|(_ & e & cx & Hr & Hd)]; [by hnf|].
    destruct Hd as [(_ & _ & Hq)|(r & next & s1 & Hgr & _)]; [done|].
    destruct (gr_reports _ _ _ _ _ _ Hgr) as (Hk & Hs & _). destruct (Hno d eq_refl) as [|Hkk]; [done|].
    rewrite Hk in Hkk. by case_match. }
  by apply quiet_same_tables.
Qed.

Lemma allocate_locked_refusal_witness :
  let '(res, s') := allocate_locked (sample_request 2 100) sample_granted in
  result_ok res = true /\ im_allocations s' = im_allocations sample_granted.
Proof.
  assert (match fst (allocate_locked (sample_request 2 100) sample_granted) with
    | Good d => dc_status d = ErrorCode.StaleEvidence | Bad _ => False end) as H by (vm_compute; reflexivity).
  pose proof sample_granted_inv as HI. set (s0 := sample_granted) in *. clearbody s0.
  destruct (allocate_locked (sample_request 2 100) s0) as [[d|e] s'] eqn:Hrun; simpl in H; [|done].
  split; [done|].
  destruct (allocate_locked_refusal (sample_request 2 100) s0 s' (Good d)) as [-> _]; [done..| |done].
  intros d' [= <-]. left. by rewrite H.
Defined.

Lemma rebuild_aggregates_exact_witness :
  let s' := rebuild_aggregates sample_granted in
  size (im_allocations s') = 1%nat /\ books (im_pools s') (im_allocations s').
Proof.
  destruct (Inv_rebuildable _ sample_granted_inv) as (H1 & H2 & H3). split; [vm_compute; reflexivity|].
  by destruct (rebuild_aggregates_exact sample_granted H1 H2 H3) as (_ & HB & _).
Defined.
