(* ===== verification/LifeSafety.v ===== *)
(** * Commit, release, fencing and expiry keep the invariant

    Releasing units undoes exactly what the books recorded for them, so that the underflow
    checks of [apply_release_units] never fire, and each operation leaves the table with
    exactly the change it announces. *)

From S2P Require Import Prelude Ints Hash Enums Status Codec Model Wire Policy Accounting Authority Persist State Grant Alloc Lifecycle Books Triples Layout Safety AllocSafety.

(** ** Releasing units *)

(** [rel] is a part of the record [r0] that [rest] leaves behind. *)
Record part_of (s : Impl) (r0 rel rest : AllocationRecord) : Prop := {
  pt_stored : im_allocations s !! ar_id rel = Some r0;
  pt_rest : ar_id rest = ar_id rel;
  pt_pool : ar_pool rel = ar_pool r0;
  pt_holds : allocation_holds_units (ar_state rel) = true;
  pt_lender : effective_borrow rel <> 0 -> valid (ar_lender rel) = true /\ is_Some (im_pools s !! ar_lender rel) /\
    ar_lender rel <> ar_pool rel;
  pt_ok : record_ok (im_pools s) rel;
  pt_rest_ok : record_ok (im_pools s) rest;
  pt_shares : forall f p, share f p r0 = share f p rel + share f p rest
}.

Lemma part_share s r0 rel rest p e f :
  Inv s -> part_of s r0 rel rest -> im_pools s !! p = Some e ->
  0 <= share f p rel <= counter f e /\ counter f e <= u64_max.
Proof.
  intros HI [Hst _ _ _ _ Hok Hrok Hsh] Hp. pose proof (inv_books s HI) as HB.
  pose proof (share_le_counter HB f p e _ r0 Hp Hst) as H1. rewrite Hsh in H1.
  pose proof (share_nonneg _ f p rel Hok). pose proof (share_nonneg _ f p rest Hrok).
  pose proof (counter_bound HB f p e Hp). unfold kMaxOwnUsage in *. u64_lia.
Qed.

Definition state_entry (r : AllocationRecord) (e : PoolEntry) : PoolEntry :=
  if is_reserved r then e <| en_reserved_units ::= minus (ar_units r) |>
  else e <| en_committed_units ::= minus (ar_units r) |>.

Definition class_entry (r : AllocationRecord) (e : PoolEntry) : PoolEntry :=
  if is_pinned r then e <| en_pinned_units ::= minus (ar_units r) |>
  else e <| en_reclaimable_units ::= minus (ar_units r) |>.

Lemma release_state_ok s r e :
  im_pools s !! ar_pool r = Some e ->
  ar_units r <= (if is_reserved r then en_reserved_units e else en_committed_units e) ->
  release_state_units (ar_pool r) r s = (Good tt, s <| im_pools ::= alter (state_entry r) (ar_pool r) |>).
Proof.
  intros He Hu. unfold release_state_units, pool_ref, sm_bind. rewrite He. unfold state_entry, is_reserved in *.
  destruct (decide _) as [Hd|Hd];
    [rewrite bool_decide_eq_true_2 in * by done|rewrite bool_decide_eq_false_2 in * by done];
    unfold reject_when, reject_if; rewrite (proj2 (Z.ltb_ge _ _)) by done; reflexivity.
Qed.

Lemma release_class_ok s r e :
  im_pools s !! ar_pool r = Some e ->
  ar_units r <= (if is_pinned r then en_pinned_units e else en_reclaimable_units e) ->
  release_class_units (ar_pool r) r s = (Good tt, s <| im_pools ::= alter (class_entry r) (ar_pool r) |>).
Proof.
  intros He Hu. unfold release_class_units, pool_ref, sm_bind. rewrite He. unfold class_entry, is_pinned in *.
  destruct (decide _) as [Hd|Hd];
    [rewrite bool_decide_eq_true_2 in * by done|rewrite bool_decide_eq_false_2 in * by done];
    unfold reject_when, reject_if; rewrite (proj2 (Z.ltb_ge _ _)) by done; reflexivity.
Qed.

Lemma release_lender_ok s r borrowed :
  (borrowed <> 0 -> exists l, im_pools s !! ar_lender r = Some l /\ valid (ar_lender r) = true /\
     borrowed <= en_lent_out l /\ borrowed <= en_own_usage l) ->
  release_lender_units r borrowed s =
    (Good tt, s <| im_pools ::= if borrowed =? 0 then id else alter (remove_from_lender borrowed) (ar_lender r) |>).
Proof.
  intros Hl. unfold release_lender_units. destruct (Z.eqb_spec borrowed 0) as [Hz|Hz]; [by destruct s|].
  destruct (Hl Hz) as (l & Hlk & Hv & H1 & H2). unfold sm_bind, sm_get, require. rewrite Hv, Hlk.
  unfold ret, sm_ret, reject_when, reject_if. by rewrite !(proj2 (Z.ltb_ge _ _)) by done.
Qed.

Definition usage_entry (r : AllocationRecord) (e : PoolEntry) : PoolEntry :=
  e <| en_own_usage ::= minus (sub64 (ar_units r) (effective_borrow r)) |>
    <| en_borrowed_in ::= minus (effective_borrow r) |>.

Definition queue_entry (r : AllocationRecord) (e : PoolEntry) : PoolEntry :=
  adjust_queue (ar_queue r) (- ar_units r) (is_reserved r) e <| en_members ::= fun m => m ∖ {[ar_id r]} |>.

(** The five updates of a release, entry by entry. *)
Lemma release_entries (P : gmap Z PoolEntry) r p :
  (effective_borrow r <> 0 -> ar_lender r <> ar_pool r) ->
  alter (queue_entry r) (ar_pool r)
    ((if effective_borrow r =? 0 then id else alter (remove_from_lender (effective_borrow r)) (ar_lender r))
      (alter (usage_entry r) (ar_pool r) (alter (class_entry r) (ar_pool r) (alter (state_entry r) (ar_pool r) P)))) !! p
  = remove_at r p <$> P !! p.
Proof.
  intros Hne. unfold remove_at. rewrite lookup_alter.
  destruct (Z.eqb_spec (effective_borrow r) 0) as [Hz|Hz]; simpl.
  - destruct (Z.eqb_spec (ar_pool r) p) as [<-|]; case_decide; try done; rewrite ?lookup_alter_eq, ?lookup_alter_ne by done.
    + destruct (P !! _); [|done]. reflexivity.
    + by destruct (P !! p).
  - destruct (Z.eqb_spec (ar_pool r) p) as [<-|]; case_decide; try done.
    + rewrite (proj2 (Z.eqb_neq _ _) (Hne Hz)), lookup_alter_ne, !lookup_alter_eq by auto.
      destruct (P !! _); [|done]. reflexivity.
    + destruct (Z.eqb_spec (ar_lender r) p) as [<-|]; rewrite ?lookup_alter_eq, ?lookup_alter_ne by done; by destruct (P !! _).
Qed.

(** Under the invariant a release never fails, and takes the part out of the pools. *)
Lemma apply_release_ok s r0 rel rest :
  Inv s -> part_of s r0 rel rest ->
  exists pools, apply_release_units (ar_pool rel) rel s = (Good tt, s <| im_pools := pools |>) /\
    forall p, pools !! p = remove_at rel p <$> im_pools s !! p.
Proof.
  intros HI HP. pose proof HP as [Hst Hrest Hpool Hh Hl Hok Hrok Hsh].
  destruct (ro_pool _ _ Hok Hh) as [e He].
  pose proof (effective_borrow_range _ _ Hok) as Hb.
  pose proof (fun f => part_share s r0 rel rest _ e f HI HP He) as HS.
  assert (here (ar_pool rel) rel = true) as Hhere by (unfold here; by rewrite Hh, Z.eqb_refl).
  assert (effective_borrow rel <> 0 -> lends (ar_pool rel) rel = false) as Hlends.
  { intros Hz. destruct (Hl Hz) as (_ & _ & Hne). unfold lends. by rewrite (proj2 (Z.eqb_neq _ _) Hne), andb_false_r. }
  pose proof (HS FOwn) as S1. pose proof (HS FBorrowed) as S2. pose proof (HS FReserved) as S3.
  pose proof (HS FCommitted) as S4. pose proof (HS FPinned) as S5. pose proof (HS FReclaimable) as S6. clear HS.
  shares. rewrite Hhere in *. simpl in *.
  unfold apply_release_units, sm_bind, reject_when, reject_if, sm_lift. rewrite Hh. unfold pool_ref. simpl. rewrite He.
  assert (ar_units rel <= u64_max) as Hmax by (destruct (is_reserved rel); simpl in *; u64_lia).
  rewrite sub64_exact by u64_lia.
  rewrite (proj2 (Z.ltb_ge (en_own_usage e) _)) by (destruct (lends _ _); lia).
  rewrite (proj2 (Z.ltb_ge (en_borrowed_in e) _)) by lia.
  rewrite (release_state_ok s rel e) by (try done; by destruct (is_reserved rel); simpl in *; lia).
  erewrite release_class_ok; [|simpl; by rewrite lookup_alter_eq, He|].
  2: { unfold state_entry. destruct (is_reserved rel), (is_pinned rel); simpl in *; lia. }
  unfold update_pool at 1, modify at 1, sm_modify at 1. rewrite release_lender_ok.
  2: { intros Hz. destruct (Hl Hz) as (Hv & [l Hlk] & Hne). exists l. simpl. rewrite !lookup_alter_ne by done.
    pose proof (fun f => part_share s r0 rel rest _ l f HI HP Hlk) as HL. pose proof (HL FLent) as L1.
    pose proof (HL FOwn) as L2. clear HL. shares. rewrite (Hlends Hz) in *.
    assert (lends (ar_lender rel) rel = true) as Hll by (unfold lends; by rewrite Hh, Hv, Z.eqb_refl).
    assert (here (ar_lender rel) rel = false) as Hlh.
    { unfold here. rewrite Hh. simpl. apply Z.eqb_neq. congruence. }
    rewrite Hll, Hlh in *. simpl in *. split_and!; try done; lia. }
  unfold update_pool, modify, sm_modify. eexists. split; [reflexivity|].
  intros p. rewrite <- release_entries by (intros Hz; by destruct (Hl Hz) as (_ & _ & Hne)).
  unfold usage_entry, queue_entry. rewrite sub64_exact by u64_lia.
  pose proof (counter_bound (inv_books s HI) FReserved _ e He) as CR. pose proof (counter_bound (inv_books s HI) FCommitted _ e He) as CC.
  simpl in CR, CC. unfold kMaxOwnUsage in *.
  rewrite to_i64_small by (destruct (is_reserved rel); simpl in *; u64_lia). reflexivity.
Qed.

(** ** The terms allocations are held on *)

(** What staleness and expiry depend on: epoch, time, policies and each pool's generations. *)
Definition terms (s : Impl) : Z * Z * gmap Z PoolPolicy * gmap Z (PoolDescriptor * Z) :=
  (im_epoch s, im_tick s, im_policies s, (fun e => (en_descriptor e, en_capacity_generation e)) <$> im_pools s).

Lemma quiet_terms s s' : quiet s s' -> terms s' = terms s.
Proof.
  intros Hq. unfold terms. rewrite (f_equal im_epoch Hq : im_epoch s = im_epoch s'),
    (f_equal im_tick Hq : im_tick s = im_tick s'), (quiet_policies _ _ Hq). f_equal.
  transitivity ((fun e => (en_descriptor e, en_capacity_generation e)) <$> (strip <$> im_pools s')).
  - by rewrite <- map_fmap_compose.
  - rewrite <- (quiet_pools _ _ Hq). by rewrite <- map_fmap_compose.
Qed.

Lemma remove_terms rel P P' :
  (forall p, P' !! p = remove_at rel p <$> P !! p) ->
  (fun e => (en_descriptor e, en_capacity_generation e)) <$> P' =
  (fun e => (en_descriptor e, en_capacity_generation e)) <$> (P : gmap Z PoolEntry).
Proof.
  intros H. apply map_eq. intros p. rewrite !lookup_fmap, H. destruct (P !! p) as [e|]; [|done]. simpl. f_equal.
  unfold remove_at, remove_from_holder, adjust_queue.
  by destruct (ar_pool rel =? p), (negb _ && _), (is_reserved rel), (is_pinned rel).
Qed.

Lemma terms_entry s s' p e :
  terms s' = terms s -> im_pools s !! p = Some e ->
  exists e', im_pools s' !! p = Some e' /\ en_descriptor e' = en_descriptor e /\
    en_capacity_generation e' = en_capacity_generation e.
Proof.
  unfold terms. intros H He. injection H as _ _ _ H.
  assert ((fun e => (en_descriptor e, en_capacity_generation e)) <$> im_pools s' !! p =
    (fun e => (en_descriptor e, en_capacity_generation e)) <$> im_pools s !! p) as Hp by (by rewrite <- !lookup_fmap, H).
  rewrite He in Hp. destruct (im_pools s' !! p) as [e'|]; [|done]. injection Hp as H1 H2. by exists e'.
Qed.

(** ** Revoking one allocation *)

(** Replacing a holding record by one that holds nothing is a part with an empty rest. *)
Lemma part_whole s k r r' :
  Inv s -> im_allocations s !! k = Some r -> allocation_holds_units (ar_state r) = true ->
  ar_id r' = ar_id r -> 0 <= ar_units r' -> 0 <= ar_borrow_units r' ->
  allocation_holds_units (ar_state r') = false -> part_of s r r r'.
Proof.
  intros HI Hk Hh Hid Hu Hb Hno. pose proof (inv_books s HI) as HB. pose proof (bk_record _ _ HB k r Hk) as Hok.
  assert (ar_id r = k) as Hidk by (by apply (bk_id _ _ HB)).
  split; [by rewrite Hidk|done|done|done|by apply (ro_lender _ _ Hok)|done| |].
  - split; [done|done|by rewrite Hno|by rewrite Hno].
  - intros f p. rewrite (share_idle f p r') by done. lia.
Qed.

(** [s'] is [s] with [rest] in the place of a record, its part [rel] taken out of the pools. *)
Lemma released_inv s r0 rel rest pools :
  Inv s -> part_of s r0 rel rest -> (forall p, pools !! p = remove_at rel p <$> im_pools s !! p) ->
  (allocation_holds_units (ar_state rest) = true -> 0 < ar_units rest) ->
  Inv (s <| im_pools := pools |> <| im_allocations ::= <[ar_id rest := rest]> |>).
Proof.
  intros HI [Hst Hrest Hpool Hh Hl Hok Hrok Hsh] Hpools Hpos. destruct HI as [HB Hids Hn Hpol Hly Hlv]. split; simpl.
  - apply (remove_record_books (im_pools s) pools (im_allocations s) r0 rel rest); try done.
    + by rewrite Hrest.
    + intros Hz. by apply Hl.
  - intros k r Hk. apply lookup_insert_Some in Hk as [[<- _]|[_ Hk]]; [rewrite Hrest|]; eauto.
  - done.
  - done.
  - change (arranged (layout (s <| im_pools := pools |>))). rewrite layout_pools; [done|].
    apply (descriptors_pointwise (remove_at rel)); [done|]. intros p e0. apply remove_at_frame.
  - intros k r Hk. apply lookup_insert_Some in Hk as [[<- <-]|[_ Hk]]; eauto.
Qed.

(** What fencing leaves behind: the record in its new state, its units out of the pools. *)
Definition fenced (s : Impl) (key : Z) (new_state : AllocationState) (s' : Impl) : Prop :=
  exists r r', im_allocations s !! key = Some r /\ allocation_holds_units (ar_state r) = true /\
    ar_state r' = new_state /\ ar_id r' = ar_id r /\ ar_pool r' = ar_pool r /\ ar_units r' = ar_units r /\
    im_allocations s' = <[key := r']> (im_allocations s).

#[export] Instance hushed_count_fence new_state pool : Hushed (count_fence new_state pool).
Proof. unfold count_fence. destruct new_state; apply _. Qed.

(** Fencing stops at nothing but a missing record or pool: the released units and the new
    state are kept even when the journal write that follows them fails. *)
Lemma fence_outcome s key new_state reason :
  Inv s -> allocation_holds_units new_state = false ->
  wp (fence_allocation_locked key new_state reason) s
    (fun _ s' => sound s s' /\ fenced s key new_state s' /\ terms s' = terms s)
    (fun _ s' => sound s s').
Proof.
  intros HI Hno. unfold fence_allocation_locked. do 2 wp_step. wp_step; apply wp_require; [done|]. intros r Hr.
  destruct (im_pools s !! ar_pool r) as [e|] eqn:He; [|by apply wp_fail].
  destruct (allocation_holds_units (ar_state r)) eqn:Hh; simpl; [|by apply wp_fail].
  set (r' := r <| ar_state := new_state |> <| ar_last_touched := im_tick s |> <| ar_revision ::= plus 1 |>).
  assert (ar_id r = key) as Hkey by (by apply (bk_id _ _ (inv_books s HI))).
  destruct (bk_record _ _ (inv_books s HI) key r Hr) as [Hu Hb _ _].
  assert (part_of s r r r') as Hpart by (by eapply part_whole).
  destruct (apply_release_ok s r r r' HI Hpart) as (pools & Hrel & Hpools).
  pose proof (released_inv s r r r' pools HI Hpart Hpools ltac:(simpl; congruence)) as HI1.
  apply wp_bind. unfold wp at 1. rewrite Hrel.
  wp_step. unfold wp at 1. rewrite (update_allocation_eq key r) by done. replace key with (ar_id r') at 1 by done.
  set (s1 := s <| im_pools := pools |> <| im_allocations ::= <[ar_id r' := r']> |>) in *.
  assert (fenced s key new_state s1) as Hf by (exists r, r'; subst s1; simpl; by rewrite Hkey).
  assert (sound s s1) as Hs1 by done.
  eapply wp_mono; [apply (within (R := quiet))| |]; intros ? s2 Hq; [|by eapply sound_quiet].
  split; [by eapply sound_quiet|]. split; [unfold fenced; by rewrite <- (quiet_allocations _ _ Hq)|].
  rewrite (quiet_terms _ _ Hq). unfold terms. simpl. by rewrite (remove_terms r _ _ Hpools).
Qed.

(** ** Sweeping a pool *)

(** A selection that only looks at holding records and at the terms they are held on. *)
Class Selection (select : Impl -> PoolEntry -> AllocationRecord -> bool) : Prop := {
  sel_holds : forall s e r, select s e r = true -> allocation_holds_units (ar_state r) = true;
  sel_terms : forall s s' e e' r, terms s' = terms s -> en_descriptor e' = en_descriptor e ->
    en_capacity_generation e' = en_capacity_generation e -> select s' e' r = select s e r
}.

#[export] Instance selection_stale policy : Selection (select_stale policy).
Proof.
  split.
  - intros s e r H. by apply andb_true_iff in H as [H _].
  - intros s s' e e' r H Hd Hc. unfold select_stale, is_stale_binding. injection H as -> _ _ _. by rewrite Hd, Hc.
Qed.

#[export] Instance selection_expired policy : Selection (select_expired policy).
Proof.
  split.
  - intros s e r H. apply andb_true_iff in H as [H%bool_decide_eq_true _]. by rewrite H.
  - intros s s' e e' r H _ _. unfold select_expired. by injection H as _ -> _ _.
Qed.

Definition selected (select : Impl -> PoolEntry -> AllocationRecord -> bool) (s : Impl) (pool k : Z) : Prop :=
  exists r e, im_allocations s !! k = Some r /\ im_pools s !! pool = Some e /\ select s e r = true.

(** After a sweep: selected members are in the new state with the units they had, and
    nothing else changed in the table. *)
Record swept select (new_state : AllocationState) (pool : Z) (members : list Z) (s s' : Impl) : Prop := {
  sw_sound : sound s s';
  sw_terms : terms s' = terms s;
  sw_other : forall k, k ∉ members \/ ~ selected select s pool k -> im_allocations s' !! k = im_allocations s !! k;
  sw_moved : forall k r, k ∈ members -> selected select s pool k -> im_allocations s !! k = Some r ->
    exists r', im_allocations s' !! k = Some r' /\ ar_state r' = new_state /\ ar_pool r' = ar_pool r /\
      ar_units r' = ar_units r
}.

Section Sweep.
Context (select : Impl -> PoolEntry -> AllocationRecord -> bool) {HS : Selection select}.
Context (new_state : AllocationState) (Hno : allocation_holds_units new_state = false).

Lemma selected_terms s s' pool k :
  terms s' = terms s -> im_allocations s' !! k = im_allocations s !! k ->
  selected select s' pool k <-> selected select s pool k.
Proof.
  assert (forall s s', terms s' = terms s -> im_allocations s' !! k = im_allocations s !! k ->
    selected select s pool k -> selected select s' pool k) as Hgo.
  { intros t t' HT HA (r & e & Hr & He & Hsel). destruct (terms_entry _ _ _ _ HT He) as (e' & He' & Hd & Hc).
    exists r, e'. rewrite HA. split_and!; try done. by rewrite (sel_terms t t' e e' r HT Hd Hc). }
  intros HT HA. split; by apply Hgo.
Qed.

Lemma sweep_outcome reason pool members count units s :
  Inv s ->
  wp (sweep select new_state reason pool members count units) s
    (fun _ => swept select new_state pool members s) (fun _ => sound s).
Proof.
  revert count units s. induction members as [|k members IH]; intros count units s HI; simpl.
  { wp_step. split; try done. intros k r Hk. by apply elem_of_nil in Hk. }
  do 2 wp_step. wp_step. apply wp_pool_ref; [done|]. intros e He.
  destruct (im_allocations s !! k) as [r|] eqn:Hr; [destruct (select s e r) eqn:Hsel|].
  - wp_step. eapply wp_mono; [by apply fence_outcome| |done]. intros [] s1 ([HI1 Hsd] & Hf & HT).
    destruct Hf as (r0 & r' & Hr0 & Hh & Hst & Hid & Hp & Hu & HA). rewrite Hr in Hr0. injection Hr0 as <-.
    assert (forall j, j <> k -> im_allocations s1 !! j = im_allocations s !! j) as Hother.
    { intros j Hj. rewrite HA. by apply lookup_insert_ne. }
    assert (~ selected select s1 pool k) as Hnot.
    { intros (r1 & e1 & Hr1 & _ & Hs1). rewrite HA, lookup_insert_eq in Hr1. injection Hr1 as <-.
      apply sel_holds in Hs1. congruence. }
    eapply wp_mono; [by apply IH| |].
    + intros _ s2 [[HI2 Hsd2] HT2 H1 H2]. split; [split; [done|congruence]|congruence| |].
      * intros j Hj. destruct (decide (j = k)) as [->|Hne].
        { destruct Hj as [Hj|Hj]; [by rewrite elem_of_cons in Hj; naive_solver|].
          destruct Hj. by exists r, e. }
        rewrite <- (Hother j Hne). apply H1. rewrite (selected_terms s s1 pool j HT (Hother j Hne)).
        destruct Hj as [Hj|Hj]; [left|by right]. by rewrite not_elem_of_cons in Hj; destruct Hj.
      * intros j q Hj Hs Hq. destruct (decide (j = k)) as [->|Hne].
        { exists r'. rewrite H1 by (by right). rewrite HA, lookup_insert_eq. rewrite Hr in Hq. by injection Hq as <-. }
        apply elem_of_cons in Hj as [?|Hj]; [done|]. apply (H2 j q Hj).
        -- by rewrite (selected_terms s s1 pool j HT (Hother j Hne)).
        -- by rewrite (Hother j Hne).
    + intros ? s2 [HI2 Hsd2]. split; [done|congruence].
  - eapply wp_mono; [by apply IH| |done]. intros _ s2 [H0 HT H1 H2]. split; try done.
    + intros j [Hj|Hj]; apply H1; [left; by rewrite not_elem_of_cons in Hj; destruct Hj|by right].
    + intros j q Hj Hs Hq. apply elem_of_cons in Hj as [->|Hj]; [|by apply H2].
      destruct Hs as (r1 & e1 & Hr1 & He1 & Hs1). congruence.
  - eapply wp_mono; [by apply IH| |done]. intros _ s2 [H0 HT H1 H2]. split; try done.
    + intros j [Hj|Hj]; apply H1; [left; by rewrite not_elem_of_cons in Hj; destruct Hj|by right].
    + intros j q Hj Hs Hq. apply elem_of_cons in Hj as [->|Hj]; [|by apply H2]. congruence.
Qed.
End Sweep.

Lemma swept_quiet select new_state pool members s s1 s2 :
  swept select new_state pool members s s1 -> quiet s1 s2 -> swept select new_state pool members s s2.
Proof.
  intros [H0 HT H1 H2] Hq. split.
  - by eapply sound_quiet.
  - by rewrite (quiet_terms _ _ Hq).
  - by rewrite <- (quiet_allocations _ _ Hq).
  - by rewrite <- (quiet_allocations _ _ Hq).
Qed.

#[export] Instance hushed_decide pool queue queue_generation policy ev stamp attempt provenance kind code reason
    requested granted allocation binding intent :
  Hushed (decide_on pool queue queue_generation policy ev stamp attempt provenance kind code reason requested granted
    allocation binding intent).
Proof. unfold decide_on. apply _. Qed.

Lemma wp_pool_scope pool s (Q : PoolEntry * PoolPolicy * PressureEvidence * Z -> Impl -> Prop) (E : Status -> Impl -> Prop) :
  (forall e, E e s) ->
  (forall e p, im_pools s !! pool = Some e -> im_policies s !! pd_policy (en_descriptor e) = Some p ->
     Q (e, p, resolve_evidence s e, im_tick s) s) ->
  wp (pool_scope pool) s Q E.
Proof.
  intros HE HQ. unfold pool_scope. do 2 wp_step. wp_step; wp_step; [auto|]. wp_step. wp_step; [auto|].
  wp_step. wp_step; [auto|]. wp_step. auto.
Qed.

Lemma elem_of_sorted_members k e : k ∈ sorted_members e <-> k ∈ en_members e.
Proof. unfold sorted_members. by rewrite merge_sort_Permutation, elem_of_elements. Qed.

(** Both whole-pool operations are the sweep between a lookup and a decision. *)
Lemma fence_stale_outcome pool s :
  Inv s -> wp (fence_stale_locked pool) s
    (fun _ s' => exists e p, im_pools s !! pool = Some e /\ im_policies s !! pd_policy (en_descriptor e) = Some p /\
       swept (select_stale p) AllocationState.Fenced pool (sorted_members e) s s') (fun _ => sound s).
Proof.
  intros HI. unfold fence_stale_locked. wp_step. apply wp_pool_scope; [done|]. intros e p He Hp.
  wp_step. eapply wp_mono; [by apply sweep_outcome; [apply _|..]| |done]. intros [fenced units] s1 Hsw.
  eapply wp_mono; [apply (within (R := quiet))| |].
  - intros d s2 Hq. exists e, p. split_and!; try done. by eapply swept_quiet.
  - intros ? s2 Hq. eapply sound_quiet; [apply Hsw|done].
Qed.

Lemma expire_outcome pool s :
  Inv s -> wp (expire_reservations_locked pool) s
    (fun _ s' => exists e p, im_pools s !! pool = Some e /\ im_policies s !! pd_policy (en_descriptor e) = Some p /\
       swept (select_expired p) AllocationState.Expired pool (sorted_members e) s s') (fun _ => sound s).
Proof.
  intros HI. unfold expire_reservations_locked. wp_step. apply wp_pool_scope; [done|]. intros e p He Hp.
  wp_step. eapply wp_mono; [by apply sweep_outcome; [apply _|..]| |done]. intros [expired units] s1 Hsw.
  eapply wp_mono; [apply (within (R := quiet))| |].
  - intros d s2 Hq. exists e, p. split_and!; try done. by eapply swept_quiet.
  - intros ? s2 Hq. eapply sound_quiet; [apply Hsw|done].
Qed.

(** No member that still holds units is left with what the sweep selects. *)
Lemma swept_none select new_state pool e s s' k r' :
  Selection select -> allocation_holds_units new_state = false -> im_pools s !! pool = Some e ->
  swept select new_state pool (sorted_members e) s s' ->
  k ∈ en_members e -> im_allocations s' !! k = Some r' -> allocation_holds_units (ar_state r') = true ->
  im_allocations s !! k = Some r' /\ select s e r' = false.
Proof.
  intros HS Hno He [_ _ Hother Hmoved] Hk Hr' Hh. rewrite <- elem_of_sorted_members in Hk.
  destruct (im_allocations s !! k) as [r|] eqn:Hr.
  - destruct (select s e r) eqn:Hsel.
    + destruct (Hmoved k r Hk) as (r1 & Hr1 & Hst & _); [by exists r, e|done|]. congruence.
    + rewrite Hother, Hr in Hr'; [by injection Hr' as ->|]. right.
      intros (r1 & e1 & Hr1 & He1 & Hs1). congruence.
  - rewrite Hother, Hr in Hr'; [done|]. right. intros (r1 & e1 & Hr1 & _). congruence.
Qed.

(** ** Requests on one allocation *)

(** What such a request has looked up when it acts. *)
Record target_ok (s : Impl) (kind : AttemptKind) (attempt : Z) (digest : Digest) (allocation : Z) (t : Target)
    (e : PoolEntry) : Prop := {
  to_request : tg_kind t = kind /\ tg_attempt t = attempt /\ tg_digest t = digest /\ tg_key t = allocation;
  to_new : im_attempts s !! attempt = None;
  to_record : im_allocations s !! allocation = Some (tg_record t);
  to_pool : im_pools s !! ar_pool (tg_record t) = Some e;
  to_policy : im_policies s !! pd_policy (en_descriptor e) = Some (tg_policy t);
  to_queue : im_queues s !! ar_queue (tg_record t) = Some (tg_queue t);
  to_stamp : tg_stamp t = im_tick s
}.

(** The answer to a replay: the remembered outcome, and nothing done but counting it. *)
Definition replayed (s : Impl) (attempt : Z) (digest : Digest) (d : Decision) (s' : Impl) : Prop :=
  exists a, im_attempts s !! attempt = Some a /\ at_request_digest a = digest /\
    dc_kind d = DecisionKind.IdempotentReplay /\ dc_status d = at_outcome a /\
    dc_granted_units d = at_granted_units a /\
    s' = s <| im_metrics ::= fun m => m <| mt_idempotent_replays ::= plus 1 |> |>.

Lemma wp_on_target kind attempt digest allocation expected_epoch body s (Q : Decision -> Impl -> Prop)
    (E : Status -> Impl -> Prop) :
  (forall e, E e s) ->
  (forall d s', replayed s attempt digest d s' -> Q d s') ->
  (forall t e, target_ok s kind attempt digest allocation t e -> wp (body t) s Q E) ->
  wp (on_target kind attempt digest allocation expected_epoch body) s Q E.
Proof.
  intros HE HR HB. unfold on_target, lookup_target. wp_step.
  apply wp_bind, wp_get. apply wp_bind, wp_reject; [by intros; apply HE|]. intros _.
  apply wp_bind, wp_reject; [by intros; apply HE|]. intros _. apply wp_bind.
  assert (forall prev,
    (match prev with
     | Some a => im_attempts s !! attempt = Some a /\ at_request_digest a = digest
     | None => im_attempts s !! attempt = None end) ->
    wp (let* r := require (im_allocations s !! allocation) ErrorCode.UnknownAllocation "no such allocation" in
        let* e := require_pool (ar_pool r) in
        let* policy := require (im_policies s !! pd_policy (en_descriptor e)) ErrorCode.UnknownPolicy
                         "pool policy is not published" in
        let* q := require_queue (ar_queue r) in
        ret (mkTarget kind attempt digest allocation r policy q (resolve_evidence s e) (im_tick s), prev)) s
      (fun t s' => wp (match snd t with
        | Some a =>
            metric (fun m => m <| mt_idempotent_replays ::= plus 1 |>) ;;;
            let* s := sm_get in
            let* e := pool_ref (ar_pool (tg_record (fst t))) in
            ret (replay_decision s a e (qd_id (tg_queue (fst t))) 0 attempt (ar_id (tg_record (fst t)))
                   (tg_evidence (fst t)))
        | None =>
            let* epoch := gets im_epoch in
            reject_when (stale expected_epoch epoch) ErrorCode.StaleEpoch
              "request epoch does not match the fabric epoch" ;;;
            body (fst t)
        end) s' Q E) E) as Hgo.
  { intros prev Hprev. apply wp_bind, wp_require; [by intros; apply HE|]. intros r Hr.
    apply wp_bind, wp_require_pool; [by intros; apply HE|]. intros e He.
    apply wp_bind, wp_require; [by intros; apply HE|]. intros policy Hpol.
    apply wp_bind, wp_require_queue; [by intros; apply HE|]. intros q Hq. apply wp_ret. destruct prev as [a|]; simpl.
    - unfold wp, metric, modify, sm_modify, sm_bind, sm_get, pool_ref. simpl. rewrite He. apply HR.
      destruct Hprev as [Ha Hd]. by exists a.
    - wp_step. unfold wp at 1, gets. apply wp_bind, wp_reject; [by intros; apply HE|]. intros _.
      by eapply HB. }
  apply wp_lookup_attempt; [by intros; apply HE|..].
  - intros Hn. exact (Hgo None Hn).
  - intros a Ha Hd. exact (Hgo (Some a) (conj Ha Hd)).
Qed.

(** ** Commit *)

Lemma counter_commit r e f :
  allocation_holds_units (ar_state r) = true -> is_reserved r = true -> 0 <= ar_units r ->
  (forall g, share g (ar_pool r) r <= counter g e) ->
  (forall g, 0 <= counter g e <= kMaxOwnUsage + kMaxUnitsPerPool) ->
  forall r', ar_state r' = AllocationState.Committed -> ar_pool r' = ar_pool r -> ar_units r' = ar_units r ->
  ar_queue r' = ar_queue r -> ar_reclaim_class r' = ar_reclaim_class r -> ar_lender r' = ar_lender r ->
  ar_borrow_units r' = ar_borrow_units r ->
  counter f (commit_units r e) = counter f e - share f (ar_pool r) r + share f (ar_pool r) r'.
Proof.
  intros Hh Hres Hu Hsh Hc r' Hst Hp Hun Hq Hcl Hl Hbo.
  assert (here (ar_pool r) r = true) as Hhere by (unfold here; by rewrite Hh, Z.eqb_refl).
  assert (here (ar_pool r) r' = true) as Hhere' by (unfold here; by rewrite Hst, Hp, Z.eqb_refl).
  assert (lends (ar_pool r) r' = lends (ar_pool r) r) as Hlends by (unfold lends; by rewrite Hh, Hst, Hl).
  assert (is_reserved r' = false) as Hres' by (unfold is_reserved; by rewrite Hst).
  assert (is_pinned r' = is_pinned r) as Hpin by (unfold is_pinned; by rewrite Hcl).
  assert (effective_borrow r' = effective_borrow r) as Heb by (rewrite !effective_borrow_min; by rewrite Hbo, Hun).
  pose proof (Hsh (FQueueReserved (ar_queue r))) as Hqr. pose proof (Hsh FReserved) as Hr0. pose proof (Hc f) as Hcf.
  pose proof (Hc (FQueueReserved (ar_queue r))) as Hcq. pose proof (Hc FCommitted) as Hcc. pose proof (Hc FReserved) as Hcr.
  pose proof (Hc (FQueueCommitted (ar_queue r))) as Hcqc. unfold kMaxOwnUsage in *.
  unfold commit_units. rewrite to_i64_small by (shares; rewrite Hhere, Hres in *; simpl in *; u64_lia).
  unfold adjust_queue. shares. rewrite Hhere, Hres, Z.eqb_refl in *. simpl in *.
  assert (ar_units r <= kMaxUnitsPerPool + kMaxOvercommitUnits + kMaxUnitsPerPool) as Hub by lia.
  destruct f; simpl in *; rewrite ?Hhere', ?Hres', ?Hpin, ?Hlends, ?Heb, ?Hun, ?Hq; simpl; unfold minus, plus;
    rewrite ?lookup_adjust_down by u64_lia; unfold adjust_bucket; rewrite ?(proj2 (Z.leb_le 0 (ar_units r)) Hu), ?lookup_bucket_add;
    repeat match goal with |- context [ar_queue r =? ?q] => destruct (Z.eqb_spec (ar_queue r) q); subst end;
    rewrite ?sub64_exact, ?add64_exact by u64_lia; simpl; try destruct (is_pinned r); simpl; u64_lia.
Qed.

(** [r'] is [r] as a commit leaves it. *)
Record committed_as (r r' : AllocationRecord) : Prop := {
  ca_state : ar_state r' = AllocationState.Committed;
  ca_same : ar_id r' = ar_id r /\ ar_pool r' = ar_pool r /\ ar_units r' = ar_units r /\ ar_queue r' = ar_queue r /\
    ar_reclaim_class r' = ar_reclaim_class r /\ ar_lender r' = ar_lender r /\ ar_borrow_units r' = ar_borrow_units r /\
    ar_bound r' = ar_bound r /\ ar_lineage r' = ar_lineage r;
  ca_revision : ar_revision r' = add64 (ar_revision r) 1
}.

Lemma commit_inv s k r e r' :
  Inv s -> im_allocations s !! k = Some r -> ar_state r = AllocationState.Reserved ->
  im_pools s !! ar_pool r = Some e -> committed_as r r' ->
  Inv (s <| im_pools ::= alter (commit_units r) (ar_pool r) |> <| im_allocations ::= <[k := r']> |>).
Proof.
  intros HI Hk Hst He [Hst' (Hid & Hp & Hu & Hq & Hcl & Hl & Hb & _) _]. pose proof HI as [HB Hids Hn Hpol Hly Hlv].
  pose proof (bk_id _ _ HB k r Hk) as Hidk. pose proof (bk_record _ _ HB k r Hk) as [Hu0 Hb0 Hp0 Hl0].
  rewrite Hst in Hp0, Hl0.
  assert (effective_borrow r' = effective_borrow r) as Heb by (by rewrite !effective_borrow_min, Hb, Hu).
  assert (record_ok (im_pools s) r') as Hok.
  { split; [by rewrite Hu|by rewrite Hb|by rewrite Hp; auto|]. rewrite Heb, Hl, Hp. auto. }
  assert (forall f p, ar_pool r <> p -> share f p r' = share f p r) as Hoff.
  { intros f p Hne. assert (here p r = false /\ here p r' = false) as [H1 H2].
    { unfold here. rewrite Hp, (proj2 (Z.eqb_neq _ _) Hne). by rewrite !andb_false_r. }
    assert (lends p r' = lends p r) as H3 by (unfold lends; by rewrite Hst, Hst', Hl).
    destruct f; shares; by rewrite ?H1, ?H2, ?H3, ?Heb. }
  split; simpl; [|intros j q Hj; apply lookup_insert_Some in Hj as [[<- _]|[_ Hj]]; eauto|done|done| |].
  3: { intros j q Hj. apply lookup_insert_Some in Hj as [[<- <-]|[_ Hj]]; [|eauto]. intros _. rewrite Hu. eapply Hlv; [done|by rewrite Hst]. }
  2: { change (arranged (layout (s <| im_pools ::= alter (commit_units r) (ar_pool r) |>))).
       pose proof (layout_pools s _ (descriptors_alter (commit_units r) (ar_pool r) (im_pools s) ltac:(done))) as HL.
       by rewrite <- HL in Hly. }
  rewrite <- Hidk, <- Hid. apply (books_update (im_pools s)); [done|done|by intros p; rewrite lookup_alter_is_Some|].
  rewrite Hid, Hidk, Hk. intros p e' He'. rewrite lookup_alter in He'. case_decide as Hpp.
  - subst p. rewrite He in He'. injection He' as <-. exists e. split; [done|].
    assert (forall f, counter f (commit_units r e) = counter f e - share f (ar_pool r) r + share f (ar_pool r) r') as HC.
    { intros f. apply counter_commit; try done; [by rewrite Hst|by unfold is_reserved; rewrite Hst| |].
      - intros g. by apply (share_le_counter HB g _ e k r He Hk).
      - intros g. exact (counter_bound HB g _ e He). }
    pose proof (bk_entry _ _ HB _ e He) as [_ _ Ho Hbo Hm].
    assert (en_own_usage (commit_units r e) = en_own_usage e /\ en_borrowed_in (commit_units r e) = en_borrowed_in e /\
      en_members (commit_units r e) = en_members e /\ en_descriptor (commit_units r e) = en_descriptor e) as (E1 & E2 & E3 & E4)
      by (unfold commit_units, adjust_queue; done).
    split; [done|done|by rewrite E1|by rewrite E2|]. rewrite E3. intros j Hj. case_decide; [|done].
    unfold here. by rewrite Hst', Hp, Z.eqb_refl.
  - exists e'. split; [done|]. pose proof (bk_entry _ _ HB _ e' He') as [_ _ Ho Hbo Hm].
    split; [done| |done|done|].
    + intros f. simpl. rewrite Hoff by done. lia.
    + intros j Hj. case_decide; [|done]. subst j. destruct (Hm _ Hj) as (r0 & Hr0 & Hh). rewrite Hk in Hr0.
      injection Hr0 as <-. unfold here in Hh. apply andb_true_iff in Hh as [_ Hh%Z.eqb_eq]. congruence.
Qed.

Lemma Inv_shutdown s : Inv s -> Inv (s <| im_shutting_down := true |>).
Proof. by intros []; split. Qed.

(** The closure check lets the operation go on, or stops the fabric. *)
Lemma wp_verify_closure p s (Q : unit -> Impl -> Prop) (E : Status -> Impl -> Prop) :
  (forall e, E e s) -> (forall e, E e (s <| im_shutting_down := true |>)) -> Q tt s ->
  wp (verify_closure p (fun _ => ret tt)) s Q E.
Proof.
  intros H1 H2 H3. unfold verify_closure. wp_step. wp_step; [by intros; apply H1|]. do 2 wp_step.
  match goal with |- wp (match ?c with _ => _ end) _ _ _ => destruct c end; [by wp_step|].
  unfold wp, sm_bind, modify, sm_modify, sm_lift, ret, sm_ret. apply H2.
Qed.

#[export] Instance hushed_settle t reason requested granted : Hushed (settle t reason requested granted).
Proof. unfold settle, answer, remember. apply _. Qed.
#[export] Instance hushed_answer t kind code reason requested granted binding intent :
  Hushed (answer t kind code reason requested granted binding intent).
Proof. unfold answer. apply _. Qed.
#[export] Instance hushed_allocation_event kind r detail units : Hushed (allocation_event kind r detail units).
Proof. unfold allocation_event. apply _. Qed.

(** The record stored under [k] became [r'], and the books follow. *)
Definition updated (s : Impl) (k : Z) (r' : AllocationRecord) (s' : Impl) : Prop :=
  im_allocations s' = <[k := r']> (im_allocations s) /\ sound s s'.

Lemma updated_quiet s k r' s1 s2 : updated s k r' s1 -> quiet s1 s2 -> updated s k r' s2.
Proof. intros [HA HS] Hq. split; [by rewrite <- (quiet_allocations _ _ Hq)|by eapply sound_quiet]. Qed.

(** The last steps of a commit or a release, after its tables are written. *)
Lemma finish_update s k r' s1 f kind detail units p t reason requested granted :
  updated s k r' s1 ->
  wp (metric f ;;; allocation_event kind r' detail units ;;; verify_closure p (fun _ => ret tt) ;;;
      settle t reason requested granted) s1 (fun _ => updated s k r') (fun _ => Inv).
Proof.
  assert (forall s1 s2, quiet s1 s2 -> updated s k r' s1 -> updated s k r' s2) as HQ.
  { intros t1 t2 Hq Hu. by eapply updated_quiet. }
  intros Hup. wp_step. apply (wp_hushed _ (updated s k r')); [apply _|done|done| |by intros ? ? [_ []]].
  intros [] s2 H2. wp_step. apply (wp_hushed _ (updated s k r')); [apply _|done|done| |by intros ? ? [_ []]].
  intros [] s3 H3. wp_step. apply wp_verify_closure; [by destruct H3 as [_ []]|intros _; by destruct H3 as [_ []]; apply Inv_shutdown|].
  by apply (wp_hushed _ (updated s k r')); [apply _|..|intros ? ? [_ []]].
Qed.

Definition committed (s : Impl) (k : Z) (s' : Impl) : Prop :=
  exists r e p r', im_allocations s !! k = Some r /\ ar_state r = AllocationState.Reserved /\
    im_pools s !! ar_pool r = Some e /\ im_policies s !! pd_policy (en_descriptor e) = Some p /\
    is_stale_binding r e p (im_epoch s) = false /\ committed_as r r' /\ updated s k r' s'.

Lemma commit_target_outcome expected s t e kind attempt digest allocation :
  Inv s -> target_ok s kind attempt digest allocation t e ->
  wp (commit_target expected t) s (fun _ => committed s allocation) (fun _ => Inv).
Proof.
  intros HI [(_ & _ & _ & Hkey) _ Hr He Hpol _ _]. unfold commit_target. apply wp_bind, wp_pool_ref; [done|].
  intros e0 He0. assert (e0 = e) as -> by congruence. wp_step. unfold wp at 1, gets.
  apply wp_bind, wp_reject; [done|]. intros _. apply wp_bind, wp_reject; [done|]. intros Hst.
  apply negb_false_iff, bool_decide_eq_true in Hst. apply wp_bind, wp_reject; [done|]. intros Hfresh. cbv zeta.
  set (next := touched t _). assert (committed_as (tg_record t) next) as Hca by done.
  apply wp_bind. eapply wp_mono; [apply (within (R := logged))| |intros ? s1 Hl; by rewrite <- (logged_quiet _ _ Hl)].
  intros [] s1 Hlog. pose proof Hlog as (d & m & ->).
  set (s0 := s <| im_store := d |> <| im_metrics := m |>) in *.
  assert (Inv s0) as HI0 by (by rewrite <- (logged_quiet _ _ Hlog)).
  pose proof (commit_inv s0 allocation (tg_record t) e next HI0 Hr Hst He Hca) as HI1.
  apply wp_bind. unfold wp at 1, update_pool, modify, sm_modify.
  apply wp_bind. unfold wp at 1. rewrite Hkey, (update_allocation_eq allocation (tg_record t)) by done.
  set (s1 := _ <| im_allocations ::= _ |>) in *.
  assert (updated s allocation next s1) as Hup by done. clearbody s1.
  eapply wp_mono; [by apply (finish_update s allocation next s1)| |done].
  intros d' s2 H. by exists (tg_record t), e, (tg_policy t), next.
Qed.

(** ** Release *)

(** The two halves of a release share the record's units and borrowing, as long as the
    proportional product fits 64 bits. *)
Lemma release_split r amount :
  0 <= ar_units r -> 0 <= ar_borrow_units r -> 0 <= amount <= ar_units r -> ar_units r <= u64_max ->
  effective_borrow r * amount <= u64_max ->
  0 <= released_borrow r amount <= amount /\
  released_borrow r amount <= effective_borrow r /\
  effective_borrow r - released_borrow r amount <= ar_units r - amount.
Proof.
  intros Hu Hb Ha Hm Hprod. pose proof (effective_borrow_min r) as He. unfold released_borrow.
  destruct (Z.eqb_spec amount (ar_units r)) as [->|Hne]; [lia|].
  rewrite mul64_exact by nia. set (eb := effective_borrow r) in *. set (u := ar_units r) in *.
  assert (0 < u) by lia. assert (0 <= eb <= u) by lia.
  pose proof (Z.mul_div_le (eb * amount) u ltac:(lia)). pose proof (Z.mul_succ_div_gt (eb * amount) u ltac:(lia)).
  set (q := eb * amount / u) in *. split; [split; [apply Z.div_pos; nia|]|]; nia.
Qed.

Lemma release_part s t k e amount :
  Inv s -> im_allocations s !! k = Some (tg_record t) -> im_pools s !! ar_pool (tg_record t) = Some e ->
  allocation_holds_units (ar_state (tg_record t)) = true -> 0 <= amount <= ar_units (tg_record t) ->
  effective_borrow (tg_record t) * amount <= u64_max ->
  part_of s (tg_record t) (released_part t amount) (remainder_part t amount).
Proof.
  set (r := tg_record t). intros HI Hk He Hh Ha Hprod. pose proof (inv_books s HI) as HB.
  pose proof (bk_id _ _ HB k r Hk) as Hid. pose proof (bk_record _ _ HB k r Hk) as [Hu Hb Hp Hl].
  assert (ar_units r <= u64_max) as Hmax.
  { pose proof (share_le_counter HB FReserved _ e k r He Hk) as H1. pose proof (share_le_counter HB FCommitted _ e k r He Hk) as H2.
    pose proof (counter_bound HB FReserved _ e He) as H3. pose proof (counter_bound HB FCommitted _ e He) as H4.
    unfold kMaxOwnUsage in *. shares. unfold here in *. rewrite Hh, Z.eqb_refl in *. destruct (is_reserved r); simpl in *; u64_lia. }
  destruct (release_split r amount Hu Hb Ha Hmax Hprod) as (Hrb & Hrbe & Hrest).
  assert (effective_borrow (released_part t amount) = released_borrow r amount) as Heb1.
  { rewrite effective_borrow_min. simpl. fold r. lia. }
  assert (ar_units (remainder_part t amount) = ar_units r - amount) as Hru.
  { unfold remainder_part. fold r. case_match; simpl; rewrite sub64_exact; u64_lia. }
  assert (ar_units r - amount = 0 /\ allocation_holds_units (ar_state (remainder_part t amount)) = false /\
      ar_borrow_units (remainder_part t amount) = 0 \/
    ar_units r - amount <> 0 /\ remainder_part t amount = touched t (r <| ar_units := ar_units r - amount |>
      <| ar_borrow_units := effective_borrow r - released_borrow r amount |>)) as Hcases.
  { unfold remainder_part. fold r. simpl. rewrite (sub64_exact (ar_units r)), (sub64_exact (effective_borrow r)) by u64_lia.
    destruct (Z.eqb_spec (ar_units r - amount) 0); [left|right]; done. }
  assert (effective_borrow r <> 0 -> valid (ar_lender r) = true /\ is_Some (im_pools s !! ar_lender r) /\
    ar_lender r <> ar_pool r) as Hl' by auto.
  split; [by simpl; fold r; rewrite Hid|by unfold remainder_part; case_match|done|done| | | |].
  - intros Hz. apply Hl'. lia.
  - split; simpl; fold r; [lia|lia|auto|]. intros _ Hz. apply Hl'. rewrite Heb1 in Hz. lia.
  - split; [lia| | |].
    + destruct Hcases as [(_ & _ & ->)|(_ & ->)]; simpl; lia.
    + intros _. replace (ar_pool (remainder_part t amount)) with (ar_pool r) by (unfold remainder_part; by case_match). auto.
    + destruct Hcases as [(_ & Hno & _)|(_ & ->)]; [by rewrite Hno|]. intros _ Hz. apply Hl'.
      rewrite effective_borrow_min in Hz. simpl in Hz. lia.
  - intros f p. destruct Hcases as [(Hz & Hno & _)|(Hz & Hrest')].
    + rewrite (share_idle f p (remainder_part t amount)) by done. replace amount with (ar_units r) in * by lia.
      assert (released_borrow r (ar_units r) = effective_borrow r) as Hrb' by (unfold released_borrow; by rewrite Z.eqb_refl).
      rewrite Hrb' in Heb1. destruct f; unfold share; rewrite ?Heb1; simpl; fold r; unfold here, lends, is_reserved, is_pinned; simpl; fold r; lia.
    + assert (effective_borrow (remainder_part t amount) = effective_borrow r - released_borrow r amount) as Heb2.
      { rewrite effective_borrow_min, Hrest'. simpl. lia. }
      destruct f; unfold share; rewrite ?Heb1, ?Heb2, ?Hrest'; unfold here, lends, is_reserved, is_pinned; simpl; fold r;
        unfold only; repeat case_match; lia.
Qed.

(** A release: [amount] units are taken out of the record, all of them when it is terminal. *)
Definition released (rq : ReleaseRequest) (s : Impl) (r : AllocationRecord) (s' : Impl) : Prop :=
  exists amount rest, allocation_holds_units (ar_state r) = true /\ 0 <= amount <= ar_units r /\
    (if rq_release_all rq then amount = ar_units r else amount = rq_units rq /\ amount <> 0) /\
    ar_id rest = ar_id r /\ ar_pool rest = ar_pool r /\ ar_units rest = ar_units r - amount /\
    ar_state rest = (if decide (amount = ar_units r) then AllocationState.Released else ar_state r) /\
    updated s (rq_allocation rq) rest s'.

Definition release_done (rq : ReleaseRequest) (s s' : Impl) : Prop :=
  exists r, im_allocations s !! rq_allocation rq = Some r /\
    (allocation_holds_units (ar_state r) = false /\ quiet s s' \/ released rq s r s').

(** The invariant survives a failed release, unless it was the journal that failed: its
    write comes after the counters of the pools have been lowered. *)
Definition kept_unless_journal_failed (s : Impl) (st : Status) (s' : Impl) : Prop :=
  Inv s' \/ exists r pools, journal_allocation JournalOp.AllocationReleased r (s <| im_pools := pools |>) = (Bad st, s').

(** Without durability no journal write fails. *)
Lemma encode_allocation_ok r : wr_failed (encode_allocation r writer_empty) = false.
Proof. reflexivity. Qed.

Lemma kept_without_journal s st s' : durable s = false -> kept_unless_journal_failed s st s' -> Inv s'.
Proof.
  intros Hd [HI|(r & pools & Hj)]; [done|]. revert Hj. unfold journal_allocation, journal_encoded.
  rewrite encode_allocation_ok. unfold journal, sm_bind, sm_get. change (durable (s <| im_pools := pools |>)) with (durable s).
  by rewrite Hd.
Qed.

Lemma wp_release_amount rq r s (Q : Z -> Impl -> Prop) (E : Status -> Impl -> Prop) :
  0 <= ar_units r -> 0 <= rq_units rq -> (forall e, E e s) ->
  (forall amount, 0 <= amount <= ar_units r ->
     (if rq_release_all rq then amount = ar_units r else amount = rq_units rq /\ amount <> 0) -> Q amount s) ->
  wp (release_amount rq r) s Q E.
Proof.
  intros Hu Hq HE HQ. unfold release_amount. destruct (rq_release_all rq); [apply HQ; lia|].
  apply wp_bind, wp_reject; [by intros; apply HE|]. intros Hz. apply wp_bind, wp_reject; [by intros; apply HE|].
  intros Hle. apply HQ; lia.
Qed.

Lemma remainder_facts t amount :
  0 <= amount <= ar_units (tg_record t) -> ar_units (tg_record t) <= u64_max ->
  let rest := remainder_part t amount in
  ar_id rest = ar_id (tg_record t) /\ ar_pool rest = ar_pool (tg_record t) /\
  ar_units rest = ar_units (tg_record t) - amount /\
  ar_state rest = if decide (amount = ar_units (tg_record t)) then AllocationState.Released else ar_state (tg_record t).
Proof.
  intros Ha Hm. unfold remainder_part. simpl. rewrite sub64_exact by u64_lia.
  destruct (Z.eqb_spec (ar_units (tg_record t) - amount) 0), (decide (amount = ar_units (tg_record t)));
    try lia; done.
Qed.

Lemma record_units_small s k r e :
  Inv s -> im_allocations s !! k = Some r -> im_pools s !! ar_pool r = Some e ->
  allocation_holds_units (ar_state r) = true -> 0 <= ar_units r <= kMaxOwnUsage + kMaxUnitsPerPool.
Proof.
  intros HI Hk He Hh. pose proof (inv_books s HI) as HB. pose proof (ro_units _ _ (bk_record _ _ HB k r Hk)).
  pose proof (share_le_counter HB FReserved _ e k r He Hk) as H1. pose proof (share_le_counter HB FCommitted _ e k r He Hk) as H2.
  pose proof (counter_bound HB FReserved _ e He) as H3. pose proof (counter_bound HB FCommitted _ e He) as H4.
  shares. unfold here in *. rewrite Hh, Z.eqb_refl in *. destruct (is_reserved r); simpl in *; lia.
Qed.

Lemma release_target_outcome rq s t e kind attempt digest :
  Inv s -> target_ok s kind attempt digest (rq_allocation rq) t e -> 0 <= rq_units rq ->
  effective_borrow (tg_record t) * ar_units (tg_record t) <= u64_max ->
  wp (release_target rq t) s (fun _ => release_done rq s) (kept_unless_journal_failed s).
Proof.
  intros HI [(_ & _ & _ & Hkey) _ Hr He Hpol _ _] Hrq Hprod. unfold release_target. cbv zeta.
  set (r := tg_record t) in *.
  destruct (allocation_holds_units (ar_state r)) eqn:Hh.
  2: { replace (allocation_is_terminal (ar_state r) || bool_decide (ar_state r = AllocationState.Fenced)) with true
         by (by destruct (ar_state r)).
       eapply wp_mono; [apply (within (R := quiet))| |]; intros ? s' Hq; [exists r; auto|left; by rewrite <- Hq]. }
  replace (allocation_is_terminal (ar_state r) || bool_decide (ar_state r = AllocationState.Fenced)) with false
    by (by destruct (ar_state r)).
  pose proof (record_units_small s _ r e HI Hr He Hh) as Hsm. unfold kMaxOwnUsage in Hsm.
  assert (ar_units r <= u64_max) as Hmax by u64_lia.
  destruct (bk_record _ _ (inv_books s HI) _ r Hr) as [Hu Hb _ _].
  wp_step. apply wp_release_amount; [done|done|by left|]. intros amount Ha Hamount.
  assert (effective_borrow r * amount <= u64_max) as Hprod'.
  { pose proof (effective_borrow_min r). assert (0 <= effective_borrow r) by lia. nia. }
  pose proof (release_part s t _ e amount HI Hr He Hh Ha Hprod') as Hpart.
  destruct (apply_release_ok s _ _ _ HI Hpart) as (pools & Hrel & Hpools).
  destruct (remainder_facts t amount Ha Hmax) as (Hid & Hpl & Hun & Hst).
  assert (allocation_holds_units (ar_state (remainder_part t amount)) = true -> 0 < ar_units (remainder_part t amount)) as Hpos.
  { rewrite Hst, Hun. fold r. clear Hst. case_decide; [done|]. intros _. lia. }
  pose proof (released_inv s _ _ _ pools HI Hpart Hpools Hpos) as HI1.
  apply wp_bind. unfold wp at 1. 
  change (apply_release_units (ar_pool r)) with (apply_release_units (ar_pool (released_part t amount))). rewrite Hrel.
  set (rest := remainder_part t amount) in *. set (s1 := s <| im_pools := pools |>) in *. apply wp_bind.
  pose proof (within (R := logged) (m := journal_allocation JournalOp.AllocationReleased rest) s1) as HJ.
  destruct (journal_allocation JournalOp.AllocationReleased rest s1) as [[[]|je] s2] eqn:HJrun; unfold wp in HJ; unfold wp at 1;
    rewrite HJrun in *.
  2: { right. by exists rest, pools. }
  destruct HJ as (d & m & ->). apply wp_bind. unfold wp at 1. rewrite Hkey, (update_allocation_eq _ r) by done.
  set (s3 := _ <| im_allocations ::= _ |>).
  assert (updated s (rq_allocation rq) rest s3) as Hup.
  { split; [done|]. split; [|done].
    assert (quiet (s <| im_pools := pools |> <| im_allocations ::= <[ar_id rest := rest]> |>) s3) as Hq.
    { subst s3 s1. replace (rq_allocation rq) with (ar_id rest); [reflexivity|].
      rewrite Hid. exact (bk_id _ _ (inv_books s HI) _ r Hr). }
    by rewrite <- Hq. }
  clearbody s3. unfold count_release. eapply wp_mono; [by apply (finish_update s (rq_allocation rq) rest s3)| |by left].
  intros d' s4 H. exists r. split; [done|]. right. exists amount, rest. done.
Qed.

(** ** Revalidation *)

(** [r'] is [r] bound to the generations of now. *)
Record rebound_as (s : Impl) (e : PoolEntry) (p : PoolPolicy) (q : QueueDescriptor) (r r' : AllocationRecord) : Prop := {
  rb_same : ar_id r' = ar_id r /\ ar_pool r' = ar_pool r /\ ar_units r' = ar_units r /\ ar_queue r' = ar_queue r /\
    ar_state r' = ar_state r /\ ar_reclaim_class r' = ar_reclaim_class r /\ ar_lender r' = ar_lender r /\
    ar_borrow_units r' = ar_borrow_units r;
  rb_bound : ar_bound r' = mkBoundGenerations (pd_generation (en_descriptor e)) (qd_generation q) (pol_generation p)
    (en_capacity_generation e) (bg_backend_generation (ar_bound r)) (im_epoch s) (im_boot s)
}.

Lemma rebound_inv s k r r' e p q :
  Inv s -> im_allocations s !! k = Some r -> rebound_as s e p q r r' -> Inv (s <| im_allocations ::= <[k := r']> |>).
Proof.
  intros [HB Hids Hn Hpol Hly Hlv] Hk [(Hid & Hp & Hu & Hq & Hst & Hcl & Hl & Hb) _].
  pose proof (bk_id _ _ HB k r Hk) as Hidk. pose proof (bk_record _ _ HB k r Hk) as [Hu0 Hb0 Hp0 Hl0].
  assert (effective_borrow r' = effective_borrow r) as Heb by (by rewrite !effective_borrow_min, Hb, Hu).
  assert (forall f p, share f p r' = share f p r) as Hsh.
  { intros f p0. unfold share, here, lends, is_reserved, is_pinned. by rewrite Heb, Hp, Hu, Hq, Hst, Hcl, Hl. }
  split; simpl; [|intros j x Hj; apply lookup_insert_Some in Hj as [[<- _]|[_ Hj]]; eauto|done|done|done|].
  2: { intros j x Hj. apply lookup_insert_Some in Hj as [[<- <-]|[_ Hj]]; [|eauto]. rewrite Hst, Hu. eauto. }
  rewrite <- Hidk, <- Hid. apply (books_update (im_pools s)); [done| |done|].
  - split; [by rewrite Hu|by rewrite Hb|by rewrite Hst, Hp|by rewrite Hst, Heb, Hl, Hp].
  - rewrite Hid, Hidk, Hk. intros p0 e0 He0. exists e0. split; [done|].
    pose proof (bk_entry _ _ HB p0 e0 He0) as [_ _ Ho Hbo Hm]. split; [done| |done|done|].
    + intros f. simpl. rewrite Hsh. lia.
    + intros j Hj. case_decide; [|done]. subst j. destruct (Hm _ Hj) as (r0 & Hr0 & Hh). rewrite Hk in Hr0.
      injection Hr0 as <-. unfold here in *. by rewrite Hst, Hp.
Qed.

Definition revalidated (s : Impl) (k : Z) (d : Decision) (s' : Impl) : Prop :=
  exists r e p q, im_allocations s !! k = Some r /\ allocation_holds_units (ar_state r) = true /\
    im_pools s !! ar_pool r = Some e /\ im_policies s !! pd_policy (en_descriptor e) = Some p /\
    im_queues s !! ar_queue r = Some q /\
    if is_stale_binding r e p (im_epoch s)
    then dc_kind d = DecisionKind.Fence /\ dc_status d = ErrorCode.StaleGeneration /\ quiet s s'
    else exists r', rebound_as s e p q r r' /\ updated s k r' s'.

Lemma decide_on_reports pool queue queue_generation policy ev stamp attempt provenance kind code reason requested granted
    allocation binding intent s :
  wp (decide_on pool queue queue_generation policy ev stamp attempt provenance kind code reason requested granted
      allocation binding intent) s
    (fun d s' => quiet s s' /\ reports d kind code granted allocation) (fun _ => quiet s).
Proof.
  unfold decide_on. apply wp_bind, wp_pool_ref; [done|]. intros e He. do 2 wp_step. cbv zeta.
  unfold wp, sm_bind, record_decision, next_sequence, modify, sm_modify, ret, sm_ret. done.
Qed.

Lemma revalidate_target_outcome s t e kind attempt digest allocation :
  Inv s -> target_ok s kind attempt digest allocation t e ->
  wp (revalidate_target t) s (revalidated s allocation) (fun _ => sound s).
Proof.
  intros HI [(_ & _ & _ & Hkey) _ Hr He Hpol Hq _]. unfold revalidate_target. cbv zeta.
  apply wp_bind, wp_pool_ref; [done|]. intros e0 He0. assert (e0 = e) as -> by congruence. do 2 wp_step.
  apply wp_bind, wp_reject; [done|]. intros Hh%negb_false_iff. apply wp_bind, wp_reject; [done|]. intros _.
  destruct (is_stale_binding (tg_record t) e (tg_policy t) (im_epoch s)) eqn:Hstale.
  - unfold answer. eapply wp_mono; [apply decide_on_reports| |intros ? s' Hq'; by eapply sound_quiet].
    intros d s' [Hq' (Hk & Hs & _)]. exists (tg_record t), e, (tg_policy t), (tg_queue t). split_and!; try done.
    by rewrite Hstale.
  - set (next := rebound t e (im_epoch s) (im_boot s)).
    assert (rebound_as s e (tg_policy t) (tg_queue t) (tg_record t) next) as Hre by done.
    apply wp_bind. eapply wp_mono; [apply (within (R := logged))| |intros ? s1 Hl; eapply sound_quiet; [done|by apply logged_quiet]].
    intros [] s1 Hlog. pose proof Hlog as (d & m & ->).
    set (s0 := s <| im_store := d |> <| im_metrics := m |>) in *.
    assert (Inv s0) as HI0 by (by rewrite <- (logged_quiet _ _ Hlog)).
    assert (rebound_as s0 e (tg_policy t) (tg_queue t) (tg_record t) next) as Hre0 by done.
    pose proof (rebound_inv s0 allocation (tg_record t) next e (tg_policy t) (tg_queue t) HI0 Hr Hre0) as HI1.
    apply wp_bind. unfold wp at 1. rewrite Hkey, (update_allocation_eq allocation (tg_record t)) by done.
    set (s1 := s0 <| im_allocations ::= _ |>) in *.
    assert (updated s allocation next s1) as Hup by done. clearbody s1.
    eapply wp_mono; [apply (within (R := quiet))| |]; intros ? s2 Hq'.
    + exists (tg_record t), e, (tg_policy t), (tg_queue t). split_and!; try done. rewrite Hstale.
      exists next. split; [done|]. by eapply updated_quiet.
    + eapply sound_quiet; [apply Hup|done].
Qed.

(** The three operations on one allocation, as outcomes. *)
Lemma commit_locked_outcome rq s :
  Inv s -> wp (commit_locked rq) s
    (fun d s' => replayed s (cq_attempt rq) (commit_digest rq) d s' \/ committed s (cq_allocation rq) s') (fun _ => Inv).
Proof.
  intros HI. unfold commit_locked. apply wp_on_target; [done|by left|]. intros t e Ht.
  eapply wp_mono; [by eapply commit_target_outcome| |done]. by right.
Qed.

Lemma release_locked_outcome rq s :
  Inv s -> 0 <= rq_units rq ->
  (forall r, im_allocations s !! rq_allocation rq = Some r -> effective_borrow r * ar_units r <= u64_max) ->
  wp (release_locked rq) s
    (fun d s' => replayed s (rq_attempt rq) (release_digest rq) d s' \/ release_done rq s s') (kept_unless_journal_failed s).
Proof.
  intros HI Hq Hfit. unfold release_locked. apply wp_on_target; [by left|by left|]. intros t e Ht.
  eapply wp_mono; [eapply release_target_outcome; [done..|apply Hfit, Ht]| |done]. by right.
Qed.

Lemma revalidate_locked_outcome rq s :
  Inv s -> wp (revalidate_locked rq) s
    (fun d s' => replayed s (vq_attempt rq) (revalidate_digest rq) d s' \/ revalidated s (vq_allocation rq) d s')
    (fun _ => sound s).
Proof.
  intros HI. unfold revalidate_locked. apply wp_on_target; [by intros; destruct HI; split|by left|]. intros t e Ht.
  eapply wp_mono; [by eapply revalidate_target_outcome| |done]. by right.
Qed.

(** A replay keeps the books. *)
Lemma replayed_sound s attempt digest d s' : Inv s -> replayed s attempt digest d s' -> sound s s'.
Proof. intros [] (a & _ & _ & _ & _ & _ & ->). by split. Qed.

Lemma revalidated_sound s k d s' : Inv s -> revalidated s k d s' -> sound s s'.
Proof.
  intros HI (r & e & p & q & _ & _ & _ & _ & _ & H).
  case_match; [destruct H as (_ & _ & Hq); by eapply (sound_quiet s s)|by destruct H as (r' & _ & _ & ?)].
Qed.

(** ** Properties *)

(** C19. Fencing a pool is sound and complete on its members, where stale means what the code
    compares: another pool generation, capacity revision, policy generation or epoch than the
    current one (not another queue or backend generation, which [README.md] counts as stale
    too). Whatever the outcome the books
    still balance; and when it succeeds, every member that held units and was stale is Fenced
    with the units it had and no longer counted, no member that still holds units is stale,
    and no other record of the table changed. *)
Theorem fence_stale_locked_complete (pool : Z) (s s' : Impl) (res : Result Decision) :
  Inv s -> fence_stale_locked pool s = (res, s') ->
  sound s s' /\
  forall d, res = Good d -> exists e p,
    im_pools s !! pool = Some e /\ im_policies s !! pd_policy (en_descriptor e) = Some p /\
    swept (select_stale p) AllocationState.Fenced pool (sorted_members e) s s' /\
    forall k r', k ∈ en_members e -> im_allocations s' !! k = Some r' -> allocation_holds_units (ar_state r') = true ->
      is_stale_binding r' e p (im_epoch s) = false.
Proof.
  intros HI Hrun. apply (wp_run _ _ _ _ _ _ (fence_stale_outcome pool s HI)) in Hrun. destruct res as [d|st].
  - destruct Hrun as (e & p & He & Hp & Hsw). split; [apply Hsw|]. intros _ _. exists e, p. split_and!; try done.
    intros k r' Hk Hr' Hh. destruct (swept_none _ AllocationState.Fenced _ _ _ _ _ _ (selection_stale p) eq_refl He Hsw Hk Hr' Hh) as [_ Hs].
    unfold select_stale in Hs. by rewrite Hh in Hs.
  - by split.
Qed.

(** Expiry is sound and exact on the members: whatever the outcome the books still
    balance; and when it succeeds, every reserved member past its expiry is Expired and no
    longer counted, no reserved member is left whose expiry has come, and no other record of
    the table changed. *)
Theorem expire_reservations_locked_exact (pool : Z) (s s' : Impl) (res : Result Decision) :
  Inv s -> expire_reservations_locked pool s = (res, s') ->
  sound s s' /\
  forall d, res = Good d -> exists e p,
    im_pools s !! pool = Some e /\ im_policies s !! pd_policy (en_descriptor e) = Some p /\
    swept (select_expired p) AllocationState.Expired pool (sorted_members e) s s' /\
    forall k r', k ∈ en_members e -> im_allocations s' !! k = Some r' -> ar_state r' = AllocationState.Reserved ->
      expiry_of p r' = 0 \/ im_tick s < expiry_of p r'.
Proof.
  intros HI Hrun. apply (wp_run _ _ _ _ _ _ (expire_outcome pool s HI)) in Hrun. destruct res as [d|st].
  - destruct Hrun as (e & p & He & Hp & Hsw). split; [apply Hsw|]. intros _ _. exists e, p. split_and!; try done.
    intros k r' Hk Hr' Hst.
    destruct (swept_none _ AllocationState.Expired _ _ _ _ k r' (selection_expired p) eq_refl He Hsw Hk Hr') as [_ Hs];
      [by rewrite Hst|].
    unfold select_expired in Hs. rewrite bool_decide_eq_true_2 in Hs by done. simpl in Hs.
    apply negb_false_iff, orb_true_iff in Hs as [Hs%Z.eqb_eq|Hs%Z.ltb_lt]; auto.
  - by split.
Qed.

(** C11. A commit answers or changes one record: whatever the outcome the books balance; and a
    request that succeeds either replays the remembered answer of its attempt or moves one
    Reserved record to Committed with the units it had, no other record changing and the
    fabric not being stopped. The record was then bound to the current generation of its pool,
    capacity revision, policy generation and epoch; the generations of its queue and of its
    backend are recorded with it but not compared, although [README.md] says that an advance
    of any bound generation invalidates an allocation. *)
Theorem commit_locked_exact (rq : CommitRequest) (s s' : Impl) (res : Result Decision) :
  Inv s -> commit_locked rq s = (res, s') ->
  match res with
  | Good d => replayed s (cq_attempt rq) (commit_digest rq) d s' \/ committed s (cq_allocation rq) s'
  | Bad _ => Inv s'
  end.
Proof.
  intros HI Hrun. exact (wp_run _ _ _ _ _ _ (commit_locked_outcome rq s HI) Hrun).
Qed.

(** C10. A release answers or changes one record: as long as the borrowed units times the
    units of the record fit 64 bits, a request that succeeds either replays the remembered
    answer, finds a record that holds nothing and does nothing, or takes exactly the asked
    units out of the record, all of them making it Released, with every counter still exact;
    one that fails keeps the books unless it is the journal write that failed. *)
Theorem release_locked_exact (rq : ReleaseRequest) (s s' : Impl) (res : Result Decision) :
  Inv s -> 0 <= rq_units rq ->
  (forall r, im_allocations s !! rq_allocation rq = Some r -> effective_borrow r * ar_units r <= u64_max) ->
  release_locked rq s = (res, s') ->
  match res with
  | Good d => replayed s (rq_attempt rq) (release_digest rq) d s' \/ release_done rq s s'
  | Bad st => kept_unless_journal_failed s st s'
  end.
Proof.
  intros HI Hq Hfit Hrun. exact (wp_run _ _ _ _ _ _ (release_locked_outcome rq s HI Hq Hfit) Hrun).
Qed.

(** C18. Revalidation never moves units, and only speaks of records that hold them: whatever the
    outcome the books balance and the fabric runs on; a request that succeeds replays the
    remembered answer of its attempt, or answers Fence for a record whose pool generation,
    capacity revision, policy generation or epoch is outdated and changes no table but the
    memory of attempts, or binds the
    one record, which holds units, to the current generations of its pool, queue, policy and
    capacity, to the epoch and to the boot incarnation, leaving the backend generation it was
    bound to, its units, state and lender alone. A fenced record is never revalidated, since
    it holds none (the comment on the state Fenced in [allocation.hpp] says otherwise). *)
Theorem revalidate_locked_exact (rq : RevalidateRequest) (s s' : Impl) (res : Result Decision) :
  Inv s -> revalidate_locked rq s = (res, s') ->
  sound s s' /\
  forall d, res = Good d ->
    replayed s (vq_attempt rq) (revalidate_digest rq) d s' \/ revalidated s (vq_allocation rq) d s'.
Proof.
  intros HI Hrun. apply (wp_run _ _ _ _ _ _ (revalidate_locked_outcome rq s HI)) in Hrun.
  destruct res as [d|e]; [|by split]. split; [|by intros ? [= ->]].
  destruct Hrun; [by eapply replayed_sound|by eapply revalidated_sound].
Qed.

(** ** The small fabric again *)

Lemma Inv_clock s tick epoch : Inv s -> Inv (s <| im_tick := tick |> <| im_epoch := epoch |>).
Proof. intros []. by split. Qed.

(** The small fabric after a reservation of 100 units, 20 of them borrowed from pool 1. *)
Definition sample_reserve : AllocateRequest := sample_request 1 100 <| aq_commit_immediately := false |>.
Definition sample_reserved : Impl := snd (allocate_locked sample_reserve sample_state).

Lemma sample_reserved_inv : Inv sample_reserved.
Proof. apply (allocate_keeps sample_reserve); [apply sample_inv|done]. Qed.

(** The same at a later time, and in a later epoch. *)
Definition sample_later (tick epoch : Z) : Impl := sample_reserved <| im_tick := tick |> <| im_epoch := epoch |>.

Lemma sample_later_inv tick epoch : Inv (sample_later tick epoch).
Proof. apply Inv_clock, sample_reserved_inv. Qed.

Definition succeeds {A} (m : M A) (s : Impl) : bool := result_ok (fst (m s)).

Lemma succeeds_run {A} (m : M A) s : succeeds m s = true -> exists a s', m s = (Good a, s').
Proof. unfold succeeds. destruct (m s) as [[a|e] s']; [by exists a, s'|done]. Qed.

Lemma fence_stale_locked_complete_witness :
  exists s', snd (fence_stale_locked 2 (sample_later 10 2)) = s' /\ sound (sample_later 10 2) s' /\
    exists e p, swept (select_stale p) AllocationState.Fenced 2 (sorted_members e) (sample_later 10 2) s'.
Proof.
  assert (succeeds (fence_stale_locked 2) (sample_later 10 2) = true) as (d & s' & Hrun)%succeeds_run by (vm_compute; reflexivity).
  rewrite Hrun. exists s'. split; [done|].
  destruct (fence_stale_locked_complete 2 (sample_later 10 2) s' (Good d) (sample_later_inv 10 2) Hrun) as [HS H].
  destruct (H d eq_refl) as (e & p & _ & _ & Hsw & _). split; [done|]. by exists e, p.
Defined.

Lemma expire_reservations_locked_exact_witness :
  exists s', snd (expire_reservations_locked 2 (sample_later 30000000010 1)) = s' /\
    exists e p, swept (select_expired p) AllocationState.Expired 2 (sorted_members e) (sample_later 30000000010 1) s'.
Proof.
  assert (succeeds (expire_reservations_locked 2) (sample_later 30000000010 1) = true) as (d & s' & Hrun)%succeeds_run
    by (vm_compute; reflexivity).
  rewrite Hrun. exists s'. split; [done|].
  destruct (expire_reservations_locked_exact 2 (sample_later 30000000010 1) s' (Good d) (sample_later_inv 30000000010 1) Hrun)
    as [_ H].
  destruct (H d eq_refl) as (e & p & _ & _ & Hsw & _). by exists e, p.
Defined.

Definition sample_commit : CommitRequest := default_CommitRequest <| cq_attempt := 2 |> <| cq_allocation := 1 |>.
Definition sample_release (units : Z) : ReleaseRequest :=
  default_ReleaseRequest <| rq_attempt := 2 |> <| rq_allocation := 1 |> <| rq_units := units |>
    <| rq_release_all := units =? 0 |>.
Definition sample_revalidate : RevalidateRequest :=
  default_RevalidateRequest <| vq_attempt := 2 |> <| vq_allocation := 1 |>.

Lemma commit_locked_exact_witness :
  exists d s', commit_locked sample_commit (sample_later 10 1) = (Good d, s') /\
    (replayed (sample_later 10 1) 2 (commit_digest sample_commit) d s' \/ committed (sample_later 10 1) 1 s').
Proof.
  assert (succeeds (commit_locked sample_commit) (sample_later 10 1) = true) as (d & s' & Hrun)%succeeds_run
    by (vm_compute; reflexivity).
  exists d, s'. split; [done|]. exact (commit_locked_exact sample_commit _ s' (Good d) (sample_later_inv 10 1) Hrun).
Defined.

Lemma release_locked_exact_witness :
  exists d s', release_locked (sample_release 40) (sample_later 10 1) = (Good d, s') /\
    (replayed (sample_later 10 1) 2 (release_digest (sample_release 40)) d s' \/
     release_done (sample_release 40) (sample_later 10 1) s').
Proof.
  assert (succeeds (release_locked (sample_release 40)) (sample_later 10 1) = true) as (d & s' & Hrun)%succeeds_run
    by (vm_compute; reflexivity).
  assert (exists r, im_allocations (sample_later 10 1) !! 1 = Some r /\ effective_borrow r * ar_units r <= u64_max)
    as (r & Hr & Hfit) by (eexists; split; [vm_compute; reflexivity|vm_compute; discriminate]).
  exists d, s'. split; [done|].
  apply (release_locked_exact (sample_release 40) _ s' (Good d) (sample_later_inv 10 1)); [done| |done].
  simpl rq_allocation. intros r0 Hr0. rewrite Hr in Hr0. by injection Hr0 as <-.
Defined.

Lemma revalidate_locked_exact_witness :
  exists d s', revalidate_locked sample_revalidate (sample_later 10 1) = (Good d, s') /\ sound (sample_later 10 1) s'.
Proof.
  assert (succeeds (revalidate_locked sample_revalidate) (sample_later 10 1) = true) as (d & s' & Hrun)%succeeds_run
    by (vm_compute; reflexivity).
  exists d, s'. split; [done|]. by apply (revalidate_locked_exact sample_revalidate _ s' (Good d) (sample_later_inv 10 1)).
Defined.

(** After a partial release the record still holds units and is counted, but its pool no
    longer lists it as a member: fencing and expiry pass it by. *)
Example partial_release_forgets_member :
  let s' := snd (release_locked (sample_release 40) (sample_later 10 1)) in
  (ar_units <$> im_allocations s' !! 1) = Some 60 /\ (en_reserved_units <$> im_pools s' !! 2) = Some 60 /\
  (sorted_members <$> im_pools s' !! 2) = Some [].
Proof. vm_compute. split_and!; reflexivity. Qed.
