(* ===== verification/Topology.v ===== *)
(** * Capacity, policies, pools and queues

    [src/fabric_topology.cpp]: publishing authoritative capacity and policies, registering,
    resizing and removing pools, registering, retiring and retargeting queues, and taking in
    pressure observations. Each public operation runs under the fabric lock, which first
    sets the time; [operation] is that lock. *)

From S2P Require Import Prelude Ints Hash Enums Status Codec Model Wire Policy Accounting Authority Persist State Grant Alloc Lifecycle.

(** ** Boot incarnations *)

Definition mix64 (x : Z) : Z :=
  let x := Z.lxor x (Z.shiftr x 33) in
  let x := mul64 x 0xff51afd7ed558ccd in
  let x := Z.lxor x (Z.shiftr x 33) in
  let x := mul64 x 0xc4ceb9fe1a85ec53 in
  Z.lxor x (Z.shiftr x 33).

(** From the process's boot counter, the clock and the address of the fabric. *)
Definition mint_boot (counter ticks wall entropy : Z) : BootIncarnation :=
  let sequence := add64 counter 1 in
  let hi := mix64 (Z.lxor (Z.lxor ticks (mix64 wall)) (mix64 entropy)) in
  let lo := mix64 (Z.lxor (Z.lxor sequence (mix64 (add64 ticks 0x9E3779B97F4A7C15))) entropy) in
  if (hi =? 0) && (lo =? 0) then mkBootIncarnation hi 1 else mkBootIncarnation hi lo.

(** ** The lock and the gates *)

(** The time is set and the operation's event vector is empty before [m] runs. *)
Definition operation {A} (now : Z) (m : M A) : M A :=
  modify (fun s => s <| im_tick := now |> <| im_events := [] |>) ;;; m.

Definition require_open : M unit :=
  let* s := sm_get in
  reject_when (negb (im_open s)) ErrorCode.LifecycleViolation "fabric is not open".

Definition refuse_after_shutdown : M unit :=
  let* s := sm_get in
  reject_when (im_shutting_down s && fc_refuse_work_after_shutdown (im_config s)) ErrorCode.ShuttingDown
    "fabric is shutting down".

(** An id taken from the caller, or the next one; ids at or past the next one move it on. *)
Definition claim_id (next : Impl -> Z) (set_next : Z -> Impl -> Impl) (requested : Z) (message : string) : M Z :=
  let* n := gets next in
  let id := if valid requested then requested else n in
  if n <=? id then
    let* m := checked_add id 1 message in
    modify (set_next m) ;;; ret id
  else ret id.

(** [add_overflow(g, 1, &next) || next == 0]. *)
Definition next_generation (g : Z) (message : string) : M Z :=
  let '(o, out) := add_overflow g 1 in
  if o || (out =? 0) then raise ErrorCode.Overflow message else ret out.

(** The raw units of the pools that [keep] selects, refusing a total that overflows. *)
Fixpoint sum_raw (keep : PoolDescriptor -> bool) (message : string) (entries : list PoolEntry) (acc : Z) : M Z :=
  match entries with
  | [] => ret acc
  | e :: rest =>
      if keep (en_descriptor e) then
        let* acc := checked_add acc (pd_raw_units (en_descriptor e)) message in
        sum_raw keep message rest acc
      else sum_raw keep message rest acc
  end.

Definition partitioned (resource : Z) (message : string) : M Z :=
  let* s := sm_get in
  sum_raw (fun d => pd_resource d =? resource) message (values (im_pools s)) 0.

(** ** Capacity authority *)

Record CapacityAuthority := mkCapacityAuthority {
  ca_resource : Z; ca_backend : Z; ca_generation : Z; ca_raw_units : Z; ca_observed_at : Z; ca_authoritative : bool
}.

Definition ca_usable (a : CapacityAuthority) : bool :=
  ca_authoritative a && valid (ca_resource a) && valid (ca_generation a).

(** A backend as one call of [set_capacity] sees it: each method is called at most once. *)
Record IBackend := mkIBackend {
  ib_ready : bool;
  ib_query_capacity : Z -> Result CapacityAuthority;
  ib_program_reservation : Z -> Z -> Z -> Result unit
}.

(** First under the lock: the backend. [attached] is the pointer each entry holds. *)
Definition capacity_backend (attached : Z -> option IBackend) (resource backend_id : Z) : M IBackend :=
  reject_when (negb (valid resource)) ErrorCode.InvalidArgument "resource id must be non-zero" ;;;
  reject_when (negb (valid backend_id)) ErrorCode.InvalidArgument "backend id must be non-zero" ;;;
  require_open ;;;
  let* s := sm_get in
  let* _ := require (im_backends s !! backend_id) ErrorCode.UnknownBackend "backend is not attached" in
  require (attached backend_id) ErrorCode.UnknownBackend "backend is not attached".

(** Without the lock: what the backend vouches for. *)
Definition capacity_query (backend : IBackend) (resource : Z) : M CapacityAuthority :=
  reject_when (negb (ib_ready backend)) ErrorCode.BackendNotReady "backend is not ready; capacity is UNKNOWN" ;;;
  let* authority := sm_lift (ib_query_capacity backend resource) in
  reject_when (negb (ca_usable authority)) ErrorCode.EvidenceUnknown
    "backend did not supply an authoritative capacity for this resource" ;;;
  ret authority.

(** The optional physical effect; a backend that does not support it is counted. *)
Definition capacity_program (backend : IBackend) (resource : Z) (authority : CapacityAuthority) : M unit :=
  let* s := sm_get in
  when (fc_program_backend_effects (im_config s)) do
    (metric (fun m => m <| mt_backend_effects_attempted ::= plus 1 |>) ;;;
     match ib_program_reservation backend resource (ca_raw_units authority) (ca_generation authority) with
     | Good _ => ret tt
     | Bad status =>
         if decide (st_code status = ErrorCode.Unsupported)
         then metric (fun m => m <| mt_backend_effects_unsupported ::= plus 1 |>)
         else sm_lift (Bad status)
     end).

(** Under the lock again: the capacity becomes authoritative. *)
Definition capacity_publish (resource backend_id expected_raw_units expected : Z) (authority : CapacityAuthority) : M Z :=
  refuse_after_shutdown ;;;
  reject_when (negb (expected_raw_units =? 0) && negb (ca_raw_units authority =? expected_raw_units))
    ErrorCode.StaleGeneration "capacity authority disagrees with the asserted raw capacity" ;;;
  reject_when (stale expected (ca_generation authority)) ErrorCode.StaleGeneration
    "capacity authority generation does not match the assertion" ;;;
  let* committed := partitioned resource "resource capacity total overflowed" in
  reject_when (ca_raw_units authority <? committed) ErrorCode.CapacityExceeded
    "authoritative capacity is below the capacity already partitioned into pools; shrink or remove those pools first" ;;;
  let* now := gets im_tick in
  let entry := mkCapacityEntry resource backend_id (ca_generation authority) (ca_raw_units authority) now in
  journal_capacity entry ;;;
  modify (fun s => s <| im_capacities ::= <[resource := entry]> |>) ;;;
  push_event EventKind.PressureUpdated ErrorCode.Ok "capacity authority published" 0 0 0 0 0 ;;;
  ret (cp_generation entry).

(** The operation takes the lock of the fabric three times, the query of the backend being
    outside; here the parts run one after the other, as when no other operation comes between. *)
Definition set_capacity (attached : Z -> option IBackend) (resource backend_id expected_raw_units expected : Z) : M Z :=
  let* backend := capacity_backend attached resource backend_id in
  let* authority := capacity_query backend resource in
  capacity_program backend resource authority ;;;
  capacity_publish resource backend_id expected_raw_units expected authority.

(** ** Policies *)

Definition select_policy (generation : Z) (s : Impl) (e : PoolEntry) (r : AllocationRecord) : bool :=
  allocation_holds_units (ar_state r) && negb (bg_policy_generation (ar_bound r) =? generation).

(** Every pool under the policy loses the members granted under another revision. *)
Fixpoint fence_policy (policy generation : Z) (pools : list Z) : M unit :=
  match pools with
  | [] => ret tt
  | p :: rest =>
      let* e := pool_ref p in
      when (pd_policy (en_descriptor e) =? policy) do
        (let* _ := sweep (select_policy generation) AllocationState.Fenced ErrorCode.StaleGeneration p
                     (sorted_members e) 0 0 in
         ret tt) ;;;
      fence_policy policy generation rest
  end.

(** The generation a publication gets; nothing when the policy is the published one. *)
Definition policy_revision (policy : PoolPolicy) : M (option Z) :=
  let* s := sm_get in
  match im_policies s !! pol_id policy with
  | Some existing =>
      let candidate := policy <| pol_generation := pol_generation existing |> <| pol_id := pol_id existing |> in
      if decide (policy_digest candidate = policy_digest existing) then ret None
      else let* g := next_generation (pol_generation existing) "policy generation is exhausted" in ret (Some g)
  | None =>
      reject_when (kMaxPolicyCount <=? Z.of_nat (size (im_policies s))) ErrorCode.BoundedResourceExhausted
        "the policy table has reached its configured bound" ;;;
      ret (Some 1)
  end.

Definition store_policy (policy : PoolPolicy) : M unit :=
  modify (fun s => s <| im_policy_names ::= <[pol_name policy := pol_id policy]> |>
                     <| im_policies ::= <[pol_id policy := policy]> |>).

Definition publish_policy (request : PoolPolicy) : M Z :=
  require_open ;;;
  refuse_after_shutdown ;;;
  let* id := claim_id im_next_policy_id (fun n s => s <| im_next_policy_id := n |>) (pol_id request)
               "policy id space is exhausted" in
  let policy := request <| pol_id := id |> in
  let* s := sm_get in
  reject_when (negb (bool_decide (pol_name policy = "")) &&
               match im_policy_names s !! pol_name policy with Some k => negb (k =? id) | None => false end)
    ErrorCode.DuplicateName "another policy already uses this name" ;;;
  let* revision := policy_revision policy in
  match revision with
  | None =>
      let* existing := require (im_policies s !! id) ErrorCode.UnknownPolicy "no such policy" in
      ret (pol_generation existing)
  | Some generation =>
      let policy := policy <| pol_generation := generation |> in
      sm_lift (policy_validate policy) ;;;
      journal_policy policy ;;;
      store_policy policy ;;;
      push_event EventKind.PolicyPublished ErrorCode.Ok (pol_name policy) 0 0 0 0 0 ;;;
      (let* s := sm_get in
       when (pol_fence_on_generation_change policy) do
         (fence_policy id generation (map fst (map_to_list (im_pools s))))) ;;;
      ret generation
  end.

(** ** Pools *)

Record PoolRegistration := mkPoolRegistration {
  pg_id : Z; pg_name : string; pg_resource : Z; pg_backend : Z; pg_raw_units : Z; pg_protected_units : Z;
  pg_parent : Z; pg_policy : Z; pg_tenant : Z; pg_provenance : Z
}.

#[export] Instance settable_PoolRegistration : Settable PoolRegistration :=
  fun r => mkPoolRegistration (pg_id r) (pg_name r) (pg_resource r) (pg_backend r) (pg_raw_units r)
  (pg_protected_units r) (pg_parent r) (pg_policy r) (pg_tenant r) (pg_provenance r).
Definition default_PoolRegistration : PoolRegistration := mkPoolRegistration 0 "" 0 0 0 0 0 0 0 0.

Definition registration_descriptor (g : PoolRegistration) (now : Z) : PoolDescriptor :=
  default_PoolDescriptor <| pd_id := pg_id g |> <| pd_name := pg_name g |> <| pd_resource := pg_resource g |>
    <| pd_backend := pg_backend g |> <| pd_raw_units := pg_raw_units g |> <| pd_protected_units := pg_protected_units g |>
    <| pd_parent := pg_parent g |> <| pd_policy := pg_policy g |> <| pd_tenant := pg_tenant g |>
    <| pd_provenance := pg_provenance g |> <| pd_created_at := now |> <| pd_generation := 1 |>.

(** From the parent up to a root, [fuel] steps at most. *)
Fixpoint check_ancestry (fuel : nat) (pools : gmap Z PoolEntry) (cursor : PoolEntry) : Result unit :=
  if negb (valid (pd_parent (en_descriptor cursor))) then Good tt
  else match fuel with
  | O => fail ErrorCode.PoolDepthExceeded "pool tree is deeper than the bound"
  | S fuel =>
      match pools !! pd_parent (en_descriptor cursor) with
      | None => fail ErrorCode.UnknownPool "pool ancestry is broken"
      | Some next => check_ancestry fuel pools next
      end
  end.

Definition check_parent (s : Impl) (d : PoolDescriptor) : M unit :=
  when (valid (pd_parent d)) do
    (let* parent := require (im_pools s !! pd_parent d) ErrorCode.UnknownPool "pool parent is not registered" in
     sm_lift (check_ancestry (Z.to_nat kMaxPoolDepth - 1) (im_pools s) parent)).

(** The partition of the resource stays within its capacity with [raw_units] more than [others]. *)
Definition check_partition (resource others raw_units : Z) (missing exceeded : string) : M unit :=
  let* s := sm_get in
  let* capacity := require (im_capacities s !! resource) ErrorCode.UnknownResource missing in
  let* total := checked_add others raw_units "resource partition total overflowed" in
  reject_when (cp_raw_units capacity <? total) ErrorCode.CapacityExceeded exceeded.

Definition no_capacity : string := "no authoritative capacity has been published for this resource".

Definition store_pool (d : PoolDescriptor) (e : PoolEntry) : M unit :=
  modify (fun s => s <| im_pool_names ::= <[pd_name d := pd_id d]> |> <| im_pools ::= <[pd_id d := e]> |>).

Definition register_pool (g : PoolRegistration) : M Z :=
  require_open ;;;
  refuse_after_shutdown ;;;
  let* s := sm_get in
  reject_when (kMaxPoolCount <=? Z.of_nat (size (im_pools s))) ErrorCode.BoundedResourceExhausted
    "the pool table has reached its configured bound" ;;;
  let* id := claim_id im_next_pool_id (fun n s => s <| im_next_pool_id := n |>) (pg_id g) "pool id space is exhausted" in
  let d := registration_descriptor g (im_tick s) <| pd_id := id |> in
  sm_lift (pool_descriptor_validate d) ;;;
  let* s := sm_get in
  reject_when (bool_decide (is_Some (im_pools s !! pd_id d))) ErrorCode.DuplicatePool "pool id is already registered" ;;;
  reject_when (bool_decide (is_Some (im_pool_names s !! pd_name d))) ErrorCode.DuplicateName
    "another pool already uses this name" ;;;
  reject_when (negb (bool_decide (is_Some (im_backends s !! pd_backend d)))) ErrorCode.UnknownBackend
    "pool backend is not attached" ;;;
  reject_when (negb (bool_decide (is_Some (im_policies s !! pd_policy d)))) ErrorCode.UnknownPolicy
    "pool policy is not published" ;;;
  check_parent s d ;;;
  let* _ := require (im_capacities s !! pd_resource d) ErrorCode.UnknownResource no_capacity in
  let* others := partitioned (pd_resource d) "resource partition total overflowed" in
  check_partition (pd_resource d) others (pd_raw_units d) no_capacity
    "pool raw capacity exceeds the authoritative capacity remaining on the resource" ;;;
  let e := default_PoolEntry <| en_descriptor := d |> <| en_capacity_generation := 1 |> in
  journal_pool e ;;;
  store_pool d e ;;;
  push_event EventKind.PoolRegistered ErrorCode.Ok (pd_name d) (pd_id d) 0 0 0 0 ;;;
  ret (pd_id d).

(** The queues that leave with their pool, in the order the table is walked. *)
Definition retired_with (pool : Z) (q : QueueDescriptor) : bool := (qd_pool q =? pool) && qd_retired q.

Definition drop_pool (pool : Z) (name : string) : M unit := modify (fun s =>
  let leaving := List.filter (fun kq => retired_with pool (snd kq)) (map_to_list (im_queues s)) in
  s <| im_pool_names ::= delete name |> <| im_pools ::= delete pool |> <| im_pressure ::= delete pool |>
    <| im_queue_names ::= fun names => fold_left (fun m kq => delete (qd_name (snd kq)) m) leaving names |>
    <| im_queues ::= fun queues => fold_left (fun m kq => delete (fst kq) m) leaving queues |>).

Definition remove_pool (pool expected : Z) : M unit :=
  require_open ;;;
  let* e := require_pool pool in
  reject_when (stale expected (pd_generation (en_descriptor e))) ErrorCode.StaleGeneration
    "pool generation does not match the assertion" ;;;
  let* s := sm_get in
  reject_when (existsb (fun other => pd_parent (en_descriptor other) =? pool) (values (im_pools s)))
    ErrorCode.LifecycleViolation "pool still has child pools; remove them first" ;;;
  reject_when (existsb (fun q => (qd_pool q =? pool) && negb (qd_retired q)) (values (im_queues s)))
    ErrorCode.LifecycleViolation "pool still has live bound queues; retire them first" ;;;
  reject_when (negb (en_lent_out e =? 0)) ErrorCode.LifecycleViolation
    "pool capacity is lent to descendants; resolve borrowing first" ;;;
  reject_when (negb (en_allocated e =? 0)) ErrorCode.LifecycleViolation
    "pool still holds allocations; release or fence them first" ;;;
  let name := pd_name (en_descriptor e) in
  journal JournalOp.PoolRemoved (wr_buffer (put_u64 pool writer_empty)) ;;;
  drop_pool pool name ;;;
  push_event EventKind.PoolRemoved ErrorCode.Ok name pool 0 0 0 0.

(** ** Shrinking a pool *)

Record ShrinkResult := mkShrinkResult {
  sr_fenced_allocations : Z; sr_fenced_units : Z; sr_reduced_allocations : Z; sr_reduced_units : Z;
  sr_borrow_returned_units : Z
}.

#[export] Instance settable_ShrinkResult : Settable ShrinkResult :=
  fun r => mkShrinkResult (sr_fenced_allocations r) (sr_fenced_units r) (sr_reduced_allocations r)
  (sr_reduced_units r) (sr_borrow_returned_units r).
Definition default_ShrinkResult : ShrinkResult := mkShrinkResult 0 0 0 0 0.

(** The comparator: reclaimable first, then by priority, then by id. *)
Definition victim_before (allocations : gmap Z AllocationRecord) (a b : Z) : bool :=
  match allocations !! a, allocations !! b with
  | Some ra, Some rb =>
      if negb (bool_decide (ar_reclaim_class ra = ar_reclaim_class rb)) then
        bool_decide (ar_reclaim_class ra = ReclaimClass.Reclaimable)
      else if negb (ar_reclaim_priority ra =? ar_reclaim_priority rb) then ar_reclaim_priority ra <? ar_reclaim_priority rb
      else ar_id ra <? ar_id rb
  | _, _ => a <? b
  end.

Definition sort_victims (allocations : gmap Z AllocationRecord) (victims : list Z) : list Z :=
  merge_sort (fun a b => negb (victim_before allocations b a)) victims.

Definition count_victim (fence_everything : bool) (units : Z) (r : ShrinkResult) : ShrinkResult :=
  let r := r <| sr_fenced_allocations ::= plus 1 |> <| sr_fenced_units ::= plus units |> in
  if fence_everything then r <| sr_reduced_units ::= plus units |>
  else r <| sr_reduced_allocations ::= plus 1 |> <| sr_reduced_units ::= plus units |>.

(** Members are revoked until the pool fits, or all of them. *)
Fixpoint fence_victims (fence_everything : bool) (pool allowance : Z) (victims : list Z) (result : ShrinkResult) :
    M ShrinkResult :=
  match victims with
  | [] => ret result
  | raw_id :: rest =>
      let* e := pool_ref pool in
      if negb fence_everything && (en_own_usage e <=? allowance) then ret result
      else
        let* s := sm_get in
        match im_allocations s !! raw_id with
        | None => fence_victims fence_everything pool allowance rest result
        | Some r =>
            if negb (allocation_holds_units (ar_state r)) then
              fence_victims fence_everything pool allowance rest result
            else
              fence_allocation_locked raw_id AllocationState.Fenced ErrorCode.CapacityExceeded ;;;
              fence_victims fence_everything pool allowance rest (count_victim fence_everything (ar_units r) result)
        end
  end.

(** The allocations elsewhere that borrow from [lender], in increasing order of their ids. *)
Definition borrowers (lender : Z) (allocations : gmap Z AllocationRecord) : list Z :=
  merge_sort Z.le (map fst (List.filter (fun kr =>
    let r := snd kr in
    allocation_holds_units (ar_state r) && (ar_lender r =? lender) && negb (ar_borrow_units r =? 0))
    (map_to_list allocations))).

Fixpoint fence_borrowers (pool allowance : Z) (candidates : list Z) (result : ShrinkResult) : M ShrinkResult :=
  match candidates with
  | [] => ret result
  | raw_id :: rest =>
      let* e := pool_ref pool in
      if en_own_usage e <=? allowance then ret result
      else
        let* s := sm_get in
        match im_allocations s !! raw_id with
        | None => fence_borrowers pool allowance rest result
        | Some r =>
            if negb (allocation_holds_units (ar_state r)) then fence_borrowers pool allowance rest result
            else
              fence_allocation_locked raw_id AllocationState.Fenced ErrorCode.CapacityExceeded ;;;
              fence_borrowers pool allowance rest
                (result <| sr_fenced_allocations ::= plus 1 |> <| sr_fenced_units ::= plus (ar_units r) |>
                        <| sr_borrow_returned_units ::= plus (ar_borrow_units r) |>)
        end
  end.

Definition capacity_allowance (s : Impl) (e : PoolEntry) : Z :=
  saturating_add (en_usable e)
    (match im_policies s !! pd_policy (en_descriptor e) with
     | Some p => if decide (oc_mode (pol_overcommit p) = OvercommitMode.Bounded)
                 then oc_limit_units (pol_overcommit p) else 0
     | None => 0
     end).

Definition enforce_capacity (pool : Z) (fence_everything : bool) : M ShrinkResult :=
  let* e := pool_ref pool in
  let* s := sm_get in
  let allowance := capacity_allowance s e in
  let* local := fence_victims fence_everything pool allowance
                  (sort_victims (im_allocations s) (sorted_members e)) default_ShrinkResult in
  let* e := pool_ref pool in
  let* s := sm_get in
  if allowance <? en_own_usage e then
    fence_borrowers pool allowance (borrowers (pd_id (en_descriptor e)) (im_allocations s)) local
  else ret local.

Record ResizeOutcome := mkResizeOutcome {
  ro_previous_generation : Z; ro_new_generation : Z; ro_previous_raw_units : Z; ro_new_raw_units : Z;
  ro_previous_protected_units : Z; ro_new_protected_units : Z; ro_shrink : ShrinkResult; ro_accounting : PoolAccounting
}.

(** The checks of a resize, up to the new total of the resource. *)
Definition check_resize (e : PoolEntry) (pool new_raw_units new_protected_units : Z) : M PoolPolicy :=
  reject_when ((new_raw_units =? 0) || (kMaxUnitsPerPool <? new_raw_units)) ErrorCode.InvalidArgument
    "pool raw capacity is out of range" ;;;
  reject_when (new_raw_units <=? new_protected_units) ErrorCode.ProtectedHeadroomViolation
    "protected headroom must leave allocatable capacity" ;;;
  let new_usable := sub64 new_raw_units new_protected_units in
  let* s := sm_get in
  let d := en_descriptor e in
  let* policy := require (im_policies s !! pd_policy d) ErrorCode.UnknownPolicy "pool policy is not published" in
  reject_when (new_usable <? pol_usable_floor_units policy) ErrorCode.PolicyForbids
    "resize would push usable capacity below the policy floor" ;;;
  let* _ := require (im_capacities s !! pd_resource d) ErrorCode.UnknownResource no_capacity in
  let* others := sum_raw (fun other => (pd_resource other =? pd_resource d) && negb (pd_id other =? pool))
                   "resource partition total overflowed" (values (im_pools s)) 0 in
  check_partition (pd_resource d) others new_raw_units no_capacity
    "resize exceeds the authoritative capacity of the resource" ;;;
  ret policy.

Definition resized (new_raw_units new_protected_units generation capacity : Z) (e : PoolEntry) : PoolEntry :=
  e <| en_descriptor ::= fun d => d <| pd_raw_units := new_raw_units |> <| pd_protected_units := new_protected_units |>
         <| pd_generation := generation |> |>
    <| en_capacity_generation := capacity |>.

Definition resize_pool (pool new_raw_units new_protected_units expected : Z) : M ResizeOutcome :=
  require_open ;;;
  refuse_after_shutdown ;;;
  let* e := require_pool pool in
  reject_when (stale expected (pd_generation (en_descriptor e))) ErrorCode.StaleGeneration
    "pool generation does not match the assertion" ;;;
  let* policy := check_resize e pool new_raw_units new_protected_units in
  let* generation := next_generation (pd_generation (en_descriptor e)) "pool generation is exhausted" in
  let* capacity := next_generation (en_capacity_generation e) "pool capacity generation is exhausted" in
  update_pool pool (resized new_raw_units new_protected_units generation capacity) ;;;
  let* resized_entry := pool_ref pool in
  journal_pool resized_entry ;;;
  push_event EventKind.PoolResized ErrorCode.Ok (pd_name (en_descriptor e)) pool 0 0 new_raw_units 0 ;;;
  let* shrink := enforce_capacity pool (pol_fence_on_generation_change policy) in
  verify_closure pool (fun status =>
    push_event EventKind.AccountingViolation (st_code status) (st_message status) pool 0 0 0 0) ;;;
  let* final := pool_ref pool in
  let* s := sm_get in
  ret (mkResizeOutcome (pd_generation (en_descriptor e)) generation (pd_raw_units (en_descriptor e)) new_raw_units
         (pd_protected_units (en_descriptor e)) new_protected_units shrink (accounting_of s final)).

(** ** Queues *)

Record QueueRegistration := mkQueueRegistration {
  qg_id : Z; qg_name : string; qg_pool : Z; qg_tenant : Z; qg_traffic_class : Z; qg_demand_units : Z; qg_weight : Z;
  qg_max_committed_units : Z
}.

#[export] Instance settable_QueueRegistration : Settable QueueRegistration :=
  fun r => mkQueueRegistration (qg_id r) (qg_name r) (qg_pool r) (qg_tenant r) (qg_traffic_class r) (qg_demand_units r)
  (qg_weight r) (qg_max_committed_units r).
Definition default_QueueRegistration : QueueRegistration := mkQueueRegistration 0 "" 0 0 0 0 1 0.

Definition registration_queue (g : QueueRegistration) (now : Z) : QueueDescriptor :=
  default_QueueDescriptor <| qd_id := qg_id g |> <| qd_name := qg_name g |> <| qd_pool := qg_pool g |>
    <| qd_tenant := qg_tenant g |> <| qd_traffic_class := qg_traffic_class g |> <| qd_demand_units := qg_demand_units g |>
    <| qd_weight := qg_weight g |> <| qd_max_committed_units := qg_max_committed_units g |>
    <| qd_registered_at := now |> <| qd_demand_updated_at := now |> <| qd_generation := 1 |>.

Definition store_queue (q : QueueDescriptor) : M unit :=
  modify (fun s => s <| im_queue_names ::= <[qd_name q := qd_id q]> |> <| im_queues ::= <[qd_id q := q]> |>).

Definition register_queue (g : QueueRegistration) : M Z :=
  require_open ;;;
  refuse_after_shutdown ;;;
  let* s := sm_get in
  reject_when (kMaxQueueCount <=? Z.of_nat (size (im_queues s))) ErrorCode.BoundedResourceExhausted
    "the queue table has reached its configured bound" ;;;
  let* id := claim_id im_next_queue_id (fun n s => s <| im_next_queue_id := n |>) (qg_id g) "queue id space is exhausted" in
  let q := registration_queue g (im_tick s) <| qd_id := id |> in
  reject_when (negb (is_valid_name (qd_name q))) ErrorCode.NameTooLong
    "queue name must be 1..64 characters of [A-Za-z0-9_.-]" ;;;
  reject_when (negb (valid (qd_pool q))) ErrorCode.InvalidArgument "queue pool must be set" ;;;
  reject_when ((kMaxUnitsPerPool <? qd_demand_units q) || (kMaxUnitsPerPool <? qd_max_committed_units q))
    ErrorCode.Overflow "queue demand exceeds the supported bound" ;;;
  let* s := sm_get in
  reject_when (bool_decide (is_Some (im_queues s !! qd_id q))) ErrorCode.DuplicateQueue "queue id is already registered" ;;;
  reject_when (bool_decide (is_Some (im_queue_names s !! qd_name q))) ErrorCode.DuplicateName
    "another queue already uses this name" ;;;
  reject_when (negb (bool_decide (is_Some (im_pools s !! qd_pool q)))) ErrorCode.UnknownPool
    "queue pool is not registered" ;;;
  journal_queue q ;;;
  store_queue q ;;;
  push_event EventKind.QueueRegistered ErrorCode.Ok (qd_name q) (qd_pool q) (qd_id q) 0 0 0 ;;;
  ret (qd_id q).

(** Write through a reference to queue [id], then journal what it became. *)
Definition update_queue (id : Z) (f : QueueDescriptor -> QueueDescriptor) : M unit :=
  modify (fun s => s <| im_queues ::= alter f id |>) ;;;
  let* q := require_queue id in
  journal_queue q.

Definition require_queue_at (queue expected : Z) : M QueueDescriptor :=
  require_open ;;;
  let* q := require_queue queue in
  reject_when (stale expected (qd_generation q)) ErrorCode.StaleGeneration
    "queue generation does not match the assertion" ;;;
  ret q.

Definition update_queue_demand (queue demand_units expected : Z) : M Z :=
  let* q := require_queue_at queue expected in
  reject_when (qd_retired q) ErrorCode.WrongState "queue is retired" ;;;
  reject_when (kMaxUnitsPerPool <? demand_units) ErrorCode.Overflow "queue demand exceeds the supported bound" ;;;
  let* now := gets im_tick in
  update_queue queue (fun q => q <| qd_demand_units := demand_units |> <| qd_demand_updated_at := now |>) ;;;
  ret (qd_generation q).

(** The allocations of a queue that hold units, in increasing order of their ids. *)
Definition queue_victims (queue : Z) (allocations : gmap Z AllocationRecord) : list Z :=
  merge_sort Z.le (map fst (List.filter (fun kr =>
    (ar_queue (snd kr) =? queue) && allocation_holds_units (ar_state (snd kr))) (map_to_list allocations))).

Fixpoint fence_all (victims : list Z) : M unit :=
  match victims with
  | [] => ret tt
  | raw_id :: rest =>
      let* s := sm_get in
      match im_allocations s !! raw_id with
      | None => fence_all rest
      | Some r =>
          if negb (allocation_holds_units (ar_state r)) then fence_all rest
          else
            fence_allocation_locked raw_id AllocationState.Fenced ErrorCode.StaleGeneration ;;;
            fence_all rest
      end
  end.

Definition fence_queue (queue : Z) : M unit :=
  let* s := sm_get in
  fence_all (queue_victims queue (im_allocations s)).

Definition retire_queue (queue expected : Z) : M unit :=
  let* q := require_queue_at queue expected in
  if qd_retired q then ret tt
  else
    let* generation := next_generation (qd_generation q) "queue generation is exhausted" in
    update_queue queue (fun q => q <| qd_retired := true |> <| qd_generation := generation |>) ;;;
    (let* s := sm_get in when (fc_auto_fence_on_queue_retirement (im_config s)) do (fence_queue queue)) ;;;
    push_event EventKind.QueueRetired ErrorCode.Ok (qd_name q) (qd_pool q) queue 0 0 0.

Definition retarget_queue (queue new_pool expected : Z) : M unit :=
  let* q := require_queue_at queue expected in
  reject_when (qd_retired q) ErrorCode.WrongState "queue is retired" ;;;
  let* s := sm_get in
  reject_when (negb (bool_decide (is_Some (im_pools s !! new_pool)))) ErrorCode.UnknownPool
    "target pool is not registered" ;;;
  if qd_pool q =? new_pool then ret tt
  else
    let* generation := next_generation (qd_generation q) "queue generation is exhausted" in
    fence_queue queue ;;;
    update_queue queue (fun q => q <| qd_pool := new_pool |> <| qd_generation := generation |>).

(** ** Generations of a pool's members *)

Record PoolGenerationStatus := mkPoolGenerationStatus {
  gs_pool : Z; gs_pool_generation : Z; gs_policy_generation : Z; gs_capacity_generation : Z;
  gs_allocations_bound : Z; gs_allocations_stale : Z; gs_policy_bound : bool
}.

#[export] Instance settable_PoolGenerationStatus : Settable PoolGenerationStatus :=
  fun r => mkPoolGenerationStatus (gs_pool r) (gs_pool_generation r) (gs_policy_generation r)
  (gs_capacity_generation r) (gs_allocations_bound r) (gs_allocations_stale r) (gs_policy_bound r).

Definition stale_against (s : Impl) (e : PoolEntry) (status : PoolGenerationStatus) (r : AllocationRecord) : bool :=
  negb (bg_pool_generation (ar_bound r) =? pd_generation (en_descriptor e))
  || negb (bg_capacity_generation (ar_bound r) =? en_capacity_generation e)
  || (gs_policy_bound status && negb (bg_policy_generation (ar_bound r) =? gs_policy_generation status))
  || negb (bg_epoch (ar_bound r) =? im_epoch s).

Definition count_generations (s : Impl) (e : PoolEntry) (status : PoolGenerationStatus) (raw_id : Z) : PoolGenerationStatus :=
  match im_allocations s !! raw_id with
  | None => status
  | Some r =>
      if negb (allocation_holds_units (ar_state r)) then status
      else
        let status := status <| gs_allocations_bound ::= plus 1 |> in
        if stale_against s e status r then status <| gs_allocations_stale ::= plus 1 |> else status
  end.

Definition pool_generation_status (pool : Z) : M PoolGenerationStatus :=
  let* s := sm_get in
  let* e := require (im_pools s !! pool) ErrorCode.UnknownPool "no such pool" in
  let seed := mkPoolGenerationStatus (pd_id (en_descriptor e)) (pd_generation (en_descriptor e)) 0
    (en_capacity_generation e) 0 0 false in
  let seed := match im_policies s !! pd_policy (en_descriptor e) with
    | Some p => seed <| gs_policy_bound := true |> <| gs_policy_generation := pol_generation p |>
    | None => seed
    end in
  ret (fold_left (count_generations s e) (elements (en_members e)) seed).

(** ** Pressure evidence *)

Definition reject_pressure (code : ErrorCode) (detail message : string) (pool : Z) : M unit :=
  metric (fun m => m <| mt_pressure_snapshots_rejected ::= plus 1 |>) ;;;
  push_event EventKind.PressureRejected code detail pool 0 0 0 0 ;;;
  raise code message.

(** The snapshot as it is stored: observed now if undated, living as long as the policy says. *)
Definition complete_snapshot (s : Impl) (e : PoolEntry) (x : PressureSnapshot) : PressureSnapshot :=
  let x := if ps_ttl_ticks x =? 0 then
      match im_policies s !! pd_policy (en_descriptor e) with
      | Some p => x <| ps_ttl_ticks := pp_evidence_ttl_ticks (pol_pressure p) |>
      | None => x
      end
    else x in
  x <| ps_boot := im_boot s |>.

(** The newest observation last, the oldest beyond the bound dropped. *)
Definition remember_pressure (capacity : Z) (x : PressureSnapshot) (p : PressureEntry) : PressureEntry :=
  let history := pr_history p ++ [x] in
  p <| pr_latest := x |> <| pr_has_latest := true |> <| pr_latest_revalidated := false |>
    <| pr_history := drop (length history - Z.to_nat capacity) history |>.

Definition observe_pressure (request : PressureSnapshot) : M unit :=
  require_open ;;;
  refuse_after_shutdown ;;;
  let pool := ps_pool request in
  let* e := require_pool pool in
  let* id := claim_id im_next_snapshot_id (fun n s => s <| im_next_snapshot_id := n |>) (ps_id request)
               "snapshot id space is exhausted" in
  let x := request <| ps_id := id |> in
  let* s := sm_get in
  when (negb (ps_epoch x =? im_epoch s)) do
    (reject_pressure ErrorCode.StaleEpoch "pressure snapshot carries a stale fabric epoch"
       "pressure snapshot epoch does not match the current fabric epoch" pool) ;;;
  when (negb (ps_pool_generation x =? pd_generation (en_descriptor e))) do
    (reject_pressure ErrorCode.StaleGeneration "pressure snapshot carries a stale pool generation"
       "pressure snapshot pool generation is not current" pool) ;;;
  let x := if ps_observed_at x =? 0 then x <| ps_observed_at := im_tick s |> else x in
  when (im_tick s <? ps_observed_at x) do
    (reject_pressure ErrorCode.InvalidArgument "pressure snapshot is future dated"
       "pressure snapshot observation time is in the future" pool) ;;;
  reject_when ((kMaxUnitsPerPool <? ps_demand_units x) || (kMaxUnitsPerPool * 2 <? ps_committed_units x)
               || (kMaxUnitsPerPool <? ps_reclaimable_units x)) ErrorCode.Overflow
    "pressure snapshot values exceed the supported bound" ;;;
  let x := complete_snapshot s e x in
  journal_pressure x ;;;
  modify (fun s => s <| im_pressure ::= fun m =>
    <[pool := remember_pressure (fc_pressure_history_capacity (im_config s)) x (default default_PressureEntry (m !! pool))]> m |>) ;;;
  metric (fun m => m <| mt_pressure_snapshots_accepted ::= plus 1 |>) ;;;
  push_event EventKind.PressureUpdated ErrorCode.Ok "pressure observed" pool 0 0 0 0.

Definition pressure (pool : Z) : M PressureEvidence :=
  let* e := require_pool pool in
  let* s := sm_get in
  ret (resolve_evidence s e).
