(* ===== verification/Revoke.v ===== *)
(** * Revoking many allocations

    Policy changes, shrinking pools and retiring queues revoke allocations one after the
    other. Whatever the order and wherever such a loop stops, [revoked] is what has happened
    so far: some records that held units hold none now, the books follow, and the layout is
    untouched. *)

From S2P Require Import Prelude Ints Hash Enums Status Codec Model Wire Policy Accounting Authority Persist State Grant Alloc Lifecycle Books Triples Layout Safety AllocSafety LifeSafety Topology.

(** ** Operations that leave the layout alone *)

Definition fixed (s s' : Impl) : Prop := layout s = layout s'.

#[export] Instance fixed_equivalence : Equivalence fixed.
Proof. split; unfold fixed; [by intros s|by intros s s' ->|by intros s s' s'' -> ->]. Qed.

#[export] Instance fixed_hushed {A} (m : M A) : Hushed m -> Within fixed m | 20.
Proof. intros Hm s. eapply wp_mono; [apply Hm| |]; intros ? s' Hq; by apply layout_proper. Qed.

Lemma fixed_update_pool p (g : PoolEntry -> PoolEntry) :
  (forall e, en_descriptor (g e) = en_descriptor e) -> Within fixed (update_pool p g).
Proof.
  intros Hg s. unfold wp, update_pool, modify, sm_modify, fixed. symmetry.
  exact (layout_pools s _ (descriptors_alter g p (im_pools s) Hg)).
Qed.

#[export] Hint Extern 5 (Within fixed (update_pool _ _)) =>
  (apply fixed_update_pool; intros ?; reflexivity) : typeclass_instances.

#[export] Instance fixed_update_allocation k f : Within fixed (update_allocation k f).
Proof. intros s. by hnf. Qed.

#[export] Instance fixed_release id r : Within fixed (apply_release_units id r).
Proof.
  unfold apply_release_units, release_state_units, release_class_units, release_lender_units.
  assert (Within fixed (update_pool id (fun e =>
    adjust_queue (ar_queue r) (- to_i64 (ar_units r)) (bool_decide (ar_state r = AllocationState.Reserved)) e
      <| en_members ::= fun m => m ∖ {[ar_id r]} |>))).
  { apply fixed_update_pool. intros e. unfold adjust_queue. by case_match. }
  apply _.
Qed.

#[export] Instance fixed_fence key new_state reason : Within fixed (fence_allocation_locked key new_state reason).
Proof. unfold fence_allocation_locked. apply _. Qed.

(** ** Operations that forget at most one member *)

Definition listed (s : Impl) (p k : Z) : Prop := exists e, im_pools s !! p = Some e /\ k ∈ en_members e.

Definition lists_but (key : Z) (s s' : Impl) : Prop := forall p k, k <> key -> listed s p k -> listed s' p k.

#[export] Instance lists_but_preorder key : PreOrder (lists_but key).
Proof. split; unfold lists_but; [by intros s p k|]. intros s1 s2 s3 H1 H2 p k Hk Hl. auto. Qed.

Lemma lists_quiet s s' p k : quiet s s' -> listed s p k -> listed s' p k.
Proof.
  intros Hq (e & He & Hk). destruct (strip_lookup _ _ _ _ (quiet_pools _ _ Hq) He) as (e' & He' & Hs). exists e'.
  split; [done|]. pose proof (f_equal en_members Hs) as Hm. simpl in Hm. by rewrite <- Hm.
Qed.

#[export] Instance lists_hushed {A} key (m : M A) : Hushed m -> Within (lists_but key) m | 20.
Proof. intros Hm s. eapply wp_mono; [apply Hm| |]; intros ? s' Hq p k _; by apply lists_quiet. Qed.

Lemma lists_update_pool key p (g : PoolEntry -> PoolEntry) :
  (forall e k, k <> key -> k ∈ en_members e -> k ∈ en_members (g e)) -> Within (lists_but key) (update_pool p g).
Proof.
  intros Hg s q k Hk (e & He & Hin). unfold listed. simpl. destruct (decide (q = p)) as [->|Hne].
  - exists (g e). rewrite lookup_alter_eq, He. split; [done|]. by apply Hg.
  - exists e. by rewrite lookup_alter_ne.
Qed.

#[export] Hint Extern 5 (Within (lists_but _) (update_pool _ _)) =>
  (apply lists_update_pool; intros ? ? ? ?; assumption) : typeclass_instances.

#[export] Instance lists_release id r : Within (lists_but (ar_id r)) (apply_release_units id r).
Proof.
  unfold apply_release_units, release_state_units, release_class_units, release_lender_units.
  assert (Within (lists_but (ar_id r)) (update_pool id (fun e =>
    adjust_queue (ar_queue r) (- to_i64 (ar_units r)) (bool_decide (ar_state r = AllocationState.Reserved)) e
      <| en_members ::= fun m => m ∖ {[ar_id r]} |>))).
  { apply lists_update_pool. intros e k Hk Hin. unfold adjust_queue. case_match; simpl; set_solver. }
  apply _.
Qed.

#[export] Instance lists_update_allocation key k f : Within (lists_but key) (update_allocation k f).
Proof. intros s p j _ Hl. exact Hl. Qed.

Lemma fence_lists s key new_state reason :
  Inv s -> wp (fence_allocation_locked key new_state reason) s (fun _ => lists_but key s) (fun _ => lists_but key s).
Proof.
  intros HI. unfold fence_allocation_locked. do 2 wp_step. wp_step; apply wp_require; [done|]. intros r Hr.
  assert (key = ar_id r) as -> by (by rewrite (bk_id _ _ (inv_books s HI) _ r Hr)).
  apply within.
Qed.

(** ** What a loop of revocations may have done *)

Record revoked (new_state : AllocationState) (s s' : Impl) : Prop := {
  rv_sound : sound s s';
  rv_terms : terms s' = terms s;
  rv_layout : layout s' = layout s;
  rv_record : forall k, im_allocations s' !! k = im_allocations s !! k \/
    exists r r', im_allocations s !! k = Some r /\ allocation_holds_units (ar_state r) = true /\
      im_allocations s' !! k = Some r' /\ ar_state r' = new_state /\ ar_pool r' = ar_pool r /\ ar_units r' = ar_units r;
  rv_listed : forall p k r, listed s p k -> im_allocations s' !! k = Some r -> allocation_holds_units (ar_state r) = true ->
    listed s' p k
}.

(** Where a failed operation may leave the state. *)
Definition unharmed (s s' : Impl) : Prop := sound s s' /\ layout s' = layout s.

Lemma unharmed_refl s : Inv s -> unharmed s s.
Proof. intros HI. by split; [split|]. Qed.

Lemma unharmed_after new_state s s1 s2 : revoked new_state s s1 -> unharmed s1 s2 -> unharmed s s2.
Proof. intros [[_ Hsd] _ HL _ _] [[HI2 Hsd2] HL2]. by split; [split; [|congruence]|congruence]. Qed.

Section Revoked.
Context (new_state : AllocationState) (Hno : allocation_holds_units new_state = false).

Lemma revoked_refl s : Inv s -> revoked new_state s s.
Proof. intros HI. split; [by split|done|done|by left|done]. Qed.

Lemma revoked_trans s1 s2 s3 : revoked new_state s1 s2 -> revoked new_state s2 s3 -> revoked new_state s1 s3.
Proof using Hno.
  intros [[HI1 Hsd1] HT1 HL1 HR1 HM1] [[HI2 Hsd2] HT2 HL2 HR2 HM2]. split; [by split; [|congruence]|congruence|congruence| |].
  2: { intros p k r Hl Hk Hh. apply (HM2 p k r); [|done|done]. apply (HM1 p k r); [done| |done].
       destruct (HR2 k) as [<-|(? & ? & _ & _ & ? & ? & _)]; [done|congruence]. }
  intros k. destruct (HR2 k) as [->|(r & r' & Hr & Hh & Hr' & Hst & Hrest)]; [done|].
  destruct (HR1 k) as [He|(r0 & r1 & H0 & H1 & H2 & H3 & _)]; [|congruence].
  right. exists r, r'. by rewrite <- He.
Qed.

Lemma revoked_quiet s s1 s2 : revoked new_state s s1 -> quiet s1 s2 -> revoked new_state s s2.
Proof.
  intros [H1 H2 H3 H4 H5] Hq. split; [by eapply sound_quiet|by rewrite (quiet_terms _ _ Hq)|by rewrite <- Hq| |].
  - by rewrite <- (quiet_allocations _ _ Hq).
  - intros p k r Hl. rewrite <- (quiet_allocations _ _ Hq). intros Hk Hh. eapply lists_quiet; [done|by eapply H5].
Qed.

(** What holds units after the revocations held them before, untouched. *)
Lemma revoked_holding s s' k r :
  revoked new_state s s' -> im_allocations s' !! k = Some r -> allocation_holds_units (ar_state r) = true ->
  im_allocations s !! k = Some r.
Proof using Hno.
  intros [_ _ _ HR _] Hk Hh. destruct (HR k) as [<-|(r0 & r' & _ & _ & Hr' & Hst & _)]; [done|]. congruence.
Qed.

Lemma wp_conj {A} (m : M A) s Q1 Q2 E1 E2 :
  wp m s Q1 E1 -> wp m s Q2 E2 -> wp m s (fun a s' => Q1 a s' /\ Q2 a s') (fun e s' => E1 e s' /\ E2 e s').
Proof. unfold wp. by destruct (m s) as [[a|e] s']. Qed.

Lemma fence_revokes s key reason :
  Inv s ->
  wp (fence_allocation_locked key new_state reason) s
    (fun _ s' => revoked new_state s s' /\
       (forall r, im_allocations s' !! key = Some r -> allocation_holds_units (ar_state r) = false) /\
       (forall j, j <> key -> im_allocations s' !! j = im_allocations s !! j))
    (fun _ => unharmed s).
Proof using Hno.
  intros HI. eapply wp_mono; [apply wp_conj; [by apply (fence_outcome s key new_state reason)|
    apply wp_conj; [apply (within (R := fixed))|by apply fence_lists]]| |].
  - intros [] s' [(Hs & (r & r' & Hr & Hh & Hst & Hid & Hp & Hu & HA) & HT) [HL HM]]. split.
    + split; [done|done|by symmetry| |].
      2: { intros p k r0 Hl. rewrite HA. intros Hk Hh0. apply HM; [|done]. intros ->. rewrite lookup_insert_eq in Hk.
           injection Hk as <-. congruence. }
      intros k. rewrite HA. destruct (decide (k = key)) as [->|Hne].
      * right. exists r, r'. by rewrite lookup_insert_eq.
      * left. by rewrite lookup_insert_ne.
    + rewrite HA. split; [|by intros j Hj; apply lookup_insert_ne].
      intros r0 Hr0. rewrite lookup_insert_eq in Hr0. injection Hr0 as <-. by rewrite Hst.
  - intros e s' [HS [HL _]]. by split.
Qed.

(** Revoke [key], unless it is gone or holds nothing, and go on with the rest. *)
Lemma wp_fence_step {A} s key reason (k : AllocationRecord -> M A) (k' : M A) Q (E : Status -> Impl -> Prop) :
  Inv s ->
  (forall r s', im_allocations s !! key = Some r -> revoked new_state s s' ->
     (forall r', im_allocations s' !! key = Some r' -> allocation_holds_units (ar_state r') = false) ->
     (forall j, j <> key -> im_allocations s' !! j = im_allocations s !! j) -> wp (k r) s' Q E) ->
  ((forall r, im_allocations s !! key = Some r -> allocation_holds_units (ar_state r) = false) -> wp k' s Q E) ->
  (forall e s', unharmed s s' -> E e s') ->
  wp (let* s := sm_get in
      match im_allocations s !! key with
      | None => k'
      | Some r => if negb (allocation_holds_units (ar_state r)) then k'
                  else fence_allocation_locked key new_state reason ;;; k r
      end) s Q E.
Proof using Hno.
  intros HI Hk Hk' HE. do 2 wp_step. destruct (im_allocations s !! key) as [r|] eqn:Hr; [|by apply Hk'].
  destruct (allocation_holds_units (ar_state r)) eqn:Hh; simpl; [|apply Hk'; intros ? [= <-]; done].
  apply wp_bind. eapply wp_mono; [by apply fence_revokes| |auto]. intros [] s' (? & ? & ?). by apply Hk.
Qed.
End Revoked.

Lemma fence_all_outcome victims s :
  Inv s ->
  wp (fence_all victims) s
    (fun _ s' => revoked AllocationState.Fenced s s' /\
       (forall k r, k ∈ victims -> im_allocations s' !! k = Some r -> allocation_holds_units (ar_state r) = false) /\
       (forall k, k ∉ victims -> im_allocations s' !! k = im_allocations s !! k))
    (fun _ => unharmed s).
Proof.
  revert s. induction victims as [|v victims IH]; intros s HI; cbn [fence_all].
  { wp_step. split_and!; [by apply revoked_refl| |done]. intros k r Hk. by apply elem_of_nil in Hk. }
  assert (forall s1 s2, revoked AllocationState.Fenced s1 s2 ->
    (forall r, im_allocations s1 !! v = Some r -> allocation_holds_units (ar_state r) = false) ->
    forall r, im_allocations s2 !! v = Some r -> allocation_holds_units (ar_state r) = false) as Hstay.
  { intros s1 s2 Hrev Hgone r Hr. destruct (allocation_holds_units (ar_state r)) eqn:Hh; [|done]. rewrite <- Hh. apply Hgone.
    by apply (revoked_holding AllocationState.Fenced eq_refl s1 s2). }
  apply wp_fence_step; [done|done| | |done].
  - intros r s1 Hr Hrev Hgone Hother. eapply wp_mono; [apply IH, Hrev| |].
    + intros _ s2 (Hrev2 & Hall & Hrest). split_and!; [by eapply revoked_trans| |].
      * intros k r' Hk. apply elem_of_cons in Hk as [->|Hk]; [by apply (Hstay s1 s2)|by apply Hall].
      * intros k [Hne Hk]%not_elem_of_cons. rewrite Hrest by done. by apply Hother.
    + intros e s2 H2. by eapply unharmed_after.
  - intros Hgone. eapply wp_mono; [by apply IH| |done].
    intros _ s2 (Hrev2 & Hall & Hrest). split_and!; [done| |].
    + intros k r' Hk. apply elem_of_cons in Hk as [->|Hk]; [by apply (Hstay s s2)|by apply Hall].
    + intros k [Hne Hk]%not_elem_of_cons. by apply Hrest.
Qed.

Lemma elem_of_sorted_keys {A} (f : Z * A -> bool) (m : gmap Z A) k :
  k ∈ merge_sort Z.le (map fst (List.filter f (map_to_list m))) <-> exists a, m !! k = Some a /\ f (k, a) = true.
Proof.
  rewrite merge_sort_Permutation. split.
  - intros Hk. apply list_elem_of_In, in_map_iff in Hk as ([j a] & <- & Hin). apply filter_In in Hin as [Hin Hf].
    exists a. split; [|done]. by apply elem_of_map_to_list, list_elem_of_In.
  - intros (a & Hk & Hf). apply list_elem_of_In, in_map_iff. exists (k, a). split; [done|]. apply filter_In. split; [|done].
    by apply list_elem_of_In, elem_of_map_to_list.
Qed.

(** Fencing a queue leaves nothing of it that holds units, in whatever pool, and touches
    nothing else. *)
Lemma fence_queue_outcome queue s :
  Inv s ->
  wp (fence_queue queue) s
    (fun _ s' => revoked AllocationState.Fenced s s' /\
       (forall k r, im_allocations s' !! k = Some r -> ar_queue r = queue -> allocation_holds_units (ar_state r) = false) /\
       (forall k, im_allocations s' !! k = im_allocations s !! k \/
          exists r, im_allocations s !! k = Some r /\ ar_queue r = queue))
    (fun _ => unharmed s).
Proof.
  intros HI. unfold fence_queue. do 2 wp_step. eapply wp_mono; [by apply fence_all_outcome| |done].
  intros _ s' (Hrev & Hall & Hrest). split_and!; [done| |].
  - intros k r Hr Hq. destruct (allocation_holds_units (ar_state r)) eqn:Hh; [|done]. rewrite <- Hh. apply (Hall k r); [|done].
    assert (im_allocations s !! k = Some r) as Hr0 by (by apply (revoked_holding AllocationState.Fenced eq_refl s s')).
    unfold queue_victims. apply elem_of_sorted_keys. exists r. split; [done|]. simpl. by rewrite Hq, Z.eqb_refl.
  - intros k. destruct (decide (k ∈ queue_victims queue (im_allocations s))) as [Hk|Hk]; [right|left; by apply Hrest].
    unfold queue_victims in Hk. apply elem_of_sorted_keys in Hk as (r & Hr & Hf). exists r. split; [done|].
    simpl in Hf. by apply andb_true_iff in Hf as [Hf%Z.eqb_eq _].
Qed.

(** ** Shrinking a pool *)

(** The loop has dealt with [pre], and only with those; it stopped short of the rest because
    the pool fits. *)
Definition dealt (pool allowance : Z) (everything : bool) (victims : list Z) (s s' : Impl) : Prop :=
  exists pre suf, victims = pre ++ suf /\
    (forall k r, k ∈ pre -> im_allocations s' !! k = Some r -> allocation_holds_units (ar_state r) = false) /\
    (forall k, k ∉ pre -> im_allocations s' !! k = im_allocations s !! k) /\
    (suf = [] \/ everything = false /\ exists e, im_pools s' !! pool = Some e /\ en_own_usage e <= allowance).

Lemma dealt_nil pool allowance everything s : dealt pool allowance everything [] s s.
Proof. exists [], []. split_and!; try done; [|by left]. intros k r Hk. by apply elem_of_nil in Hk. Qed.

Lemma dealt_stop pool allowance victims s e :
  im_pools s !! pool = Some e -> en_own_usage e <= allowance -> dealt pool allowance false victims s s.
Proof.
  intros He Hle. exists [], victims. split_and!; try done; [|right; split; [done|by exists e]].
  intros k r Hk. by apply elem_of_nil in Hk.
Qed.

Lemma dealt_cons pool allowance everything v victims s s1 s2 :
  revoked AllocationState.Fenced s1 s2 ->
  (forall r, im_allocations s1 !! v = Some r -> allocation_holds_units (ar_state r) = false) ->
  (forall j, j <> v -> im_allocations s1 !! j = im_allocations s !! j) ->
  dealt pool allowance everything victims s1 s2 -> dealt pool allowance everything (v :: victims) s s2.
Proof.
  intros Hrev Hgone Hother (pre & suf & -> & Hpre & Hrest & Hstop). exists (v :: pre), suf. split_and!; try done.
  - intros k r Hk Hr. apply elem_of_cons in Hk as [->|Hk]; [|by eapply Hpre].
    destruct (allocation_holds_units (ar_state r)) eqn:Hh; [|done]. rewrite <- Hh. apply Hgone.
    by apply (revoked_holding AllocationState.Fenced eq_refl s1 s2).
  - intros k [Hne Hk]%not_elem_of_cons. rewrite Hrest by done. by apply Hother.
Qed.

Definition enforced (pool allowance : Z) (everything : bool) (victims : list Z) (s s' : Impl) : Prop :=
  revoked AllocationState.Fenced s s' /\ dealt pool allowance everything victims s s'.

(** The step both loops take, with what it adds to [enforced]. *)
Lemma enforced_step {A} pool allowance everything v victims s (k : AllocationRecord -> M A) (k' : M A) :
  Inv s ->
  (forall r s1, Inv s1 -> wp (k r) s1 (fun _ => enforced pool allowance everything victims s1)
     (fun _ => unharmed s1)) ->
  (forall s1, Inv s1 -> wp k' s1 (fun _ => enforced pool allowance everything victims s1)
     (fun _ => unharmed s1)) ->
  wp (let* s := sm_get in
      match im_allocations s !! v with
      | None => k'
      | Some r => if negb (allocation_holds_units (ar_state r)) then k'
                  else fence_allocation_locked v AllocationState.Fenced ErrorCode.CapacityExceeded ;;; k r
      end) s (fun _ => enforced pool allowance everything (v :: victims) s) (fun _ => unharmed s).
Proof.
  intros HI Hk Hk'. apply wp_fence_step; [done|done| | |done].
  - intros r s1 Hr Hrev Hgone Hother. eapply wp_mono; [apply Hk, Hrev| |].
    + intros _ s2 [Hrev2 Hd]. split; [by apply (revoked_trans AllocationState.Fenced eq_refl s s1 s2)|].
      by apply (dealt_cons _ _ _ _ _ s s1 s2).
    + intros e s2 H2. by eapply unharmed_after.
  - intros Hgone. eapply wp_mono; [by apply Hk'| |done]. intros _ s2 [Hrev2 Hd]. split; [done|].
    by apply (dealt_cons _ _ _ _ _ s s s2).
Qed.

Lemma fence_victims_outcome everything pool allowance victims result s :
  Inv s ->
  wp (fence_victims everything pool allowance victims result) s
    (fun _ => enforced pool allowance everything victims s) (fun _ => unharmed s).
Proof.
  revert result s. induction victims as [|v victims IH]; intros result s HI; cbn [fence_victims].
  { wp_step. split; [by apply revoked_refl|apply dealt_nil]. }
  wp_step. apply wp_pool_ref; [done|]. intros e He.
  destruct (negb everything && (en_own_usage e <=? allowance)) eqn:Hstop.
  - apply andb_true_iff in Hstop as [Hev%negb_true_iff Hle%Z.leb_le]. rewrite Hev. wp_step.
    split; [by apply revoked_refl|by eapply dealt_stop].
  - apply enforced_step; [done|intros; by apply IH|intros; by apply IH].
Qed.

Lemma fence_borrowers_outcome pool allowance candidates result s :
  Inv s ->
  wp (fence_borrowers pool allowance candidates result) s
    (fun _ => enforced pool allowance false candidates s) (fun _ => unharmed s).
Proof.
  revert result s. induction candidates as [|v victims IH]; intros result s HI; cbn [fence_borrowers].
  { wp_step. split; [by apply revoked_refl|apply dealt_nil]. }
  wp_step. apply wp_pool_ref; [done|]. intros e He.
  destruct (Z.leb_spec (en_own_usage e) allowance) as [Hle|_].
  - wp_step. split; [by apply revoked_refl|by eapply dealt_stop].
  - apply enforced_step; [done|intros; by apply IH|intros; by apply IH].
Qed.
