(* ===== verification/Resize.v ===== *)
(** * Shrinking a pool to its capacity

    A pool passes the closure check exactly when its own usage lies within its usable units
    and its overcommit allowance. Enforcing a smaller capacity revokes members in the victim
    order and then borrowers, stops as soon as the pool fits, and always makes it fit when
    the pool still lists all of its members; so a resize of such a pool never stops the
    fabric. *)

From S2P Require Import Prelude Ints Hash Enums Status Codec Model Wire Policy Accounting Authority Persist State Grant Alloc Lifecycle Books Triples Layout Safety AllocSafety LifeSafety Topology Revoke.

(** ** The closure check *)

Lemma allowance_range s p e :
  Inv s -> im_pools s !! p = Some e ->
  en_usable e <= capacity_allowance s e <= kMaxUnitsPerPool + kMaxOvercommitUnits.
Proof.
  intros HI He. pose proof (usable_range (inv_books s HI) p e He) as Hu. unfold capacity_allowance.
  destruct (im_policies s !! _) as [pol|] eqn:Hp; [destruct (inv_policies s HI _ _ Hp) as [Ho _ _ _]; case_decide|];
    rewrite saturating_add_min; u64_lia.
Qed.

(** Books leave of the accounting identities only the overcommit bound to check. *)
Lemma balanced_iff s p e mode limit :
  Inv s -> im_pools s !! p = Some e -> is_u64 limit ->
  pool_balanced (accounting_of s e) mode limit <->
  en_own_usage e <= en_usable e + (if decide (mode = OvercommitMode.Bounded) then limit else 0).
Proof.
  intros HI He Hl. pose proof (inv_books s HI) as HB. pose proof (usage_exact HB p e He) as (Hov & Hfr & Hal).
  pose proof (usable_range HB p e He) as Hus. destruct (counter_identities HB p e He) as [Hcl Hown].
  destruct (eo_descriptor _ _ _ (bk_entry _ _ HB p e He)) as [_ _ Hraw Hprot].
  pose proof (fun f => counter_bound HB f p e He) as HC. pose proof (HC FOwn) as C1. pose proof (HC FBorrowed) as C2.
  pose proof (HC FLent) as C3. pose proof (HC FReserved) as C4. pose proof (HC FCommitted) as C5. clear HC.
  simpl in *. unfold kMaxOwnUsage in *. pose proof (lent_le_own HB p e He) as Hlo.
  assert (en_usable e = pd_raw_units (en_descriptor e) - pd_protected_units (en_descriptor e)) as Hue.
  { unfold en_usable. rewrite (proj2 (Z.leb_le _ _)) by lia. rewrite sub64_exact; u64_lia. }
  split.
  - intros [_ _ _ _ _ _ _ Hm Hli _ _]. simpl in *. rewrite Hov in *. case_decide; [lia|]. destruct Hm; [lia|done].
  - intros Hle. assert (mode = OvercommitMode.Bounded \/ en_own_usage e <= en_usable e) as Hm
      by (case_decide; [by left|right; lia]).
    assert (en_own_usage e <= en_usable e + limit) as Hle' by (case_decide; u64_lia).
    split; simpl; rewrite ?Hov, ?Hfr, ?Hal; try lia; try u64_lia. destruct Hm as [->|Hm]; [by right|left; lia].
Qed.

(** The overcommit limit a policy allows a pool. *)
Definition limit_of (s : Impl) (e : PoolEntry) : Z :=
  from_option (fun q => oc_limit_units (pol_overcommit q)) 0 (im_policies s !! pd_policy (en_descriptor e)).

Lemma limit_range s e : Inv s -> 0 <= limit_of s e <= kMaxOvercommitUnits.
Proof.
  intros HI. unfold limit_of. destruct (im_policies s !! _) as [q|] eqn:Hq; simpl; [by destruct (inv_policies s HI _ _ Hq)|u64_lia].
Qed.

Lemma accounting_of_wf s p e : Inv s -> im_pools s !! p = Some e -> accounting_wf (accounting_of s e).
Proof.
  intros HI He. pose proof (inv_books s HI) as HB. pose proof (usage_exact HB p e He) as (Hov & Hfr & Hal).
  pose proof (usable_range HB p e He) as Hus. destruct (eo_descriptor _ _ _ (bk_entry _ _ HB p e He)) as [_ _ Hraw Hprot].
  pose proof (fun f => counter_bound HB f p e He) as HC. pose proof (HC FOwn) as C1. pose proof (HC FBorrowed) as C2.
  pose proof (HC FLent) as C3. pose proof (HC FReserved) as C4. pose proof (HC FCommitted) as C5.
  pose proof (HC FPinned) as C6. pose proof (HC FReclaimable) as C7. clear HC. simpl in *. unfold kMaxOwnUsage in *.
  pose proof (limit_range s e HI) as Hlim. unfold limit_of in Hlim. unfold accounting_of, accounting_wf; simpl.
  split_and!; try u64_lia. destruct (im_policies s !! _); simpl in *; [case_decide|]; u64_lia.
Qed.

(** Under the invariant the closure check is nothing but the capacity check. *)
Lemma closes_iff s p e :
  Inv s -> im_pools s !! p = Some e ->
  check_closure s e = Good tt <-> en_own_usage e <= capacity_allowance s e.
Proof.
  intros HI He. pose proof (usable_range (inv_books s HI) p e He) as Hus. pose proof (limit_range s e HI) as Hlim.
  assert (forall mode limit, is_u64 limit -> report_status (check_pool_accounting (accounting_of s e) mode limit) = Good tt <->
    en_own_usage e <= en_usable e + (if decide (mode = OvercommitMode.Bounded) then limit else 0)) as Hspec.
  { intros mode limit Hl. rewrite <- (balanced_iff s p e mode limit HI He Hl).
    rewrite <- check_pool_accounting_spec by (try done; by apply (accounting_of_wf s p)).
    unfold report_status. by case_match. }
  unfold check_closure, capacity_allowance, limit_of in *.
  destruct (im_policies s !! _) as [q|]; simpl in Hlim; rewrite Hspec by u64_lia;
    [case_decide|]; rewrite saturating_add_min by u64_lia; simpl; u64_lia.
Qed.

(** ** Enforcing *)

(** What [enforce_capacity] does to a pool: members in the victim order, then borrowers if
    the members were not enough. *)
Definition shrunk (pool : Z) (everything : bool) (s s' : Impl) : Prop :=
  exists e s1 e1, im_pools s !! pool = Some e /\
    enforced pool (capacity_allowance s e) everything (sort_victims (im_allocations s) (sorted_members e)) s s1 /\
    im_pools s1 !! pool = Some e1 /\
    (s' = s1 /\ en_own_usage e1 <= capacity_allowance s e \/
     capacity_allowance s e < en_own_usage e1 /\
     enforced pool (capacity_allowance s e) false (borrowers pool (im_allocations s1)) s1 s').

Lemma revoked_entry s s' p e :
  revoked AllocationState.Fenced s s' -> im_pools s !! p = Some e ->
  exists e', im_pools s' !! p = Some e' /\ en_descriptor e' = en_descriptor e /\
    en_capacity_generation e' = en_capacity_generation e.
Proof. intros [_ HT _ _ _]. by apply terms_entry. Qed.

Lemma enforce_outcome pool everything s :
  Inv s ->
  wp (enforce_capacity pool everything) s (fun _ => shrunk pool everything s) (fun _ => unharmed s).
Proof.
  intros HI. unfold enforce_capacity. wp_step. apply wp_pool_ref; [done|]. intros e He. do 2 wp_step.
  apply wp_bind. eapply wp_mono; [by apply fence_victims_outcome| |done]. intros result s1 [Hrev Hd].
  wp_step. apply wp_pool_ref; [intros _ st _; split; apply Hrev|]. intros e1 He1. do 2 wp_step.
  destruct (Z.ltb_spec (capacity_allowance s e) (en_own_usage e1)) as [Hlt|Hle].
  - rewrite (do_id _ _ (eo_descriptor _ _ _ (bk_entry _ _ (inv_books s1 (proj1 (rv_sound _ _ _ Hrev))) pool e1 He1))).
    eapply wp_mono; [apply fence_borrowers_outcome, Hrev| |].
    + intros result2 s2 H2. exists e, s1, e1. split_and!; try done. by right.
    + intros e2 s2 H2. by eapply unharmed_after.
  - wp_step. exists e, s1, e1. split_and!; try done. by left.
Qed.

Lemma shrunk_revoked pool everything s s' : shrunk pool everything s s' -> revoked AllocationState.Fenced s s'.
Proof.
  intros (e & s1 & e1 & _ & [Hrev _] & _ & [[-> _]|[_ [Hrev2 _]]]); [done|].
  by apply (revoked_trans AllocationState.Fenced eq_refl s s1 s').
Qed.

(** The pool lists every record that holds its units. *)
Definition complete (s : Impl) (pool : Z) : Prop :=
  forall e k r, im_pools s !! pool = Some e -> im_allocations s !! k = Some r -> here pool r = true -> k ∈ en_members e.

Lemma elem_of_victims allocations e k : k ∈ sort_victims allocations (sorted_members e) <-> k ∈ en_members e.
Proof. unfold sort_victims. by rewrite merge_sort_Permutation, elem_of_sorted_members. Qed.

(** Nothing of the pool and nothing borrowed from it is left once both loops ran through. *)
Lemma shrunk_fits pool everything s s' :
  Inv s -> complete s pool -> shrunk pool everything s s' ->
  exists e e', im_pools s !! pool = Some e /\ im_pools s' !! pool = Some e' /\ en_own_usage e' <= capacity_allowance s e.
Proof.
  intros HI Hc Hsh. pose proof (shrunk_revoked _ _ _ _ Hsh) as Hrev.
  destruct Hsh as (e & s1 & e1 & He & [Hrev1 Hd1] & He1 & [[-> Hle]|[Hlt [Hrev2 Hd2]]]); [by exists e, e1|].
  destruct (revoked_entry _ _ _ _ Hrev He) as (e' & He' & _). exists e, e'. split_and!; [done..|].
  destruct Hd2 as (pre2 & suf2 & Hsplit2 & Hpre2 & _ & [->|(_ & e2 & He2 & Hle)]); [|by simplify_eq].
  destruct Hd1 as (pre1 & suf1 & Hsplit1 & Hpre1 & _ & [->|(_ & e2 & He2 & Hle)]); [|simplify_eq; lia].
  rewrite app_nil_r in *. pose proof (allowance_range s pool e HI He) as Ha.
  pose proof (usable_range (inv_books s HI) pool e He) as Hu.
  pose proof (rv_sound _ _ _ Hrev) as [HI' _].
  rewrite (eo_counter _ _ _ (bk_entry _ _ (inv_books s' HI') pool e' He') FOwn : en_own_usage e' = _).
  rewrite total_of_zero; [lia|]. intros k r Hr.
  destruct (allocation_holds_units (ar_state r)) eqn:Hh; [|by apply share_idle].
  pose proof (revoked_holding AllocationState.Fenced eq_refl s s' k r Hrev Hr Hh) as Hr0.
  pose proof (revoked_holding AllocationState.Fenced eq_refl s1 s' k r Hrev2 Hr Hh) as Hr1.
  assert (here pool r = false) as Hhere.
  { destruct (here pool r) eqn:Hhere; [|done]. rewrite <- Hh. apply (Hpre1 k); [|done]. rewrite <- Hsplit1.
    apply elem_of_victims. by apply (Hc e k r). }
  assert (lends pool r = true -> effective_borrow r = 0) as Hlend.
  { intros Hl. unfold lends in Hl. apply andb_true_iff in Hl as [_ Hl].
    destruct (decide (ar_borrow_units r = 0)) as [Hz|Hz].
    { rewrite effective_borrow_min. pose proof (ro_units _ _ (bk_record _ _ (inv_books s HI) k r Hr0)). lia. }
    assert (allocation_holds_units (ar_state r) = false); [|congruence].
    apply (Hpre2 k r); [|done]. rewrite <- Hsplit2. apply elem_of_sorted_keys. exists r. split; [done|]. simpl.
    by rewrite Hh, Hl, (proj2 (Z.eqb_neq _ _) Hz). }
  shares. rewrite Hhere. destruct (lends pool r) eqn:Hl; [|done]. by rewrite Hlend.
Qed.

(** When everything is fenced, no member is left with units. *)
Lemma shrunk_all pool s s' e k r :
  shrunk pool true s s' -> im_pools s !! pool = Some e -> k ∈ en_members e ->
  im_allocations s' !! k = Some r -> allocation_holds_units (ar_state r) = false.
Proof.
  intros (e0 & s1 & e1 & He0 & [Hrev1 Hd1] & He1 & Hrest) He Hk Hr. simplify_eq.
  destruct Hd1 as (pre & suf & Hsplit & Hpre & _ & [->|[? _]]); [|done]. rewrite app_nil_r in *.
  destruct (allocation_holds_units (ar_state r)) eqn:Hh; [|done]. rewrite <- Hh. apply (Hpre k).
  { rewrite <- Hsplit. by apply elem_of_victims. }
  destruct Hrest as [[-> _]|[_ [Hrev2 _]]]; [done|]. by apply (revoked_holding AllocationState.Fenced eq_refl s1 s').
Qed.

(** ** The units a resource is partitioned into *)

Definition selected_raw (keep : PoolDescriptor -> bool) (d : PoolDescriptor) : Z := only (keep d) (pd_raw_units d).

Lemma sum_raw_spec keep message entries acc s :
  is_u64 acc -> Forall (fun e => is_u64 (pd_raw_units (en_descriptor e))) entries ->
  wp (sum_raw keep message entries acc) s
    (fun t s' => s' = s /\ is_u64 t /\ t = acc + foldr (fun e n => selected_raw keep (en_descriptor e) + n) 0 entries)
    (fun _ s' => s' = s).
Proof.
  intros Hacc Hl. revert acc Hacc. induction Hl as [|e l He _ IH]; intros acc Hacc; simpl; [wp_step; split_and!; [done|done|lia]|].
  unfold selected_raw at 1. destruct (keep (en_descriptor e)); simpl.
  - wp_step. apply wp_checked_add; [done|done|done|]. intros Hle.
    eapply wp_mono; [apply IH; u64_lia| |done]. intros t s' (-> & Ht & ->). split_and!; [done|done|lia].
  - eapply wp_mono; [by apply IH| |done]. intros t s' (-> & Ht & ->). split_and!; [done|done|lia].
Qed.

Lemma foldr_values {A} (f : A -> Z) (m : gmap Z A) : foldr (fun a n => f a + n) 0 (values m) = total_of f m.
Proof. rewrite total_of_list. unfold values. induction (map_to_list m) as [|[k a] l IH]; [done|]. simpl. by rewrite IH. Qed.

Lemma total_of_fmap {A B} (f : B -> Z) (g : A -> B) (m : gmap Z A) : total_of f (g <$> m) = total_of (fun a => f (g a)) m.
Proof. apply map_fold_fmap. Qed.

Lemma total_of_ext {A} (f g : A -> Z) (m : gmap Z A) : map_Forall (fun _ a => f a = g a) m -> total_of f m = total_of g m.
Proof. intros H. apply Z.le_antisymm; apply total_of_le; intros k a Hk; rewrite (H k a Hk); lia. Qed.

Lemma sum_pools keep message s :
  Inv s ->
  wp (sum_raw keep message (values (im_pools s)) 0) s
    (fun t s' => s' = s /\ is_u64 t /\ t = total_of (selected_raw keep) (ly_pools (layout s))) (fun _ s' => s' = s).
Proof.
  intros HI. eapply wp_mono; [apply sum_raw_spec; [u64_lia|]| |done].
  - apply list.Forall_forall. intros e He. unfold values in He. apply list_elem_of_In, in_map_iff in He as ([p e'] & <- & Hin).
    apply list_elem_of_In, elem_of_map_to_list in Hin. simpl.
    destruct (eo_descriptor _ _ _ (bk_entry _ _ (inv_books s HI) p e' Hin)). u64_lia.
  - intros t s' (-> & Ht & Heq). split_and!; [done|done|]. rewrite Heq. simpl. rewrite Z.add_0_l.
    rewrite (foldr_values (fun e => selected_raw keep (en_descriptor e))). symmetry. apply total_of_fmap.
Qed.

Lemma wp_partitioned resource message s :
  Inv s ->
  wp (partitioned resource message) s
    (fun t s' => s' = s /\ is_u64 t /\ t = total_of (carve resource) (ly_pools (layout s))) (fun _ s' => s' = s).
Proof. intros HI. unfold partitioned. do 2 wp_step. by apply sum_pools. Qed.

Lemma carve_range r p d s : Inv s -> ly_pools (layout s) !! p = Some d -> 0 <= carve r d <= kMaxUnitsPerPool.
Proof.
  intros HI (e & He & <-)%layout_entry. destruct (eo_descriptor _ _ _ (bk_entry _ _ (inv_books s HI) p e He)).
  unfold carve, only. case_match; u64_lia.
Qed.

Lemma carve_nonneg_total r s : Inv s -> 0 <= total_of (carve r) (ly_pools (layout s)).
Proof. intros HI. apply total_of_nonneg. intros p d Hd. pose proof (carve_range r p d s HI Hd). lia. Qed.

(** A partition with [raw_units] more than [others] fits, if the check passes. *)
Lemma wp_check_partition resource others raw_units missing exceeded s :
  is_u64 others -> is_u64 raw_units ->
  wp (check_partition resource others raw_units missing exceeded) s
    (fun _ s' => s' = s /\ exists c, im_capacities s !! resource = Some c /\ others + raw_units <= cp_raw_units c)
    (fun _ s' => s' = s).
Proof.
  intros Ho Hr. unfold check_partition. do 2 wp_step. wp_step. wp_step; [done|]. wp_step.
  apply wp_checked_add; [done|done|done|]. intros Hle. apply wp_reject; [done|]. intros Hlt%Z.ltb_ge.
  split; [done|]. by eexists.
Qed.

(** ** Resizing *)

(** The raw units of the other pools of the resource. *)
Lemma others_total r pool d (P : gmap Z PoolDescriptor) :
  P !! pool = Some d -> (forall q x, P !! q = Some x -> pd_id x = q) ->
  total_of (selected_raw (fun x => (pd_resource x =? r) && negb (pd_id x =? pool))) P = total_of (carve r) (delete pool P).
Proof.
  intros Hd Hid. rewrite <- (insert_delete_id P pool d Hd) at 1. rewrite total_of_insert_new by apply lookup_delete_eq.
  unfold selected_raw at 1. rewrite (Hid pool d Hd), Z.eqb_refl, andb_false_r. simpl.
  apply total_of_ext. intros q x [Hne Hx]%lookup_delete_Some. unfold selected_raw, carve.
  rewrite (Hid q x Hx), (proj2 (Z.eqb_neq q pool)) by congruence. by rewrite andb_true_r.
Qed.

Record resizable (s : Impl) (e : PoolEntry) (pool raw protected : Z) (p : PoolPolicy) : Prop := {
  rz_raw : 0 < raw <= kMaxUnitsPerPool;
  rz_protected : protected < raw;
  rz_floor : pol_usable_floor_units p <= raw - protected;
  rz_policy : im_policies s !! pd_policy (en_descriptor e) = Some p;
  rz_partition : exists c, im_capacities s !! pd_resource (en_descriptor e) = Some c /\
    total_of (carve (pd_resource (en_descriptor e))) (delete pool (ly_pools (layout s))) + raw <= cp_raw_units c
}.

Lemma check_resize_outcome s e pool raw protected :
  Inv s -> im_pools s !! pool = Some e -> is_u64 raw -> is_u64 protected ->
  wp (check_resize e pool raw protected) s (fun p s' => s' = s /\ resizable s e pool raw protected p) (fun _ s' => s' = s).
Proof.
  intros HI He Hr Hp. unfold check_resize. wp_step. apply wp_reject; [done|].
  intros [Hz%Z.eqb_neq Hm%Z.ltb_ge]%orb_false_iff. wp_step. apply wp_reject; [done|]. intros Hlt%Z.leb_gt.
  do 2 wp_step. wp_step. apply wp_require; [done|]. intros p Hpol. wp_step. apply wp_reject; [done|]. intros Hfl%Z.ltb_ge.
  rewrite sub64_exact in Hfl by u64_lia.
  wp_step. apply wp_require; [done|]. intros c0 Hc0. wp_step. eapply wp_mono; [by apply sum_pools| |done].
  intros t s' (-> & Ht & Htot). wp_step. eapply wp_mono; [by apply wp_check_partition| |done].
  intros [] s' [-> (c & Hc & Hle)]. wp_step. split; [done|]. split; [u64_lia|lia|done|done|].
  exists c. split; [done|]. rewrite Htot in Hle. rewrite <- (others_total _ pool (en_descriptor e)); [done| |].
  - apply layout_entry. by exists e.
  - intros q x (e1 & He1 & <-)%layout_entry. by destruct (eo_descriptor _ _ _ (bk_entry _ _ (inv_books s HI) q e1 He1)).
Qed.

Lemma resized_inv s e pool raw protected generation capacity p :
  Inv s -> im_pools s !! pool = Some e -> 0 <= protected -> resizable s e pool raw protected p ->
  Inv (s <| im_pools ::= alter (resized raw protected generation capacity) pool |>).
Proof.
  intros HI He Hpr [Hraw Hlt _ Hpol (c & Hc & Hfit)]. pose proof HI as [HB Hids Hn Hpols Hly Hlv].
  assert (en_descriptor <$> alter (resized raw protected generation capacity) pool (im_pools s) =
    <[pool := en_descriptor (resized raw protected generation capacity e)]> (en_descriptor <$> im_pools s)) as HD.
  { apply map_eq. intros q. rewrite lookup_fmap, lookup_alter. destruct (decide (pool = q)) as [<-|Hne].
    - by rewrite He, lookup_insert_eq.
    - by rewrite lookup_insert_ne, lookup_fmap. }
  split; simpl; try done.
  - apply books_entry; [done|]. intros e0 He0 [Hd HC Ho Hb Hm]. assert (e0 = e) as -> by congruence.
    destruct Hd as [Hid Hv _ _]. split; try done. split; simpl; [done|done|lia|lia].
  - unfold layout in Hly. simpl in Hly. unfold layout. simpl. rewrite HD.
    apply (arranged_resize_pool _ _ _ _ _ _ Hly pool (en_descriptor e)); try done; [by rewrite lookup_fmap, He|].
    exists c. split; [done|]. rewrite <- insert_delete_eq, total_of_insert_new by apply lookup_delete_eq.
    unfold carve at 1. simpl. rewrite Z.eqb_refl. simpl. unfold layout in Hfit. simpl in Hfit. lia.
Qed.

Lemma wp_next_generation g message (s : Impl) (Q : Z -> Impl -> Prop) (E : Status -> Impl -> Prop) :
  (forall e, E e s) -> (forall n, n <> 0 -> n = add64 g 1 -> Q n s) -> wp (next_generation g message) s Q E.
Proof.
  intros HE HQ. unfold wp, next_generation, add_overflow. destruct (_ || _) eqn:Ho; [apply HE|].
  apply orb_false_iff in Ho as [_ Hz%Z.eqb_neq]. by apply HQ.
Qed.

(** What a successful resize has done. *)
Record resize_done (pool raw protected : Z) (s : Impl) (o : ResizeOutcome) (s' : Impl) : Prop := {
  rd_pool : exists e p s0 e',
    im_pools s !! pool = Some e /\ im_policies s !! pd_policy (en_descriptor e) = Some p /\
    resizable s e pool raw protected p /\
    quiet (s <| im_pools ::= alter (resized raw protected (ro_new_generation o) (add64 (en_capacity_generation e) 1)) pool |>) s0 /\
    shrunk pool (pol_fence_on_generation_change p) s0 s' /\
    im_pools s' !! pool = Some e' /\ en_own_usage e' <= capacity_allowance s' e' /\
    ro_new_generation o = add64 (pd_generation (en_descriptor e)) 1 /\ ro_accounting o = accounting_of s' e'
}.

Lemma verify_closure_outcome pool (report : Status -> M unit) s :
  Inv s -> (forall status, Hushed (report status)) ->
  wp (verify_closure pool report) s
    (fun _ s' => s' = s /\ forall e, im_pools s !! pool = Some e -> en_own_usage e <= capacity_allowance s e)
    (fun _ s' => Inv s' /\ (im_shutting_down s' = im_shutting_down s \/
       exists e, im_pools s !! pool = Some e /\ capacity_allowance s e < en_own_usage e)).
Proof.
  intros HI Hrep. unfold verify_closure. wp_step. apply wp_pool_ref; [by split; [|left]|]. intros e He. do 2 wp_step.
  pose proof (closes_iff s pool e HI He) as Hiff. destruct (check_closure s e) as [[]|status] eqn:Hc.
  - wp_step. split; [done|]. intros e0 He0. simplify_eq. by apply Hiff.
  - assert (capacity_allowance s e < en_own_usage e) as Hlt.
    { destruct (Z.lt_ge_cases (capacity_allowance s e) (en_own_usage e)) as [|Hge]; [done|]. apply Hiff in Hge. done. }
    wp_step. apply wp_modify. wp_step.
    apply (wp_hushed _ Inv); [apply Hrep|by intros s1 s2 Hq; rewrite Hq|by apply Inv_shutdown| |].
    + intros [] s1 HI1. hnf. split; [done|]. right. by exists e.
    + intros st s1 HI1. split; [done|]. right. by exists e.
Qed.

Lemma allowance_quiet s s' e e' :
  im_policies s' = im_policies s -> en_descriptor e' = en_descriptor e -> capacity_allowance s' e' = capacity_allowance s e.
Proof. intros Hp Hd. unfold capacity_allowance, en_usable. by rewrite Hp, Hd. Qed.

(** After enforcing, a pool that lists all its members is within its allowance. *)
Lemma shrunk_closes pool everything s s' e' :
  Inv s -> complete s pool -> shrunk pool everything s s' -> im_pools s' !! pool = Some e' ->
  en_own_usage e' <= capacity_allowance s' e'.
Proof.
  intros HI Hc Hsh He'. destruct (shrunk_fits _ _ _ _ HI Hc Hsh) as (e & e0 & He & He0 & Hle). simplify_eq.
  pose proof (shrunk_revoked _ _ _ _ Hsh) as Hrev. destruct (revoked_entry _ _ _ _ Hrev He) as (e1 & He1 & Hd & _). simplify_eq.
  rewrite (allowance_quiet s s' e e'); [done| |done]. pose proof (rv_terms _ _ _ Hrev) as HT. unfold terms in HT. congruence.
Qed.

Lemma complete_quiet s s' pool : quiet s s' -> complete s pool -> complete s' pool.
Proof.
  intros Hq Hc e' k r He' Hk Hh. destruct (strip_lookup _ _ _ _ (eq_sym (quiet_pools _ _ Hq)) He') as (e & He & Hs).
  rewrite <- (quiet_allocations _ _ Hq) in Hk. pose proof (f_equal en_members Hs) as Hm. simpl in Hm. rewrite Hm. by apply (Hc e k r).
Qed.

Definition resize_safe (pool : Z) (s s' : Impl) : Prop :=
  Inv s' /\ (complete s pool -> im_shutting_down s' = im_shutting_down s).

Lemma resize_safe_quiet pool s s1 s2 : resize_safe pool s s1 -> quiet s1 s2 -> resize_safe pool s s2.
Proof. intros [HI Hs] Hq. split; [by rewrite <- Hq|]. rewrite <- (quiet_shutdown _ _ Hq). done. Qed.

#[export] Instance logged_journal_pool e : Within logged (journal_pool e).
Proof. apply within_journal_encoded. Qed.
#[export] Instance logged_journal_queue q : Within logged (journal_queue q).
Proof. apply within_journal_encoded. Qed.
#[export] Instance logged_journal_pressure x : Within logged (journal_pressure x).
Proof. apply within_journal_encoded. Qed.

Lemma enforce_and_close {A} pool everything (k : ShrinkResult -> PoolAccounting -> A) s :
  Inv s ->
  wp (let* shrink := enforce_capacity pool everything in
      verify_closure pool (fun status =>
        push_event EventKind.AccountingViolation (st_code status) (st_message status) pool 0 0 0 0) ;;;
      let* final := pool_ref pool in
      let* s := sm_get in
      ret (k shrink (accounting_of s final))) s
    (fun o s' => shrunk pool everything s s' /\ exists e' shrink, im_pools s' !! pool = Some e' /\
       en_own_usage e' <= capacity_allowance s' e' /\ o = k shrink (accounting_of s' e'))
    (fun _ => resize_safe pool s).
Proof.
  intros HI. wp_step. eapply wp_mono; [by apply enforce_outcome| |intros ? s1 [[] _]; by split]. intros shrink s1 Hsh.
  pose proof (shrunk_revoked _ _ _ _ Hsh) as [[HI1 Hsd1] _ _ _ _]. wp_step.
  eapply wp_mono; [apply verify_closure_outcome; [done|apply _]| |].
  - intros [] s2 [-> Hok]. wp_step. apply wp_pool_ref; [by split|]. intros e' He'. do 3 wp_step.
    split; [done|]. exists e', shrink. auto.
  - intros st s2 [HI2 Hstop]. split; [done|]. intros Hc. destruct Hstop as [->|(e1 & He1 & Hlt)]; [done|].
    pose proof (shrunk_closes pool everything s s1 e1 HI Hc Hsh He1). lia.
Qed.

#[export] Typeclasses Opaque journal_pool journal_policy journal_queue journal_capacity journal_pressure.

Lemma resize_outcome pool raw protected expected s :
  Inv s -> is_u64 raw -> is_u64 protected ->
  wp (resize_pool pool raw protected expected) s (fun o s' => resize_done pool raw protected s o s' /\ resize_safe pool s s')
    (fun _ => resize_safe pool s).
Proof.
  intros HI Hr Hp. assert (resize_safe pool s s) as Hsafe by by split.
  unfold resize_pool, require_open, refuse_after_shutdown. do 3 wp_step. wp_step; [done|]. do 3 wp_step. wp_step; [done|].
  wp_step. wp_step; [done|]. rename H1 into He. wp_step. apply wp_reject; [done|]. intros _.
  wp_step. eapply wp_mono; [by apply check_resize_outcome| |by intros ? ? ->]. intros p s0 [-> Hrz].
  wp_step. apply wp_next_generation; [done|]. intros generation Hgz Hg. wp_step. apply wp_next_generation; [done|].
  intros capacity Hcz Hc.
  pose proof (resized_inv s e pool raw protected generation capacity p HI He ltac:(u64_lia) Hrz) as HI1.
  wp_step. unfold wp at 1, update_pool, modify, sm_modify. set (s1 := s <| im_pools ::= alter _ pool |>) in *.
  assert (im_pools s1 !! pool = Some (resized raw protected generation capacity e)) as He1 by (simpl; by rewrite lookup_alter_eq, He).
  assert (im_pools s1 = alter (resized raw protected generation capacity) pool (im_pools s) /\
    im_allocations s1 = im_allocations s /\ im_shutting_down s1 = im_shutting_down s) as (HP1 & HA1 & HS1) by done.
  assert (quiet (s <| im_pools ::= alter (resized raw protected generation capacity) pool |>) s1) as Hq1 by reflexivity.
  assert (complete s pool -> complete s1 pool) as Hcomp.
  { intros Hcm e0 k r He0 Hk Hh. rewrite He1 in He0. injection He0 as <-. by apply (Hcm e k r). }
  clearbody s1. wp_step. apply wp_pool_ref; [by intros; split|]. intros e1 He1'. simplify_eq. wp_step.
  assert (resize_safe pool s s1) as Hsafe1 by by split.
  eapply wp_mono; [apply (within (R := quiet))| |intros; by eapply resize_safe_quiet]. intros [] s2 Hq12. wp_step.
  eapply wp_mono; [apply (within (R := quiet))| |intros; eapply resize_safe_quiet; [done|]; by transitivity s2]. intros [] s3 Hq23.
  assert (quiet s1 s3) as Hq13 by by transitivity s2.
  assert (resize_safe pool s3 s3) as [HI3 _] by (split; [by rewrite <- Hq13|done]).
  assert (complete s pool -> complete s3 pool) as Hcomp3.
  { intros Hc. by apply (complete_quiet s1), Hcomp. }
  eapply wp_mono; [exact (enforce_and_close pool (pol_fence_on_generation_change p) _ s3 HI3)| |].
  - intros o s4 [Hsh (e' & shrink & He' & Hle & ->)]. pose proof (shrunk_revoked _ _ _ _ Hsh) as [[HI4 Hsd4] _ _ _ _].
    split; [|split; [done|intros _; by rewrite Hsd4, <- (quiet_shutdown _ _ Hq13)]].
    split. exists e, p, s3, e'. split_and!; try done; [apply Hrz|by transitivity s1].
  - intros st s4 [HI4 Hsd4]. split; [done|]. intros Hc. by rewrite Hsd4, <- (quiet_shutdown _ _ Hq13) by auto.
Qed.

(** ** The victim order *)

Definition class_rank (r : AllocationRecord) : Z := if is_pinned r then 1 else 0.

(** The comparator is the lexicographic order on class, priority and id. *)
Lemma victim_before_lex A a b ra rb :
  A !! a = Some ra -> A !! b = Some rb ->
  victim_before A a b = true <->
  class_rank ra < class_rank rb \/ class_rank ra = class_rank rb /\
    (ar_reclaim_priority ra < ar_reclaim_priority rb \/
     ar_reclaim_priority ra = ar_reclaim_priority rb /\ ar_id ra < ar_id rb).
Proof.
  intros Ha Hb. unfold victim_before, class_rank, is_pinned. rewrite Ha, Hb.
  destruct (ar_reclaim_class ra), (ar_reclaim_class rb); repeat case_bool_decide; simpl; try done;
    try (split; [lia|done]); try (split; [done|lia]);
    destruct (Z.eqb_spec (ar_reclaim_priority ra) (ar_reclaim_priority rb)); simpl; rewrite Z.ltb_lt; lia.
Qed.

(** Sortedness is strong where the relation is transitive on the elements of the list. *)
Lemma Sorted_StronglySorted_on {X} (R : X -> X -> Prop) (P : X -> Prop) (l : list X) :
  (forall x y z, P x -> P y -> P z -> R x y -> R y z -> R x z) -> Forall P l -> Sorted R l -> StronglySorted R l.
Proof.
  intros Htr HP Hs. induction Hs as [|x l Hs IH Hd]; [constructor|]. apply Forall_cons in HP as [Hx Hl].
  specialize (IH Hl). constructor; [done|]. destruct Hd as [|y l' Hxy]; [constructor|].
  apply Forall_cons in Hl as [Hy Hl]. apply StronglySorted_cons in IH as [Hall _]. constructor; [done|].
  apply list.Forall_forall. intros z Hz. rewrite list.Forall_forall in Hall, Hl. by apply (Htr x y z); auto.
Qed.

Section Order.
Context (A : gmap Z AllocationRecord) (HA : forall k r, A !! k = Some r -> ar_id r = k).

#[local] Instance victims_total : Total (fun a b => negb (victim_before A b a)).
Proof using.
  intros a b. unfold victim_before at 1 2. destruct (A !! a) as [ra|] eqn:Ha, (A !! b) as [rb|] eqn:Hb.
  1: { pose proof (victim_before_lex A a b ra rb Ha Hb) as H1. pose proof (victim_before_lex A b a rb ra Hb Ha) as H2.
       unfold victim_before in H1, H2. rewrite Ha, Hb in H1, H2.
       match type of H1 with ?x = true <-> _ => destruct x end; [|by right].
       match type of H2 with ?x = true <-> _ => destruct x end; [|by left]. destruct H1 as [H1 _], H2 as [H2 _].
       specialize (H1 eq_refl). specialize (H2 eq_refl). lia. }
  all: destruct (Z.ltb_spec a b), (Z.ltb_spec b a); simpl; auto; lia.
Qed.

Lemma victims_sorted victims :
  Forall (fun k => is_Some (A !! k)) victims ->
  StronglySorted (fun a b => negb (victim_before A b a)) (sort_victims A victims).
Proof using.
  intros Hv. apply (Sorted_StronglySorted_on _ (fun k => is_Some (A !! k))).
  - intros x y z [rx Hx] [ry Hy] [rz Hz] H1 H2.
    pose proof (victim_before_lex A y x ry rx Hy Hx). pose proof (victim_before_lex A z y rz ry Hz Hy).
    pose proof (victim_before_lex A z x rz rx Hz Hx).
    destruct (victim_before A y x); [done|]. destruct (victim_before A z y); [done|].
    destruct (victim_before A z x); [|done]. exfalso.
    assert (forall P : Prop, (false = true <-> P) -> ~ P) as Hno by (by intros P [_ HP] ?%HP).
    repeat match goal with H : false = true <-> _ |- _ => apply Hno in H end.
    match goal with H : true = true <-> _ |- _ => destruct H as [H _]; specialize (H eq_refl) end. lia.
  - unfold sort_victims. rewrite merge_sort_Permutation. done.
  - apply (Sorted_merge_sort (fun a b => Is_true (negb (victim_before A b a)))).
Qed.

Lemma victim_before_total a b :
  is_Some (A !! a) -> is_Some (A !! b) -> a <> b -> victim_before A b a = false -> victim_before A a b = true.
Proof using HA.
  intros [ra Ha] [rb Hb] Hne Hno. apply (victim_before_lex A a b ra rb Ha Hb).
  assert (~ victim_before A b a = true) as Hno' by congruence. rewrite (victim_before_lex A b a rb ra Hb Ha) in Hno'.
  rewrite (HA _ _ Ha), (HA _ _ Hb) in *. lia.
Qed.
End Order.

(** ** Properties *)

(** The closure check of a pool is a capacity check: in a state whose books balance it
    passes precisely when the pool's own usage is within its usable units plus the bounded
    overcommit of its policy; none of the identities it tests can fail on its own. *)
Theorem check_closure_is_capacity (s : Impl) (p : Z) (e : PoolEntry) :
  Inv s -> im_pools s !! p = Some e ->
  (check_closure s e = Good tt <-> en_own_usage e <= capacity_allowance s e).
Proof. apply closes_iff. Qed.

Lemma check_closure_is_capacity_witness :
  check_closure sample_state (sample_pool 2 "leaf" 1 100 20) = Good tt.
Proof.
  apply (check_closure_is_capacity sample_state 2); [apply sample_inv|reflexivity|].
  vm_compute. discriminate.
Defined.

(** C23. A resize is sound: whatever its outcome the books still balance, and as long as the pool
    lists every allocation that holds its units it never stops the fabric. A resize that
    succeeds has checked the bounds, the policy floor and the resource's partition, has moved
    both generations on, has revoked in the order of the code (reclaimable before pinned
    members, a lower reclaim priority first, then by id, which a comment there leaves the
    priority out of; all members when the policy fences on a change of generation, otherwise
    only until the pool fits; then borrowers, if the pool still does not fit), and leaves the
    pool within its allowance. *)
Theorem resize_pool_exact (pool raw protected expected : Z) (s s' : Impl) (res : Result ResizeOutcome) :
  Inv s -> is_u64 raw -> is_u64 protected -> resize_pool pool raw protected expected s = (res, s') ->
  resize_safe pool s s' /\ forall o, res = Good o -> resize_done pool raw protected s o s'.
Proof.
  intros HI Hr Hp Hrun. apply (wp_run _ _ _ _ _ _ (resize_outcome pool raw protected expected s HI Hr Hp)) in Hrun.
  destruct res as [o|st]; [|by split]. destruct Hrun as [Hd Hs]. split; [done|]. by intros ? [= <-].
Qed.

Lemma resize_pool_exact_witness :
  exists o s', resize_pool 2 60 10 1 (sample_later 10 1) = (Good o, s') /\ resize_done 2 60 10 (sample_later 10 1) o s'.
Proof.
  assert (succeeds (resize_pool 2 60 10 1) (sample_later 10 1) = true) as (o & s' & Hrun)%succeeds_run
    by (vm_compute; reflexivity).
  exists o, s'. split; [done|].
  apply (resize_pool_exact 2 60 10 1 (sample_later 10 1) s' (Good o)); [apply sample_later_inv|u64_lia|u64_lia|exact Hrun|done].
Defined.

(** Shrinking revokes in the documented order: when the policy does not ask for all
    members to be fenced, every member that lost its units comes before every member that
    kept them, reclaimable allocations before pinned ones, then by priority, then by id; and
    no member is left unless the pool fits. *)
Theorem enforce_capacity_order (pool : Z) (s s' : Impl) (result : ShrinkResult) (e : PoolEntry) (a b : Z)
    (ra rb : AllocationRecord) :
  Inv s -> im_pools s !! pool = Some e -> enforce_capacity pool false s = (Good result, s') ->
  a ∈ en_members e -> im_allocations s !! a = Some ra -> im_allocations s' !! a <> Some ra ->
  b ∈ en_members e -> im_allocations s' !! b = Some rb -> allocation_holds_units (ar_state rb) = true ->
  victim_before (im_allocations s) a b = true /\
  exists s1 e1, enforced pool (capacity_allowance s e) false (sort_victims (im_allocations s) (sorted_members e)) s s1 /\
    im_pools s1 !! pool = Some e1 /\ en_own_usage e1 <= capacity_allowance s e.
Proof.
  intros HI He Hrun Ha Hra Hlost Hb Hrb Hhold. apply (wp_run _ _ _ _ _ _ (enforce_outcome pool false s HI)) in Hrun.
  destruct Hrun as (e0 & s1 & e1 & He0 & [Hrev1 Hd1] & He1 & Hrest). simplify_eq.
  pose proof (inv_books s HI) as HB. pose proof (eo_members _ _ _ (bk_entry _ _ HB pool e He)) as Hm.
  destruct (Hm a Ha) as (ra' & Hra' & Hherea). destruct (Hm b Hb) as (rb' & Hrb' & Hhereb). simplify_eq.
  pose proof Hd1 as (pre & suf & Hsplit & Hpre & Hkeep & Hstop).
  assert (im_allocations s1 !! b = Some rb) as Hb1.
  { destruct Hrest as [[-> _]|[_ [Hrev2 _]]]; [done|]. by apply (revoked_holding AllocationState.Fenced eq_refl s1 s'). }
  assert (b ∉ pre) as Hbpre by (intros Hin; pose proof (Hpre b rb Hin Hb1); congruence).
  assert (b ∈ suf) as Hbsuf.
  { pose proof (proj2 (elem_of_victims (im_allocations s) e b) Hb) as Hin. rewrite Hsplit in Hin.
    apply elem_of_app in Hin as [|]; done. }
  assert (en_own_usage e1 <= capacity_allowance s e) as Hfits.
  { destruct Hstop as [->|(_ & e2 & He2 & Hle)]; [by apply elem_of_nil in Hbsuf|]. by simplify_eq. }
  assert (s' = s1) as -> by (destruct Hrest as [[-> _]|[Hlt _]]; [done|lia]).
  assert (a ∈ pre) as Hapre.
  { destruct (decide (a ∈ pre)) as [|Hn]; [done|]. destruct Hlost. by rewrite Hkeep. }
  split; [|by exists s1, e1]. apply victim_before_total; [apply HB|by eexists|by eexists|congruence|].
  assert (StronglySorted (fun a b => negb (victim_before (im_allocations s) b a))
    (sort_victims (im_allocations s) (sorted_members e))) as Hs.
  { apply victims_sorted, list.Forall_forall. intros k Hk. apply elem_of_sorted_members in Hk.
    destruct (Hm k Hk) as (r & Hr & _). by exists r. }
  rewrite Hsplit in Hs. pose proof (StronglySorted_app_1_elem_of _ _ _ a b Hs Hapre Hbsuf) as HR. simpl in HR.
  by destruct (victim_before _ b a).
Qed.
