(* ===== verification/TopoSafety.v ===== *)
(** * Capacity, policies, pools and queues keep the invariant

    Every operation of the topology leaves the books balanced, the pools a forest within the
    published capacities and the name tables exact; a refused one changes no table; and what
    a successful one changes is stated exactly. *)

From S2P Require Import Prelude Ints Hash Enums Status Codec Model Wire Policy Accounting Authority Persist State Grant Alloc Lifecycle Books Triples Layout Safety AllocSafety LifeSafety Topology Revoke Resize.

(** ** Refused operations *)

(** No table, no pool and no allocation changed. *)
Definition refused (s s' : Impl) : Prop := sound s s' /\ layout s' = layout s /\ same_tables s s'.

Lemma refused_refl s : Inv s -> refused s s.
Proof. intros HI. split_and!; [by split|done|by repeat split]. Qed.

Lemma refused_quiet s s1 s2 : refused s s1 -> quiet s1 s2 -> refused s s2.
Proof.
  intros (HS & HL & HA & HP & HQ & HT & HN) Hq. split; [by eapply sound_quiet|]. split; [by rewrite <- Hq|].
  unfold same_tables. by rewrite <- (quiet_allocations _ _ Hq), <- (quiet_policies _ _ Hq),
    <- (quiet_queues _ _ Hq), <- (quiet_pools _ _ Hq), <- (quiet_next _ _ Hq).
Qed.

Lemma refused_trans s s1 s2 : refused s s1 -> refused s1 s2 -> refused s s2.
Proof.
  intros ((HI & HS) & HL & HA & HP & HQ & HT & HN) ((HI' & HS') & HL' & HA' & HP' & HQ' & HT' & HN').
  split_and!; [split; [done|congruence]|congruence|]. unfold same_tables. split_and!; congruence.
Qed.

(** An operation that at most writes what no table depends on. *)
Lemma wp_refused_quiet {A} (m : M A) s0 s (Q : A -> Impl -> Prop) (E : Status -> Impl -> Prop) :
  Hushed m -> refused s0 s -> (forall a s', refused s0 s' -> quiet s s' -> Q a s') ->
  (forall e s', refused s0 s' -> E e s') -> wp m s Q E.
Proof.
  intros Hm HR HQ HE. eapply wp_mono; [apply Hm| |].
  - intros a s' Hq. apply HQ; [by eapply refused_quiet|done].
  - intros e s' Hq. by apply HE; eapply refused_quiet.
Qed.

Lemma wp_push_event kind outcome detail pool queue allocation units sequence s (Q : unit -> Impl -> Prop)
    (E : Status -> Impl -> Prop) :
  (forall s', quiet s s' -> Q tt s') -> wp (push_event kind outcome detail pool queue allocation units sequence) s Q E.
Proof. intros HQ. pose proof (hushed_event kind outcome detail pool queue allocation units sequence s) as H. by apply HQ. Qed.

Lemma wp_require_open s (Q : unit -> Impl -> Prop) (E : Status -> Impl -> Prop) :
  (forall e, E e s) -> (im_open s = true -> Q tt s) -> wp require_open s Q E.
Proof. intros HE HQ. unfold require_open. do 2 wp_step. apply wp_reject; [auto|]. intros H%negb_false_iff. auto. Qed.

Lemma wp_refuse_after_shutdown s (Q : unit -> Impl -> Prop) (E : Status -> Impl -> Prop) :
  (forall e, E e s) -> Q tt s -> wp refuse_after_shutdown s Q E.
Proof. intros HE HQ. unfold refuse_after_shutdown. do 2 wp_step. by apply wp_reject. Qed.

Lemma wp_claim_id next set_next requested message s (Q : Z -> Impl -> Prop) (E : Status -> Impl -> Prop) :
  (forall e, E e s) ->
  (forall id s', (s' = s \/ exists n, s' = set_next n s) -> id = (if valid requested then requested else next s) -> Q id s') ->
  wp (claim_id next set_next requested message) s Q E.
Proof.
  intros HE HQ. unfold claim_id. wp_step. unfold wp at 1, gets. cbv zeta.
  destruct (next s <=? _); [|apply wp_ret, HQ; [by left|done]].
  apply wp_bind, wp_checked_any; [auto|]. intros m. apply wp_bind, wp_modify, wp_ret, HQ; [right; by exists m|done].
Qed.

(** Counters of ids are in no table. *)
Lemma refused_next_pool s n : Inv s -> refused s (s <| im_next_pool_id := n |>).
Proof. intros HI. split; [split; [by destruct HI; split|done]|by split]. Qed.
Lemma refused_next_queue s n : Inv s -> refused s (s <| im_next_queue_id := n |>).
Proof. intros HI. split; [split; [by destruct HI; split|done]|by split]. Qed.
Lemma refused_next_policy s n : Inv s -> refused s (s <| im_next_policy_id := n |>).
Proof. intros HI. split; [split; [by destruct HI; split|done]|by split]. Qed.
Lemma refused_next_snapshot s n : Inv s -> refused s (s <| im_next_snapshot_id := n |>).
Proof. intros HI. split; [split; [by destruct HI; split|done]|by split]. Qed.

(** ** Capacity *)

Lemma capacity_inv s r c :
  Inv s -> total_of (carve r) (ly_pools (layout s)) <= cp_raw_units c -> Inv (s <| im_capacities ::= <[r := c]> |>).
Proof. intros [] Hle. split; try done. by apply arranged_set_capacity. Qed.

(** The resource's new authority, everything else as it was. *)
Definition capacity_set (s : Impl) (r : Z) (c : CapacityEntry) (s' : Impl) : Prop :=
  sound s s' /\ im_capacities s' = <[r := c]> (im_capacities s) /\ same_tables s s' /\
  total_of (carve r) (ly_pools (layout s)) <= cp_raw_units c.

Lemma capacity_publish_outcome s0 s resource backend_id expected_raw expected a :
  Inv s -> refused s0 s -> im_capacities s = im_capacities s0 ->
  wp (capacity_publish resource backend_id expected_raw expected a) s
    (fun g s' => g = ca_generation a /\ exists now, capacity_set s0 resource
       (mkCapacityEntry resource backend_id (ca_generation a) (ca_raw_units a) now) s')
    (fun _ => refused s0).
Proof.
  intros HI HR HC. unfold capacity_publish. wp_step. apply wp_refuse_after_shutdown; [done|].
  do 2 (wp_step; apply wp_reject; [done|]; intros _).
  wp_step. eapply wp_mono; [by apply wp_partitioned| |by intros ? ? ->]. intros t s1 (-> & Ht & ->).
  wp_step. apply wp_reject; [done|]. intros Hle%Z.ltb_ge. wp_step. unfold wp at 1, gets. cbv zeta.
  set (entry := mkCapacityEntry _ _ _ _ _).
  wp_step. apply (wp_refused_quiet _ s0 s); [apply hushed_logged, within_journal_encoded|done| |done].
  intros [] s1 HR1 Hq1. wp_step. apply wp_modify. set (s2 := s1 <| im_capacities ::= _ |>).
  assert (sound s0 s2) as HS2.
  { destruct HR1 as ([HI1 Hsd1] & HL1 & _). split; [|done]. apply capacity_inv; [done|]. rewrite <- Hq1. done. }
  wp_step. apply wp_push_event. intros s3 Hq. wp_step. split; [done|]. exists (im_tick s). split; [by eapply sound_quiet|]. split.
  + transitivity (im_capacities s2); [symmetry; exact (f_equal im_capacities Hq)|]. subst s2. simpl.
      assert (im_capacities s1 = im_capacities s) as -> by (symmetry; exact (f_equal im_capacities Hq1)). by rewrite HC.
  + destruct HR1 as (_ & _ & HT). destruct HR as (_ & HL & _). split; [|by rewrite <- HL].
      destruct HT as (HA & HP & HQ & HT & HN). unfold same_tables.
      by rewrite <- (quiet_allocations _ _ Hq), <- (quiet_policies _ _ Hq), <- (quiet_queues _ _ Hq),
        <- (quiet_pools _ _ Hq), <- (quiet_next _ _ Hq).
Qed.

Lemma capacity_program_logged backend resource a : Within logged (capacity_program backend resource a).
Proof.
  unfold capacity_program. apply within_bind; [apply _|apply _|]. intros s. apply within_if; [|apply _].
  apply within_bind; [apply _|apply _|]. intros []. destruct (ib_program_reservation _ _ _ _) as [[]|status]; [apply _|].
  destruct (decide _); apply _.
Qed.

Lemma set_capacity_outcome attached resource backend_id expected_raw expected s :
  Inv s ->
  wp (set_capacity attached resource backend_id expected_raw expected) s
    (fun g s' => exists backend a now, attached backend_id = Some backend /\ ib_query_capacity backend resource = Good a /\
       ca_usable a = true /\ (expected_raw <> 0 -> ca_raw_units a = expected_raw) /\ g = ca_generation a /\
       capacity_set s resource (mkCapacityEntry resource backend_id (ca_generation a) (ca_raw_units a) now) s')
    (fun _ => refused s).
Proof.
  intros HI. pose proof (refused_refl s HI) as HR. unfold set_capacity, capacity_backend, capacity_query.
  wp_step. do 2 (wp_step; apply wp_reject; [done|]; intros _). wp_step. apply wp_require_open; [done|]. intros _.
  do 3 wp_step. apply wp_require; [done|]. intros _ _. apply wp_require; [done|]. intros backend Hb.
  wp_step. wp_step. apply wp_reject; [done|]. intros _. wp_step. unfold wp at 1, sm_lift.
  destruct (ib_query_capacity backend resource) as [a|st] eqn:Ha; [|done]. wp_step. apply wp_reject; [done|].
  intros Hu%negb_false_iff. wp_step. wp_step.
  apply (wp_refused_quiet _ s s); [apply hushed_logged, capacity_program_logged|done| |done].
  intros [] s1 HR1 Hq. assert (im_capacities s1 = im_capacities s) as HC by (symmetry; exact (f_equal im_capacities Hq)).
  destruct (decide (expected_raw = 0 \/ ca_raw_units a = expected_raw)) as [He|He].
  - eapply wp_mono; [apply (capacity_publish_outcome s); [apply HR1|done|done]| |done].
    intros g s2 (Hg & now & Hset). exists backend, a, now. split_and!; try done. intros Hne. by destruct He.
  - unfold capacity_publish. wp_step. apply wp_refuse_after_shutdown; [done|]. wp_step. apply wp_reject; [done|].
    destruct (Z.eqb_spec expected_raw 0), (Z.eqb_spec (ca_raw_units a) expected_raw); simpl; try done; destruct He; auto.
Qed.

(** ** Policies *)

Lemma policy_inv s p : Inv s -> policy_ok p -> Inv (s <| im_policy_names ::= <[pol_name p := pol_id p]> |> <| im_policies ::= <[pol_id p := p]> |>).
Proof.
  intros [] Hp. split; try done.
  - intros k q Hq. simpl in Hq. apply lookup_insert_Some in Hq as [[<- <-]|[_ Hq]]; eauto.
  - by apply arranged_set_policy.
Qed.

(** The part of [policy_ok] that the published value must bring along. *)
Definition policy_fields (p : PoolPolicy) : Prop :=
  0 <= oc_limit_units (pol_overcommit p) /\ 0 <= bw_limit_units (pol_borrow p) /\
  0 <= pol_max_single_request_units p /\ 0 <= pol_max_single_allocation_units p.

Lemma validated_policy_ok p : policy_fields p -> policy_validate p = Good tt -> policy_ok p.
Proof. intros (H1 & H2 & H3 & H4) Hv. destruct (policy_validate_bounds p Hv) as (_ & Ho & Hb & _). by split. Qed.

#[export] Instance selection_policy generation : Selection (select_policy generation).
Proof.
  split; [|done]. intros s e r H. by apply andb_true_iff in H as [H _].
Qed.

(** A sweep only revokes, and leaves no holding member that it selects. *)
Lemma sweep_revokes select {HS : Selection select} new_state reason pool members count units s :
  allocation_holds_units new_state = false -> Inv s ->
  wp (sweep select new_state reason pool members count units) s
    (fun _ s' => revoked new_state s s' /\ forall k r e, k ∈ members -> im_allocations s' !! k = Some r ->
       allocation_holds_units (ar_state r) = true -> im_pools s !! pool = Some e -> select s e r = false)
    (fun _ => unharmed s).
Proof.
  intros Hno. revert count units s. induction members as [|v members IH]; intros count units s HI; cbn [sweep].
  { wp_step. split; [by apply revoked_refl|]. intros k r e Hk. by apply elem_of_nil in Hk. }
  do 2 wp_step. wp_step. apply wp_pool_ref; [by intros; apply unharmed_refl|]. intros e He.
  assert (forall count units, (forall r, im_allocations s !! v = Some r -> select s e r = false) ->
    wp (sweep select new_state reason pool members count units) s
      (fun _ s' => revoked new_state s s' /\ forall k r e, k ∈ v :: members -> im_allocations s' !! k = Some r ->
         allocation_holds_units (ar_state r) = true -> im_pools s !! pool = Some e -> select s e r = false)
      (fun _ => unharmed s)) as Hskip.
  { intros c u Hv. eapply wp_mono; [by apply IH| |done]. intros res s' [Hrev Hall]. split; [done|].
    intros k r e0 Hk Hr Hh He0. apply elem_of_cons in Hk as [->|Hk]; [|by eapply Hall]. simplify_eq.
    apply Hv. by apply (revoked_holding new_state Hno s s'). }
  destruct (im_allocations s !! v) as [r|] eqn:Hr; [|by apply Hskip].
  destruct (select s e r) eqn:Hsel; [|apply Hskip; intros ? [= <-]; done].
  wp_step. eapply wp_mono; [by apply fence_revokes| |done]. intros [] s1 (Hrev & Hgone & Hother).
  eapply wp_mono; [apply IH, Hrev| |intros; by eapply unharmed_after]. intros res s2 [Hrev2 Hall].
  split; [by apply (revoked_trans new_state Hno s s1 s2)|]. intros k r0 e0 Hk Hr0 Hh He0. simplify_eq.
  destruct (terms_entry _ _ _ _ (rv_terms _ _ _ Hrev) He) as (e1 & He1 & Hd & Hg).
  apply elem_of_cons in Hk as [->|Hk].
  - exfalso. pose proof (revoked_holding new_state Hno s1 s2 _ r0 Hrev2 Hr0 Hh) as H1. apply Hgone in H1. congruence.
  - rewrite <- (sel_terms s s1 e e1 r0 (rv_terms _ _ _ Hrev) Hd Hg). by eapply Hall.
Qed.

(** After the policy's pools are fenced, what they list is bound to the new revision. *)
Definition rebound_members (policy generation : Z) (pools : list Z) (s s' : Impl) : Prop :=
  forall p e k r, p ∈ pools -> im_pools s !! p = Some e -> pd_policy (en_descriptor e) = policy -> k ∈ en_members e ->
    im_allocations s' !! k = Some r -> allocation_holds_units (ar_state r) = true ->
    bg_policy_generation (ar_bound r) = generation.

Lemma fence_policy_outcome policy generation pools s :
  Inv s ->
  wp (fence_policy policy generation pools) s
    (fun _ s' => revoked AllocationState.Fenced s s' /\ rebound_members policy generation pools s s')
    (fun _ => unharmed s).
Proof.
  revert s. induction pools as [|p pools IH]; intros s HI; cbn [fence_policy].
  { wp_step. split; [by apply revoked_refl|]. intros q e k r Hq. by apply elem_of_nil in Hq. }
  wp_step. apply wp_pool_ref; [by intros; apply unharmed_refl|]. intros e He. wp_step.
  apply wp_mono with (Q := fun _ s1 => revoked AllocationState.Fenced s s1 /\ rebound_members policy generation [p] s s1)
    (E := fun _ => unharmed s); [|intros [] s1 [Hrev Hp]|done].
  - apply wp_when.
    + intros _. wp_step. eapply wp_mono; [by apply (sweep_revokes _ AllocationState.Fenced)| |done]. intros res s1 [Hrev Hall]. wp_step. split; [done|].
      intros q e0 k r Hq He0 Hpol Hk Hr Hh. apply list_elem_of_singleton in Hq as ->. simplify_eq.
      assert (select_policy generation s e r = false) as Hs by (eapply Hall; try done; by apply elem_of_sorted_members).
      unfold select_policy in Hs. rewrite Hh in Hs. by apply negb_false_iff, Z.eqb_eq in Hs.
    + intros Hne%Z.eqb_neq. split; [by apply revoked_refl|]. intros q e0 k r Hq He0 Hpol.
      apply list_elem_of_singleton in Hq as ->. by simplify_eq.
  - eapply wp_mono; [apply IH, Hrev| |intros; by eapply unharmed_after]. intros [] s2 [Hrev2 Hrest].
    split; [by apply (revoked_trans AllocationState.Fenced eq_refl s s1 s2)|].
    intros q e0 k r Hq He0 Hpol Hk Hr Hh.
    pose proof (revoked_holding AllocationState.Fenced eq_refl s1 s2 k r Hrev2 Hr Hh) as Hr1.
    apply elem_of_cons in Hq as [->|Hq]; [by apply (Hp p e0 k r); [apply list_elem_of_singleton|..]|].
    destruct (rv_listed _ _ _ Hrev q k r) as (e1 & He1 & Hk1); [by exists e0|done|done|].
    destruct (terms_entry _ _ _ _ (rv_terms _ _ _ Hrev) He0) as (e2 & He2 & Hd & _). simplify_eq.
    apply (Hrest q e1 k r); try done. congruence.
Qed.

(** A policy under a new generation, and what the pools it governs still hold. *)
Record policy_published (s : Impl) (request : PoolPolicy) (generation : Z) (s' : Impl) : Prop := {
  pb_sound : sound s s';
  pb_policy : exists id, pol_id (request <| pol_id := id |>) <> 0 /\
    im_policies s' = <[id := request <| pol_id := id |> <| pol_generation := generation |>]> (im_policies s) /\
    (if valid (pol_id request) then id = pol_id request else id = im_next_policy_id s) /\
    (match im_policies s !! id with
     | Some old => generation = add64 (pol_generation old) 1
     | None => generation = 1 end) /\
    (pol_fence_on_generation_change request = true ->
     forall p e k r, im_pools s !! p = Some e -> pd_policy (en_descriptor e) = id -> k ∈ en_members e ->
       im_allocations s' !! k = Some r -> allocation_holds_units (ar_state r) = true ->
       bg_policy_generation (ar_bound r) = generation)
}.

Lemma policy_revision_ro policy s :
  wp (policy_revision policy) s
    (fun o s' => s' = s /\ match o with
       | None => exists old, im_policies s !! pol_id policy = Some old /\
           policy_digest (policy <| pol_generation := pol_generation old |> <| pol_id := pol_id old |>) = policy_digest old
       | Some g => match im_policies s !! pol_id policy with
           | Some old => g = add64 (pol_generation old) 1 | None => g = 1 end
       end) (fun _ s' => s' = s).
Proof.
  unfold policy_revision. do 2 wp_step. destruct (im_policies s !! pol_id policy) as [old|] eqn:Hold.
  - destruct (decide _) as [Hd|_]; [wp_step; split; [done|by exists old]|]. wp_step.
    apply wp_next_generation; [done|]. intros n _ ->. by wp_step.
  - wp_step. apply wp_reject; [done|]. intros _. by wp_step.
Qed.

Lemma elem_of_keys {A} (m : gmap Z A) k a : m !! k = Some a -> k ∈ map fst (map_to_list m).
Proof.
  intros Hk. apply list_elem_of_In, in_map_iff. exists (k, a). split; [done|]. by apply list_elem_of_In, elem_of_map_to_list.
Qed.

(** The last steps of a publication, once the policy is stored. *)
Lemma published_fences s s1 request id generation :
  let policy := request <| pol_id := id |> <| pol_generation := generation |> in
  Inv s1 -> refused s s1 -> policy_validate policy = Good tt -> policy_fields request ->
  (if valid (pol_id request) then id = pol_id request else id = im_next_policy_id s) ->
  (match im_policies s1 !! id with Some old => generation = add64 (pol_generation old) 1 | None => generation = 1 end) ->
  wp (store_policy policy ;;;
      push_event EventKind.PolicyPublished ErrorCode.Ok (pol_name policy) 0 0 0 0 0 ;;;
      (let* s := sm_get in
       when (pol_fence_on_generation_change policy) do
         (fence_policy id generation (map fst (map_to_list (im_pools s))))) ;;;
      ret generation) s1
    (fun g => policy_published s request g) (fun _ => sound s).
Proof.
  intros policy HI1 HR Hval Hfields Hid Hgen. pose proof (policy_validate_bounds policy Hval) as (Hnz & _).
  pose proof HR as ([_ Hsd] & HL & HA & HP & HQ & HT & HN).
  wp_step. apply wp_modify. set (s2 := s1 <| im_policy_names ::= _ |> <| im_policies ::= _ |>).
  assert (Inv s2) as HI2 by (apply (policy_inv s1 policy HI1); by apply validated_policy_ok).
  wp_step. apply wp_push_event. intros s3 Hq.
  assert (Inv s3) as HI3 by (by rewrite <- Hq).
  assert (im_policies s3 = <[id := policy]> (im_policies s)) as HP3.
  { rewrite <- (quiet_policies _ _ Hq). subst s2. simpl. by rewrite HP. }
  assert (strip <$> im_pools s3 = strip <$> im_pools s) as HS3.
  { rewrite <- (quiet_pools _ _ Hq). subst s2. simpl. exact HT. }
  assert (im_shutting_down s3 = im_shutting_down s) as Hsd3 by (rewrite <- (quiet_shutdown _ _ Hq); exact Hsd).
  wp_step. do 2 wp_step.
  apply wp_mono with (Q := fun _ s4 => revoked AllocationState.Fenced s3 s4 /\ (pol_fence_on_generation_change policy = true ->
    rebound_members id generation (map fst (map_to_list (im_pools s3))) s3 s4)) (E := fun _ => unharmed s3).
  - apply wp_when; intros Hf; [|split; [by apply revoked_refl|by rewrite Hf]].
    eapply wp_mono; [by apply fence_policy_outcome| |done]. intros [] s4 [H1 H2]. by split.
  - intros [] s4 [Hrev Hreb]. pose proof Hrev as [[HI4 Hsd4] HT4 _ _ _]. wp_step. split; [by split; [|congruence]|].
    exists id. split_and!; [exact Hnz| |done| |].
    + unfold terms in HT4. injection HT4 as _ _ -> _. exact HP3.
    + by rewrite <- HP.
    + intros Hf p e k r He Hpol Hk Hr Hh. destruct (strip_lookup _ _ _ _ (eq_sym HS3) He) as (e3 & He3 & Hs).
      pose proof (f_equal en_descriptor Hs) as Hd. pose proof (f_equal en_members Hs) as Hm. simpl in Hd, Hm.
      apply (Hreb Hf p e3 k r); try done; [by eapply elem_of_keys|by rewrite <- Hd|by rewrite <- Hm].
  - intros st s4 [[HI4 Hsd4] _]. split; [done|congruence].
Qed.

Lemma publish_policy_outcome request s :
  Inv s -> policy_fields request ->
  wp (publish_policy request) s
    (fun g s' => refused s s' /\ (exists id old, im_policies s !! id = Some old /\ g = pol_generation old) \/
       policy_published s request g s') (fun _ => sound s).
Proof.
  intros HI Hf. assert (sound s s) as Hs by by split. unfold publish_policy. wp_step. apply wp_require_open; [done|]. intros _.
  wp_step. apply wp_refuse_after_shutdown; [done|]. wp_step. apply wp_claim_id; [done|]. intros id s1 Hs1 Hid.
  assert (refused s s1) as HR by (destruct Hs1 as [->|[n ->]]; [by apply refused_refl|by apply refused_next_policy]).
  clear Hs1. pose proof HR as ([HI1 Hsd] & HL & HA & HP & HQ & HT & HN).
  do 2 wp_step. wp_step. apply wp_reject; [by split|]. intros _. wp_step.
  eapply wp_mono; [apply policy_revision_ro| |by intros ? ? ->]. intros revision s2 [-> Hrev].
  destruct revision as [generation|].
  - wp_step. unfold wp at 1, sm_lift. destruct (policy_validate _) as [[]|] eqn:Hval; [|by split].
    wp_step. apply (wp_refused_quiet _ s s1); [apply hushed_logged, within_journal_encoded|done| |by intros ? ? []].
    intros [] s2 HR2 Hq. eapply wp_mono; [apply (published_fences s s2 request id generation)| |done]; try done; [apply HR2|rewrite Hid; by destruct (valid (pol_id request))| |].
    + simpl in Hrev. by rewrite <- (quiet_policies _ _ Hq).
    + intros g s3 H3. by right.
  - destruct Hrev as (old & Hold & Hdig). simpl in Hold. wp_step. rewrite Hold. unfold require. wp_step. wp_step. left.
    split; [done|]. exists id, old. by rewrite <- HP.
Qed.

(** ** Registering a pool *)

(** Nothing in the table refers to a pool that is not registered. *)
Lemma share_unregistered P f p r : record_ok P r -> P !! p = None -> share f p r = 0.
Proof.
  intros [Hu Hb Hp Hl] Hnone. destruct (allocation_holds_units (ar_state r)) eqn:Hh; [|by apply share_idle].
  assert (here p r = false) as Hhere.
  { unfold here. rewrite Hh. simpl. apply Z.eqb_neq. intros <-. destruct (Hp eq_refl). congruence. }
  destruct (decide (effective_borrow r = 0)) as [Hz|Hz].
  - destruct f; shares; rewrite ?Hhere, ?Hz; simpl; repeat case_match; done.
  - destruct (Hl eq_refl Hz) as (Hv & [l Hlk] & _). apply share_not_here; [done|]. unfold lends. rewrite Hh, Hv. simpl.
    apply Z.eqb_neq. congruence.
Qed.

Lemma books_add_pool P A p e :
  books P A -> P !! p = None -> descriptor_ok p (en_descriptor e) -> (forall f, counter f e = 0) -> en_members e = ∅ ->
  books (<[p := e]> P) A.
Proof.
  intros HB Hp Hd Hc Hm. split.
  - apply HB.
  - intros k r Hk. apply (record_ok_pools P); [|by eapply HB]. intros q Hq. apply lookup_insert_is_Some.
    destruct (decide (p = q)); auto.
  - intros q x Hx. apply lookup_insert_Some in Hx as [[<- <-]|[_ Hx]]; [|by apply HB]. split; [done| | | |].
    + intros f. rewrite Hc. symmetry. apply total_of_zero. intros k r Hk. by apply (share_unregistered P), Hp; eapply HB.
    + rewrite (Hc FOwn : en_own_usage e = 0). unfold kMaxOwnUsage. u64_lia.
    + rewrite (Hc FBorrowed : en_borrowed_in e = 0). u64_lia.
    + rewrite Hm. intros k Hk. by apply not_elem_of_empty in Hk.
Qed.

Definition new_entry (d : PoolDescriptor) : PoolEntry :=
  default_PoolEntry <| en_descriptor := d |> <| en_capacity_generation := 1 |>.

(** The conditions under which a pool may join a layout. *)
Record admissible (L : Layout) (d : PoolDescriptor) : Prop := {
  am_valid : pool_descriptor_validate d = Good tt;
  am_id : ly_pools L !! pd_id d = None;
  am_name : ly_pool_names L !! pd_name d = None;
  am_policy : is_Some (ly_policies L !! pd_policy d);
  am_parent : valid (pd_parent d) = true -> is_Some (ly_pools L !! pd_parent d);
  am_partition : exists c, ly_capacities L !! pd_resource d = Some c /\
    total_of (carve (pd_resource d)) (ly_pools L) + pd_raw_units d <= cp_raw_units c
}.

Lemma add_pool_inv s d :
  Inv s -> admissible (layout s) d -> is_u64 (pd_raw_units d) -> is_u64 (pd_protected_units d) ->
  Inv (s <| im_pool_names ::= <[pd_name d := pd_id d]> |> <| im_pools ::= <[pd_id d := new_entry d]> |>).
Proof.
  intros HI [Hval Hid Hname Hpol Hpar (c & Hc & Hfit)] Hr Hp. pose proof HI as [HB Hids Hn Hpols Hly Hlv].
  pose proof (pool_descriptor_validate_bounds d Hval) as (Hnz & Hrz & Hrm & Hpr & Hself).
  split; simpl; try done.
  - apply books_add_pool; [done| | |by intros []|done].
    + simpl in Hid. by rewrite lookup_fmap, fmap_None in Hid.
    + split; simpl; [done|unfold valid; by destruct (Z.eqb_spec (pd_id d) 0)|u64_lia|u64_lia].
  - unfold layout in *. simpl in *. rewrite fmap_insert.
    apply (arranged_add_pool _ _ _ _ _ _ Hly (pd_id d) d); try done. exists c. split; [done|].
    rewrite total_of_insert_new by done. unfold carve at 1. rewrite Z.eqb_refl. simpl. lia.
Qed.

(** A registered pool: admissible, new and empty, under parents that end at a root within the
    depth bound; nothing else changed. *)
Definition pool_registered (g : PoolRegistration) (s : Impl) (id : Z) (s' : Impl) : Prop :=
  exists now, let d := registration_descriptor g now <| pd_id := id |> in
    (if valid (pg_id g) then id = pg_id g else id = im_next_pool_id s) /\ admissible (layout s) d /\
    is_Some (im_backends s !! pd_backend d) /\
    (valid (pd_parent d) = true -> exists parent, im_pools s !! pd_parent d = Some parent /\
       check_ancestry (Z.to_nat kMaxPoolDepth - 1) (im_pools s) parent = Good tt) /\
    sound s s' /\ strip <$> im_pools s' = <[id := strip (new_entry d)]> (strip <$> im_pools s) /\
    im_pool_names s' = <[pg_name g := id]> (im_pool_names s) /\ im_allocations s' = im_allocations s.

(** The gates of a registration after its id is claimed. *)
Lemma check_parent_ro s d :
  wp (check_parent s d) s
    (fun _ s' => s' = s /\ (valid (pd_parent d) = true -> exists parent, im_pools s !! pd_parent d = Some parent /\
      check_ancestry (Z.to_nat kMaxPoolDepth - 1) (im_pools s) parent = Good tt)) (fun _ s' => s' = s).
Proof.
  unfold check_parent. apply wp_when; [|by intros ->]. intros Hv. wp_step. apply wp_require; [done|]. intros parent Hpar.
  unfold wp, sm_lift. destruct (check_ancestry _ _ _) as [[]|] eqn:Hc; [|done]. split; [done|]. intros _. by exists parent.
Qed.

Lemma layout_lookup_none s p : im_pools s !! p = None -> ly_pools (layout s) !! p = None.
Proof. intros H. simpl. by rewrite lookup_fmap, H. Qed.

Lemma register_pool_outcome g s :
  Inv s -> is_u64 (pg_raw_units g) -> is_u64 (pg_protected_units g) ->
  wp (register_pool g) s (fun id => pool_registered g s id) (fun _ => refused s).
Proof.
  intros HI Hr Hp. pose proof (refused_refl s HI) as HR0. unfold register_pool. wp_step. apply wp_require_open; [done|]. intros _.
  wp_step. apply wp_refuse_after_shutdown; [done|]. do 2 wp_step. wp_step. apply wp_reject; [done|]. intros _.
  wp_step. apply wp_claim_id; [done|]. intros id s1 Hs1 Hid.
  assert (refused s s1 /\ im_pools s1 = im_pools s /\ im_backends s1 = im_backends s) as (HR & HP & HBk)
    by (destruct Hs1 as [->|[n ->]]; [done|by split; [apply refused_next_pool|]]).
  clear Hs1. pose proof HR as ([HI1 Hsd] & HL & HA & _).
  set (d := registration_descriptor g (im_tick s) <| pd_id := id |>).
  wp_step. unfold wp at 1, sm_lift. destruct (pool_descriptor_validate d) as [[]|] eqn:Hval; [|done].
  do 2 wp_step. wp_step. apply wp_reject; [done|]. intros H1%bool_decide_eq_false.
  wp_step. apply wp_reject; [done|]. intros H2%bool_decide_eq_false.
  wp_step. apply wp_reject; [done|]. intros H3%negb_false_iff%bool_decide_eq_true.
  wp_step. apply wp_reject; [done|]. intros H4%negb_false_iff%bool_decide_eq_true.
  wp_step. eapply wp_mono; [apply check_parent_ro| |by intros ? ? ->]. intros [] s2 [-> Hpar].
  wp_step. apply wp_require; [done|]. intros c0 _. wp_step. eapply wp_mono; [by apply wp_partitioned| |by intros ? ? ->].
  intros t s2 (-> & Ht & ->). wp_step. eapply wp_mono; [by apply wp_check_partition| |by intros ? ? ->].
  intros [] s2 [-> Hpart]. cbv zeta. wp_step.
  assert (admissible (layout s) d) as Had.
  { rewrite <- HL. split; [done|by apply layout_lookup_none, eq_None_not_Some|by apply eq_None_not_Some|done| |done].
    intros Hv. destruct (Hpar Hv) as (parent & Hparent & _). apply layout_entry_is_Some. by exists parent. }
  apply (wp_refused_quiet _ s s1); [apply hushed_logged, logged_journal_pool|done| |done]. intros [] s2 HR2 Hq.
  pose proof HR2 as ([HI2 Hsd2] & HL2 & HA2 & _ & _ & HT2 & _).
  assert (Inv (s2 <| im_pool_names ::= <[pd_name d := pd_id d]> |> <| im_pools ::= <[pd_id d := new_entry d]> |>)) as HI3
    by (apply add_pool_inv; [done|by rewrite HL2|done|done]).
  wp_step. apply wp_modify. wp_step. apply wp_push_event. intros s3 Hq3.
  wp_step. exists (im_tick s). fold d. rewrite <- HP, <- HBk. split_and!; try done.
  - by destruct (valid (pg_id g)).
  - split; [by rewrite <- Hq3|rewrite <- (quiet_shutdown _ _ Hq3); exact Hsd2].
  - rewrite <- (quiet_pools _ _ Hq3). simpl. rewrite fmap_insert. f_equal. rewrite HP. exact HT2.
  - transitivity (im_pool_names (s2 <| im_pool_names ::= <[pd_name d := pd_id d]> |> <| im_pools ::= <[pd_id d := new_entry d]> |>));
      [symmetry; exact (f_equal im_pool_names Hq3)|]. simpl. f_equal. exact (f_equal ly_pool_names HL2).
  - by rewrite <- (quiet_allocations _ _ Hq3).
Qed.

(** ** Removing a pool *)

(** A pool without allocated and lent units is used by no record that holds units. *)
Lemma pool_unused s p e k r :
  Inv s -> im_pools s !! p = Some e -> en_lent_out e = 0 -> en_allocated e = 0 ->
  im_allocations s !! k = Some r -> allocation_holds_units (ar_state r) = true ->
  ar_pool r <> p /\ (effective_borrow r <> 0 -> ar_lender r <> p).
Proof.
  intros HI He Hl Ha Hk Hh. pose proof (inv_books s HI) as HB. pose proof (inv_live s HI k r Hk Hh) as Hpos.
  destruct (usage_exact HB p e He) as (_ & _ & Hal). rewrite Hal in Ha.
  pose proof (counter_nonneg HB FReserved p e He). pose proof (counter_nonneg HB FCommitted p e He). simpl in *.
  pose proof (share_le_counter HB FReserved p e k r He Hk) as H1. pose proof (share_le_counter HB FCommitted p e k r He Hk) as H2.
  pose proof (share_le_counter HB FLent p e k r He Hk) as H3. split.
  - intros <-. shares. unfold here in *. rewrite Hh, Z.eqb_refl in *. destruct (is_reserved r); simpl in *; lia.
  - intros Hz <-. destruct (ro_lender _ _ (bk_record _ _ HB k r Hk) Hh Hz) as (Hv & _).
    pose proof (effective_borrow_range _ _ (bk_record _ _ HB k r Hk)).
    shares. unfold lends in *. rewrite Hh, Hv, Z.eqb_refl in *. simpl in *. lia.
Qed.

Lemma books_remove_pool P A p :
  books P A ->
  (forall k r, A !! k = Some r -> allocation_holds_units (ar_state r) = true ->
     ar_pool r <> p /\ (effective_borrow r <> 0 -> ar_lender r <> p)) ->
  books (delete p P) A.
Proof.
  intros HB Hun. split.
  - apply HB.
  - intros k r Hk. destruct (bk_record _ _ HB k r Hk) as [Hu Hb Hp Hl]. split; [done|done| |].
    + intros Hh. apply lookup_delete_is_Some. destruct (Hun k r Hk Hh). split; [congruence|auto].
    + intros Hh Hz. destruct (Hl Hh Hz) as (Hv & Hs & Hne). destruct (Hun k r Hk Hh) as [_ Hne'].
      split_and!; [done| |done]. apply lookup_delete_is_Some. split; [intros Heq; by apply (Hne' Hz)|done].
  - intros q e [Hne He]%lookup_delete_Some. by apply HB.
Qed.

(** Dropping queues, one after the other. *)
Definition without_queues (leaving : list (Z * QueueDescriptor)) (Q : gmap Z QueueDescriptor) : gmap Z QueueDescriptor :=
  fold_left (fun m kq => delete (fst kq) m) leaving Q.
Definition without_names (leaving : list (Z * QueueDescriptor)) (N : gmap string Z) : gmap string Z :=
  fold_left (fun m kq => delete (qd_name (snd kq)) m) leaving N.

Lemma lookup_without_queues leaving Q k q :
  without_queues leaving Q !! k = Some q <-> Q !! k = Some q /\ k ∉ map fst leaving.
Proof.
  revert Q. induction leaving as [|[j x] leaving IH]; intros Q; simpl.
  - split; [intros H; split; [done|apply not_elem_of_nil]|by intros [? _]].
  - unfold without_queues in *. simpl. rewrite IH, lookup_delete_Some, not_elem_of_cons.
    split; [intros [[H1 H2] H3]; split_and!; auto|intros [H1 [H2 H3]]; split_and!; auto].
Qed.

Lemma arranged_drop_queues P C Pol Q PN QN leaving :
  arranged (mkLayout P C Pol Q PN QN) -> NoDup (map fst leaving) -> Forall (fun kq => Q !! fst kq = Some (snd kq)) leaving ->
  arranged (mkLayout P C Pol (without_queues leaving Q) PN (without_names leaving QN)).
Proof.
  revert Q QN. induction leaving as [|[k q] leaving IH]; intros Q QN HL Hnd Hin; [done|].
  apply Forall_cons in Hin as [Hk Hin]. apply NoDup_cons in Hnd as [Hnew Hnd]. simpl in *.
  apply (IH (delete k Q) (delete (qd_name q) QN)); [by apply arranged_remove_queue|done|].
  apply list.Forall_forall. intros [j x] Hj. simpl. rewrite list.Forall_forall in Hin. specialize (Hin _ Hj). simpl in Hin.
  rewrite lookup_delete_ne; [done|]. intros ->. apply Hnew. apply list_elem_of_In, in_map_iff. exists (j, x).
  split; [done|by apply list_elem_of_In].
Qed.

Definition leaving_queues (pool : Z) (s : Impl) : list (Z * QueueDescriptor) :=
  List.filter (fun kq => retired_with pool (snd kq)) (map_to_list (im_queues s)).

Lemma elem_of_leaving pool s k q :
  (k, q) ∈ leaving_queues pool s <-> im_queues s !! k = Some q /\ retired_with pool q = true.
Proof.
  unfold leaving_queues. rewrite list_elem_of_In, filter_In, <- list_elem_of_In, elem_of_map_to_list. done.
Qed.

Lemma NoDup_leaving pool s : NoDup (map fst (leaving_queues pool s)).
Proof.
  unfold leaving_queues. pose proof (NoDup_fst_map_to_list (im_queues s)) as Hnd. revert Hnd.
  induction (map_to_list (im_queues s)) as [|[k q] l IH]; intros Hnd; simpl; [constructor|].
  apply NoDup_cons in Hnd as [Hk Hnd]. case_match; simpl; [|by apply IH]. apply NoDup_cons. split; [|by apply IH].
  intros Hin. apply Hk. apply list_elem_of_In, in_map_iff in Hin as ([j x] & Hj & Hin). apply filter_In in Hin as [Hin _].
  simpl in Hj. subst. apply list_elem_of_In, in_map_iff. by exists (k, x).
Qed.

(** The pool, its pressure and its retired queues are gone; no allocation used it. *)
Record pool_removed (pool : Z) (s s' : Impl) : Prop := {
  rm_sound : sound s s';
  rm_unused : forall k r, im_allocations s !! k = Some r -> allocation_holds_units (ar_state r) = true ->
    ar_pool r <> pool /\ (effective_borrow r <> 0 -> ar_lender r <> pool);
  rm_pools : strip <$> im_pools s' = delete pool (strip <$> im_pools s);
  rm_allocations : im_allocations s' = im_allocations s;
  rm_queues : forall k q, im_queues s' !! k = Some q <-> im_queues s !! k = Some q /\ qd_pool q <> pool
}.

(** Once its checks have passed, dropping a pool keeps the invariant. *)
Lemma drop_pool_inv pool e s :
  Inv s -> im_pools s !! pool = Some e ->
  (forall k r, im_allocations s !! k = Some r -> allocation_holds_units (ar_state r) = true ->
     ar_pool r <> pool /\ (effective_borrow r <> 0 -> ar_lender r <> pool)) ->
  (forall q x, im_pools s !! q = Some x -> pd_parent (en_descriptor x) <> pool) ->
  (forall k q, im_queues s !! k = Some q -> qd_pool q = pool -> qd_retired q = true) ->
  wp (drop_pool pool (pd_name (en_descriptor e))) s (fun _ s' => Inv s' /\ im_shutting_down s' = im_shutting_down s /\
    im_pools s' = delete pool (im_pools s) /\ im_allocations s' = im_allocations s /\
    forall k q, im_queues s' !! k = Some q <-> im_queues s !! k = Some q /\ qd_pool q <> pool) (fun _ _ => False).
Proof.
  intros HI He Hun Hleaf Hretired. unfold drop_pool. apply wp_modify. cbv zeta. fold (leaving_queues pool s).
  set (leaving := leaving_queues pool s). change (fold_left (fun m kq => delete (fst kq) m) leaving) with (without_queues leaving).
  change (fold_left (fun m kq => delete (qd_name (snd kq)) m) leaving) with (without_names leaving).
  pose proof HI as [HB Hids Hn Hpols Hly Hlv].
  assert (forall k q, without_queues leaving (im_queues s) !! k = Some q <-> im_queues s !! k = Some q /\ qd_pool q <> pool) as Hqs.
  { intros k q. rewrite lookup_without_queues. split; intros [Hk H]; (split; [done|]).
    - intros Hp. apply H. apply list_elem_of_In, in_map_iff. exists (k, q). split; [done|]. apply list_elem_of_In, elem_of_leaving.
      split; [done|]. unfold retired_with. by rewrite Hp, Z.eqb_refl, (Hretired k q).
    - intros Hin. apply list_elem_of_In, in_map_iff in Hin as ([j x] & Hj & Hin). simpl in Hj. subst j.
      apply list_elem_of_In, elem_of_leaving in Hin as [Hx Hr]. simplify_eq. unfold retired_with in Hr.
      apply andb_true_iff in Hr as [Hr%Z.eqb_eq _]. done. }
  split_and!; try done. split; simpl; try done; [by apply books_remove_pool|].
  unfold layout in *. simpl in *. rewrite fmap_delete.
  destruct (eo_descriptor _ _ _ (bk_entry _ _ HB pool e He)) as [Hid Hv Hraw _].
  apply (arranged_remove_pool _ _ _ (without_queues leaving (im_queues s)) _ (without_names leaving (im_queue_names s)))
    with (p := pool) (d := en_descriptor e).
  - apply arranged_drop_queues; [done|apply NoDup_leaving|]. apply list.Forall_forall. intros [k q] Hin. by apply elem_of_leaving in Hin as [].
  - by rewrite lookup_fmap, He.
  - done.
  - intros q d (x & Hx & <-)%(layout_entry s). by apply (Hleaf q).
  - intros k q Hk. by apply Hqs in Hk as [_ Hne].
  - intros r q x Hx. by apply (carve_range r q x s HI) in Hx as [].
Qed.

Lemma existsb_values {A} (f : A -> bool) (m : gmap Z A) k a : existsb f (values m) = false -> m !! k = Some a -> f a = false.
Proof.
  intros Hex Hk. destruct (f a) eqn:Hf; [|done]. assert (existsb f (values m) = true) as H; [|congruence].
  apply existsb_exists. exists a. split; [|done]. unfold values. apply in_map_iff. exists (k, a). split; [done|].
  by apply list_elem_of_In, elem_of_map_to_list.
Qed.

Lemma remove_pool_outcome pool expected s :
  Inv s -> wp (remove_pool pool expected) s (fun _ => pool_removed pool s) (fun _ => refused s).
Proof.
  intros HI. pose proof (refused_refl s HI) as HR. unfold remove_pool. wp_step. apply wp_require_open; [done|]. intros _.
  wp_step. apply wp_require_pool; [done|]. intros e He. wp_step. apply wp_reject; [done|]. intros _. do 2 wp_step.
  wp_step. apply wp_reject; [done|]. intros Hleaf. wp_step. apply wp_reject; [done|]. intros Hq.
  wp_step. apply wp_reject; [done|]. intros Hl%negb_false_iff%Z.eqb_eq.
  wp_step. apply wp_reject; [done|]. intros Ha%negb_false_iff%Z.eqb_eq. cbv zeta.
  pose proof (fun k r => pool_unused s pool e k r HI He Hl Ha) as Hun. wp_step.
  apply (wp_refused_quiet _ s s); [apply hushed_logged, within_journal|done| |done]. intros [] s1 [[HI1 Hsd] [HL [HA [_ [HQ [HT _]]]]]] Hquiet.
  destruct (strip_lookup _ _ _ _ (quiet_pools _ _ Hquiet) He) as (e1 & He1 & Hs). pose proof (f_equal en_descriptor Hs) as Hd.
  simpl in Hd. wp_step. rewrite Hd. eapply wp_mono; [apply (drop_pool_inv pool e1 s1 HI1 He1)| |done].
  - by rewrite HA.
  - intros q x Hx. destruct (strip_lookup _ _ _ _ HT Hx) as (x0 & Hx0 & Hs0). pose proof (f_equal en_descriptor Hs0) as Hd0.
    simpl in Hd0. rewrite Hd0. pose proof (existsb_values _ _ q x0 Hleaf Hx0) as Hne. by apply Z.eqb_neq in Hne.
  - rewrite HQ. intros k q Hk Hp. pose proof (existsb_values _ _ k q Hq Hk) as Hr. simpl in Hr. rewrite Hp, Z.eqb_refl in Hr.
    by apply negb_false_iff in Hr.
  - intros [] s2 (HI2 & Hsd2 & HP2 & HA2 & HQ2). apply wp_push_event. intros s3 Hq3. split.
    + split; [by rewrite <- Hq3|]. rewrite <- (quiet_shutdown _ _ Hq3). congruence.
    + exact Hun.
    + rewrite <- (quiet_pools _ _ Hq3), HP2, fmap_delete. by rewrite HT.
    + rewrite <- (quiet_allocations _ _ Hq3). congruence.
    + intros k q. rewrite <- (quiet_queues _ _ Hq3), HQ2. by rewrite HQ.
Qed.

(** ** Queues *)

Lemma add_queue_inv s q :
  Inv s -> im_queues s !! qd_id q = None -> im_queue_names s !! qd_name q = None -> is_Some (im_pools s !! qd_pool q) ->
  Inv (s <| im_queue_names ::= <[qd_name q := qd_id q]> |> <| im_queues ::= <[qd_id q := q]> |>).
Proof.
  intros [HB Hids Hn Hpols Hly Hlv] Hid Hname Hp. split; try done.
  apply arranged_add_queue; try done. by apply layout_entry_is_Some.
Qed.

Definition queue_registered (g : QueueRegistration) (s : Impl) (id : Z) (s' : Impl) : Prop :=
  exists now, let q := registration_queue g now <| qd_id := id |> in
    (if valid (qg_id g) then id = qg_id g else id = im_next_queue_id s) /\
    im_queues s !! id = None /\ im_queue_names s !! qg_name g = None /\ is_Some (im_pools s !! qg_pool g) /\
    is_valid_name (qg_name g) = true /\ qg_demand_units g <= kMaxUnitsPerPool /\
    qg_max_committed_units g <= kMaxUnitsPerPool /\ sound s s' /\
    im_queues s' = <[id := q]> (im_queues s) /\ im_queue_names s' = <[qg_name g := id]> (im_queue_names s) /\
    im_allocations s' = im_allocations s /\ strip <$> im_pools s' = strip <$> im_pools s.

Lemma register_queue_outcome g s :
  Inv s -> wp (register_queue g) s (fun id => queue_registered g s id) (fun _ => refused s).
Proof.
  intros HI. pose proof (refused_refl s HI) as HR0. unfold register_queue. wp_step. apply wp_require_open; [done|]. intros _.
  wp_step. apply wp_refuse_after_shutdown; [done|]. do 2 wp_step. wp_step. apply wp_reject; [done|]. intros _.
  wp_step. apply wp_claim_id; [done|]. intros id s1 Hs1 Hid.
  assert (refused s s1 /\ im_pools s1 = im_pools s /\ im_queue_names s1 = im_queue_names s) as (HR & HP & HQN)
    by (destruct Hs1 as [->|[n ->]]; [done|by split; [apply refused_next_queue|]]).
  clear Hs1. pose proof HR as ([HI1 Hsd] & HL & HA & _ & HQ & HT & _). cbv zeta.
  set (q := registration_queue g (im_tick s) <| qd_id := id |>).
  wp_step. apply wp_reject; [done|]. intros Hname%negb_false_iff. wp_step. apply wp_reject; [done|]. intros _.
  wp_step. apply wp_reject; [done|]. intros [Hd%Z.ltb_ge Hm%Z.ltb_ge]%orb_false_iff. do 2 wp_step.
  wp_step. apply wp_reject; [done|]. intros H1%bool_decide_eq_false%eq_None_not_Some.
  wp_step. apply wp_reject; [done|]. intros H2%bool_decide_eq_false%eq_None_not_Some.
  wp_step. apply wp_reject; [done|]. intros H3%negb_false_iff%bool_decide_eq_true.
  wp_step. apply (wp_refused_quiet _ s s1); [apply hushed_logged, within_journal_encoded|done| |done]. intros [] s2 HR2 Hq.
  pose proof HR2 as ([HI2 Hsd2] & HL2 & HA2 & _ & HQ2 & HT2 & _).
  assert (im_queue_names s2 = im_queue_names s) as HQN2 by (rewrite <- HQN; symmetry; exact (f_equal im_queue_names Hq)).
  assert (Inv (s2 <| im_queue_names ::= <[qd_name q := qd_id q]> |> <| im_queues ::= <[qd_id q := q]> |>)) as HI3.
  { apply add_queue_inv; [done|by rewrite HQ2, <- HQ|by rewrite HQN2, <- HQN|].
    apply layout_entry_is_Some. rewrite HL2, <- HL. by apply layout_entry_is_Some. }
  wp_step. apply wp_modify. wp_step. apply wp_push_event. intros s3 Hq3.
  wp_step. exists (im_tick s). fold q. rewrite HQ in H1. rewrite HQN in H2. rewrite HP in H3. split_and!; try done.
  - by destruct (valid (qg_id g)).
  - split; [by rewrite <- Hq3|]. rewrite <- (quiet_shutdown _ _ Hq3). exact Hsd2.
  - rewrite <- (quiet_queues _ _ Hq3). simpl. by rewrite HQ2.
  - transitivity (im_queue_names (s2 <| im_queue_names ::= <[qd_name q := qd_id q]> |> <| im_queues ::= <[qd_id q := q]> |>));
      [symmetry; exact (f_equal im_queue_names Hq3)|]. simpl. by rewrite HQN2.
  - rewrite <- (quiet_allocations _ _ Hq3). exact HA2.
  - rewrite <- (quiet_pools _ _ Hq3). exact HT2.
Qed.

(** A queue changed in place: its identity and name stay, its pool is registered. *)
Lemma update_queue_inv s k q (f : QueueDescriptor -> QueueDescriptor) :
  Inv s -> im_queues s !! k = Some q -> qd_name (f q) = qd_name q -> qd_id (f q) = qd_id q ->
  is_Some (im_pools s !! qd_pool (f q)) -> Inv (s <| im_queues ::= alter f k |>).
Proof.
  intros [HB Hids Hn Hpols Hly Hlv] Hq Hname Hid Hp. split; try done.
  assert (alter f k (im_queues s) = <[k := f q]> (im_queues s)) as HE.
  { apply map_eq. intros j. rewrite lookup_alter. case_decide; [subst; by rewrite Hq, lookup_insert_eq|by rewrite lookup_insert_ne]. }
  unfold layout. simpl. rewrite HE. unfold layout in Hly. eapply arranged_update_queue; try done.
  by apply layout_entry_is_Some.
Qed.

(** The queue changed by [f], nothing else. *)
Definition queue_changed (s : Impl) (k : Z) (f : QueueDescriptor -> QueueDescriptor) (s' : Impl) : Prop :=
  sound s s' /\ im_queues s' = alter f k (im_queues s) /\ im_allocations s' = im_allocations s /\
  strip <$> im_pools s' = strip <$> im_pools s.

Lemma update_queue_outcome k q f s :
  Inv s -> im_queues s !! k = Some q -> qd_name (f q) = qd_name q -> qd_id (f q) = qd_id q ->
  is_Some (im_pools s !! qd_pool (f q)) ->
  wp (update_queue k f) s (fun _ => queue_changed s k f) (fun _ => queue_changed s k f).
Proof.
  intros HI Hq Hname Hid Hp. pose proof (update_queue_inv s k q f HI Hq Hname Hid Hp) as HI1. unfold update_queue.
  wp_step. apply wp_modify. set (s1 := s <| im_queues ::= alter f k |>) in *.
  assert (queue_changed s k f s1) as Hc by (split; [by split|done]). clearbody s1.
  wp_step. apply wp_require_queue; [done|]. intros q1 _.
  apply (wp_hushed _ (queue_changed s k f)); [apply hushed_logged, within_journal_encoded| |done|done|done].
  intros s2 s3 Hq23 (HS & HQ & HA & HT). split; [by eapply sound_quiet|]. by rewrite <- (quiet_queues _ _ Hq23),
    <- (quiet_allocations _ _ Hq23), <- (quiet_pools _ _ Hq23).
Qed.

Lemma update_queue_config k f s :
  wp (update_queue k f) s (fun _ s' => im_config s' = im_config s) (fun _ s' => im_config s' = im_config s).
Proof.
  unfold update_queue. wp_step. apply wp_modify. wp_step. apply wp_require_queue; [done|]. intros q _.
  eapply wp_mono; [apply (within (R := logged))| |]; by intros ? ? (d & m & ->).
Qed.

Lemma wp_require_queue_at queue expected s (Q : QueueDescriptor -> Impl -> Prop) (E : Status -> Impl -> Prop) :
  (forall e, E e s) -> (forall q, im_queues s !! queue = Some q -> stale expected (qd_generation q) = false -> Q q s) ->
  wp (require_queue_at queue expected) s Q E.
Proof.
  intros HE HQ. unfold require_queue_at. wp_step. apply wp_require_open; [done|]. intros _. wp_step.
  apply wp_require_queue; [done|]. intros q Hq. wp_step. apply wp_reject; [done|]. intros Hs. wp_step. by apply HQ.
Qed.

Lemma queue_pool s k q : Inv s -> im_queues s !! k = Some q -> is_Some (im_pools s !! qd_pool q).
Proof.
  intros HI Hq. destruct (ly_queue _ (inv_layout s HI) k q Hq) as [_ Hp]. by apply layout_entry_is_Some.
Qed.

Lemma update_queue_demand_outcome queue demand expected s :
  Inv s ->
  wp (update_queue_demand queue demand expected) s
    (fun g s' => exists q now, im_queues s !! queue = Some q /\ qd_retired q = false /\ demand <= kMaxUnitsPerPool /\
       g = qd_generation q /\
       queue_changed s queue (fun q => q <| qd_demand_units := demand |> <| qd_demand_updated_at := now |>) s')
    (fun _ s' => sound s s' /\ im_allocations s' = im_allocations s).
Proof.
  intros HI. assert (sound s s) as Hs by by split. unfold update_queue_demand. wp_step. apply wp_require_queue_at; [done|].
  intros q Hq _. wp_step. apply wp_reject; [done|]. intros Hr. wp_step. apply wp_reject; [done|]. intros Hd%Z.ltb_ge.
  wp_step. unfold wp at 1, gets. wp_step. eapply wp_mono; [apply (update_queue_outcome queue q _ s HI Hq); [done|done|exact (queue_pool s queue q HI Hq)]| |].
  - intros [] s1 H1. wp_step. by exists q, (im_tick s).
  - intros st s1 (H1 & _ & H2 & _). done.
Qed.

(** A queue that retires or moves: when [fenced], none of its allocations holds units any more. *)
Record queue_moved (s : Impl) (queue : Z) (f : QueueDescriptor -> QueueDescriptor) (fenced : bool) (s' : Impl) : Prop := {
  qm_sound : sound s s';
  qm_queues : im_queues s' = alter f queue (im_queues s);
  qm_record : forall k, im_allocations s' !! k = im_allocations s !! k \/
    exists r r', im_allocations s !! k = Some r /\ ar_queue r = queue /\ im_allocations s' !! k = Some r' /\
      ar_state r' = AllocationState.Fenced /\ ar_units r' = ar_units r;
  qm_fenced : fenced = true -> forall k r, im_allocations s' !! k = Some r -> ar_queue r = queue ->
    allocation_holds_units (ar_state r) = false
}.

(** What fencing the queue does to the table, from any state with the same table. *)
Lemma fenced_moved s s0 s1 queue f b s2 :
  im_allocations s0 = im_allocations s -> revoked AllocationState.Fenced s0 s1 ->
  (b = true -> forall k r, im_allocations s1 !! k = Some r -> ar_queue r = queue -> allocation_holds_units (ar_state r) = false) ->
  (forall k, im_allocations s1 !! k = im_allocations s0 !! k \/ exists r, im_allocations s0 !! k = Some r /\ ar_queue r = queue) ->
  sound s s2 -> im_queues s2 = alter f queue (im_queues s) -> im_allocations s2 = im_allocations s1 ->
  queue_moved s queue f b s2.
Proof.
  intros HA0 Hrev Hall Honly HS HQ HA. split; [done|done| |by rewrite HA].
  intros k. rewrite HA, <- HA0. destruct (Honly k) as [Heq|(r0 & Hr0 & Hq)]; [by left|].
  destruct (rv_record _ _ _ Hrev k) as [Heq|(r & r' & Hr & _ & Hr' & Hst & _ & Hu)]; [by left|]. simplify_eq.
  right. by exists r0, r'.
Qed.

Lemma quiet_moved s queue f b s1 s2 : queue_moved s queue f b s1 -> quiet s1 s2 -> queue_moved s queue f b s2.
Proof.
  intros [H1 H2 H3 H4] Hq. split; [by eapply sound_quiet|by rewrite <- (quiet_queues _ _ Hq)|..];
    by rewrite <- (quiet_allocations _ _ Hq).
Qed.

Definition retired_at (generation : Z) (q : QueueDescriptor) : QueueDescriptor :=
  q <| qd_retired := true |> <| qd_generation := generation |>.
Definition moved_to (pool generation : Z) (q : QueueDescriptor) : QueueDescriptor :=
  q <| qd_pool := pool |> <| qd_generation := generation |>.

Lemma retire_queue_outcome queue expected s :
  Inv s ->
  wp (retire_queue queue expected) s
    (fun _ s' => exists q, im_queues s !! queue = Some q /\
       (qd_retired q = true /\ s' = s \/
        qd_retired q = false /\ exists b, queue_moved s queue (retired_at (add64 (qd_generation q) 1)) b s' /\
          (fc_auto_fence_on_queue_retirement (im_config s) = true -> b = true)))
    (fun _ => sound s).
Proof.
  intros HI. assert (sound s s) as Hs by by split. unfold retire_queue. wp_step. apply wp_require_queue_at; [done|].
  intros q Hq _. destruct (qd_retired q) eqn:Hr; [wp_step; exists q; split; [done|by left]|].
  wp_step. apply wp_next_generation; [done|]. intros generation _ ->. wp_step.
  eapply wp_mono; [apply wp_conj; [apply (update_queue_outcome queue q (retired_at (add64 (qd_generation q) 1)) s HI Hq);
    [done|done|exact (queue_pool s queue q HI Hq)]|apply (update_queue_config queue _ s)]| |].
  2: { by intros ? ? [[] _]. }
  intros [] s1 [([HI1 Hsd1] & HQ1 & HA1 & HT1) Hcfg]. do 3 wp_step.
  apply wp_mono with (Q := fun _ s2 => exists b, queue_moved s queue (retired_at (add64 (qd_generation q) 1)) b s2 /\
    (fc_auto_fence_on_queue_retirement (im_config s) = true -> b = true)) (E := fun _ => sound s).
  - rewrite <- Hcfg. apply wp_when; intros Hb.
    + eapply wp_mono; [by apply fence_queue_outcome| |].
      * intros [] s2 (Hrev & Hall & Honly). exists true. split; [|done]. pose proof Hrev as [[HI2 Hsd2] _ HL2 _ _].
        apply (fenced_moved s s1 s2); try done; [split; [done|congruence]|]. rewrite <- HQ1. exact (f_equal ly_queues HL2).
      * intros st s2 [[HI2 Hsd2] _]. split; [done|congruence].
    + exists false. rewrite Hb. split; [|done]. apply (fenced_moved s s1 s1); try done; [by apply revoked_refl|by left].
  - intros [] s2 (b & Hm & Hb). apply wp_push_event. intros s3 Hq3. exists q. split; [done|]. right. split; [done|].
    exists b. split; [by eapply quiet_moved|done].
  - done.
Qed.

Lemma retarget_queue_outcome queue new_pool expected s :
  Inv s ->
  wp (retarget_queue queue new_pool expected) s
    (fun _ s' => exists q, im_queues s !! queue = Some q /\ qd_retired q = false /\ is_Some (im_pools s !! new_pool) /\
       (qd_pool q = new_pool /\ s' = s \/
        qd_pool q <> new_pool /\ queue_moved s queue (moved_to new_pool (add64 (qd_generation q) 1)) true s'))
    (fun _ => sound s).
Proof.
  intros HI. assert (sound s s) as Hs by by split. unfold retarget_queue. wp_step. apply wp_require_queue_at; [done|].
  intros q Hq _. wp_step. apply wp_reject; [done|]. intros Hr. do 2 wp_step. wp_step. apply wp_reject; [done|].
  intros Hp%negb_false_iff%bool_decide_eq_true.
  destruct (Z.eqb_spec (qd_pool q) new_pool) as [Heq|Hne]; [wp_step; exists q; split_and!; try done; by left|].
  wp_step. apply wp_next_generation; [done|]. intros generation _ ->. wp_step.
  eapply wp_mono; [by apply fence_queue_outcome| |by intros ? ? []].
  intros [] s1 (Hrev & Hall & Honly). pose proof Hrev as [[HI1 Hsd1] _ HL1 _ _].
  assert (im_queues s1 = im_queues s) as HQ1 by exact (f_equal ly_queues HL1).
  eapply wp_mono; [apply (update_queue_outcome queue q (moved_to new_pool (add64 (qd_generation q) 1)) s1 HI1);
    [by rewrite HQ1|done|done|]| |].
  - simpl. apply layout_entry_is_Some. rewrite HL1. by apply layout_entry_is_Some.
  - intros [] s2 ([HI2 Hsd2] & HQ2 & HA2 & _). exists q. split_and!; try done. right. split; [done|].
    apply (fenced_moved s s s1); try done; [split; [done|congruence]|by rewrite HQ2, HQ1].
  - intros st s2 ([HI2 Hsd2] & _). split; [done|congruence].
Qed.

(** ** Pressure evidence *)

Record pressure_observed (request : PressureSnapshot) (s s' : Impl) : Prop := {
  ob_sound : sound s s';
  ob_tables : same_tables s s';
  ob_layout : layout s' = layout s;
  ob_epoch : im_epoch s' = im_epoch s;
  ob_entry : exists e x p, im_pools s !! ps_pool request = Some e /\
    ps_pool x = ps_pool request /\ ps_epoch x = im_epoch s /\ ps_pool_generation x = pd_generation (en_descriptor e) /\
    ps_observed_at x <= im_tick s /\ ps_boot x = im_boot s /\ ps_committed_units x = ps_committed_units request /\
    ps_assert_committed x = ps_assert_committed request /\
    ps_observed_at x = (if ps_observed_at request =? 0 then im_tick s else ps_observed_at request) /\
    (ps_ttl_ticks request <> 0 -> ps_ttl_ticks x = ps_ttl_ticks request) /\
    im_pressure s' = <[ps_pool request := p]> (im_pressure s) /\ pr_has_latest p = true /\ pr_latest p = x /\
    Z.of_nat (length (pr_history p)) <= Z.max 0 (fc_pressure_history_capacity (im_config s))
}.

Lemma reject_pressure_refused s0 s code detail message pool (Q : unit -> Impl -> Prop) :
  refused s0 s -> wp (reject_pressure code detail message pool) s Q (fun _ => refused s0).
Proof.
  intros HR. unfold reject_pressure. wp_step. apply (wp_refused_quiet _ s0 s); [apply _|done| |done]. intros [] s1 HR1 _.
  wp_step. apply wp_push_event. intros s2 Hq2. apply wp_fail. intros _ _. by eapply refused_quiet.
Qed.

Lemma remembered_length capacity x p :
  Z.of_nat (length (pr_history (remember_pressure capacity x p))) <= Z.max 0 capacity.
Proof. unfold remember_pressure. simpl. rewrite length_drop, length_app. simpl. lia. Qed.

Lemma observe_pressure_outcome request s :
  Inv s -> wp (observe_pressure request) s (fun _ => pressure_observed request s) (fun _ => refused s).
Proof.
  intros HI. pose proof (refused_refl s HI) as HR0. unfold observe_pressure. wp_step. apply wp_require_open; [done|]. intros _.
  wp_step. apply wp_refuse_after_shutdown; [done|]. cbv zeta. wp_step. apply wp_require_pool; [done|]. intros e He.
  wp_step. apply wp_claim_id; [done|]. intros id s1 Hs1 _.
  assert (refused s s1 /\ im_epoch s1 = im_epoch s /\ im_tick s1 = im_tick s /\ im_boot s1 = im_boot s /\
    im_policies s1 = im_policies s /\ im_pressure s1 = im_pressure s /\ im_config s1 = im_config s)
    as (HR & HE & HT & HB & HPol & HP & HC)
    by (destruct Hs1 as [->|[n ->]]; [done|by split; [apply refused_next_snapshot|]]).
  clear Hs1. do 2 wp_step. wp_step. apply wp_when; [intros _; by apply reject_pressure_refused|].
  intros Hep%negb_false_iff%Z.eqb_eq. wp_step. apply wp_when; [intros _; by apply reject_pressure_refused|].
  intros Hg%negb_false_iff%Z.eqb_eq. cbv zeta. set (x1 := if ps_observed_at _ =? 0 then _ else _).
  assert (ps_pool x1 = ps_pool request /\ ps_epoch x1 = im_epoch s /\ ps_pool_generation x1 = pd_generation (en_descriptor e) /\
    ps_committed_units x1 = ps_committed_units request /\ ps_assert_committed x1 = ps_assert_committed request /\
    ps_ttl_ticks x1 = ps_ttl_ticks request /\
    ps_observed_at x1 = (if ps_observed_at request =? 0 then im_tick s else ps_observed_at request))
    as (E1 & E2 & E3 & E4 & E5 & E6 & E7).
  { simpl in Hep, Hg. rewrite HE in Hep. subst x1. rewrite HT. simpl. destruct (Z.eqb_spec (ps_observed_at request) 0); split_and!; done. }
  clearbody x1. wp_step. apply wp_when; [intros _; by apply reject_pressure_refused|]. intros Hnow%Z.ltb_ge.
  wp_step. apply wp_reject; [done|]. intros _. wp_step.
  apply (wp_refused_quiet _ s s1); [apply _|done| |done]. intros [] s2 HR2 Hq2.
  assert (im_pressure s2 = im_pressure s /\ im_config s2 = im_config s) as [HP2 HC2].
  { rewrite <- HP, <- HC. split; symmetry; [exact (f_equal im_pressure Hq2)|exact (f_equal im_config Hq2)]. }
  wp_step. apply wp_modify. set (s3 := s2 <| im_pressure ::= _ |>).
  assert (refused s s3) as HR3.
  { destruct HR2 as ([HI2 Hsd2] & HL2 & HTb). split; [split; [by destruct HI2; split|done]|done]. }
  wp_step. apply (wp_refused_quiet _ s s3); [apply _|done| |done]. intros [] s4 HR4 Hq4. apply wp_push_event. intros s5 Hq5.
  destruct (refused_quiet _ _ _ HR4 Hq5) as (HS5 & HL5 & HT5). split; [done|done|done| |].
  { rewrite <- HE. transitivity (im_epoch s4); [symmetry; exact (f_equal im_epoch Hq5)|].
    transitivity (im_epoch s3); [symmetry; exact (f_equal im_epoch Hq4)|]. symmetry. exact (f_equal im_epoch Hq2). }
  set (x := complete_snapshot s1 e x1).
  assert (ps_pool x = ps_pool x1 /\ ps_epoch x = ps_epoch x1 /\ ps_pool_generation x = ps_pool_generation x1 /\
    ps_observed_at x = ps_observed_at x1 /\ ps_boot x = im_boot s /\ ps_committed_units x = ps_committed_units x1 /\
    ps_assert_committed x = ps_assert_committed x1 /\ (ps_ttl_ticks x1 <> 0 -> ps_ttl_ticks x = ps_ttl_ticks x1))
    as (F1 & F2 & F3 & F4 & F5 & F6 & F7 & F8).
  { subst x. unfold complete_snapshot. rewrite <- HB.
    destruct (Z.eqb_spec (ps_ttl_ticks x1) 0); [destruct (im_policies s1 !! _)|]; split_and!; done. }
  exists e, x, (remember_pressure (fc_pressure_history_capacity (im_config s)) x (default default_PressureEntry (im_pressure s !! ps_pool request))).
  assert (im_pressure s5 = im_pressure s3) as HP5.
  { symmetry. transitivity (im_pressure s4); [exact (f_equal im_pressure Hq4)|exact (f_equal im_pressure Hq5)]. }
  rewrite HP5. subst s3. simpl im_pressure. rewrite HP2, HC2. split_and!; try done; try congruence.
  - intros Hz. rewrite F8 by congruence. done.
  - apply remembered_length.
Qed.

(** Evidence can be used precisely when the newest snapshot agrees with the state of now. *)
Record evidence_current (s : Impl) (e : PoolEntry) : Prop := {
  ec_entry : exists p, im_pressure s !! pd_id (en_descriptor e) = Some p /\ pr_has_latest p = true /\
    ps_epoch (pr_latest p) = im_epoch s /\ ps_pool_generation (pr_latest p) = pd_generation (en_descriptor e) /\
    is_fresh (im_tick s) (ps_observed_at (pr_latest p)) (ps_ttl_ticks (pr_latest p)) = true /\
    (ps_assert_committed (pr_latest p) = true -> ps_committed_units (pr_latest p) = en_own_usage e)
}.

Lemma observed_known s e : pressure_is_known (po_state (snd (observed_evidence s e))) = true.
Proof. unfold observed_evidence, classify_pressure. repeat case_match; done. Qed.

(** ** Properties *)

(** Pressure evidence counts only while it is current: a decision may use it exactly when
    a snapshot was observed, in the current epoch, for the current pool generation, within
    its lifetime, and its assertion about the committed units agrees with the accounting;
    the state it then reports is the one computed from the pool's own usage. *)
Theorem resolve_evidence_exact (s : Impl) (e : PoolEntry) :
  (evidence_usable (resolve_evidence s e) = true <-> evidence_current s e) /\
  (evidence_usable (resolve_evidence s e) = true ->
     pe_state (resolve_evidence s e) = po_state (snd (observed_evidence s e))) /\
  (pe_reason (resolve_evidence s e) = ErrorCode.Ok <-> evidence_current s e).
Proof.
  pose proof (observed_known s e) as Hk. unfold resolve_evidence, evidence_usable, conclude, evidence_of_snapshot.
  destruct (observed_evidence s e) as [ev o]. simpl in Hk.
  assert (forall P : Prop, ~ P -> (false = true <-> P) /\ (false = true -> False) /\ (False <-> P)) as Hno by naive_solver.
  destruct (im_pressure s !! pd_id (en_descriptor e)) as [p|] eqn:Hp.
  2: { split_and!; try done; (split; [done|]); intros [(p & ? & _)]; congruence. }
  destruct (pr_has_latest p) eqn:Hl; simpl.
  2: { split_and!; try done; (split; [done|]); intros [(q & ? & ? & _)]; congruence. }
  destruct (Z.eqb_spec (ps_epoch (pr_latest p)) (im_epoch s)); simpl.
  2: { split_and!; try done; (split; [done|]); intros [(q & ? & _ & ? & _)]; congruence. }
  destruct (Z.eqb_spec (ps_pool_generation (pr_latest p)) (pd_generation (en_descriptor e))); simpl.
  2: { split_and!; try done; (split; [done|]); intros [(q & ? & _ & _ & ? & _)]; congruence. }
  destruct (is_fresh _ _ _) eqn:Hf; simpl.
  2: { split_and!; try done; (split; [done|]); intros [(q & ? & _ & _ & _ & ? & _)]; congruence. }
  destruct (ps_assert_committed (pr_latest p)) eqn:Ha; simpl; [destruct (Z.eqb_spec (ps_committed_units (pr_latest p)) (en_own_usage e)); simpl|].
  2: { split_and!; try done; (split; [done|]); intros [(q & ? & _ & _ & _ & _ & Hq)]; simplify_eq; by rewrite Hq in *. }
  all: split_and!; try done; (split; [intros _|done]); split; exists p; split_and!; try done; congruence.
Qed.

(** C24. Publishing authority over a resource: a refused publication changes no table; an
    accepted one stores exactly what the attached backend vouched for, never below what the
    pools already partition, and never when the caller's own figure disagrees. *)
Theorem set_capacity_exact (attached : Z -> option IBackend) (resource backend_id expected_raw expected : Z)
    (s s' : Impl) (res : Result Z) :
  Inv s -> set_capacity attached resource backend_id expected_raw expected s = (res, s') ->
  match res with
  | Good g => exists backend a now, attached backend_id = Some backend /\ ib_query_capacity backend resource = Good a /\
      ca_usable a = true /\ (expected_raw <> 0 -> ca_raw_units a = expected_raw) /\ g = ca_generation a /\
      capacity_set s resource (mkCapacityEntry resource backend_id (ca_generation a) (ca_raw_units a) now) s'
  | Bad _ => refused s s'
  end.
Proof. intros HI Hrun. exact (wp_run _ _ _ _ _ _ (set_capacity_outcome attached resource backend_id expected_raw expected s HI) Hrun). Qed.

(** A backend that vouches for two thousand units, at generation 2. *)
Definition sample_attached (id : Z) : option IBackend :=
  if id =? 1 then Some (mkIBackend true (fun r => Good (mkCapacityAuthority r 1 2 2000 0 true)) (fun _ _ _ => Good tt)) else None.

Lemma set_capacity_exact_witness :
  exists g s', set_capacity sample_attached 3 1 2000 0 sample_state = (Good g, s') /\ sound sample_state s' /\
    total_of (carve 3) (ly_pools (layout sample_state)) <= 2000.
Proof.
  assert (succeeds (set_capacity sample_attached 3 1 2000 0) sample_state = true) as (g & s' & Hrun)%succeeds_run
    by (vm_compute; reflexivity).
  exists g, s'. split; [done|].
  destruct (set_capacity_exact sample_attached 3 1 2000 0 sample_state s' (Good g) sample_inv Hrun)
    as (backend & a & now & Hb & Ha & _ & Hraw & _ & HS & _ & _ & Hle).
  split; [done|]. simpl in Hle. by rewrite (Hraw ltac:(discriminate)) in Hle.
Defined.

(** Publishing a policy: the generation it answers is the old one for an unchanged
    policy, whose tables stay as they are, and otherwise the successor of the policy's
    generation; a policy that fences on change leaves no listed allocation of its pools
    holding units under another generation. The books balance whatever happens. *)
Theorem publish_policy_exact (request : PoolPolicy) (s s' : Impl) (res : Result Z) :
  Inv s -> policy_fields request -> publish_policy request s = (res, s') ->
  match res with
  | Good g => refused s s' /\ (exists id old, im_policies s !! id = Some old /\ g = pol_generation old) \/
      policy_published s request g s'
  | Bad _ => sound s s'
  end.
Proof. intros HI Hf Hrun. exact (wp_run _ _ _ _ _ _ (publish_policy_outcome request s HI Hf) Hrun). Qed.

Definition sample_stricter : PoolPolicy := sample_policy <| pol_fence_on_generation_change := true |>
  <| pol_max_single_request_units := 70 |>.

Lemma publish_policy_exact_witness :
  exists s', publish_policy sample_stricter (sample_later 10 1) = (Good 2, s') /\
    (refused (sample_later 10 1) s' /\ (exists id old, im_policies (sample_later 10 1) !! id = Some old /\ 2 = pol_generation old) \/
     policy_published (sample_later 10 1) sample_stricter 2 s').
Proof.
  assert (fst (publish_policy sample_stricter (sample_later 10 1)) = Good 2) as Hg by (vm_compute; reflexivity).
  destruct (publish_policy sample_stricter (sample_later 10 1)) as [r s'] eqn:Hrun. simpl in Hg. subst r. exists s'. split; [done|].
  apply (publish_policy_exact sample_stricter (sample_later 10 1) s' (Good 2)); [apply sample_later_inv| |exact Hrun].
  split_and!; vm_compute; discriminate.
Defined.

(** C31. Registering a pool, with unsigned 64-bit numbers: whatever the outcome the books balance
    and the fabric runs on. A refused registration changes no pool, queue, policy, capacity,
    name or allocation (the statistics of the pools aside). An accepted one adds exactly one
    pool, without allocations, under the id asked for or else the next one, and under an id and
    a name that no pool had, on an attached backend and under a published policy; the other
    pools and the allocations stay as they were; if it names a parent, that pool is registered
    and its ancestry ends at a root within the depth bound; and the pools of the resource
    still fit its published capacity. *)
Theorem register_pool_exact (g : PoolRegistration) (s s' : Impl) (res : Result Z) :
  Inv s -> is_u64 (pg_raw_units g) -> is_u64 (pg_protected_units g) -> register_pool g s = (res, s') ->
  match res with Good id => pool_registered g s id s' | Bad _ => refused s s' end.
Proof. intros HI Hr Hp Hrun. exact (wp_run _ _ _ _ _ _ (register_pool_outcome g s HI Hr Hp) Hrun). Qed.

Definition sample_registration (raw : Z) : PoolRegistration :=
  default_PoolRegistration <| pg_name := "side" |> <| pg_resource := 3 |> <| pg_backend := 1 |> <| pg_raw_units := raw |>
    <| pg_parent := 1 |> <| pg_policy := 1 |>.

(** Four hundred units are left on the resource: not one more can be registered. *)
Lemma register_pool_exact_witness :
  fst (register_pool (sample_registration 401) sample_state) <> Good 3 /\
  exists s', register_pool (sample_registration 400) sample_state = (Good 3, s') /\
    pool_registered (sample_registration 400) sample_state 3 s'.
Proof.
  split; [vm_compute; discriminate|].
  assert (fst (register_pool (sample_registration 400) sample_state) = Good 3) as Hg by (vm_compute; reflexivity).
  destruct (register_pool (sample_registration 400) sample_state) as [r s'] eqn:Hrun. simpl in Hg. subst r. exists s'. split; [done|].
  apply (register_pool_exact (sample_registration 400) sample_state s' (Good 3)); [apply sample_inv|split; vm_compute; discriminate|split; vm_compute; discriminate|exact Hrun].
Defined.

(** Removing a pool: a refused removal changes no table; an accepted one drops the pool
    and its retired queues, nothing else, and no allocation that holds units used the pool
    or borrowed from it. *)
Theorem remove_pool_exact (pool expected : Z) (s s' : Impl) (res : Result unit) :
  Inv s -> remove_pool pool expected s = (res, s') ->
  match res with Good _ => pool_removed pool s s' | Bad _ => refused s s' end.
Proof. intros HI Hrun. exact (wp_run _ _ _ _ _ _ (remove_pool_outcome pool expected s HI) Hrun). Qed.

(** The sample fabric with its queue retired: pool 2 can go. *)
Definition sample_retired : Impl := snd (retire_queue 7 1 sample_state).

Lemma sample_retired_inv : Inv sample_retired.
Proof.
  pose proof (retire_queue_outcome 7 1 sample_state sample_inv) as H. unfold sample_retired.
  destruct (retire_queue 7 1 sample_state) as [r s'] eqn:Hrun. apply (wp_run _ _ _ _ _ _ H) in Hrun. clear H.
  destruct r as [[]|e]; [|apply Hrun]. destruct Hrun as (q & _ & [[_ ->]|(_ & b & [[HI _] _ _ _] & _)]); [apply sample_inv|done].
Qed.

Lemma remove_pool_exact_witness :
  succeeds (remove_pool 2 1) sample_state = false /\
  exists s', remove_pool 2 1 sample_retired = (Good tt, s') /\ pool_removed 2 sample_retired s'.
Proof.
  split; [vm_compute; reflexivity|].
  assert (succeeds (remove_pool 2 1) sample_retired = true) as ([] & s' & Hrun)%succeeds_run by (vm_compute; reflexivity).
  exists s'. split; [done|].
  apply (remove_pool_exact 2 1 sample_retired s' (Good tt)); [apply sample_retired_inv|exact Hrun].
Defined.

(** Moving a queue to another pool leaves none of its allocations behind: once it
    succeeds for a different pool, every allocation of the queue that held units is fenced,
    allocations of other queues are untouched, and the books balance. *)
Theorem retarget_queue_exact (queue new_pool expected : Z) (s s' : Impl) (res : Result unit) :
  Inv s -> retarget_queue queue new_pool expected s = (res, s') ->
  sound s s' /\ forall q, res = Good tt -> im_queues s !! queue = Some q ->
    is_Some (im_pools s !! new_pool) /\
    (qd_pool q = new_pool /\ s' = s \/
     qd_pool q <> new_pool /\ queue_moved s queue (moved_to new_pool (add64 (qd_generation q) 1)) true s').
Proof.
  intros HI Hrun. apply (wp_run _ _ _ _ _ _ (retarget_queue_outcome queue new_pool expected s HI)) in Hrun.
  destruct res as [[]|e]; [|by split]. destruct Hrun as (q & Hq & _ & Hp & H). split.
  - destruct H as [[_ ->]|[_ Hm]]; [by split|by apply (qm_sound _ _ _ _ _ Hm)].
  - intros q' _ Hq'. by simplify_eq.
Qed.

Lemma retarget_queue_exact_witness :
  exists s', retarget_queue 7 1 0 (sample_later 10 1) = (Good tt, s') /\ sound (sample_later 10 1) s' /\
    exists q, queue_moved (sample_later 10 1) 7 (moved_to 1 (add64 (qd_generation q) 1)) true s'.
Proof.
  assert (succeeds (retarget_queue 7 1 0) (sample_later 10 1) = true) as ([] & s' & Hrun)%succeeds_run by (vm_compute; reflexivity).
  exists s'. split; [done|].
  destruct (retarget_queue_exact 7 1 0 (sample_later 10 1) s' (Good tt) (sample_later_inv 10 1) Hrun) as [HS H].
  split; [done|]. assert (exists q, im_queues (sample_later 10 1) !! 7 = Some q /\ qd_pool q = 2) as (q & Hq & Hp)
    by (eexists; split; vm_compute; reflexivity).
  exists q. destruct (H q eq_refl Hq) as [_ [[Heq _]|[_ Hm]]]; [rewrite Hp in Heq; discriminate|done].
Defined.

(** Retiring a queue keeps the books; a queue already retired is left alone, and a queue
    retired under the automatic fence holds no units afterwards. *)
Theorem retire_queue_exact (queue expected : Z) (s s' : Impl) (res : Result unit) :
  Inv s -> retire_queue queue expected s = (res, s') ->
  sound s s' /\ forall q, res = Good tt -> im_queues s !! queue = Some q ->
    qd_retired q = true /\ s' = s \/
    qd_retired q = false /\ exists b, queue_moved s queue (retired_at (add64 (qd_generation q) 1)) b s' /\
      (fc_auto_fence_on_queue_retirement (im_config s) = true -> b = true).
Proof.
  intros HI Hrun. apply (wp_run _ _ _ _ _ _ (retire_queue_outcome queue expected s HI)) in Hrun.
  destruct res as [[]|e]; [|by split]. destruct Hrun as (q & Hq & H). split.
  - destruct H as [[_ ->]|(_ & b & Hm & _)]; [by split|by apply (qm_sound _ _ _ _ _ Hm)].
  - intros q' _ Hq'. by simplify_eq.
Qed.

Lemma retire_queue_exact_witness :
  exists s', retire_queue 7 1 (sample_later 10 1) = (Good tt, s') /\ sound (sample_later 10 1) s' /\
    (ar_state <$> im_allocations s' !! 1) = Some AllocationState.Fenced.
Proof.
  assert (succeeds (retire_queue 7 1) (sample_later 10 1) = true) as ([] & s' & Hrun)%succeeds_run by (vm_compute; reflexivity).
  exists s'. split; [done|]. split; [apply (retire_queue_exact 7 1 (sample_later 10 1) s' (Good tt) (sample_later_inv 10 1) Hrun)|].
  assert ((ar_state <$> im_allocations (snd (retire_queue 7 1 (sample_later 10 1))) !! 1) = Some AllocationState.Fenced) as H
    by (vm_compute; reflexivity). by rewrite Hrun in H.
Defined.

(** Taking in pressure: an observation of another epoch, another pool generation or a
    later time is refused and changes no table; an accepted one becomes the newest evidence
    of its pool, with the times and the assertion the caller gave, and the history stays
    within its configured bound. *)
Theorem observe_pressure_exact (request : PressureSnapshot) (s s' : Impl) (res : Result unit) :
  Inv s -> observe_pressure request s = (res, s') ->
  match res with Good _ => pressure_observed request s s' | Bad _ => refused s s' end.
Proof. intros HI Hrun. exact (wp_run _ _ _ _ _ _ (observe_pressure_outcome request s HI) Hrun). Qed.

Definition sample_observation (epoch : Z) : PressureSnapshot :=
  default_PressureSnapshot <| ps_pool := 2 |> <| ps_pool_generation := 1 |> <| ps_epoch := epoch |>
    <| ps_committed_units := 80 |> <| ps_assert_committed := true |>.

Lemma observe_pressure_exact_witness :
  succeeds (observe_pressure (sample_observation 2)) (sample_later 10 1) = false /\
  exists s', observe_pressure (sample_observation 1) (sample_later 10 1) = (Good tt, s') /\
    pressure_observed (sample_observation 1) (sample_later 10 1) s'.
Proof.
  split; [vm_compute; reflexivity|].
  assert (succeeds (observe_pressure (sample_observation 1)) (sample_later 10 1) = true) as ([] & s' & Hrun)%succeeds_run
    by (vm_compute; reflexivity).
  exists s'. split; [done|].
  apply (observe_pressure_exact (sample_observation 1) (sample_later 10 1) s' (Good tt)); [apply sample_later_inv|exact Hrun].
Defined.

(** ** Shrinking the small fabric *)

(** Two committed allocations of 30 units each in pool 2, whose usable units have just become 40. *)
Definition sample_first : Impl := snd (allocate_locked (sample_request 1 30) sample_state).
Definition sample_observed : Impl :=
  snd (observe_pressure (sample_observation 1 <| ps_committed_units := 30 |>) sample_first).
Definition sample_second : Impl := snd (allocate_locked (sample_request 2 30) sample_observed).
Definition sample_tight : Impl := sample_second <| im_pools ::= alter (resized 60 20 2 2) 2 |>.

Lemma sample_second_inv : Inv sample_second.
Proof.
  apply (allocate_keeps (sample_request 2 30)); [|done]. unfold sample_observed.
  assert (Inv sample_first) as HI by (apply (allocate_keeps (sample_request 1 30)); [apply sample_inv|done]).
  pose proof (observe_pressure_outcome (sample_observation 1 <| ps_committed_units := 30 |>) sample_first HI) as H.
  destruct (observe_pressure _ sample_first) as [r s'] eqn:Hrun. apply (wp_run _ _ _ _ _ _ H) in Hrun. clear H.
  destruct r; [apply Hrun|apply Hrun].
Qed.

Lemma sample_tight_inv : Inv sample_tight.
Proof.
  assert (exists e, im_pools sample_second !! 2 = Some e) as [e He] by (eexists; vm_compute; reflexivity).
  apply (resized_inv sample_second e 2 60 20 2 2 sample_policy); [apply sample_second_inv|done|done|].
  assert (en_descriptor e = en_descriptor (sample_pool 2 "leaf" 1 100 20)) as Hd.
  { assert ((en_descriptor <$> im_pools sample_second !! 2) = Some (en_descriptor (sample_pool 2 "leaf" 1 100 20))) as H
      by (vm_compute; reflexivity). rewrite He in H. by injection H. }
  split; try rewrite Hd; [u64_lia|lia|vm_compute; discriminate|vm_compute; reflexivity|].
  exists sample_capacity. split; [vm_compute; reflexivity|]. vm_compute. discriminate.
Qed.

Lemma enforce_capacity_order_witness :
  exists r s', enforce_capacity 2 false sample_tight = (Good r, s') /\ victim_before (im_allocations sample_tight) 1 2 = true.
Proof.
  assert (succeeds (enforce_capacity 2 false) sample_tight = true) as (r & s' & Hrun)%succeeds_run by (vm_compute; reflexivity).
  exists r, s'. split; [done|].
  assert (exists e ra, im_pools sample_tight !! 2 = Some e /\ sorted_members e = [1; 2] /\ im_allocations sample_tight !! 1 = Some ra
    /\ ar_state ra = AllocationState.Committed) as (e & ra & He & Hm & Ha & Hst)
    by (do 2 eexists; split_and!; vm_compute; reflexivity).
  assert ((ar_state <$> im_allocations (snd (enforce_capacity 2 false sample_tight)) !! 1) = Some AllocationState.Fenced) as Hf
    by (vm_compute; reflexivity).
  assert ((ar_state <$> im_allocations (snd (enforce_capacity 2 false sample_tight)) !! 2) = Some AllocationState.Committed) as Hk
    by (vm_compute; reflexivity).
  rewrite Hrun in Hf, Hk. simpl snd in Hf, Hk.
  destruct (im_allocations s' !! 2) as [rb|] eqn:Hb; [|done]. injection Hk as Hk.
  refine (proj1 (enforce_capacity_order 2 sample_tight s' r e 1 2 ra rb sample_tight_inv He Hrun _ Ha _ _ Hb _)).
  - apply elem_of_sorted_members. rewrite Hm. clear; set_solver.
  - intros Heq. rewrite Heq in Hf. simpl in Hf. congruence.
  - apply elem_of_sorted_members. rewrite Hm. clear; set_solver.
  - by rewrite Hk.
Defined.

(** What [LifeSafety.partial_release_forgets_member] leads to: once a partial release has
    dropped the record from its pool's members, a shrink that should have revoked it cannot
    find it, fails its closure check, and stops the whole fabric. *)
Theorem partial_release_then_shrink_stops :
  let s := snd (release_locked (sample_release 40) (sample_later 10 1)) in
  im_shutting_down s = false /\ im_shutting_down (snd (resize_pool 2 40 10 1 s)) = true /\
  im_shutting_down (snd (resize_pool 2 40 10 1 (sample_later 10 1))) = false.
Proof. vm_compute. split_and!; reflexivity. Qed.
