(* ===== verification/Recovery.v ===== *)
(** * Opening, recovering and closing

    The lifecycle part of [src/fabric.cpp]: decoding the snapshot image and replaying the
    journal into the tables, [load_from_store], [open], [close] and [attach_backend]. A
    decoding step reads the payload and writes the tables as it goes, so a failure keeps what
    was stored before it. *)

From S2P Require Import Prelude Ints Hash Enums Status Codec Model Wire Policy Accounting Authority Persist State Grant Alloc Lifecycle Topology.

(** ** Decoding into the tables *)

Definition Load (A : Type) : Type := StateR (ByteReader * Impl) A.

(** A getter whose failure returns [CorruptRecord]. *)
Definition field {A} (g : Reader A) (message : string) : Load A := fun '(r, s) =>
  match g r with
  | (Some a, r') => (Good a, (r', s))
  | (None, r') => (fail ErrorCode.CorruptRecord message, (r', s))
  end.

Definition corrupt_when (c : bool) (message : string) : Load unit := sm_lift (reject_if c ErrorCode.CorruptRecord message).

Definition store (f : Impl -> Impl) : Load unit := sm_modify (fun '(r, s) => (r, f s)).

(** Run a decoder over a whole payload. *)
Definition load {A} (m : Load A) (payload : list Z) : M A := fun s =>
  let '(res, (_, s')) := m (reader_of payload, s) in (res, s').

Fixpoint load_times (n : nat) (m : Load unit) : Load unit :=
  match n with O => sm_ret tt | S n => m ;;; load_times n m end.

(** A counted table: the count is checked against its bound, then every record is loaded. *)
Definition load_table (bound : Z) (message : string) (m : Load unit) : Load unit :=
  let* count := field get_u32 message in
  corrupt_when (bound <? count) message ;;;
  load_times (Z.to_nat count) m.

Definition put_policy (p : PoolPolicy) (s : Impl) : Impl :=
  s <| im_policy_names ::= <[pol_name p := pol_id p]> |> <| im_policies ::= <[pol_id p := p]> |>.

Definition put_pool (e : PoolEntry) (s : Impl) : Impl :=
  let d := en_descriptor e in
  s <| im_pool_names ::= <[pd_name d := pd_id d]> |> <| im_pools ::= <[pd_id d := e]> |>.

Definition put_queue (q : QueueDescriptor) (s : Impl) : Impl :=
  s <| im_queue_names ::= <[qd_name q := qd_id q]> |> <| im_queues ::= <[qd_id q := q]> |>.

Definition put_allocation (r : AllocationRecord) (s : Impl) : Impl := s <| im_allocations ::= <[ar_id r := r]> |>.

(** The newest observation joins the history of its pool. *)
Definition put_pressure (x : PressureSnapshot) (trim : list PressureSnapshot -> list PressureSnapshot) (s : Impl) : Impl :=
  s <| im_pressure ::= fun m =>
    let e := default default_PressureEntry (m !! ps_pool x) in
    <[ps_pool x := e <| pr_latest := x |> <| pr_has_latest := true |> <| pr_latest_revalidated := false |>
                     <| pr_history ::= fun h => trim (h ++ [x]) |>]> m |>.

Definition put_capacity (c : CapacityEntry) (s : Impl) : Impl := s <| im_capacities ::= <[cp_resource c := c]> |>.

Definition load_policy (undecodable invalid : string) : Load unit :=
  let* p := field decode_policy undecodable in
  corrupt_when (negb (result_ok (policy_validate p))) invalid ;;;
  store (put_policy p).

Definition load_queue (undecodable : string) : Load unit :=
  let* q := field decode_queue undecodable in
  store (put_queue q).

Definition load_allocation (undecodable out_of_range : string) : Load unit :=
  let* r := field decode_allocation undecodable in
  corrupt_when (kMaxUnitsPerPool <? ar_units r) out_of_range ;;;
  store (put_allocation r).

Definition decode_capacity : Reader CapacityEntry :=
  resource ← get_id; backend ← get_id; generation ← get_id; raw_units ← get_u64; observed_at ← get_u64;
  mret (mkCapacityEntry resource backend generation raw_units observed_at).

Definition load_capacity (undecodable : string) : Load unit :=
  let* c := field decode_capacity undecodable in
  store (put_capacity c).

(** ** The snapshot image *)

Definition counter_or_one (c : Z) : Z := if c =? 0 then 1 else c.

(** Epoch, boot incarnation and the seven counters, all read before any counter is stored. *)
Definition load_header : Load unit :=
  let* kind := field get_u8 "snapshot payload is not a full image" in
  corrupt_when (negb (kind =? 0xFF)) "snapshot payload is not a full image" ;;;
  let* epoch := field get_u64 "snapshot image header" in
  store (fun s => s <| im_epoch := epoch |>) ;;;
  let* hi := field get_u64 "snapshot boot" in
  store (fun s => s <| im_boot ::= fun b => b <| bi_hi := hi |> |>) ;;;
  let* lo := field get_u64 "snapshot boot" in
  store (fun s => s <| im_boot ::= fun b => b <| bi_lo := lo |> |>) ;;;
  let* c0 := field get_u64 "snapshot counters" in
  let* c1 := field get_u64 "snapshot counters" in
  let* c2 := field get_u64 "snapshot counters" in
  let* c3 := field get_u64 "snapshot counters" in
  let* c4 := field get_u64 "snapshot counters" in
  let* c5 := field get_u64 "snapshot counters" in
  let* c6 := field get_u64 "snapshot counters" in
  store (fun s => s <| im_next_pool_id := counter_or_one c0 |> <| im_next_queue_id := counter_or_one c1 |>
    <| im_next_allocation_id := counter_or_one c2 |> <| im_next_policy_id := counter_or_one c3 |>
    <| im_next_snapshot_id := counter_or_one c4 |> <| im_next_decision_sequence := counter_or_one c5 |>
    <| im_next_attempt_sequence := counter_or_one c6 |>).

Definition load_snapshot_pool : Load unit :=
  let* d := field decode_pool "snapshot pool record is not decodable" in
  let* g := field get_id "snapshot pool capacity generation" in
  corrupt_when (negb (result_ok (pool_descriptor_validate d))) "snapshot contains an invalid pool" ;;;
  store (put_pool (default_PoolEntry <| en_descriptor := d |> <| en_capacity_generation := g |>)).

Definition load_snapshot_pressure : Load unit :=
  let* x := field decode_pressure_snapshot "snapshot pressure record is not decodable" in
  store (put_pressure x (fun h => h)).

Definition load_snapshot_attempt : Load unit :=
  let* a := field decode_attempt "snapshot attempt record is not decodable" in
  store (fun s => s <| im_attempt_order ::= fun o => o ++ [at_id a] |> <| im_attempts ::= <[at_id a := a]> |>).

Definition load_end (message : string) : Load unit :=
  let* rs := sm_get in
  corrupt_when (negb (reader_empty (fst rs))) message.

Definition load_image : Load unit :=
  load_header ;;;
  load_table kMaxPolicyCount "snapshot policy count is out of range"
    (load_policy "snapshot policy record is not decodable" "snapshot contains an invalid policy") ;;;
  load_table kMaxPoolCount "snapshot pool count is out of range" load_snapshot_pool ;;;
  load_table kMaxQueueCount "snapshot queue count is out of range"
    (load_queue "snapshot queue record is not decodable") ;;;
  load_table kMaxAllocationCount "snapshot allocation count is out of range"
    (load_allocation "snapshot allocation record is not decodable" "snapshot allocation units are out of range") ;;;
  load_table kMaxSnapshotCount "snapshot pressure count is out of range" load_snapshot_pressure ;;;
  load_table kMaxAttemptMemory "snapshot attempt count is out of range" load_snapshot_attempt ;;;
  load_table kMaxPoolCount "snapshot capacity count is out of range"
    (load_capacity "snapshot capacity record is not decodable") ;;;
  load_end "snapshot payload has trailing bytes".

Definition apply_snapshot_payload (header : SnapshotHeader) (payload : list Z) : M unit := load load_image payload.

(** ** Journal records *)

Definition load_epoch : Load unit :=
  let* recorded := field get_u64 "epoch record" in
  store (fun s => if im_epoch s <? recorded then s <| im_epoch := recorded |> else s) ;;;
  let* hi := field get_u64 "epoch record boot" in
  let* lo := field get_u64 "epoch record boot" in
  when (negb (hi =? 0) || negb (lo =? 0)) do (store (fun s => s <| im_boot := mkBootIncarnation hi lo |>)).

(** A pool already there keeps its members and live counters. *)
Definition load_pool : Load unit :=
  let* d := field decode_pool "pool record is not decodable" in
  let* g := field get_id "pool record is not decodable" in
  corrupt_when (negb (result_ok (pool_descriptor_validate d))) "journal contains an invalid pool" ;;;
  store (fun s =>
    let e := default_PoolEntry <| en_descriptor := d |> <| en_capacity_generation := g |> in
    let e := match im_pools s !! pd_id d with
      | Some existing => e <| en_members := en_members existing |> <| en_runtime := en_runtime existing |>
      | None => e
      end in
    put_pool e s).

(** Only the pool and its name go; its queues and its pressure stay. *)
Definition load_pool_removal : Load unit :=
  let* raw_id := field get_u64 "pool removal" in
  store (fun s => match im_pools s !! raw_id with
    | Some e => s <| im_pool_names ::= delete (pd_name (en_descriptor e)) |> <| im_pools ::= delete raw_id |>
    | None => s
    end).

Definition load_queue_retirement : Load unit :=
  let* raw_id := field get_u64 "queue retirement" in
  store (fun s => s <| im_queues ::= alter (fun q => q <| qd_retired := true |>) raw_id |>).

Definition load_pressure : Load unit :=
  let* x := field decode_pressure_snapshot "pressure record is not decodable" in
  let* rs := sm_get in
  let capacity := Z.to_nat (fc_pressure_history_capacity (im_config (snd rs))) in
  store (put_pressure x (fun h => drop (length h - capacity) h)).

Definition load_attempt : Load unit :=
  let* a := field decode_attempt "attempt record is not decodable" in
  store (fun s =>
    let s := match im_attempts s !! at_id a with
      | None => s <| im_attempt_order ::= fun o => o ++ [at_id a] |>
      | Some _ => s
      end in
    s <| im_attempts ::= <[at_id a := a]> |>).

Definition load_record (op : JournalOp) : Load unit :=
  match op with
  | JournalOp.EpochAdvance => load_epoch
  | JournalOp.PolicyUpsert => load_policy "policy record is not decodable" "journal contains an invalid policy"
  | JournalOp.PoolUpsert => load_pool
  | JournalOp.PoolRemoved => load_pool_removal
  | JournalOp.QueueUpsert => load_queue "queue record is not decodable"
  | JournalOp.QueueRetired => load_queue_retirement
  | JournalOp.CapacitySet => load_capacity "capacity record is not decodable"
  | JournalOp.AllocationReserved | JournalOp.AllocationCommitted | JournalOp.AllocationReleased
  | JournalOp.AllocationReclaimed | JournalOp.AllocationFenced | JournalOp.AllocationRevalidated
  | JournalOp.AllocationExpired =>
      load_allocation "allocation record is not decodable" "allocation units are out of range"
  | JournalOp.PressureObserved => load_pressure
  | JournalOp.AttemptRecorded => load_attempt
  | JournalOp.Checkpoint | JournalOp.BackendRegistered => sm_ret tt
  end.

Definition apply_journal_payload (payload : list Z) (ordinal : Z) : M unit :=
  load (let* raw_op := field get_u8 "journal record has no opcode" in
        match enum_cast (E := JournalOp) raw_op with
        | Some op => load_record op
        | None => sm_fail ErrorCode.CorruptRecord "journal record carries an unknown opcode"
        end) payload.

(** ** Loading the durable state *)

(** [store_.recover] with the two visitors; the visitors write no field of the store. *)
Definition recover_store : M RecoveryReport := fun s =>
  let '(r, (d, s')) := recover apply_snapshot_payload apply_journal_payload (im_store s, s) in
  (r, s' <| im_store := d |>).

Definition unfinished_of (r : AllocationRecord) : UnfinishedAttempt :=
  mkUnfinishedAttempt (ar_attempt r) AttemptKind.Reserve (ar_id r) (ar_units r) (ar_created_at r) (mkDigest 0 0).

(** A reservation is a lease: a restart expires it. *)
Definition expire_lease (stamp : Z) (r : AllocationRecord) : AllocationRecord :=
  if bool_decide (ar_state r = AllocationState.Reserved)
  then r <| ar_state := AllocationState.Expired |> <| ar_last_touched := stamp |> <| ar_revision ::= plus 1 |>
  else r.

Definition count_if {A} (f : A -> bool) (l : list A) : Z := Z.of_nat (length (List.filter f l)).

(** The report's counts of what was restored, in the order the code takes them. *)
Definition restored_report (s : Impl) (report : RecoveryReport) : RecoveryReport :=
  let reserved := List.filter (fun r => bool_decide (ar_state r = AllocationState.Reserved)) (values (im_allocations s)) in
  report <| rr_pools_restored := Z.of_nat (size (im_pools s)) |>
    <| rr_policies_restored := Z.of_nat (size (im_policies s)) |>
    <| rr_queues_restored := Z.of_nat (size (im_queues s)) |>
    <| rr_unfinished_attempts ::= fun l => l ++ map unfinished_of reserved |>
    <| rr_allocations_restored_as_uncommitted ::= plus (Z.of_nat (length reserved)) |>
    <| rr_allocations_restored ::= plus (count_if (fun r => bool_decide (ar_state r = AllocationState.Committed))
         (values (im_allocations s))) |>
    <| rr_fences_restored ::= plus (count_if (fun r => bool_decide (ar_state r = AllocationState.Fenced)
         || bool_decide (ar_state r = AllocationState.Reclaimed)) (values (im_allocations s))) |>
    <| rr_pressure_snapshots_invalidated ::= plus (count_if pr_has_latest (values (im_pressure s))) |>.

Definition load_from_store : M unit :=
  let* report := recover_store in
  modify (fun s => rebuild_aggregates
    (s <| im_recovery := restored_report s report |>
       <| im_allocations ::= fmap (expire_lease (im_tick s)) |>)).

(** ** Lifecycle *)

(** [m], and [f] after a failure. *)
Definition on_failure {A} (m : M A) (f : Impl -> Impl) : M A := fun s =>
  match m s with (Bad e, s') => (Bad e, f s') | ok => ok end.

Definition close_store (s : Impl) : Impl := s <| im_store ::= store_close |>.

Definition check_config (c : FabricConfig) : M unit :=
  reject_when (fc_decision_history_capacity c =? 0) ErrorCode.InvalidArgument
    "decision_history_capacity must be non-zero" ;;;
  reject_when ((fc_attempt_memory_capacity c =? 0) || (kMaxAttemptMemory <? fc_attempt_memory_capacity c))
    ErrorCode.InvalidArgument "attempt_memory_capacity out of range" ;;;
  reject_when ((fc_pressure_history_capacity c =? 0) || (kMaxSnapshotCount <? fc_pressure_history_capacity c))
    ErrorCode.InvalidArgument "pressure_history_capacity out of range" ;;;
  reject_when ((fc_max_inspection_rows c =? 0) || (kMaxAllocationCount <? fc_max_inspection_rows c))
    ErrorCode.InvalidArgument "max_inspection_rows out of range".

(** Recovery of a durable fabric: the epoch it had. *)
Definition open_durable (c : FabricConfig) : M Z :=
  on_store_m (store_configure (fc_persistence c)) ;;;
  on_failure load_from_store close_store ;;;
  metric (fun m => m <| mt_recoveries ::= plus 1 |>) ;;;
  let* s := sm_get in
  metric (fun m => m <| mt_journal_records_replayed ::= plus (rr_journal_records_applied (im_recovery s)) |>
    <| mt_journal_tail_truncations ::= plus (if rr_journal_bytes_discarded (im_recovery s) =? 0 then 0 else 1) |>) ;;;
  ret (im_epoch s).

(** The next epoch and a new boot incarnation; the fabric is open. *)
Definition begin_epoch (durable_epoch epoch : Z) (boot : BootIncarnation) (s : Impl) : Impl :=
  s <| im_epoch := epoch |>
    <| im_recovery ::= fun r => r <| rr_durable_epoch := durable_epoch |> <| rr_new_epoch := epoch |>
         <| rr_previous_boot := im_boot s |> <| rr_boot := boot |> |>
    <| im_boot := boot |> <| im_metrics ::= fun m => m <| mt_epoch_advances ::= plus 1 |> |>
    <| im_open := true |> <| im_shutting_down := false |>.

Definition encode_epoch (s : Impl) : Put :=
  put_u64 (im_epoch s) >+> put_u64 (bi_hi (im_boot s)) >+> put_u64 (bi_lo (im_boot s)).

(** [boot] is what [mint_boot] makes of the clock and the process. *)
Definition open (c : FabricConfig) (boot : BootIncarnation) : M unit :=
  let* s := sm_get in
  reject_when (im_open s) ErrorCode.LifecycleViolation "fabric is already open" ;;;
  check_config c ;;;
  modify (fun s => s <| im_config := c |>) ;;;
  let durable := negb (bool_decide (pc_mode (fc_persistence c) = DurabilityMode.None)) in
  let* durable_epoch := if durable then open_durable c else ret 0 in
  let '(o, next_epoch) := add_overflow durable_epoch 1 in
  on_failure (reject_when (o || (next_epoch =? 0)) ErrorCode.EpochRegression "the fabric epoch is exhausted")
    close_store ;;;
  modify (begin_epoch durable_epoch next_epoch boot) ;;;
  when durable do
    (let* s := sm_get in
     on_failure (journal JournalOp.EpochAdvance (wr_buffer (encode_epoch s writer_empty)))
       (fun s => close_store (s <| im_open := false |>))) ;;;
  (let* s := sm_get in
   push_event EventKind.Recovered ErrorCode.Ok (RecoveryOutcome.to_string (rr_outcome (im_recovery s))) 0 0 0 0 0) ;;;
  push_event EventKind.EpochAdvanced ErrorCode.Ok "fabric opened" 0 0 0 0 0.

Definition close : M unit :=
  let* s := sm_get in
  if negb (im_open s) then ret tt
  else
    modify (fun s => close_store (s <| im_shutting_down := true |>)) ;;;
    modify (fun s => s <| im_shutting_down := false |> <| im_open := false |>) ;;;
    push_event EventKind.ShutdownComplete ErrorCode.Ok "fabric closed" 0 0 0 0 0.

(** The backend's own answers are read before the lock is taken. *)
Definition attach_backend (id kind generation : Z) (ready : bool) : M unit :=
  reject_when (negb (valid id)) ErrorCode.InvalidArgument "backend id must be non-zero" ;;;
  let* s := sm_get in
  reject_when (negb (im_open s)) ErrorCode.LifecycleViolation "fabric is not open" ;;;
  modify (fun s => s <| im_backends ::= <[id := mkBackendEntry kind generation ready]> |>).

Definition backend_count : M Z := gets (fun s => Z.of_nat (size (im_backends s))).

(** [BufferFabric::begin_shutdown]. *)
Definition begin_shutdown : M unit := modify (fun s => s <| im_shutting_down := true |>).
