(* ===== verification/Query.v ===== *)
(** * Evaluation, reclamation and inspection

    [src/fabric_query.cpp]: the dry run of an allocation, reclamation plans and their
    application, the explanation of a pool, summaries, views and histories. Queries read the
    state under the lock; only [apply_reclaim] and [checkpoint] have effects beyond the
    events of the running operation. *)

From S2P Require Import Prelude Ints Hash Enums Status Codec Model Wire Policy Accounting Authority Persist State Grant Alloc Lifecycle Topology.

(** ** Entry points *)

(** An operation refused after shutdown before anything else is looked at. *)
Definition fence_stale (pool : Z) : M Decision := refuse_after_shutdown ;;; fence_stale_locked pool.
Definition expire_reservations (pool : Z) : M Decision := refuse_after_shutdown ;;; expire_reservations_locked pool.

(** ** Evaluation *)

(** The caps of [evaluate], in its order. *)
Definition evaluation_limit (p : PoolPolicy) (q : QueueDescriptor) (e : PoolEntry) (g : GrantComputation) :
    Z * BindingConstraint :=
  let l := (gc_max_grant g, gc_binding g) in
  let l := if negb (pol_max_single_request_units p =? 0)
           then apply_cap (pol_max_single_request_units p) BindingConstraint.PolicyMaxSingleRequest l else l in
  let l := if negb (pol_max_single_allocation_units p =? 0)
           then apply_cap (pol_max_single_allocation_units p) BindingConstraint.PolicyMaxSingleAllocation l else l in
  queue_cap e q l.

(** The fields of the decision that every branch shares. *)
Definition evaluation_base (s : Impl) (rq : EvaluateRequest) (e : PoolEntry) (q : QueueDescriptor)
    (ev : PressureEvidence) : Decision :=
  default_Decision <| dc_pool := pd_id (en_descriptor e) |> <| dc_queue := qd_id q |>
    <| dc_requested_units := eq_requested_units rq |> <| dc_pressure := pe_state ev |>
    <| dc_utilization_bp := pe_utilization_bp ev |> <| dc_accounting := accounting_of s e |>
    <| dc_decided_at := im_tick s |> <| dc_sequence := im_next_decision_sequence s |>.

Definition verdict (kind : DecisionKind) (code : ErrorCode) (reason : string) (binding : BindingConstraint)
    (d : Decision) : Decision :=
  d <| dc_kind := kind |> <| dc_status := code |> <| dc_reason := reason |> <| dc_binding := binding |>.

(** The authority a positive evaluation binds. *)
Definition evaluation_authority (s : Impl) (e : PoolEntry) (q : QueueDescriptor) (p : PoolPolicy)
    (ev : PressureEvidence) (v : AuthorityVector) : AuthorityVector :=
  let v := bind_generation AuthorityKind.Pool (pd_generation (en_descriptor e)) v in
  let v := bind_generation AuthorityKind.Queue (qd_generation q) v in
  let v := bind_generation AuthorityKind.Policy (pol_generation p) v in
  let v := bind AuthorityKind.Capacity (en_capacity_generation e) (en_capacity_generation e) v in
  let v := bind_id AuthorityKind.Epoch (im_epoch s) v in
  let v := bind_id AuthorityKind.Pressure (pe_snapshot ev) v in
  let v := bind AuthorityKind.BootIncarnation (bi_hi (im_boot s)) (bi_lo (im_boot s)) v in
  seal v.

(** The verdict on a request of a resolved pool, queue and policy. *)
Definition evaluate_decision (s : Impl) (rq : EvaluateRequest) (e : PoolEntry) (q : QueueDescriptor) (p : PoolPolicy)
    (ev : PressureEvidence) : Decision :=
  let d := evaluation_base s rq e q ev in
  let revalidate := default_CorrectiveIntent <| ci_revalidate_required := true |> in
  if stale (eq_expected_epoch rq) (im_epoch s) then
    verdict DecisionKind.Revalidate ErrorCode.StaleEpoch "request epoch does not match the fabric epoch"
      BindingConstraint.GenerationMismatch d <| dc_intent := revalidate |>
  else if pd_retired (en_descriptor e) then
    verdict DecisionKind.Refuse ErrorCode.WrongState "pool is retired" BindingConstraint.PoolRetired d
  else if qd_retired q then
    verdict DecisionKind.Refuse ErrorCode.WrongState "queue is retired" BindingConstraint.QueueRetired d
  else if eq_requested_units rq =? 0 then
    verdict DecisionKind.NoOp ErrorCode.Ok "no capacity requested" BindingConstraint.RequestZero d
  else if negb (evidence_usable ev) && pp_refuse_increase_on_unknown (pol_pressure p) then
    verdict DecisionKind.Revalidate (pe_reason ev) "fresh pressure evidence is required"
      (if decide (pe_state ev = PressureState.Unknown) then BindingConstraint.EvidenceUnknown
       else BindingConstraint.EvidenceStale) d <| dc_intent := revalidate |>
  else if pressure_is_known (pe_state ev) && negb (bool_decide (pol_refuse_grants_at p = PressureState.Unknown))
          && pressure_at_least (pe_state ev) (pol_refuse_grants_at p) then
    verdict DecisionKind.Reduce ErrorCode.PolicyForbids "pressure is at or above the refusal band"
      BindingConstraint.PressureRefuse d
      <| dc_intent := default_CorrectiveIntent <| ci_reduce_required := true |> <| ci_reduce_to_units := en_usable e |> |>
  else
    let '(limit, binding) := evaluation_limit p q e (compute_grant s e p) in
    let grant := Z.min (eq_requested_units rq) limit in
    let grant := if negb (pol_allow_partial_grant p) && (grant <? eq_requested_units rq) then 0 else grant in
    if grant =? 0 then
      verdict DecisionKind.Refuse ErrorCode.CapacityExceeded
        "no capacity is available under the governing policy" binding d
    else
      verdict (if grant =? eq_requested_units rq then DecisionKind.Grant else DecisionKind.GrantPartial)
        ErrorCode.Ok "capacity would be granted" binding d
        <| dc_granted_units := grant |> <| dc_authority ::= evaluation_authority s e q p ev |>.

Definition evaluate (rq : EvaluateRequest) : M EvaluationResult :=
  require_open ;;;
  reject_when (kMaxUnitsPerPool <? eq_requested_units rq) ErrorCode.Overflow
    "requested units exceed the supported bound" ;;;
  let* e := require_pool (eq_pool rq) in
  let* q := require_queue (eq_queue rq) in
  reject_when (negb (qd_pool q =? pd_id (en_descriptor e))) ErrorCode.InvalidArgument
    "queue is not bound to the requested pool" ;;;
  let* s := sm_get in
  let* p := require (im_policies s !! pd_policy (en_descriptor e)) ErrorCode.UnknownPolicy
              "pool policy is not published" in
  let ev := resolve_evidence s e in
  ret (mkEvaluationResult (evaluate_decision s rq e q p ev) (accounting_of s e) ev).

(** ** Reclamation plans *)

(** A member that may be revoked: it holds units and has been left alone long enough. *)
Definition is_candidate (p : PoolPolicy) (now : Z) (r : AllocationRecord) : bool :=
  allocation_holds_units (ar_state r)
  && ((rp_min_hold_ticks (pol_reclaim p) =? 0)
      || (rp_min_hold_ticks (pol_reclaim p) <=?
            (if ar_last_touched r <=? now then sub64 now (ar_last_touched r) else 0))).

Definition candidate_of (r : AllocationRecord) : ReclaimVictim :=
  mkReclaimVictim (ar_id r) (ar_queue r) (ar_units r) (ar_borrow_units r) (ar_reclaim_priority r)
    (ar_last_touched r) (ar_reclaim_class r).

(** In the order the member set is walked. *)
Definition candidates (s : Impl) (e : PoolEntry) (p : PoolPolicy) : list ReclaimVictim :=
  omap (fun id => match im_allocations s !! id with
    | Some r => if is_candidate p (im_tick s) r then Some (candidate_of r) else None
    | None => None
    end) (elements (en_members e)).

(** The comparator: priority, then age, then id. *)
Definition candidate_before (a b : ReclaimVictim) : bool :=
  if negb (vi_reclaim_priority a =? vi_reclaim_priority b) then vi_reclaim_priority a <? vi_reclaim_priority b
  else if negb (vi_last_touched a =? vi_last_touched b) then vi_last_touched a <? vi_last_touched b
  else vi_allocation a <? vi_allocation b.

Definition sort_candidates : list ReclaimVictim -> list ReclaimVictim :=
  merge_sort (fun a b => Is_true (negb (candidate_before b a))).

Definition is_reclaimable (v : ReclaimVictim) : bool := bool_decide (vi_reclaim_class v = ReclaimClass.Reclaimable).

Definition sum_units (l : list ReclaimVictim) : Z := fold_left (fun acc v => add64 acc (vi_units v)) l 0.

(** What the [accept] closure updates. *)
Record Picked := mkPicked { pk_victims : list ReclaimVictim; pk_planned : Z; pk_truncated : bool; pk_protected : bool }.

Definition needs_more (target free reserve planned : Z) : bool :=
  (planned <? target) || (add64 free planned <? reserve).

(** One of the two loops: while more is needed, accept the next candidate or give up. *)
Fixpoint pick (needs : Z -> bool) (max_units : Z) (protected : bool) (l : list ReclaimVictim) (k : Picked) : Picked :=
  match l with
  | [] => k
  | v :: rest =>
      if negb (needs (pk_planned k)) then k
      else if (kMaxReclaimVictims <=? Z.of_nat (length (pk_victims k)))
              || (max_units <? add64 (pk_planned k) (vi_units v)) then
        mkPicked (pk_victims k) (pk_planned k) true (pk_protected k)
      else
        pick needs max_units protected rest
          (mkPicked (pk_victims k ++ [v]) (add64 (pk_planned k) (vi_units v)) (pk_truncated k)
             (protected || pk_protected k))
  end.

(** Reclaimable allocations first; pinned ones only when the policy allows it and more is needed. *)
Definition pick_victims (p : PoolPolicy) (target free : Z) (reclaimable pinned : list ReclaimVictim) : Picked :=
  let rp := pol_reclaim p in
  let needs := needs_more target free (rp_reserve_units rp) in
  let k := pick needs (rp_max_units_per_operation rp) false reclaimable (mkPicked [] 0 false false) in
  if needs (pk_planned k) && rp_allow_protected_reclaim rp
  then pick needs (rp_max_units_per_operation rp) true pinned k else k.

Definition plan_digest (plan : ReclamationPlan) : Digest :=
  finish (put_id (rl_pool plan) >+> put_id (rl_pool_generation plan) >+> put_id (rl_epoch plan) >+>
    put_u64 (rl_target_units plan) >+> put_u64 (rl_planned_units plan) >+>
    put_u32 (wrap32 (Z.of_nat (length (rl_victims plan)))) >+>
    put_list (fun v => put_id (vi_allocation v) >+> put_u64 (vi_units v) >+> put_u64 (vi_reclaim_priority v) >+>
                       put_u64 (vi_last_touched v) >+> put_enum (vi_reclaim_class v)) (rl_victims plan)).

Definition plan_authority (s : Impl) (e : PoolEntry) (p : PoolPolicy) (ev : PressureEvidence) : AuthorityVector :=
  let v := bind_generation AuthorityKind.Pool (pd_generation (en_descriptor e)) default_AuthorityVector in
  let v := bind_generation AuthorityKind.Policy (pol_generation p) v in
  let v := bind_id AuthorityKind.Epoch (im_epoch s) v in
  let v := bind_id AuthorityKind.Pressure (pe_snapshot ev) v in
  seal v.

Definition build_plan (s : Impl) (target : Z) (e : PoolEntry) (p : PoolPolicy) : ReclamationPlan :=
  let found := candidates s e p in
  let reclaimable := sort_candidates (List.filter is_reclaimable found) in
  let pinned := sort_candidates (List.filter (fun v => negb (is_reclaimable v)) found) in
  let k := pick_victims p target (en_free_units e) reclaimable pinned in
  let plan := mkReclamationPlan (pd_id (en_descriptor e)) (pd_generation (en_descriptor e)) (im_epoch s) target
    (pk_planned k) (if pk_planned k <? target then sub64 target (pk_planned k) else 0)
    (sum_units reclaimable) (sum_units pinned) (pk_protected k) (pk_truncated k) (pk_victims k)
    (plan_authority s e p (resolve_evidence s e)) (im_tick s) (mkDigest 0 0) in
  plan <| rl_digest := plan_digest plan |>.

Definition plan_reclaim_locked (rq : ReclaimRequest) : M ReclamationPlan :=
  require_open ;;;
  reject_when (lq_target_units rq =? 0) ErrorCode.InvalidArgument "reclamation target must be non-zero" ;;;
  reject_when (kMaxUnitsPerPool <? lq_target_units rq) ErrorCode.Overflow
    "reclamation target exceeds the supported bound" ;;;
  let* e := require_pool (lq_pool rq) in
  let* s := sm_get in
  reject_when (stale (lq_expected_epoch rq) (im_epoch s)) ErrorCode.StaleEpoch
    "request epoch does not match the fabric epoch" ;;;
  reject_when (stale (lq_expected_pool_generation rq) (pd_generation (en_descriptor e))) ErrorCode.StaleGeneration
    "request pool generation is not current" ;;;
  let* p := require (im_policies s !! pd_policy (en_descriptor e)) ErrorCode.UnknownPolicy
              "pool policy is not published" in
  reject_when (negb (rp_enabled (pol_reclaim p))) ErrorCode.PolicyForbids "reclamation is disabled for this pool" ;;;
  let plan := build_plan s (lq_target_units rq) e p in
  push_event EventKind.DecisionRefused ErrorCode.Ok "reclamation plan built" (rl_pool plan) 0 0 (rl_planned_units plan) 0 ;;;
  ret plan.

(** With an event vector of its own, thrown away afterwards. *)
Definition with_scratch_events {A} (m : M A) : M A := fun s =>
  let '(r, s') := m (s <| im_events := [] |>) in (r, s' <| im_events := im_events s |>).

Definition plan_reclaim (rq : ReclaimRequest) : M ReclamationPlan := with_scratch_events (plan_reclaim_locked rq).

(** ** Applying a plan *)

Definition count_reclaimed (r : AllocationRecord) (result : ReclaimResult) : ReclaimResult :=
  let result := result <| rs_reclaimed_units ::= plus (ar_units r) |> <| rs_revoked_allocations ::= plus 1 |> in
  if negb (ar_borrow_units r =? 0)
  then result <| rs_borrower_units_returned ::= plus (ar_borrow_units r) |>
              <| rs_lender_units_returned ::= plus (ar_borrow_units r) |>
  else result.

Fixpoint reclaim_victims (victims : list ReclaimVictim) (result : ReclaimResult) : M ReclaimResult :=
  match victims with
  | [] => ret result
  | v :: rest =>
      let* s := sm_get in
      match im_allocations s !! vi_allocation v with
      | None => reclaim_victims rest result
      | Some r =>
          if negb (allocation_holds_units (ar_state r)) then reclaim_victims rest result
          else
            fence_allocation_locked (vi_allocation v) AllocationState.Reclaimed ErrorCode.PolicyForbids ;;;
            reclaim_victims rest (count_reclaimed r result)
      end
  end.

Definition apply_reclaim_locked (rq : ReclaimRequest) : M ReclaimResult :=
  let* plan := with_scratch_events (plan_reclaim_locked rq) in
  let* _ := require_pool (rl_pool plan) in
  let* result := reclaim_victims (rl_victims plan) (default_ReclaimResult <| rs_plan := plan |>) in
  let* e := pool_ref (rl_pool plan) in
  let* s := sm_get in
  let result := result <| rs_accounting := accounting_of s e |> <| rs_applied_at := im_tick s |> in
  metric (fun m => m <| mt_reclaims ::= plus 1 |>) ;;;
  verify_closure (rl_pool plan) (fun status =>
    push_event EventKind.AccountingViolation (st_code status) (st_message status) (pd_id (en_descriptor e)) 0 0 0 0) ;;;
  ret result.

Definition apply_reclaim (rq : ReclaimRequest) : M ReclaimResult := refuse_after_shutdown ;;; apply_reclaim_locked rq.

(** ** Explanation *)

Record Explanation := mkExplanation {
  ex_pool : Z; ex_pool_generation : Z; ex_epoch : Z; ex_boot : BootIncarnation; ex_sequence : Z; ex_generated_at :
  Z; ex_raw_units : Z; ex_protected_headroom_units : Z; ex_usable_units : Z; ex_allocated_units : Z;
  ex_reserved_units : Z; ex_committed_units : Z; ex_pinned_units : Z; ex_reclaimable_units : Z; ex_free_units : Z;
  ex_borrowed_in_units : Z; ex_lent_out_units : Z; ex_overcommit_used_units : Z; ex_overcommit_limit_units : Z;
  ex_pressure : PressureState; ex_utilization_bp : Z; ex_binding_bp : Z; ex_thresholds : Thresholds; ex_evidence :
  PressureEvidence; ex_binding : BindingConstraint; ex_intent : CorrectiveIntent; ex_authority : AuthorityVector;
  ex_accounting : AccountingReport; ex_queues : list QueueUsage; ex_digest : Digest
}.

#[export] Instance settable_Explanation : Settable Explanation :=
  fun r => mkExplanation (ex_pool r) (ex_pool_generation r) (ex_epoch r) (ex_boot r) (ex_sequence r)
  (ex_generated_at r) (ex_raw_units r) (ex_protected_headroom_units r) (ex_usable_units r) (ex_allocated_units r)
  (ex_reserved_units r) (ex_committed_units r) (ex_pinned_units r) (ex_reclaimable_units r) (ex_free_units r)
  (ex_borrowed_in_units r) (ex_lent_out_units r) (ex_overcommit_used_units r) (ex_overcommit_limit_units r)
  (ex_pressure r) (ex_utilization_bp r) (ex_binding_bp r) (ex_thresholds r) (ex_evidence r) (ex_binding r)
  (ex_intent r) (ex_authority r) (ex_accounting r) (ex_queues r) (ex_digest r).

(** The units of a record, on the side of its state. *)
Definition usage_units (r : AllocationRecord) (u : QueueUsage) : QueueUsage :=
  u <| qu_committed_units ::= plus (if decide (ar_state r = AllocationState.Committed) then ar_units r else 0) |>
    <| qu_reserved_units ::= plus (if decide (ar_state r = AllocationState.Reserved) then ar_units r else 0) |>
    <| qu_allocation_count ::= plus 1 |>.

(** The usage of the record's queue takes it in; the first record of a queue adds a usage. *)
Fixpoint add_usage (queues : gmap Z QueueDescriptor) (pool : Z) (r : AllocationRecord) (l : list QueueUsage) :
    list QueueUsage :=
  match l with
  | [] => [usage_units r (default_QueueUsage <| qu_queue := ar_queue r |> <| qu_pool := pool |>
             <| qu_queue_generation := match queues !! ar_queue r with Some q => qd_generation q | None => 0 end |>)]
  | u :: rest => if qu_queue u =? ar_queue r then usage_units r u :: rest else u :: add_usage queues pool r rest
  end.

Definition usage_step (s : Impl) (pool : Z) (l : list QueueUsage) (id : Z) : list QueueUsage :=
  match im_allocations s !! id with
  | Some r => if allocation_holds_units (ar_state r) then add_usage (im_queues s) pool r l else l
  | None => l
  end.

Definition sort_usages : list QueueUsage -> list QueueUsage := merge_sort (fun a b => Is_true (qu_queue a <=? qu_queue b)).

Definition explain_usages (s : Impl) (e : PoolEntry) : list QueueUsage :=
  sort_usages (fold_left (usage_step s (pd_id (en_descriptor e))) (elements (en_members e)) []).

Definition explain_authority (s : Impl) (e : PoolEntry) (p : PoolPolicy) (ev : PressureEvidence) : AuthorityVector :=
  let v := bind AuthorityKind.Capacity (en_capacity_generation e) (en_capacity_generation e) default_AuthorityVector in
  let v := bind_generation AuthorityKind.Pool (pd_generation (en_descriptor e)) v in
  let v := bind_generation AuthorityKind.Policy (pol_generation p) v in
  let v := bind_id AuthorityKind.Pressure (pe_snapshot ev) v in
  let v := bind_id AuthorityKind.Epoch (im_epoch s) v in
  let v := bind_id AuthorityKind.Backend (pd_backend (en_descriptor e)) v in
  let v := bind AuthorityKind.BootIncarnation (bi_hi (im_boot s)) (bi_lo (im_boot s)) v in
  seal v.

Definition explanation_digest (x : Explanation) : Digest :=
  finish (put_id (ex_pool x) >+> put_id (ex_pool_generation x) >+> put_id (ex_epoch x) >+> put_u64 (ex_raw_units x) >+>
    put_u64 (ex_protected_headroom_units x) >+> put_u64 (ex_allocated_units x) >+> put_u64 (ex_free_units x) >+>
    put_u64 (ex_borrowed_in_units x) >+> put_u64 (ex_lent_out_units x) >+> put_u64 (ex_overcommit_used_units x) >+>
    put_enum (ex_pressure x) >+> put_u32 (ex_utilization_bp x) >+> put_u64 (th_elevated_bp (ex_thresholds x)) >+>
    put_u64 (th_high_bp (ex_thresholds x)) >+> put_u64 (th_critical_bp (ex_thresholds x)) >+>
    put_digest (av_digest (ex_authority x)) >+> put_u32 (wrap32 (Z.of_nat (length (ex_queues x)))) >+>
    put_list (fun u => put_id (qu_queue u) >+> put_u64 (qu_committed_units u) >+> put_u64 (qu_reserved_units u)) (ex_queues x)).

(** What the explanation asks for: less usage, fresh evidence. *)
Definition explain_intent (p : PoolPolicy) (a : PoolAccounting) (ev : PressureEvidence) : CorrectiveIntent :=
  let i := default_CorrectiveIntent in
  let i := if pressure_is_known (pe_state ev) && pressure_at_least (pe_state ev) (pol_reduce_at p)
           then i <| ci_reduce_required := true |> <| ci_reduce_to_units := pa_usable a |> else i in
  if negb (evidence_usable ev) then i <| ci_revalidate_required := true |> else i.

Definition explain (pool : Z) : M Explanation :=
  let* e := require_pool pool in
  let* s := sm_get in
  let* p := require (im_policies s !! pd_policy (en_descriptor e)) ErrorCode.UnknownPolicy
              "pool policy is not published" in
  let a := accounting_of s e in
  let ev := resolve_evidence s e in
  let oc := pol_overcommit p in
  let x := mkExplanation (pd_id (en_descriptor e)) (pd_generation (en_descriptor e)) (im_epoch s) (im_boot s)
    (im_next_decision_sequence s) (im_tick s) (pa_raw a) (pa_protected_units a) (pa_usable a) (pa_allocated a)
    (pa_reserved a) (pa_committed a) (pa_pinned a) (pa_reclaimable a) (pa_free a) (pa_borrowed_in a) (pa_lent_out a)
    (pa_overcommit_used a) (pa_overcommit_limit a) (pe_state ev) (pe_utilization_bp ev) (pe_binding_bp ev)
    (pp_thresholds (pol_pressure p)) ev BindingConstraint.None (explain_intent p a ev)
    (explain_authority s e p ev) (check_pool_accounting a (oc_mode oc) (oc_limit_units oc)) (explain_usages s e)
    (mkDigest 0 0) in
  ret (x <| ex_digest := explanation_digest x |>).

(** ** Summary, ledger and views *)

Record FabricSummary := mkFabricSummary {
  fs_epoch : Z; fs_boot : BootIncarnation; fs_pool_count : Z; fs_queue_count : Z; fs_allocation_count : Z;
  fs_raw_total : Z; fs_protected_total : Z; fs_allocated_total : Z; fs_free_total : Z; fs_overcommit_total : Z;
  fs_borrowed_total : Z; fs_lent_total : Z; fs_live_allocations : Z; fs_accounting : AccountingReport
}.

#[export] Instance settable_FabricSummary : Settable FabricSummary :=
  fun r => mkFabricSummary (fs_epoch r) (fs_boot r) (fs_pool_count r) (fs_queue_count r) (fs_allocation_count r)
  (fs_raw_total r) (fs_protected_total r) (fs_allocated_total r) (fs_free_total r) (fs_overcommit_total r)
  (fs_borrowed_total r) (fs_lent_total r) (fs_live_allocations r) (fs_accounting r).

Definition summary_step (x : FabricSummary) (a : PoolAccounting) : FabricSummary :=
  x <| fs_raw_total ::= plus (pa_raw a) |> <| fs_protected_total ::= plus (pa_protected_units a) |>
    <| fs_allocated_total ::= plus (pa_allocated a) |> <| fs_free_total ::= plus (pa_free a) |>
    <| fs_overcommit_total ::= plus (pa_overcommit_used a) |> <| fs_borrowed_total ::= plus (pa_borrowed_in a) |>
    <| fs_lent_total ::= plus (pa_lent_out a) |> <| fs_live_allocations ::= plus (add64 (pa_reserved a) (pa_committed a)) |>.

Definition pool_ledger (s : Impl) : list PoolAccounting := map (accounting_of s) (values (im_pools s)).

Definition summary_of (s : Impl) : FabricSummary :=
  fold_left summary_step (pool_ledger s)
    (mkFabricSummary (im_epoch s) (im_boot s) (Z.of_nat (size (im_pools s))) (Z.of_nat (size (im_queues s)))
       (Z.of_nat (size (im_allocations s))) 0 0 0 0 0 0 0 0 (check_global_accounting (pool_ledger s))).

Definition summary : M FabricSummary := gets summary_of.

Definition ledger : M (list PoolAccounting) :=
  gets (fun s => merge_sort (fun a b => Is_true (pa_pool a <=? pa_pool b)) (pool_ledger s)).

Record PoolView := mkPoolView {
  pv_descriptor : PoolDescriptor; pv_policy : PoolPolicy; pv_runtime : PoolRuntime; pv_queues : list QueueUsage;
  pv_raw_units : Z; pv_protected_units : Z; pv_usable_units : Z; pv_allocated_units : Z; pv_free_units : Z
}.

Definition view_of (e : PoolEntry) (p : PoolPolicy) (queues : list QueueUsage) : PoolView :=
  mkPoolView (en_descriptor e) p (en_runtime e) queues (pd_raw_units (en_descriptor e))
    (pd_protected_units (en_descriptor e)) (en_usable e) (en_allocated e) (en_free_units e).

(** One usage per committed bucket. *)
Definition committed_usages (s : Impl) (e : PoolEntry) : list QueueUsage :=
  sort_usages (map (fun qu => default_QueueUsage <| qu_queue := fst qu |> <| qu_pool := pd_id (en_descriptor e) |>
      <| qu_committed_units := snd qu |>
      <| qu_queue_generation := match im_queues s !! fst qu with Some q => qd_generation q | None => 0 end |>)
    (map_to_list (en_queue_committed e))).

Definition pool_view (pool : Z) : M PoolView :=
  let* e := require_pool pool in
  let* s := sm_get in
  let* p := require (im_policies s !! pd_policy (en_descriptor e)) ErrorCode.UnknownPolicy
              "pool policy is not published" in
  ret (view_of e p (committed_usages s e)).

Definition policy (id : Z) : M PoolPolicy :=
  reject_when (negb (valid id)) ErrorCode.InvalidArgument "policy id must be non-zero" ;;;
  let* s := sm_get in
  require (im_policies s !! id) ErrorCode.UnknownPolicy "no such policy".

Definition pool_views : M (list PoolView) :=
  gets (fun s => merge_sort (fun a b => Is_true (pd_id (pv_descriptor a) <=? pd_id (pv_descriptor b)))
    (map (fun e => view_of e (default default_PoolPolicy (im_policies s !! pd_policy (en_descriptor e))) [])
       (values (im_pools s)))).

(** ** Records and histories *)

Definition allocation (id : Z) : M AllocationRecord :=
  reject_when (negb (valid id)) ErrorCode.InvalidArgument "allocation id must be non-zero" ;;;
  let* s := sm_get in
  require (im_allocations s !! id) ErrorCode.UnknownAllocation "no such allocation".

(** A caller's limit, 0 for the configured one, never above it. *)
Definition row_bound (limit configured : Z) : Z := Z.min (if limit =? 0 then configured else limit) configured.

Definition allocations (pool limit : Z) : M (list AllocationRecord) :=
  let* e := require_pool pool in
  let* s := sm_get in
  ret (take (Z.to_nat (row_bound limit (fc_max_inspection_rows (im_config s))))
         (omap (fun id => im_allocations s !! id) (sorted_members e))).

(** The newest [bound] entries of a list. *)
Definition newest {A} (bound : Z) (l : list A) : list A := drop (length l - Z.to_nat bound) l.

Definition decision_history (limit : Z) : M (list DecisionRecord) :=
  gets (fun s => newest (row_bound limit (fc_decision_history_capacity (im_config s))) (im_decisions s)).

Definition attempt_before (a b : AttemptRecord) : bool :=
  if negb (at_sequence a =? at_sequence b) then at_sequence a <? at_sequence b else at_id a <? at_id b.

Definition attempt_history (limit : Z) : M (list AttemptRecord) :=
  gets (fun s => newest (row_bound limit (fc_attempt_memory_capacity (im_config s)))
    (merge_sort (fun a b => Is_true (negb (attempt_before b a))) (values (im_attempts s)))).

(** ** Counters *)

Record FabricStatistics := mkFabricStatistics {
  ft_pools : Z; ft_policies : Z; ft_queues : Z; ft_allocations_live : Z; ft_allocations_total : Z; ft_decisions : Z;
  ft_attempts_retained : Z; ft_pressure_snapshots : Z; ft_durable_records : Z; ft_durable_bytes : Z
}.

Definition live_members (s : Impl) : Z :=
  fold_left (fun n e => add64 n (Z.of_nat (size (en_members e)))) (values (im_pools s)) 0.

Definition statistics : M FabricStatistics := gets (fun s =>
  mkFabricStatistics (Z.of_nat (size (im_pools s))) (Z.of_nat (size (im_policies s))) (Z.of_nat (size (im_queues s)))
    (live_members s) (im_allocations_total s) (mt_decisions (im_metrics s)) (Z.of_nat (size (im_attempts s)))
    (Z.of_nat (size (im_pressure s))) (mt_journal_records_written (im_metrics s)) (mt_journal_bytes_written (im_metrics s))).

Definition metrics : M FabricMetrics := gets (fun s =>
  im_metrics s <| mt_live_allocations := live_members s |>
    <| mt_live_committed_units := fold_left (fun n e => add64 n (en_committed_units e)) (values (im_pools s)) 0 |>).

Definition validate_accounting : M AccountingReport := gets deep_verify.

(** A durable image is only written from a state that closes. *)
Definition checkpoint : M unit :=
  require_open ;;;
  let* s := sm_get in
  if rep_closed (deep_verify s) then write_full_snapshot else sm_lift (report_status (deep_verify s)).
