(* ===== verification/QuerySafety.v ===== *)
(** * What queries promise

    The dry run of an allocation predicts its decision, reclamation plans are minimal,
    ordered and bounded, applying one revokes exactly what it names, and the totals that
    summaries and audits report are those of the allocation table. *)

From S2P Require Import Prelude Ints Hash Enums Status Codec Model Wire Policy Accounting Authority Persist State Grant Alloc Lifecycle Books Triples Layout Safety AllocSafety LifeSafety Topology Revoke Resize TopoSafety Query.

(** ** Evaluation predicts allocation *)

Lemma wp_any {T A} (m : StateR T A) s : wp m s (fun _ _ => True) (fun _ _ => True).
Proof. unfold wp. by destruct (m s) as [[]]. Qed.

(** Symbolic execution that forgets what a step did. *)
Lemma wp_skip {T A B} (m : StateR T A) (k : A -> StateR T B) s (Q : B -> T -> Prop) :
  (forall a s', wp (k a) s' Q (fun _ _ => True)) -> wp (sm_bind m k) s Q (fun _ _ => True).
Proof. intros Hk. apply wp_bind. eapply wp_mono; [apply wp_any| |done]. auto. Qed.

Definition verdict_of (d : Decision) : DecisionKind * ErrorCode * Z * BindingConstraint :=
  (dc_kind d, dc_status d, dc_granted_units d, dc_binding d).

(** The verdict of [decide_allocation] as a function of what it has looked up. *)
Definition allocation_verdict (s : Impl) (cx : AllocContext) (e : PoolEntry) :
    DecisionKind * ErrorCode * Z * BindingConstraint :=
  match refusal_gate cx e with
  | Some (kind, code, _, binding, _) => (kind, code, 0, binding)
  | None =>
      let '(grant, binding) := grant_units cx (grant_limit cx e (compute_grant s e (cx_policy cx))) in
      if grant =? 0 then
        if pressure_is_known (pe_state (cx_evidence cx)) && pressure_at_least (pe_state (cx_evidence cx)) (pol_reduce_at (cx_policy cx))
        then (DecisionKind.Reduce, ErrorCode.PolicyForbids, 0, binding)
        else (DecisionKind.Refuse, ErrorCode.CapacityExceeded, 0, binding)
      else (if grant =? aq_requested_units (cx_request cx) then DecisionKind.Grant else DecisionKind.GrantPartial,
            ErrorCode.Ok, grant, binding)
  end.

Lemma finish_verdict cx kind code reason granted allocation binding intent lender s :
  wp (finish_decision cx kind code reason granted allocation binding intent lender) s
    (fun d _ => verdict_of d = (kind, code, granted, binding)) (fun _ _ => True).
Proof.
  unfold finish_decision. apply wp_skip. intros e s1. wp_step. wp_step. cbv zeta. repeat (apply wp_skip; intros ? ?).
  by wp_step.
Qed.

Lemma complete_verdict cx r binding s :
  wp (complete_grant cx r binding) s
    (fun d _ => verdict_of d = (if ar_units r =? aq_requested_units (cx_request cx) then DecisionKind.Grant
       else DecisionKind.GrantPartial, ErrorCode.Ok, ar_units r, binding)) (fun _ _ => True).
Proof.
  unfold complete_grant. cbv zeta. wp_step. eapply wp_mono; [apply finish_verdict| |done]. intros d s1 Hd.
  do 2 (apply wp_skip; intros ? ?). wp_step. rewrite <- Hd. by destruct (rp_enabled _ && _).
Qed.

Lemma build_record_units cx g grant s :
  wp (build_record cx g grant) s (fun rn _ => ar_units (fst rn) = grant) (fun _ _ => True).
Proof. unfold build_record. cbv zeta. repeat (apply wp_skip; intros ? ?). by wp_step. Qed.

Lemma decide_verdict cx e s :
  im_pools s !! aq_pool (cx_request cx) = Some e ->
  wp (decide_allocation cx) s (fun d _ => verdict_of d = allocation_verdict s cx e) (fun _ _ => True).
Proof.
  intros He. unfold decide_allocation. wp_step. apply wp_pool_ref; [done|]. intros e' He'. simplify_eq.
  unfold allocation_verdict. destruct (refusal_gate cx e) as [[[[[kind code] reason] binding] intent]|]; [apply finish_verdict|].
  unfold grant_or_refuse. cbv zeta. wp_step. apply wp_pool_ref; [done|]. intros e' He'. simplify_eq. do 2 wp_step.
  destruct (grant_units cx _) as [grant binding]. destruct (grant =? 0).
  { unfold refuse_capacity. case_match; apply finish_verdict. }
  wp_step. eapply wp_mono; [apply build_record_units| |done]. intros [r next] s1 Hr. simpl in Hr |- *. subst grant.
  case_match; [by wp_step|]. do 3 (apply wp_skip; intros ? ?). apply complete_verdict.
Qed.

(** The request that [evaluate] takes for an allocation request. *)
Definition evaluation_of (rq : AllocateRequest) : EvaluateRequest :=
  mkEvaluateRequest (aq_pool rq) (aq_queue rq) (aq_requested_units rq) (aq_reclaim_class rq) (aq_expected_epoch rq).

(** An allocation decision and the evaluation of the same request. *)
Record predicted (p : PoolPolicy) (d x : Decision) : Prop := {
  pr_units : dc_granted_units d <= dc_granted_units x;
  pr_exact : pol_soft_limit_bp p = 0 ->
    dc_granted_units d = dc_granted_units x /\ dc_binding d = dc_binding x /\
    (dc_kind d = dc_kind x /\ dc_status d = dc_status x \/
     dc_kind d = DecisionKind.Reduce /\ dc_status d = ErrorCode.PolicyForbids /\
     dc_kind x = DecisionKind.Refuse /\ dc_status x = ErrorCode.CapacityExceeded)
}.

Lemma predicted_same p d x : verdict_of d = verdict_of x -> predicted p d x.
Proof. intros [= H1 H2 H3 H4]. split; [lia|]. intros _. rewrite H1, H2, H3, H4. auto. Qed.

Lemma compute_grant_binding s e p : gc_binding (compute_grant s e p) <> BindingConstraint.None.
Proof. unfold compute_grant. repeat case_match; done. Qed.

Lemma evaluation_limit_binding p q e g :
  gc_binding g <> BindingConstraint.None -> snd (evaluation_limit p q e g) <> BindingConstraint.None.
Proof.
  intros Hg. unfold evaluation_limit, queue_cap, apply_cap. repeat case_match; simpl; congruence.
Qed.

(** Without the soft limit, the caps of the two are the same. *)
Lemma grant_limit_evaluation cx e g :
  grant_limit cx e g = soft_cap e (cx_policy cx) (pe_state (cx_evidence cx)) (evaluation_limit (cx_policy cx) (cx_queue cx) e g).
Proof. reflexivity. Qed.

Lemma soft_cap_le e p state l : fst (soft_cap e p state l) <= fst l.
Proof. unfold soft_cap. repeat case_match; rewrite ?apply_cap_le; simpl; lia. Qed.

Definition cut (p : PoolPolicy) (requested limit : Z) : Z :=
  let grant := Z.min requested limit in
  if negb (pol_allow_partial_grant p) && (grant <? requested) then 0 else grant.

Lemma cut_mono p requested l l' : 0 <= requested -> 0 <= l <= l' -> cut p requested l <= cut p requested l'.
Proof.
  intros Hr Hl. unfold cut. destruct (pol_allow_partial_grant p); simpl; [lia|].
  destruct (Z.ltb_spec (Z.min requested l) requested), (Z.ltb_spec (Z.min requested l') requested); simpl; lia.
Qed.

Lemma grant_units_cut cx l : fst (grant_units cx l) = cut (cx_policy cx) (aq_requested_units (cx_request cx)) (fst l).
Proof. unfold grant_units, cut. destruct l as [limit b]. simpl. by case_match. Qed.

Lemma grant_units_binding cx l : snd l <> BindingConstraint.None -> snd (grant_units cx l) = snd l.
Proof. unfold grant_units. destruct l as [limit b]. simpl. intros Hb. repeat case_match; simpl; congruence. Qed.

Lemma verdict_predicted s cx e rq d ev :
  Inv s -> context_ok s cx e -> aq_requested_units (cx_request cx) <> 0 -> eq_requested_units rq = aq_requested_units (cx_request cx) ->
  stale (eq_expected_epoch rq) (im_epoch s) = false -> cx_evidence cx = ev ->
  verdict_of d = allocation_verdict s cx e ->
  predicted (cx_policy cx) d (evaluate_decision s rq e (cx_queue cx) (cx_policy cx) ev).
Proof.
  intros HI [He Hpol Hu] Hnz Hreq Hep <- Hd. pose proof (inv_policies s HI _ _ Hpol) as Hpok.
  pose proof (max_grant_range s e (cx_policy cx)) as [Hmg _]. pose proof (compute_grant_binding s e (cx_policy cx)) as Hgb.
  revert Hd. unfold allocation_verdict, refusal_gate, evaluate_decision. cbv zeta. rewrite Hep, Hreq, (proj2 (Z.eqb_neq _ _) Hnz).
  destruct (pd_retired _); [by intros Hd; apply predicted_same|].
  destruct (qd_retired _); [by intros Hd; apply predicted_same|].
  destruct (negb _ && _); [by intros Hd; apply predicted_same|].
  destruct (_ && _ && _); [by intros Hd; apply predicted_same|].
  set (g := compute_grant s e (cx_policy cx)) in *. rewrite grant_limit_evaluation.
  pose proof (evaluation_limit_binding (cx_policy cx) (cx_queue cx) e g Hgb) as Hlb.
  pose proof (grant_limit_range cx Hpok e g Hmg) as ([Hlim _] & _). rewrite grant_limit_evaluation in Hlim.
  set (l := evaluation_limit (cx_policy cx) (cx_queue cx) e g) in *.
  set (l' := soft_cap e (cx_policy cx) (pe_state (cx_evidence cx)) l) in *.
  assert (pol_soft_limit_bp (cx_policy cx) = 0 -> l' = l) as Hsoft.
  { intros H0. subst l'. unfold soft_cap. by rewrite H0. }
  pose proof (soft_cap_le e (cx_policy cx) (pe_state (cx_evidence cx)) l) as Hle. fold l' in Hle.
  pose proof (grant_units_cut cx l') as Hcut. pose proof (grant_units_binding cx l') as Hbind.
  destruct (grant_units cx l') as [n b] eqn:Hn. simpl in Hcut, Hbind.
  pose proof (cut_mono (cx_policy cx) (aq_requested_units (cx_request cx)) (fst l') (fst l) ltac:(lia) ltac:(lia)) as Hmono.
  rewrite <- Hcut in Hmono. destruct l as [limit bl] eqn:Hl. simpl in Hlb, Hmono, Hle.
  change (if negb (pol_allow_partial_grant (cx_policy cx)) && (Z.min (aq_requested_units (cx_request cx)) limit <? aq_requested_units (cx_request cx))
    then 0 else Z.min (aq_requested_units (cx_request cx)) limit) with (cut (cx_policy cx) (aq_requested_units (cx_request cx)) limit).
  set (m := cut (cx_policy cx) (aq_requested_units (cx_request cx)) limit) in *. intros Hd.
  assert (dc_granted_units d = n /\ dc_binding d = b) as [Hdn Hdb].
  { destruct (Z.eqb_spec n 0); [destruct (_ && _)|]; injection Hd as _ _ -> ->; auto. }
  assert (pol_soft_limit_bp (cx_policy cx) = 0 -> n = m /\ b = bl) as Heq.
  { intros H0. specialize (Hsoft H0). split; [by rewrite Hcut, Hsoft|]. rewrite Hbind; by rewrite Hsoft. }
  split.
  - rewrite Hdn. destruct (Z.eqb_spec m 0); simpl; lia.
  - intros H0. destruct (Heq H0) as [-> ->]. rewrite Hdn, Hdb. revert Hd.
    destruct (Z.eqb_spec m 0) as [->|]; [|intros [= H1 H2 _ _]; rewrite H1, H2; auto].
    destruct (_ && _); intros [= H1 H2 _ _]; rewrite H1, H2; simpl; auto 10.
Qed.

(** ** Reclamation plans *)

Definition units_of (l : list ReclaimVictim) : Z := foldr (fun v acc => vi_units v + acc) 0 l.

Lemma units_of_app l l' : units_of (l ++ l') = units_of l + units_of l'.
Proof. induction l as [|v l IH]; simpl; lia. Qed.

Definition units_ok (l : list ReclaimVictim) : Prop := Forall (fun v => 0 <= vi_units v) l.

Lemma units_of_nonneg l : units_ok l -> 0 <= units_of l.
Proof. induction 1; simpl; lia. Qed.

(** What one loop has added to [k], giving [k']: the first [n] candidates of [l]. *)
Record picked (needs : Z -> bool) (max_units : Z) (protected : bool) (l : list ReclaimVictim) (k : Picked) (n : nat)
    (k' : Picked) : Prop := {
  pi_victims : pk_victims k' = pk_victims k ++ take n l;
  pi_planned : pk_planned k' = pk_planned k + units_of (take n l);
  pi_count : (n <= length l)%nat;
  pi_needed : forall i, (i < n)%nat -> needs (pk_planned k + units_of (take i l)) = true;
  pi_stop : (n < length l)%nat -> needs (pk_planned k') = false \/ pk_truncated k' = true;
  pi_max : (0 < n)%nat -> pk_planned k' <= max_units /\ Z.of_nat (length (pk_victims k')) <= kMaxReclaimVictims;
  pi_protected : pk_protected k' = pk_protected k || (protected && (0 <? n)%nat);
  pi_truncated : pk_truncated k' = true -> pk_truncated k = true \/
    exists v, l !! n = Some v /\ (kMaxReclaimVictims <= Z.of_nat (length (pk_victims k')) \/ max_units < pk_planned k' + vi_units v);
  pi_mono : pk_truncated k = true -> pk_truncated k' = true
}.

Lemma pick_spec needs max_units protected l k :
  units_ok l -> 0 <= pk_planned k -> pk_planned k + units_of l <= u64_max ->
  exists n, picked needs max_units protected l k n (pick needs max_units protected l k).
Proof.
  revert k. induction l as [|v l IH]; intros k Hl Hk Hsum; cbn [pick].
  { exists 0%nat. split; simpl; rewrite ?app_nil_r, ?andb_false_r, ?orb_false_r; (done || lia || auto). }
  apply Forall_cons in Hl as [Hv Hl]. pose proof (units_of_nonneg l Hl) as Hnn. cbn [units_of foldr] in Hsum. fold (units_of l) in Hsum.
  destruct (needs (pk_planned k)) eqn:Hn; simpl negb; cbn iota.
  2: { exists 0%nat. split; simpl; rewrite ?app_nil_r, ?andb_false_r, ?orb_false_r; try done; try lia; auto. }
  rewrite add64_exact by u64_lia.
  destruct ((kMaxReclaimVictims <=? _) || _) eqn:Hfull.
  { exists 0%nat. apply orb_true_iff in Hfull. rewrite Z.leb_le, Z.ltb_lt in Hfull.
    split; simpl; rewrite ?app_nil_r, ?andb_false_r, ?orb_false_r, ?Z.add_0_r; try done; try lia; auto. intros _. right. by exists v. }
  apply orb_false_iff in Hfull as [Hlen%Z.leb_gt Hmax%Z.ltb_ge].
  destruct (IH (mkPicked (pk_victims k ++ [v]) (pk_planned k + vi_units v) (pk_truncated k) (protected || pk_protected k)) Hl)
    as [n Hp]; simpl; [lia|lia|].
  destruct Hp as [H1 H2 H3 H4 H5 H6 H7 H8 H9]. simpl in H1, H2, H4, H7. exists (S n). split.
  - by rewrite H1, <- app_assoc.
  - rewrite H2. simpl. lia.
  - simpl. lia.
  - intros [|i] Hi; simpl; [by rewrite Z.add_0_r|]. specialize (H4 i ltac:(lia)). by rewrite <- H4; f_equal; lia.
  - simpl. intros Hlt. apply H5. lia.
  - intros _. destruct (decide (0 < n)%nat); [auto|]. assert (n = 0)%nat as -> by lia. rewrite H1, H2. simpl.
    rewrite app_nil_r, length_app. simpl. lia.
  - rewrite H7. destruct protected, (pk_protected k); by rewrite ?orb_true_r.
  - exact H8.
  - exact H9.
Qed.

(** A list of the eligible members of one class, in the order of the comparator. *)
Record listing (A : gmap Z AllocationRecord) (now : Z) (e : PoolEntry) (p : PoolPolicy) (class : ReclaimClass) (l : list ReclaimVictim) : Prop := {
  li_nodup : NoDup (map vi_allocation l);
  li_exact : forall v, v ∈ l <-> exists k r, k ∈ en_members e /\ A !! k = Some r /\
    is_candidate p (now) r = true /\ v = candidate_of r /\ ar_reclaim_class r = class;
  li_sorted : StronglySorted (fun a b => candidate_before b a = false) l
}.

Lemma candidate_before_lex a b :
  candidate_before a b = true <-> vi_reclaim_priority a < vi_reclaim_priority b \/
    vi_reclaim_priority a = vi_reclaim_priority b /\ (vi_last_touched a < vi_last_touched b \/
      vi_last_touched a = vi_last_touched b /\ vi_allocation a < vi_allocation b).
Proof.
  unfold candidate_before. destruct (Z.eqb_spec (vi_reclaim_priority a) (vi_reclaim_priority b)); simpl; [|rewrite Z.ltb_lt; lia].
  destruct (Z.eqb_spec (vi_last_touched a) (vi_last_touched b)); simpl; rewrite Z.ltb_lt; lia.
Qed.

Lemma candidate_after_lex a b :
  candidate_before b a = false <-> vi_reclaim_priority a < vi_reclaim_priority b \/
    vi_reclaim_priority a = vi_reclaim_priority b /\ (vi_last_touched a < vi_last_touched b \/
      vi_last_touched a = vi_last_touched b /\ vi_allocation a <= vi_allocation b).
Proof. rewrite <- not_true_iff_false, candidate_before_lex. lia. Qed.

#[local] Instance candidate_total : Total (fun a b => Is_true (negb (candidate_before b a))).
Proof.
  intros a b. pose proof (candidate_after_lex a b). pose proof (candidate_after_lex b a).
  destruct (candidate_before b a), (candidate_before a b); simpl; auto. lia.
Qed.

#[local] Instance candidate_trans : Transitive (fun a b => Is_true (negb (candidate_before b a))).
Proof.
  intros a b c. rewrite !Is_true_true, !negb_true_iff, !candidate_after_lex. lia.
Qed.

Lemma sort_candidates_sorted l : StronglySorted (fun a b => candidate_before b a = false) (sort_candidates l).
Proof.
  pose proof (StronglySorted_merge_sort (fun a b => Is_true (negb (candidate_before b a))) l) as H.
  unfold sort_candidates. induction H as [|v l' Hs IH Hv]; constructor; [done|].
  eapply Forall_impl; [exact Hv|]. intros b Hb. simpl in Hb. by apply Is_true_true, negb_true_iff in Hb.
Qed.

Lemma units_of_perm l l' : l ≡ₚ l' -> units_of l = units_of l'.
Proof. induction 1; simpl in *; lia. Qed.

Lemma sort_candidates_perm l : sort_candidates l ≡ₚ l.
Proof. apply merge_sort_Permutation. Qed.

Lemma units_of_split f l : units_of (List.filter f l) + units_of (List.filter (fun v => negb (f v)) l) = units_of l.
Proof. induction l as [|v l IH]; [done|]. simpl. destruct (f v); simpl; lia. Qed.

Lemma units_of_take n l : units_ok l -> units_of (take n l) <= units_of l.
Proof.
  intros Hl. rewrite <- (take_drop n l) at 2. rewrite units_of_app.
  assert (0 <= units_of (drop n l)); [|lia]. by apply units_of_nonneg, Forall_drop.
Qed.

(** Victims that are records of the table, each at most once, are part of any total over it. *)
Lemma units_of_total (A : gmap Z AllocationRecord) (g : AllocationRecord -> Z) l :
  map_Forall (fun _ r => 0 <= g r) A -> NoDup (map vi_allocation l) ->
  Forall (fun v => exists r, A !! vi_allocation v = Some r /\ vi_units v = g r) l -> units_of l <= total_of g A.
Proof.
  revert A. induction l as [|v l IH]; intros A HA Hnd Hl; simpl; [by apply total_of_nonneg|].
  apply NoDup_cons in Hnd as [Hv Hnd]. apply Forall_cons in Hl as [(r & Hr & ->) Hl].
  rewrite <- (insert_delete_id A _ r Hr), total_of_insert_new by apply lookup_delete_eq.
  specialize (IH (delete (vi_allocation v) A)).
  assert (units_of l <= total_of g (delete (vi_allocation v) A)); [|lia].
  apply IH; [by apply map_Forall_delete|done|]. apply list.Forall_forall. intros w Hw.
  rewrite list.Forall_forall in Hl. destruct (Hl w Hw) as (q & Hq & Hu). exists q. split; [|done].
  rewrite lookup_delete_ne; [done|]. intros Heq. apply Hv. rewrite Heq. apply list_elem_of_In, in_map, list_elem_of_In, Hw.
Qed.

Section Candidates.
Context (s : Impl) (HI : Inv s) (q : Z) (e : PoolEntry) (He : im_pools s !! q = Some e) (p : PoolPolicy).

Lemma elem_of_candidates v :
  v ∈ candidates s e p <-> exists k r, k ∈ en_members e /\ im_allocations s !! k = Some r /\
    is_candidate p (im_tick s) r = true /\ v = candidate_of r.
Proof using.
  unfold candidates. rewrite list_elem_of_omap. split.
  - intros (k & Hk & Hv). apply elem_of_elements in Hk. destruct (im_allocations s !! k) as [r|] eqn:Hr; [|done].
    destruct (is_candidate _ _ _) eqn:Hc; [|done]. injection Hv as <-. by exists k, r.
  - intros (k & r & Hk & Hr & Hc & ->). exists k. split; [by apply elem_of_elements|]. by rewrite Hr, Hc.
Qed.

Lemma candidate_facts v :
  v ∈ candidates s e p -> exists r, im_allocations s !! vi_allocation v = Some r /\ v = candidate_of r /\
    vi_allocation v ∈ en_members e /\ allocation_holds_units (ar_state r) = true /\ here q r = true.
Proof using HI He.
  intros (k & r & Hk & Hr & Hc & ->)%elem_of_candidates. exists r. simpl.
  pose proof (inv_books s HI) as HB. rewrite (bk_id _ _ HB k r Hr). split_and!; try done.
  - by apply andb_true_iff in Hc as [Hc _].
  - destruct (eo_members _ _ _ (bk_entry _ _ HB q e He) k Hk) as (r' & Hr' & Hh). by simplify_eq.
Qed.

Lemma candidates_nodup : NoDup (map vi_allocation (candidates s e p)).
Proof using HI He.
  unfold candidates. pose proof (NoDup_elements (en_members e)) as Hnd.
  induction (elements (en_members e)) as [|k l IH]; [constructor|]. apply NoDup_cons in Hnd as [Hk Hnd].
  specialize (IH Hnd). simpl. destruct (im_allocations s !! k) as [r|] eqn:Hr; [|done].
  destruct (is_candidate _ _ _); [|done]. simpl. constructor; [|done].
  rewrite (bk_id _ _ (inv_books s HI) k r Hr). intros Hin. apply Hk. clear -Hin HI.
  apply list_elem_of_In, in_map_iff in Hin as (v & Hv & Hin). apply list_elem_of_In, list_elem_of_omap in Hin as (j & Hj & Hm).
  destruct (im_allocations s !! j) as [r|] eqn:Hr; [|done]. destruct (is_candidate _ _ _); [|done]. injection Hm as <-.
  simpl in Hv. rewrite (bk_id _ _ (inv_books s HI) j r Hr) in Hv. congruence.
Qed.

Lemma candidates_ok : units_ok (candidates s e p).
Proof using HI He.
  apply list.Forall_forall. intros v Hv. destruct (candidate_facts v Hv) as (r & Hr & -> & _).
  exact (ro_units _ _ (bk_record _ _ (inv_books s HI) _ _ Hr)).
Qed.

Lemma candidates_total : units_of (candidates s e p) <= en_reserved_units e + en_committed_units e.
Proof using HI He.
  pose proof (inv_books s HI) as HB. pose proof (eo_counter _ _ _ (bk_entry _ _ HB q e He)) as HC.
  rewrite (HC FReserved : en_reserved_units e = _), (HC FCommitted : en_committed_units e = _), <- total_of_add.
  apply units_of_total; [|apply candidates_nodup|].
  - intros k r Hr. pose proof (share_nonneg _ FReserved q r (bk_record _ _ HB k r Hr)).
    pose proof (share_nonneg _ FCommitted q r (bk_record _ _ HB k r Hr)). lia.
  - apply list.Forall_forall. intros v Hv. destruct (candidate_facts v Hv) as (r & Hr & -> & _ & _ & Hh).
    exists r. split; [done|]. shares. rewrite Hh. by destruct (is_reserved r); simpl; lia.
Qed.

Lemma nodup_filter f l : NoDup (map vi_allocation l) -> NoDup (map vi_allocation (List.filter f l)).
Proof using.
  induction l as [|v l IH]; [done|]. intros [Hv Hnd]%NoDup_cons. simpl. destruct (f v); [|by apply IH].
  simpl. constructor; [|by apply IH]. intros Hin. apply Hv. apply list_elem_of_In, in_map_iff in Hin as (w & Hw & Hin).
  apply filter_In in Hin as [Hin _]. rewrite <- Hw. by apply list_elem_of_In, in_map.
Qed.

Lemma sorted_listing f class :
  (forall r, f (candidate_of r) = true <-> ar_reclaim_class r = class) ->
  listing (im_allocations s) (im_tick s) e p class (sort_candidates (List.filter f (candidates s e p))).
Proof using HI He.
  intros Hf. split.
  - rewrite sort_candidates_perm. apply nodup_filter, candidates_nodup.
  - intros v. rewrite sort_candidates_perm, list_elem_of_In, filter_In, <- list_elem_of_In, elem_of_candidates. split.
    + intros [(k & r & Hk & Hr & Hc & ->) Hv]. exists k, r. split_and!; try done. by apply Hf.
    + intros (k & r & Hk & Hr & Hc & -> & Hv). split; [by exists k, r|by apply Hf].
  - apply sort_candidates_sorted.
Qed.

Lemma filter_units_ok f : units_ok (sort_candidates (List.filter f (candidates s e p))).
Proof using HI He.
  unfold units_ok. rewrite sort_candidates_perm. apply list.Forall_forall. intros v Hv.
  apply list_elem_of_In, filter_In in Hv as [Hv _]. pose proof candidates_ok as H. unfold units_ok in H.
  rewrite list.Forall_forall in H. by apply H, list_elem_of_In.
Qed.
End Candidates.

(** More is wanted while the target is missed, or the pool would not keep its reserve free. *)
Definition wants_more (e : PoolEntry) (p : PoolPolicy) (target planned : Z) : Prop :=
  planned < target \/ en_free_units e + planned < rp_reserve_units (pol_reclaim p).

Record plan_made (A : gmap Z AllocationRecord) (now : Z) (e : PoolEntry) (p : PoolPolicy) (target : Z) (R P : list ReclaimVictim) (n m : nat)
    (plan : ReclamationPlan) : Prop := {
  pm_reclaimable : listing A now e p ReclaimClass.Reclaimable R;
  pm_pinned : listing A now e p ReclaimClass.Pinned P;
  pm_victims : rl_victims plan = take n R ++ take m P;
  pm_planned : rl_planned_units plan = units_of (rl_victims plan);
  pm_shortfall : rl_shortfall_units plan = Z.max 0 (target - rl_planned_units plan);
  pm_bound : rl_victims plan <> [] -> rl_planned_units plan <= rp_max_units_per_operation (pol_reclaim p) /\
    Z.of_nat (length (rl_victims plan)) <= kMaxReclaimVictims;
  pm_minimal : forall i, (i < length (rl_victims plan))%nat -> wants_more e p target (units_of (take i (rl_victims plan)));
  pm_protected : m <> 0%nat -> rp_allow_protected_reclaim (pol_reclaim p) = true;
  pm_used : rl_protected_reclaim_used plan = (0 <? m)%nat;
  pm_enough : wants_more e p target (rl_planned_units plan) -> rl_truncated plan = true \/
    (n = length R /\ (rp_allow_protected_reclaim (pol_reclaim p) = false \/ m = length P))
}.

Section Plan.
Context (s : Impl) (HI : Inv s) (q : Z) (e : PoolEntry) (He : im_pools s !! q = Some e) (p : PoolPolicy) (target : Z).
Context (R P : list ReclaimVictim) (HR : units_ok R) (HP : units_ok P)
  (Hsum : units_of R + units_of P <= en_reserved_units e + en_committed_units e).
Let needs := needs_more target (en_free_units e) (rp_reserve_units (pol_reclaim p)).

Lemma needs_exact x : 0 <= x <= units_of R + units_of P -> needs x = true <-> wants_more e p target x.
Proof using HI He Hsum.
  intros Hx. pose proof (inv_books s HI) as HB. pose proof (usable_range HB q e He) as Hus.
  pose proof (usage_exact HB q e He) as (_ & Hf & _). pose proof (counter_nonneg HB FOwn q e He) as Ho. simpl in Ho.
  pose proof (counter_bound HB FReserved q e He) as Hr. pose proof (counter_bound HB FCommitted q e He) as Hc. simpl in Hr, Hc.
  unfold kMaxOwnUsage in *. subst needs. unfold needs_more, wants_more. rewrite add64_exact by u64_lia.
  rewrite orb_true_iff, !Z.ltb_lt. done.
Qed.

Lemma pick_victims_spec (k := pick_victims p target (en_free_units e) R P) :
  exists n m, pk_victims k = take n R ++ take m P /\ pk_planned k = units_of (pk_victims k) /\
    (n <= length R)%nat /\ (m <= length P)%nat /\
    (pk_victims k <> [] -> pk_planned k <= rp_max_units_per_operation (pol_reclaim p) /\
       Z.of_nat (length (pk_victims k)) <= kMaxReclaimVictims) /\
    (forall i, (i < length (pk_victims k))%nat -> wants_more e p target (units_of (take i (pk_victims k)))) /\
    (m <> 0%nat -> rp_allow_protected_reclaim (pol_reclaim p) = true) /\ pk_protected k = (0 <? m)%nat /\
    (wants_more e p target (pk_planned k) -> pk_truncated k = true \/
       (n = length R /\ (rp_allow_protected_reclaim (pol_reclaim p) = false \/ m = length P))).
Proof using HI He HR HP Hsum.
  pose proof (units_of_nonneg R HR) as HRn. pose proof (units_of_nonneg P HP) as HPn.
  pose proof (inv_books s HI) as HB. pose proof (counter_bound HB FReserved q e He) as Hr.
  pose proof (counter_bound HB FCommitted q e He) as Hc. simpl in Hr, Hc. unfold kMaxOwnUsage in *.
  set (mx := rp_max_units_per_operation (pol_reclaim p)).
  assert (k = let k1 := pick needs mx false R (mkPicked [] 0 false false) in
    if needs (pk_planned k1) && rp_allow_protected_reclaim (pol_reclaim p) then pick needs mx true P k1 else k1) as Hk by reflexivity.
  rewrite Hk. clear Hk k. cbv zeta.
  destruct (pick_spec needs mx false R (mkPicked [] 0 false false) HR) as [n [H1 H2 H3 H4 H5 H6 H7 H8 H9]]; simpl; [lia|u64_lia|].
  set (k1 := pick needs mx false R (mkPicked [] 0 false false)) in *. simpl in H1, H2, H4, H7, H8.
  pose proof (units_of_take n R HR) as Hn. pose proof (units_of_nonneg (take n R) ltac:(by apply Forall_take)) as Hn0.
  assert (forall i, (i < n)%nat -> wants_more e p target (units_of (take i R))) as Hmin.
  { intros i Hi. apply needs_exact; [|by apply H4]. pose proof (units_of_take i R HR).
    pose proof (units_of_nonneg (take i R) ltac:(by apply Forall_take)). lia. }
  destruct (needs (pk_planned k1) && rp_allow_protected_reclaim (pol_reclaim p)) eqn:Hboth.
  - apply andb_true_iff in Hboth as [Hneed Hallow].
    destruct (pick_spec needs mx true P k1 HP) as [m [G1 G2 G3 G4 G5 G6 G7 G8 G9]]; [lia|u64_lia|].
    set (k2 := pick needs mx true P k1) in *. pose proof (units_of_take m P HP) as Hm.
    pose proof (units_of_nonneg (take m P) ltac:(by apply Forall_take)) as Hm0.
    exists n, m. rewrite G1, H1, units_of_app. split_and!; try done; [lia| | | | ].
    + intros Hne. destruct (decide (0 < m)%nat) as [Hpos|Hz]; [rewrite <- H1, <- G1; by apply G6|].
      assert (m = 0)%nat as -> by lia. rewrite take_0, app_nil_r in *. simpl in G2. rewrite G2, Z.add_0_r, <- H1.
      apply H6. destruct n; [done|lia].
    + intros i. rewrite length_app, !length_take_le by lia. intros Hi. rewrite take_app, length_take_le by lia.
      destruct (decide (i < n)%nat) as [Hlt|Hge].
      * replace (i - n)%nat with 0%nat by lia. rewrite take_0, app_nil_r, take_take, Nat.min_l by lia. auto.
      * rewrite (take_ge (take n R)) by (rewrite length_take_le; lia). rewrite units_of_app, take_take, Nat.min_l by lia.
        pose proof (units_of_take (i - n) P HP). pose proof (units_of_nonneg (take (i - n) P) ltac:(by apply Forall_take)).
        apply needs_exact; [lia|]. specialize (G4 (i - n)%nat ltac:(lia)). by rewrite H2 in G4.
    + rewrite G7, H7. destruct m; done.
    + intros Hw. destruct (decide (n < length R)%nat) as [Hlt|]; [left; apply G9; destruct (H5 Hlt); congruence|].
      destruct (decide (m < length P)%nat) as [Hlt|]; [|right; split; [lia|right; lia]].
      destruct (G5 Hlt) as [Hno|]; [|by left]. apply needs_exact in Hw; [congruence|lia].
  - exists n, 0%nat. rewrite take_0, app_nil_r, H1. split_and!; try done; [lia| | |].
    + intros Hne. rewrite <- H1. apply H6. destruct n; [done|lia].
    + intros i. rewrite length_take_le by lia. intros Hi. rewrite take_take, Nat.min_l by lia. auto.
    + intros Hw. apply needs_exact in Hw; [|lia]. rewrite Hw in Hboth. simpl in Hboth.
      destruct (decide (n < length R)%nat) as [Hlt|]; [|right; split; [lia|auto]]. destruct (H5 Hlt); [congruence|auto].
Qed.
End Plan.

Lemma units_ok_split f s q e p :
  Inv s -> im_pools s !! q = Some e ->
  units_of (sort_candidates (List.filter f (candidates s e p))) +
    units_of (sort_candidates (List.filter (fun v => negb (f v)) (candidates s e p))) <= en_reserved_units e + en_committed_units e.
Proof.
  intros HI He. rewrite !(units_of_perm _ _ (sort_candidates_perm _)), units_of_split. by apply (candidates_total s HI q).
Qed.

Lemma build_plan_made s target q e p :
  Inv s -> im_pools s !! q = Some e -> 0 <= target <= u64_max ->
  exists R P n m, plan_made (im_allocations s) (im_tick s) e p target R P n m (build_plan s target e p).
Proof.
  intros HI He Ht. set (R := sort_candidates (List.filter is_reclaimable (candidates s e p))).
  set (P := sort_candidates (List.filter (fun v => negb (is_reclaimable v)) (candidates s e p))).
  pose proof (filter_units_ok s HI q e He p is_reclaimable) as HR.
  pose proof (filter_units_ok s HI q e He p (fun v => negb (is_reclaimable v))) as HP. fold R in HR. fold P in HP.
  pose proof (units_ok_split is_reclaimable s q e p HI He) as Hsum. fold R P in Hsum.
  destruct (pick_victims_spec s HI q e He p target R P HR HP Hsum) as (n & m & H1 & H2 & Hn & Hm & H3 & H4 & H5 & H6 & H7).
  exists R, P, n, m. unfold build_plan. fold R P. set (k := pick_victims _ _ _ _ _) in *.
  assert (0 <= pk_planned k <= units_of R + units_of P) as Hk.
  { rewrite H2, H1, units_of_app. pose proof (units_of_take n R HR). pose proof (units_of_take m P HP).
    pose proof (units_of_nonneg (take n R) ltac:(by apply Forall_take)). pose proof (units_of_nonneg (take m P) ltac:(by apply Forall_take)). lia. }
  pose proof (inv_books s HI) as HB. pose proof (counter_bound HB FReserved q e He) as Hr.
  pose proof (counter_bound HB FCommitted q e He) as Hc. simpl in Hr, Hc. unfold kMaxOwnUsage in *.
  split; try done.
  - apply (sorted_listing s HI q e He). intros r. unfold is_reclaimable. simpl. by rewrite bool_decide_eq_true.
  - apply (sorted_listing s HI q e He). intros r. unfold is_reclaimable. simpl.
    rewrite negb_true_iff, bool_decide_eq_false. by destruct (ar_reclaim_class r).
  - simpl. destruct (Z.ltb_spec (pk_planned k) target); [rewrite sub64_exact by u64_lia|]; lia.
Qed.

(** ** Applying a plan *)

Lemma total_of_le_maps {A} (f : A -> Z) (m m' : gmap Z A) :
  (forall k, is_Some (m !! k) <-> is_Some (m' !! k)) ->
  (forall k a a', m !! k = Some a -> m' !! k = Some a' -> f a' <= f a) -> total_of f m' <= total_of f m.
Proof.
  intros Hd Hf. rewrite <- (fst_map_zip m m') at 1 by (intros k; apply Hd).
  rewrite <- (snd_map_zip m m') at 1 by (intros k; apply Hd). rewrite !total_of_fmap. apply total_of_le.
  intros k [a a'] Hk. apply map_lookup_zip_Some in Hk as [H1 H2]. by apply (Hf k).
Qed.

(** Revoking only gives units back. *)
Lemma revoked_usage new_state s s' p e e' :
  allocation_holds_units new_state = false -> Inv s -> revoked new_state s s' -> im_pools s !! p = Some e ->
  im_pools s' !! p = Some e' -> forall f, counter f e' <= counter f e.
Proof.
  intros Hno HI [[HI' _] _ _ HR _] He He' f.
  rewrite (eo_counter _ _ _ (bk_entry _ _ (inv_books s HI) p e He)), (eo_counter _ _ _ (bk_entry _ _ (inv_books s' HI') p e' He')).
  apply total_of_le_maps.
  - intros k. destruct (HR k) as [->|(r & r' & -> & _ & -> & _)]; [done|]. split; by eexists.
  - intros k r r' Hr Hr'. destruct (HR k) as [Heq|(r0 & r1 & H0 & _ & H1 & Hst & _)]; [rewrite Heq in Hr'; simplify_eq; lia|].
    simplify_eq. rewrite (share_idle f p r') by done. by eapply share_nonneg, (bk_record _ _ (inv_books s HI)).
Qed.

(** The victims name records that hold the units the victims say. *)
Definition named_victims (s : Impl) (victims : list ReclaimVictim) : Prop :=
  NoDup (map vi_allocation victims) /\
  Forall (fun v => exists r, im_allocations s !! vi_allocation v = Some r /\ v = candidate_of r /\
    allocation_holds_units (ar_state r) = true) victims.

(** All of them and nothing else has been reclaimed. *)
Record reclaimed (victims : list ReclaimVictim) (s s' : Impl) : Prop := {
  rc_revoked : revoked AllocationState.Reclaimed s s';
  rc_victims : forall v, v ∈ victims -> exists r', im_allocations s' !! vi_allocation v = Some r' /\
    ar_state r' = AllocationState.Reclaimed /\ ar_units r' = vi_units v;
  rc_others : forall k, k ∉ map vi_allocation victims -> im_allocations s' !! k = im_allocations s !! k
}.

Lemma reclaim_victims_outcome victims result s :
  Inv s -> named_victims s victims -> 0 <= rs_reclaimed_units result -> 0 <= rs_revoked_allocations result ->
  rs_reclaimed_units result + units_of victims <= u64_max ->
  rs_revoked_allocations result + Z.of_nat (length victims) <= u64_max ->
  wp (reclaim_victims victims result) s
    (fun res s' => reclaimed victims s s' /\ rs_plan res = rs_plan result /\
       rs_reclaimed_units res = rs_reclaimed_units result + units_of victims /\
       rs_revoked_allocations res = rs_revoked_allocations result + Z.of_nat (length victims))
    (fun _ => unharmed s).
Proof.
  revert result s. induction victims as [|v victims IH]; intros result s HI Hnamed H0 H1 Hu Hc; cbn [reclaim_victims].
  { wp_step. simpl. split_and!; [split|..]; try done; try lia; [by apply revoked_refl|]. intros v Hv. by apply elem_of_nil in Hv. }
  destruct Hnamed as [[Hv Hnd]%NoDup_cons [(r & Hr & Hcand & Hh) Hall]%Forall_cons].
  cbn [units_of foldr length] in Hu, Hc. fold (units_of victims) in Hu.
  assert (units_ok victims) as Hok.
  { apply list.Forall_forall. intros w Hw. rewrite list.Forall_forall in Hall. destruct (Hall w Hw) as (q & Hq & -> & _).
    exact (ro_units _ _ (bk_record _ _ (inv_books s HI) _ _ Hq)). }
  pose proof (units_of_nonneg victims Hok) as Hnn.
  assert (0 <= vi_units v) as Hvu by (rewrite Hcand; exact (ro_units _ _ (bk_record _ _ (inv_books s HI) _ _ Hr))).
  apply (wp_fence_step AllocationState.Reclaimed eq_refl); [done| | |done].
  2: { intros Hgone. specialize (Hgone r Hr). congruence. }
  intros r0 s1 Hr0 Hrev Hgone Hother. assert (r0 = r) as -> by congruence.
  assert (vi_units v = ar_units r) as Hvr by (by rewrite Hcand).
  assert (rs_reclaimed_units (count_reclaimed r result) = rs_reclaimed_units result + ar_units r /\
    rs_revoked_allocations (count_reclaimed r result) = rs_revoked_allocations result + 1 /\
    rs_plan (count_reclaimed r result) = rs_plan result) as (E1 & E2 & E3).
  { unfold count_reclaimed. destruct (negb _); simpl; unfold plus; rewrite !add64_exact by u64_lia; done. }
  assert (named_victims s1 victims) as Hnamed1.
  { split; [done|]. apply list.Forall_forall. intros w Hw. rewrite list.Forall_forall in Hall.
    rewrite Hother; [by apply Hall|]. intros Heq. apply Hv. rewrite <- Heq. by apply list_elem_of_In, in_map, list_elem_of_In. }
  eapply wp_mono; [apply IH; rewrite ?E1, ?E2; try done; try lia; apply Hrev| |intros; by eapply unharmed_after].
  intros res s2 ([Hrev2 Hvict Hrest] & Hp & Hres & Hcount). split_and!; [split|congruence| |].
  - by apply (revoked_trans AllocationState.Reclaimed eq_refl s s1 s2).
  - intros w Hw. apply elem_of_cons in Hw as [->|Hw]; [|by apply Hvict]. rewrite Hrest by done.
    destruct (rv_record _ _ _ Hrev (vi_allocation v)) as [Heq|(q & q' & Hq & _ & Hq' & Hst & _ & Hun)].
    + rewrite Hr in Heq. specialize (Hgone r Heq). congruence.
    + exists q'. split_and!; try done. congruence.
  - intros k [Hne Hk]%not_elem_of_cons. rewrite Hrest by done. by apply Hother.
  - rewrite Hres, E1. simpl. lia.
  - rewrite Hcount, E2. simpl. lia.
Qed.

(** The victims of a plan are such records. *)
Lemma plan_named s q e p target R P n m plan :
  Inv s -> im_pools s !! q = Some e -> plan_made (im_allocations s) (im_tick s) e p target R P n m plan -> named_victims s (rl_victims plan).
Proof.
  intros HI He [[HR1 HR2 _] [HP1 HP2 _] -> _ _ _ _ _ _ _]. pose proof (inv_books s HI) as HB.
  assert (forall l k, NoDup (map vi_allocation l) -> NoDup (map vi_allocation (take k l))) as Htake.
  { intros l k Hl. rewrite <- (take_drop k l), map_app in Hl. by apply NoDup_app in Hl as [Hl _]. }
  split.
  - rewrite map_app. apply NoDup_app. split_and!; [by apply Htake| |by apply Htake].
    intros k Hk1 Hk2. apply list_elem_of_In, in_map_iff in Hk1 as (v & <- & Hv). apply list_elem_of_In, in_map_iff in Hk2 as (w & Hw & Hin).
    apply list_elem_of_In, elem_of_take in Hv as (i & Hi & _). apply list_elem_of_In, elem_of_take in Hin as (j & Hj & _).
    apply list_elem_of_lookup_2 in Hi. apply list_elem_of_lookup_2 in Hj.
    apply HR2 in Hi as (k1 & r1 & _ & Hr1 & _ & -> & Hc1). apply HP2 in Hj as (k2 & r2 & _ & Hr2 & _ & -> & Hc2).
    simpl in Hw. rewrite (bk_id _ _ HB k1 r1 Hr1), (bk_id _ _ HB k2 r2 Hr2) in Hw. congruence.
  - apply list.Forall_forall. intros v Hv.
    assert (exists k r, im_allocations s !! k = Some r /\ is_candidate p (im_tick s) r = true /\ v = candidate_of r) as (k & r & Hr & Hc & ->).
    { apply elem_of_app in Hv as [Hv|Hv]; apply elem_of_take in Hv as (i & Hi & _); apply list_elem_of_lookup_2 in Hi;
        [apply HR2 in Hi|apply HP2 in Hi]; destruct Hi as (k & r & _ & Hr & Hc & -> & _); by exists k, r. }
    exists r. simpl. rewrite (bk_id _ _ HB k r Hr). split_and!; try done. by apply andb_true_iff in Hc as [Hc _].
Qed.

(** What a successful request has planned. *)
Definition planned (rq : ReclaimRequest) (s : Impl) (plan : ReclamationPlan) : Prop :=
  exists e p R P n m, im_pools s !! lq_pool rq = Some e /\ im_policies s !! pd_policy (en_descriptor e) = Some p /\
    rp_enabled (pol_reclaim p) = true /\ plan_made (im_allocations s) (im_tick s) e p (lq_target_units rq) R P n m plan.

Lemma plan_outcome rq s :
  Inv s -> 0 <= lq_target_units rq ->
  wp (plan_reclaim_locked rq) s (fun plan s' => quiet s s' /\ planned rq s plan /\ rl_pool plan = lq_pool rq) (fun _ => eq s).
Proof.
  intros HI Ht. unfold plan_reclaim_locked. wp_step. apply wp_require_open; [done|]. intros _.
  wp_step. apply wp_reject; [done|]. intros _. wp_step. apply wp_reject; [done|]. intros Hmax%Z.ltb_ge.
  wp_step. apply wp_require_pool; [done|]. intros e He. do 2 wp_step.
  do 2 (wp_step; apply wp_reject; [done|]; intros _). wp_step. apply wp_require; [done|]. intros p Hp.
  wp_step. apply wp_reject; [done|]. intros Hen%negb_false_iff. wp_step. apply wp_push_event. intros s1 Hq. wp_step.
  split; [done|]. destruct (build_plan_made s (lq_target_units rq) (lq_pool rq) e p HI He) as (R & P & n & m & Hm); [u64_lia|].
  split; [by exists e, p, R, P, n, m|]. exact (do_id _ _ (eo_descriptor _ _ _ (bk_entry _ _ (inv_books s HI) _ e He))).
Qed.

Lemma scratch_plan_outcome rq s :
  Inv s -> 0 <= lq_target_units rq ->
  wp (with_scratch_events (plan_reclaim_locked rq)) s
    (fun plan s' => quiet s s' /\ planned rq s plan /\ rl_pool plan = lq_pool rq) (fun _ => quiet s).
Proof.
  intros HI Ht. assert (quiet s (s <| im_events := [] |>)) as Hq0 by done.
  pose proof (plan_outcome rq (s <| im_events := [] |>) ltac:(by rewrite <- Hq0) Ht) as Hwp.
  unfold wp, with_scratch_events in *. destruct (plan_reclaim_locked rq _) as [[plan|st] s1].
  - destruct Hwp as (Hq & Hp & Hid). split; [|split; [exact Hp|exact Hid]]. transitivity s1; [by transitivity (s <| im_events := [] |>)|done].
  - subst s1. done.
Qed.

(** A pool that is within its allowance before a reclamation is within it afterwards. *)
Definition within_allowance (s : Impl) (pool : Z) : Prop :=
  forall e, im_pools s !! pool = Some e -> en_own_usage e <= capacity_allowance s e.

Lemma revoked_within new_state s s' pool :
  allocation_holds_units new_state = false -> Inv s -> revoked new_state s s' -> within_allowance s pool -> within_allowance s' pool.
Proof.
  intros Hno HI Hrev Hw e' He'. destruct (terms_entry s' s pool e' (eq_sym (rv_terms _ _ _ Hrev)) He') as (e & He & Hd & _).
  pose proof (revoked_usage new_state s s' pool e e' Hno HI Hrev He He' FOwn) as Hle. simpl in Hle.
  rewrite (allowance_quiet s s' e e'); [specialize (Hw e He); lia| |done].
  pose proof (rv_terms _ _ _ Hrev) as HT. unfold terms in HT. congruence.
Qed.

Lemma within_quiet s s' pool : quiet s s' -> within_allowance s pool -> within_allowance s' pool.
Proof.
  intros Hq Hw e' He'. destruct (strip_lookup _ _ _ _ (eq_sym (quiet_pools _ _ Hq)) He') as (e & He & Hs).
  pose proof (f_equal en_descriptor Hs) as Hd. pose proof (f_equal en_own_usage Hs) as Ho. simpl in Hd, Ho.
  rewrite (allowance_quiet s s' e e'), Ho; [by apply Hw|by rewrite (quiet_policies _ _ Hq)|done].
Qed.

Definition reclaim_safe (pool : Z) (s s' : Impl) : Prop :=
  Inv s' /\ (within_allowance s pool -> im_shutting_down s' = im_shutting_down s).

Definition reclaim_done (rq : ReclaimRequest) (s : Impl) (o : ReclaimResult) (s' : Impl) : Prop :=
  planned rq s (rs_plan o) /\ reclaimed (rl_victims (rs_plan o)) s s' /\
  rs_reclaimed_units o = rl_planned_units (rs_plan o) /\
  rs_revoked_allocations o = Z.of_nat (length (rl_victims (rs_plan o))).

Lemma reclaimed_after victims s s0 s1 s2 :
  quiet s s0 -> Inv s -> reclaimed victims s0 s1 -> quiet s1 s2 -> reclaimed victims s s2.
Proof.
  intros Hq0 HI [Hrev Hv Ho] Hq. pose proof (quiet_allocations _ _ Hq0) as HA0. pose proof (quiet_allocations _ _ Hq) as HA. split.
  - apply (revoked_trans AllocationState.Reclaimed eq_refl s s0); [|by eapply revoked_quiet].
    by apply (revoked_quiet AllocationState.Reclaimed s s s0); [apply revoked_refl|].
  - by rewrite <- HA.
  - by rewrite <- HA, HA0.
Qed.

Lemma planned_units rq s plan :
  Inv s -> planned rq s plan -> named_victims s (rl_victims plan) /\
  rl_planned_units plan = units_of (rl_victims plan) /\ units_of (rl_victims plan) <= u64_max /\
  Z.of_nat (length (rl_victims plan)) <= u64_max.
Proof.
  intros HI (e & p & R & P & n & m & He & Hp & _ & Hm). pose proof (plan_named _ _ _ _ _ _ _ _ _ _ HI He Hm) as Hn.
  split; [done|]. split; [apply Hm|]. pose proof (inv_books s HI) as HB.
  assert (units_of (rl_victims plan) <= en_reserved_units e + en_committed_units e) as Hle.
  { pose proof (eo_counter _ _ _ (bk_entry _ _ HB _ e He)) as HC.
    rewrite (HC FReserved : en_reserved_units e = _), (HC FCommitted : en_committed_units e = _), <- total_of_add.
    apply units_of_total; [|apply Hn|].
    - intros k r Hr. pose proof (share_nonneg _ FReserved (lq_pool rq) r (bk_record _ _ HB k r Hr)).
      pose proof (share_nonneg _ FCommitted (lq_pool rq) r (bk_record _ _ HB k r Hr)). lia.
    - apply list.Forall_forall. intros v Hv. destruct Hm as [[_ HR _] [_ HP _] Hvs _ _ _ _ _ _ _].
      assert (v ∈ R \/ v ∈ P) as Hin.
      { rewrite Hvs in Hv. apply elem_of_app in Hv as [Hv|Hv]; apply elem_of_take in Hv as (i & Hi & _);
          apply list_elem_of_lookup_2 in Hi; auto. }
      assert (exists k r, k ∈ en_members e /\ im_allocations s !! k = Some r /\ v = candidate_of r) as (k & r & Hk & Hr & ->).
      { destruct Hin as [Hin|Hin]; [apply HR in Hin|apply HP in Hin]; destruct Hin as (k & r & ? & ? & _ & ? & _); by exists k, r. }
      exists r. simpl. rewrite (bk_id _ _ HB k r Hr). split; [done|].
      destruct (eo_members _ _ _ (bk_entry _ _ HB _ e He) k Hk) as (r' & Hr' & Hh). simplify_eq.
      shares. rewrite Hh. by destruct (is_reserved r); simpl; lia. }
  pose proof (counter_bound HB FReserved _ e He) as Hr. pose proof (counter_bound HB FCommitted _ e He) as Hc. simpl in Hr, Hc.
  unfold kMaxOwnUsage in *. split; [u64_lia|].
  destruct (rl_victims plan) as [|v l] eqn:Hvs; [simpl; u64_lia|]. pose proof (pm_bound _ _ _ _ _ _ _ _ _ _ Hm) as Hb.
  rewrite Hvs in Hb. destruct Hb as [_ Hb]; [done|]. pose proof (eq_refl : (kMaxReclaimVictims <=? u64_max) = true) as Hk. apply Z.leb_le in Hk. lia.
Qed.

Lemma apply_reclaim_outcome rq s :
  Inv s -> 0 <= lq_target_units rq ->
  wp (apply_reclaim_locked rq) s (fun o s' => reclaim_done rq s o s' /\ reclaim_safe (lq_pool rq) s s')
    (fun _ => reclaim_safe (lq_pool rq) s).
Proof.
  intros HI Ht. unfold apply_reclaim_locked. wp_step.
  eapply wp_mono; [by apply scratch_plan_outcome| |intros st s1 Hq; split; [by rewrite <- Hq|by rewrite <- (quiet_shutdown _ _ Hq)]].
  intros plan s0 (Hq0 & Hplan & Hpool). rewrite Hpool. assert (Inv s0) as HI0 by (by rewrite <- Hq0).
  pose proof (planned_units rq s plan HI Hplan) as (Hnamed & Hpu & Hub & Hlb).
  wp_step. apply wp_require_pool; [intros _ _; split; [done|by rewrite <- (quiet_shutdown _ _ Hq0)]|]. intros e0 He0.
  wp_step. eapply wp_mono; [apply (reclaim_victims_outcome _ _ s0 HI0); simpl; try done| |].
  { destruct Hnamed as [Hnd Hall]. split; [done|]. by rewrite <- (quiet_allocations _ _ Hq0). }
  2: { intros st s1 [[HI1 Hsd] _]. split; [done|]. intros _. by rewrite Hsd, <- (quiet_shutdown _ _ Hq0). }
  intros result s1 (Hrec & Hrp & Hru & Hrc). simpl in Hrp, Hru, Hrc.
  pose proof (rc_revoked _ _ _ Hrec) as Hrev. pose proof (rv_sound _ _ _ Hrev) as [HI1 Hsd1].
  assert (im_shutting_down s1 = im_shutting_down s) as Hsd by (by rewrite Hsd1, <- (quiet_shutdown _ _ Hq0)).
  wp_step. apply wp_pool_ref; [by split|]. intros e1 He1. do 2 wp_step. wp_step.
  eapply wp_mono; [apply (within (R := quiet))| |intros st s2 Hq2; split;
    [by rewrite <- Hq2|intros _; by rewrite <- (quiet_shutdown _ _ Hq2)]]. intros [] s2 Hq2. wp_step.
  assert (Inv s2) as HI2 by (by rewrite <- Hq2).
  eapply wp_mono; [apply verify_closure_outcome; [done|apply _]| |].
  - intros [] s3 [-> _]. wp_step. split.
    + unfold reclaim_done. simpl. rewrite Hrp. split_and!; [done| |lia|lia]. by apply (reclaimed_after _ s s0 s1).
    + split; [done|]. intros _. by rewrite <- (quiet_shutdown _ _ Hq2).
  - intros st s3 [HI3 Hstop]. split; [done|]. intros Hw. destruct Hstop as [->|(e & He & Hlt)]; [by rewrite <- (quiet_shutdown _ _ Hq2)|].
    assert (within_allowance s2 (lq_pool rq)) as Hw2; [|specialize (Hw2 e He); lia].
    apply (within_quiet s1 s2 _ Hq2). apply (revoked_within AllocationState.Reclaimed s0 s1); [done|done|done|by apply (within_quiet s s0)].
Qed.

(** ** Properties *)

(** C20. The dry run predicts the real thing: whenever a new allocation request is decided,
    [evaluate] on the same state and request succeeds without changing anything, never
    promises less than what is granted, and promises exactly that, under the same binding
    constraint and the same verdict, when the policy sets no soft limit; the one difference
    is that a request for which nothing is left may be answered with Reduce instead of
    Refuse. *)
Theorem evaluate_predicts_allocate (rq : AllocateRequest) (s s' : Impl) (d : Decision) :
  Inv s -> 0 <= aq_requested_units rq -> im_attempts s !! aq_attempt rq = None ->
  allocate_locked rq s = (Good d, s') ->
  exists x e p, evaluate (evaluation_of rq) s = (Good x, s) /\ im_pools s !! aq_pool rq = Some e /\
    im_policies s !! pd_policy (en_descriptor e) = Some p /\ predicted p d (er_decision x).
Proof.
  intros HI Hu Hnew Hrun.
  assert (wp (allocate_locked rq) s (fun d _ => exists x e p, evaluate (evaluation_of rq) s = (Good x, s) /\
    im_pools s !! aq_pool rq = Some e /\ im_policies s !! pd_policy (en_descriptor e) = Some p /\
    predicted p d (er_decision x)) (fun _ _ => True)) as Hwp; [|exact (wp_run _ _ _ _ _ _ Hwp Hrun)].
  clear Hrun. unfold allocate_locked, check_request. wp_step. do 2 wp_step.
  wp_step. apply wp_reject; [done|]. intros Hopen%negb_false_iff. wp_step. apply wp_reject; [done|]. intros _.
  wp_step. apply wp_reject; [done|]. intros _. wp_step. apply wp_reject; [done|]. intros Hnz%Z.eqb_neq.
  wp_step. apply wp_reject; [done|]. intros Hmax. eapply wp_mono; [apply (within (R := eq))| |done].
  intros [] s1 <-. cbv zeta. wp_step. apply wp_lookup_attempt; [done|intros _|intros a Ha; congruence].
  wp_step. unfold wp at 1. destruct (require_pool (aq_pool rq) s) as [[e|] s1] eqn:Hpool; [|done].
  assert (im_pools s !! aq_pool rq = Some e /\ s1 = s) as [He ->].
  { unfold require_pool in Hpool. repeat case_match; by simplify_eq. }
  wp_step. unfold wp at 1. destruct (require_queue (aq_queue rq) s) as [[q|] s1] eqn:Hqueue; [|done].
  assert (im_queues s !! aq_queue rq = Some q /\ s1 = s) as [Hq ->].
  { unfold require_queue in Hqueue. repeat case_match; by simplify_eq. }
  do 2 wp_step. wp_step. apply wp_require; [done|]. intros p Hp. unfold check_expectations.
  wp_step. wp_step. unfold wp at 1, gets. wp_step. apply wp_reject; [done|]. intros Hep.
  do 4 (wp_step; apply wp_reject; [done|]; intros _). apply wp_reject; [done|]. intros Hbound.
  set (cx := mkAllocContext rq q p (resolve_evidence s e) (allocate_digest rq) (im_tick s)).
  eapply wp_mono; [apply (decide_verdict cx e s He)| |done]. intros d0 s2 Hd.
  eexists _, e, p. split_and!; [|done|done|].
  - unfold evaluate, require_open, sm_bind, sm_get, reject_when, reject_if, sm_lift. simpl.
    rewrite Hopen. simpl. rewrite Hmax, Hpool, Hqueue, Hbound. simpl. unfold require. by rewrite Hp.
  - simpl. apply (verdict_predicted s cx e); try done. split; [done|done|]. simpl. apply Z.ltb_ge in Hmax. lia.
Qed.

Lemma evaluate_predicts_allocate_witness :
  exists d s', allocate_locked (sample_request 1 100) sample_state = (Good d, s') /\ dc_granted_units d = 100 /\
    exists x, evaluate (evaluation_of (sample_request 1 100)) sample_state = (Good x, sample_state) /\
      dc_granted_units (er_decision x) = 100.
Proof.
  assert (succeeds (allocate_locked (sample_request 1 100)) sample_state = true) as (d & s' & Hrun)%succeeds_run
    by (vm_compute; reflexivity).
  assert (match fst (allocate_locked (sample_request 1 100) sample_state) with
    | Good d => dc_granted_units d = 100 | Bad _ => False end) as Hd by (vm_compute; reflexivity).
  rewrite Hrun in Hd. simpl in Hd. exists d, s'. split; [done|]. split; [done|].
  destruct (evaluate_predicts_allocate (sample_request 1 100) sample_state s' d) as (x & e & p & Hx & He & Hp & Hpr);
    [apply sample_inv|done|reflexivity|done|].
  exists x. split; [done|]. rewrite <- Hd. symmetry. apply (pr_exact _ _ _ Hpr).
  assert (pol_soft_limit_bp <$> im_policies sample_state !! 1 = Some 0) as H by (vm_compute; reflexivity).
  assert ((fun e => pd_policy (en_descriptor e)) <$> im_pools sample_state !! 2 = Some 1) as H2 by (vm_compute; reflexivity).
  simpl aq_pool in He. rewrite He in H2. injection H2 as H2. rewrite H2 in Hp. rewrite Hp in H. by injection H.
Defined.


(** C21. A reclamation plan changes nothing and is minimal, ordered and bounded: its victims
    are the first reclaimable members and then, only where the policy allows it, the first
    pinned ones, each class listed completely and in the order of priority, age and id; the
    planned units are their sum, within the policy's bound per operation; every victim was
    still needed when it was taken; and a plan that falls short was cut off or has run out
    of candidates. *)
Theorem plan_reclaim_exact (rq : ReclaimRequest) (s s' : Impl) (plan : ReclamationPlan) :
  Inv s -> 0 <= lq_target_units rq -> plan_reclaim_locked rq s = (Good plan, s') ->
  quiet s s' /\ exists e p R P n m, im_pools s !! lq_pool rq = Some e /\
    im_policies s !! pd_policy (en_descriptor e) = Some p /\ rp_enabled (pol_reclaim p) = true /\
    plan_made (im_allocations s) (im_tick s) e p (lq_target_units rq) R P n m plan.
Proof. intros HI Ht Hrun. apply (wp_run _ _ _ _ _ _ (plan_outcome rq s HI Ht)) in Hrun as (Hq & Hp & _). by split. Qed.

Definition sample_reclaim (units : Z) : ReclaimRequest :=
  default_ReclaimRequest <| lq_pool := 2 |> <| lq_target_units := units |>.

Lemma plan_reclaim_exact_witness :
  exists plan s', plan_reclaim_locked (sample_reclaim 20) (sample_later 10 1) = (Good plan, s') /\
    rl_planned_units plan = 100 /\ quiet (sample_later 10 1) s'.
Proof.
  assert (succeeds (plan_reclaim_locked (sample_reclaim 20)) (sample_later 10 1) = true) as (plan & s' & Hrun)%succeeds_run
    by (vm_compute; reflexivity).
  assert (match fst (plan_reclaim_locked (sample_reclaim 20) (sample_later 10 1)) with
    | Good plan => rl_planned_units plan = 100 | Bad _ => False end) as Hp by (vm_compute; reflexivity).
  rewrite Hrun in Hp. exists plan, s'. split; [done|]. split; [done|].
  apply (plan_reclaim_exact (sample_reclaim 20) (sample_later 10 1) s' plan); [apply sample_later_inv|done|done].
Defined.

(** C22. Applying a reclamation revokes its plan and nothing else, whether or not the request is
    marked as a dry run (the code does not look at the mark, although [reclaim.hpp] says that
    a dry run revokes nothing): the books balance whatever happens, a pool within its
    allowance never stops the fabric, and a success has turned every victim of the plan into a
    Reclaimed record with its units, left every other record alone, and reports the planned
    units and the number of victims. *)
Theorem apply_reclaim_exact (rq : ReclaimRequest) (s s' : Impl) (res : Result ReclaimResult) :
  Inv s -> 0 <= lq_target_units rq -> apply_reclaim_locked rq s = (res, s') ->
  reclaim_safe (lq_pool rq) s s' /\ forall o, res = Good o -> reclaim_done rq s o s'.
Proof.
  intros HI Ht Hrun. apply (wp_run _ _ _ _ _ _ (apply_reclaim_outcome rq s HI Ht)) in Hrun.
  destruct res as [o|st]; [|by split]. destruct Hrun as [Hd Hs]. split; [done|]. by intros ? [= <-].
Qed.

Lemma apply_reclaim_exact_witness :
  exists o s', apply_reclaim_locked (sample_reclaim 20) (sample_later 10 1) = (Good o, s') /\
    rs_reclaimed_units o = 100 /\ reclaim_done (sample_reclaim 20) (sample_later 10 1) o s'.
Proof.
  assert (succeeds (apply_reclaim_locked (sample_reclaim 20)) (sample_later 10 1) = true) as (o & s' & Hrun)%succeeds_run
    by (vm_compute; reflexivity).
  assert (match fst (apply_reclaim_locked (sample_reclaim 20) (sample_later 10 1)) with
    | Good o => rs_reclaimed_units o = 100 | Bad _ => False end) as Hp by (vm_compute; reflexivity).
  rewrite Hrun in Hp. exists o, s'. split; [done|]. split; [done|].
  apply (apply_reclaim_exact (sample_reclaim 20) (sample_later 10 1) s' (Good o)); [apply sample_later_inv|done|done|done].
Defined.
