(* ===== verification/Ledger.v ===== *)
(** * The audit and the ledger

    [deep_verify] recomputes every pool's accounting from the allocation table alone. Under
    the invariant that is the ledger the live counters report, so that an audit can only
    fail because a pool exceeds its allowance or a total exceeds 64 bits; and over all pools
    what has been borrowed is what has been lent. *)

From S2P Require Import Prelude Ints Hash Enums Status Codec Model Wire Policy Accounting Authority Persist State Grant Alloc Lifecycle Books Triples Layout Safety AllocSafety LifeSafety Topology Revoke Resize TopoSafety Query QuerySafety.

(** ** Recomputing is rebuilding *)

(** The accounting a rebuilt entry stands for before the audit finishes it. *)
Definition tallied (s : Impl) (e : PoolEntry) : PoolAccounting :=
  verify_seed s e <| pa_allocated := en_allocated e |> <| pa_reserved := en_reserved_units e |>
    <| pa_committed := en_committed_units e |> <| pa_pinned := en_pinned_units e |>
    <| pa_reclaimable := en_reclaimable_units e |> <| pa_borrowed_in := en_borrowed_in e |>
    <| pa_lent_out := en_lent_out e |>.

Lemma add64_swap a b c : add64 (add64 a b) c = add64 (add64 a c) b.
Proof. unfold add64, wrap64. rewrite !Zplus_mod_idemp_l. f_equal. lia. Qed.

Lemma add64_shift a b c : add64 a (add64 b c) = add64 (add64 a b) c.
Proof. unfold add64, wrap64. rewrite Zplus_mod_idemp_l, Zplus_mod_idemp_r. f_equal. lia. Qed.

Lemma tallied_holder s r e : tallied s (add_to_holder r e) = verify_holder r (tallied s e).
Proof.
  unfold tallied, add_to_holder, verify_holder, en_allocated, plus.
  destruct (ar_reclaim_class r); destruct (decide (ar_state r = AllocationState.Reserved)) as [Hs|Hs];
    rewrite ?(bool_decide_eq_true_2 _ Hs), ?(bool_decide_eq_false_2 _ Hs); simpl; unfold upd; simpl;
    f_equal; (apply add64_swap || (symmetry; apply add64_shift) || apply add64_shift).
Qed.

Lemma tallied_lender s b e : tallied s (add_to_lender b e) = tallied s e <| pa_lent_out ::= plus b |>.
Proof. reflexivity. Qed.

(** Two folds over one table keep a relation between their accumulators. *)
Lemma map_fold_related {R X Y} (rel : X -> Y -> Prop) (f : Z -> R -> X -> X) (g : Z -> R -> Y -> Y) x y (m : gmap Z R) :
  rel x y -> (forall k r x y, rel x y -> rel (f k r x) (g k r y)) -> rel (map_fold f x m) (map_fold g y m).
Proof.
  intros H0 Hstep. rewrite !map_fold_foldr. induction (map_to_list m) as [|[k r] l IH]; simpl; auto.
Qed.

Lemma alter_fmap_tallied {A B} (h : A -> B) (f : A -> A) (g : B -> B) k (m : gmap Z A) :
  (forall a, h (f a) = g (h a)) -> h <$> alter f k m = alter g k (h <$> m).
Proof.
  intros H. apply map_eq. intros j. rewrite lookup_fmap. destruct (decide (k = j)) as [<-|Hne].
  - rewrite !lookup_alter_eq, lookup_fmap. destruct (m !! k); simpl; [by rewrite H|done].
  - by rewrite !lookup_alter_ne, lookup_fmap by done.
Qed.

Lemma verify_record_tallied s r P : verify_record r (tallied s <$> P) = tallied s <$> add_record r P.
Proof.
  unfold verify_record, add_record. destruct (negb _); [done|]. rewrite lookup_fmap.
  destruct (P !! ar_pool r); simpl; [|done].
  rewrite <- (alter_fmap_tallied (tallied s) (add_to_holder r) (verify_holder r)) by apply tallied_holder.
  destruct (_ && _); [|done]. symmetry. apply alter_fmap_tallied, tallied_lender.
Qed.

Lemma seeds_eq s :
  (forall p e, im_pools s !! p = Some e -> pd_id (en_descriptor e) = p) ->
  map_fold (fun _ e m => emplace (pd_id (en_descriptor e)) (verify_seed s e) m) ∅ (im_pools s) =
    (verify_seed s <$> im_pools s).
Proof.
  apply (map_fold_weak_ind (fun m P => (forall p e, P !! p = Some e -> pd_id (en_descriptor e) = p) -> m = (verify_seed s <$> P))).
  { intros _. by rewrite fmap_empty. }
  intros p e P m Hp IH Hid. rewrite (Hid p e) by apply lookup_insert_eq. rewrite IH.
  - unfold emplace. rewrite lookup_fmap, Hp. simpl. by rewrite fmap_insert.
  - intros q x Hq. apply Hid. by rewrite lookup_insert_ne by congruence.
Qed.

Section Audit.
Context (s : Impl) (HI : Inv s).

(** The entries of the rebuild, before the live counters are refreshed. *)
Definition rebuilt : gmap Z PoolEntry :=
  map_fold (fun _ r acc => add_record r acc) (reset_entry <$> im_pools s) (im_allocations s).

Lemma recomputed_eq :
  map_fold (fun _ r m => verify_record r m)
    (map_fold (fun _ e m => emplace (pd_id (en_descriptor e)) (verify_seed s e) m) ∅ (im_pools s)) (im_allocations s) =
  (tallied s <$> rebuilt).
Proof using HI.
  rewrite seeds_eq; [|intros p e He; exact (do_id _ _ (eo_descriptor _ _ _ (bk_entry _ _ (inv_books s HI) p e He)))].
  apply (map_fold_related (fun m P => m = tallied s <$> P)).
  - rewrite <- map_fmap_compose. apply map_fmap_ext. by intros p e He.
  - intros k r m P ->. apply verify_record_tallied.
Qed.

Lemma add_record_descriptors r P : en_descriptor <$> add_record r P = en_descriptor <$> P.
Proof.
  unfold add_record. repeat case_match; rewrite ?descriptors_alter; try done; intros e; unfold add_to_holder;
    repeat case_match; done.
Qed.

Lemma rebuilt_descriptors : en_descriptor <$> rebuilt = en_descriptor <$> im_pools s.
Proof using.
  unfold rebuilt. rewrite map_fold_foldr. induction (map_to_list (im_allocations s)) as [|[k r] l IH]; simpl.
  - rewrite <- map_fmap_compose. apply map_fmap_ext. by intros p e He.
  - by rewrite add_record_descriptors.
Qed.

(** The rebuilt entry of a pool has the counters of the live one. *)
Lemma rebuilt_entry p e :
  im_pools s !! p = Some e -> exists e', rebuilt !! p = Some e' /\ en_descriptor e' = en_descriptor e /\
    forall f, counter f e' = counter f e.
Proof using HI.
  intros He. destruct (Inv_rebuildable s HI) as (Hd & HT & Hfit). destruct (fold_books _ _ Hd HT Hfit) as [HB Hdom].
  fold rebuilt in HB, Hdom. destruct (proj2 (Hdom p)) as [e' He']; [by exists e|]. exists e'. split; [done|]. split.
  - pose proof rebuilt_descriptors as H. apply (f_equal (fun m => m !! p)) in H. rewrite !lookup_fmap, He, He' in H. by injection H.
  - intros f. by rewrite (eo_counter _ _ _ (bk_entry _ _ HB p e' He')), (eo_counter _ _ _ (bk_entry _ _ (inv_books s HI) p e He)).
Qed.

(** Finishing the tally of a pool gives its ledger line. *)
Lemma finish_tallied p e e' :
  im_pools s !! p = Some e -> en_descriptor e' = en_descriptor e -> (forall f, counter f e' = counter f e) ->
  verify_finish (tallied s e') = accounting_of s e.
Proof using HI.
  intros He Hd HC. pose proof (inv_books s HI) as HB. pose proof (counter_identities HB p e He) as [_ Hown].
  pose proof (HC FReserved) as E1. pose proof (HC FCommitted) as E2. pose proof (HC FPinned) as E3.
  pose proof (HC FReclaimable) as E4. pose proof (HC FBorrowed) as E5. pose proof (HC FLent) as E6. simpl in *.
  assert (en_usable e' = en_usable e) as Eu by (unfold en_usable; by rewrite Hd).
  assert (en_allocated e' = en_allocated e) as Ea by (unfold en_allocated; by rewrite E1, E2).
  pose proof (usage_exact HB p e He) as (Hov & Hfr & Hal). pose proof (usable_range HB p e He) as Hus.
  pose proof (fun f => counter_bound HB f p e He) as HCb. pose proof (HCb FOwn) as C1. pose proof (HCb FBorrowed) as C2.
  pose proof (HCb FLent) as C3. pose proof (HCb FReserved) as C4. pose proof (HCb FCommitted) as C5. simpl in *.
  pose proof (lent_le_own HB p e He) as Hlo. unfold kMaxOwnUsage in *.
  assert (saturating_add (if en_borrowed_in e <=? en_allocated e then sub64 (en_allocated e) (en_borrowed_in e) else 0)
    (en_lent_out e) = en_own_usage e) as Hsum.
  { rewrite Hal. rewrite (proj2 (Z.leb_le _ _)) by lia. rewrite sub64_exact, saturating_add_min by u64_lia. u64_lia. }
  unfold verify_finish, tallied, verify_seed, accounting_of. simpl. rewrite Hd, E1, E2, E3, E4, E5, E6, Eu, Ea, Hsum.
  fold (en_overcommit_used e). f_equal.
Qed.

Lemma deep_verify_ledger : deep_verify s = check_global_accounting (pool_ledger s).
Proof using HI.
  unfold deep_verify. rewrite recomputed_eq. f_equal. unfold pool_ledger, values.
  replace (verify_finish <$> (tallied s <$> rebuilt)) with (accounting_of s <$> im_pools s).
  - rewrite map_to_list_fmap. induction (map_to_list (im_pools s)) as [|[p e] l IH]; [done|]. simpl. by f_equal.
  - apply map_eq. intros p. rewrite !lookup_fmap. destruct (im_pools s !! p) as [e|] eqn:He.
    + destruct (rebuilt_entry p e He) as (e' & -> & Hd & HC). simpl. by rewrite (finish_tallied p e e').
    + destruct (rebuilt !! p) as [e'|] eqn:He'; [|done]. pose proof rebuilt_descriptors as H.
      apply (f_equal (fun m => m !! p)) in H. rewrite !lookup_fmap, He, He' in H. done.
Qed.
End Audit.

(** ** What is borrowed is lent *)

Lemma total_of_swap {E R} (g : E -> R -> Z) (P : gmap Z E) (A : gmap Z R) :
  total_of (fun e => total_of (g e) A) P = total_of (fun r => total_of (fun e => g e r) P) A.
Proof.
  induction P as [|p e P Hp IH] using map_ind.
  - rewrite total_of_empty. symmetry. apply total_of_zero. intros k r _. apply total_of_empty.
  - rewrite total_of_insert_new by done. rewrite IH, <- total_of_add. apply total_of_ext.
    intros k r _. by rewrite total_of_insert_new.
Qed.

(** A sum with one summand. *)
Lemma total_of_at {E} (f : E -> Z) (P : gmap Z E) p e :
  P !! p = Some e -> (forall q x, P !! q = Some x -> q <> p -> f x = 0) -> total_of f P = f e.
Proof.
  intros Hp Hz. rewrite <- (insert_delete_id P p e Hp), total_of_insert_new by apply lookup_delete_eq.
  rewrite total_of_zero; [lia|]. intros q x [Hne Hq]%lookup_delete_Some. by apply (Hz q x).
Qed.

Lemma total_ledger s f : total f (pool_ledger s) = total_of (fun e => f (accounting_of s e)) (im_pools s).
Proof.
  unfold pool_ledger, total. rewrite <- foldr_values. induction (values (im_pools s)) as [|e l IH]; [done|].
  simpl. by rewrite IH.
Qed.

Lemma ledger_borrowed_lent s :
  Inv s -> total pa_borrowed_in (pool_ledger s) = total pa_lent_out (pool_ledger s).
Proof.
  intros HI. pose proof (inv_books s HI) as HB. rewrite !total_ledger. simpl.
  assert (forall f, total_of (counter f) (im_pools s) =
    total_of (fun r => total_of (fun e => share f (pd_id (en_descriptor e)) r) (im_pools s)) (im_allocations s)) as HC.
  { intros f. rewrite <- total_of_swap. apply total_of_ext. intros p e He.
    rewrite (do_id _ _ (eo_descriptor _ _ _ (bk_entry _ _ HB p e He))). apply (bk_entry _ _ HB p e He). }
  rewrite (HC FBorrowed : total_of (fun e => en_borrowed_in e) (im_pools s) = _),
    (HC FLent : total_of (fun e => en_lent_out e) (im_pools s) = _).
  apply total_of_ext. intros k r Hr. pose proof (bk_record _ _ HB k r Hr) as [Hu Hb Hp Hl].
  assert (forall q x, im_pools s !! q = Some x -> pd_id (en_descriptor x) = q) as Hid
    by (intros q x Hq; exact (do_id _ _ (eo_descriptor _ _ _ (bk_entry _ _ HB q x Hq)))).
  destruct (allocation_holds_units (ar_state r)) eqn:Hh.
  2: { rewrite !total_of_zero; [done|..]; intros q x _; by apply share_idle. }
  destruct (decide (effective_borrow r = 0)) as [Hz|Hz].
  { rewrite !total_of_zero; [done|..]; intros q x _; shares; rewrite Hz; by case_match. }
  destruct (Hp eq_refl) as [e He]. destruct (Hl eq_refl Hz) as (Hv & [l Hlk] & _).
  rewrite (total_of_at _ _ (ar_pool r) e He), (total_of_at _ _ (ar_lender r) l Hlk).
  - rewrite (Hid _ _ He), (Hid _ _ Hlk). shares. unfold here, lends. by rewrite Hh, Hv, !Z.eqb_refl.
  - intros q x Hq Hne. rewrite (Hid q x Hq). shares. unfold lends. rewrite (proj2 (Z.eqb_neq (ar_lender r) q)) by congruence.
    by rewrite andb_false_r.
  - intros q x Hq Hne. rewrite (Hid q x Hq). shares. unfold here. rewrite (proj2 (Z.eqb_neq (ar_pool r) q)) by congruence.
    by rewrite andb_false_r.
Qed.

(** A line of the ledger balances exactly when its pool is within its allowance. *)
Lemma balanced_within s p e :
  Inv s -> im_pools s !! p = Some e -> balanced (accounting_of s e) <-> en_own_usage e <= capacity_allowance s e.
Proof.
  intros HI He. pose proof (usable_range (inv_books s HI) p e He) as Hus. pose proof (limit_range s e HI) as Hlim.
  unfold balanced, capacity_allowance, limit_of in *. simpl.
  destruct (im_policies s !! _) as [q|]; simpl in Hlim;
    [destruct (decide (oc_mode (pol_overcommit q) = OvercommitMode.Bounded))|];
    rewrite (balanced_iff s p e) by (try done; u64_lia); simpl; rewrite saturating_add_min by u64_lia; u64_lia.
Qed.

Lemma ledger_lines s (Q : PoolAccounting -> Prop) :
  Forall Q (pool_ledger s) <-> forall p e, im_pools s !! p = Some e -> Q (accounting_of s e).
Proof.
  unfold pool_ledger, values. rewrite map_map, list.Forall_forall. split.
  - intros H p e He. apply H, list_elem_of_In, in_map_iff. exists (p, e). split; [done|].
    by apply list_elem_of_In, elem_of_map_to_list.
  - intros H a Ha. apply list_elem_of_In, in_map_iff in Ha as ([p e] & <- & Hin). apply (H p).
    by apply elem_of_map_to_list, list_elem_of_In.
Qed.

Lemma within_pools s :
  forallb (fun pe => en_own_usage (snd pe) <=? capacity_allowance s (snd pe)) (map_to_list (im_pools s)) = true ->
  forall p, within_allowance s p.
Proof.
  rewrite forallb_forall. intros H p e He. apply Z.leb_le. apply (H (p, e)). by apply list_elem_of_In, elem_of_map_to_list.
Qed.

(** The audit's report is the summary's. *)
Lemma audit_is_summary s : Inv s -> deep_verify s = fs_accounting (summary_of s).
Proof.
  intros HI. rewrite (deep_verify_ledger s HI). unfold summary_of.
  assert (forall l x, fs_accounting (fold_left summary_step l x) = fs_accounting x) as Hf.
  { induction l as [|a l IH]; intros x; [done|]. simpl. by rewrite IH. }
  by rewrite Hf.
Qed.

(** ** Properties *)


