(* ===== verification/History.v ===== *)
(** * The life of an allocation

    What any operation may do to the allocation table, whether it succeeds or stops half way:
    records stay, under the same id, in the same pool and for the same queue; their units
    never grow; their state only follows the edges of the state machine of
    [allocation_state_t]; and new records only appear under ids never used before. *)

From S2P Require Import Prelude Ints Hash Enums Status Codec Model Wire Policy Accounting Authority Persist State Grant Alloc Lifecycle Books Triples Layout Safety AllocSafety LifeSafety Topology Revoke Resize TopoSafety Query QuerySafety.

(** ** The state machine *)

(** The edges: a reservation may end in any state, committed units may be fenced, reclaimed
    or released, and a record that holds nothing never comes back. *)
Definition moves (a b : AllocationState) : bool :=
  match a with
  | AllocationState.Reserved => true
  | AllocationState.Committed =>
      negb (bool_decide (b = AllocationState.Reserved)) && negb (bool_decide (b = AllocationState.Expired))
  | _ => bool_decide (b = a)
  end.

Lemma moves_refl a : moves a a = true.
Proof. by destruct a. Qed.

Lemma moves_trans a b c : moves a b = true -> moves b c = true -> moves a c = true.
Proof. by destruct a, b, c. Qed.

Lemma moves_end a b : allocation_holds_units a = true ->
  b = AllocationState.Fenced \/ b = AllocationState.Reclaimed -> moves a b = true.
Proof. by destruct a; intros H [-> | ->]. Qed.

(** A record and the same record later. *)
Record later (r r' : AllocationRecord) : Prop := {
  lt_id : ar_id r' = ar_id r;
  lt_pool : ar_pool r' = ar_pool r;
  lt_queue : ar_queue r' = ar_queue r;
  lt_attempt : ar_attempt r' = ar_attempt r;
  lt_units : ar_units r' <= ar_units r;
  lt_state : moves (ar_state r) (ar_state r') = true;
  lt_final : allocation_holds_units (ar_state r) = false -> r' = r
}.

#[export] Instance later_preorder : PreOrder later.
Proof.
  split; [intros r; split; try done; apply moves_refl|].
  intros r1 r2 r3 [I1 P1 Q1 A1 U1 S1 F1] [I2 P2 Q2 A2 U2 S2 F2]. split; [congruence..|lia| |].
  - by eapply moves_trans.
  - intros H. rewrite (F1 H) in *. auto.
Qed.

(** ** Histories of the table *)

Record evolves (s s' : Impl) : Prop := {
  ev_record : forall k r, im_allocations s !! k = Some r -> exists r', im_allocations s' !! k = Some r' /\ later r r';
  ev_next : im_next_allocation_id s <= im_next_allocation_id s';
  ev_new : forall k r', im_allocations s' !! k = Some r' ->
    im_next_allocation_id s <= k \/ is_Some (im_allocations s !! k)
}.

#[export] Instance evolves_preorder : PreOrder evolves.
Proof.
  split.
  - intros s. split; [intros k r H; by exists r|done|]. intros k r' H. right. by exists r'.
  - intros s1 s2 s3 [R1 N1 W1] [R2 N2 W2]. split; [|lia|].
    + intros k r (r' & H' & L1)%R1. destruct (R2 k r' H') as (r'' & H'' & L2). exists r''. split; [done|by transitivity r'].
    + intros k r'' [?|[r' H']]%W2; [left; lia|by apply (W1 k r')].
Qed.

(** Only changes of the table itself count. *)
Definition untouched (s s' : Impl) : Prop :=
  im_allocations s' = im_allocations s /\ im_next_allocation_id s' = im_next_allocation_id s.

#[export] Instance untouched_preorder : PreOrder untouched.
Proof. split; unfold untouched; [done|]. intros s1 s2 s3 [? ?] [? ?]. split; congruence. Qed.

Lemma untouched_evolves s s' : untouched s s' -> evolves s s'.
Proof.
  intros [HA HN]. split; rewrite ?HA, ?HN; [|done|].
  - intros k r H. by exists r.
  - intros k r' H. right. by exists r'.
Qed.

Lemma quiet_untouched s s' : quiet s s' -> untouched s s'.
Proof. intros Hq. by split; [rewrite <- (quiet_allocations _ _ Hq)|rewrite <- (quiet_next _ _ Hq)]. Qed.

#[export] Instance untouched_hushed {A} (m : M A) : Hushed m -> Within untouched m | 20.
Proof. intros Hm s. eapply wp_mono; [apply Hm| |]; intros ? s' Hq; by apply quiet_untouched. Qed.

#[export] Instance evolves_untouched {A} (m : M A) : Within untouched m -> Within evolves m | 30.
Proof. intros Hm s. eapply wp_mono; [apply Hm| |]; intros ? s' Hq; by apply untouched_evolves. Qed.

(** One record written: the table has evolved if the record has. *)
Lemma evolves_update s k r r' :
  im_allocations s !! k = Some r -> later r r' -> evolves s (s <| im_allocations ::= <[k := r']> |>).
Proof.
  intros Hk Hl. split; simpl; [|done|].
  - intros j r0 Hj. destruct (decide (j = k)) as [->|Hne].
    + rewrite Hk in Hj. injection Hj as <-. exists r'. by rewrite lookup_insert_eq.
    + exists r0. by rewrite lookup_insert_ne.
  - intros j r0 Hj. right. destruct (decide (j = k)) as [->|Hne]; [by exists r|]. rewrite lookup_insert_ne in Hj by done. by exists r0.
Qed.

(** Follow an operation to the write: what comes before leaves the table alone, what comes
    after only evolves it. *)
Lemma wp_before {A B} (m : M A) (k : A -> M B) s0 s :
  Within untouched m -> untouched s0 s ->
  (forall a s', untouched s0 s' -> wp (k a) s' (fun _ => evolves s0) (fun _ => evolves s0)) ->
  wp (sm_bind m k) s (fun _ => evolves s0) (fun _ => evolves s0).
Proof.
  intros Hm Hs Hk. apply wp_bind. eapply wp_mono; [apply Hm| |]; intros ? s' Hs'.
  - apply Hk. by transitivity s.
  - apply untouched_evolves. by transitivity s.
Qed.

Lemma wp_write {B} k r r' (rest : unit -> M B) s0 s :
  untouched s0 s -> im_allocations s0 !! k = Some r -> later r r' -> (forall a, Within evolves (rest a)) ->
  wp (sm_bind (update_allocation k (fun _ => r')) rest) s (fun _ => evolves s0) (fun _ => evolves s0).
Proof.
  intros Hs Hk Hl Hrest. apply wp_bind. assert (im_allocations s !! k = Some r) as Hk' by (by rewrite (proj1 Hs)).
  unfold wp at 1. rewrite (update_allocation_eq k r r' s Hk'). eapply wp_mono; [apply Hrest| |]; intros ? s' Hs'.
  all: etransitivity; [by apply untouched_evolves|etransitivity; [by eapply evolves_update|done]].
Qed.

(** ** Operations that never write the table *)

#[export] Instance within_when R `{!PreOrder R} (b : bool) (m : M unit) : Within R m -> Within R (when b do m).
Proof. intros Hm. destruct b; [exact Hm|apply _]. Qed.

(** Walk an operation once, its leaves by their instances. *)
Ltac walk :=
  cbv zeta;
  lazymatch goal with
  | |- Within _ (sm_bind _ _) => apply within_bind; [apply _|walk|intros ?; walk]
  | |- Within _ (if _ then _ else sm_ret tt) => apply within_when; [apply _|walk]
  | |- Within _ (if decide _ then _ else _) => apply within_decide; walk
  | |- Within _ (if _ then _ else _) => apply within_if; walk
  | |- Within _ (match ?o with Some _ => _ | None => _ end) => apply within_option; [intros ?; walk|walk]
  | |- _ => apply _
  end.

Lemma untouched_modify f : (forall s, untouched s (f s)) -> Within untouched (modify f).
Proof. intros Hf s. apply Hf. Qed.

#[export] Hint Extern 5 (Within untouched (modify _)) => (apply untouched_modify; intros ?; split; reflexivity) : typeclass_instances.
#[export] Hint Extern 5 (Within untouched (update_pool _ _)) =>
  (apply untouched_modify; intros ?; split; reflexivity) : typeclass_instances.
#[export] Instance untouched_release id r : Within untouched (apply_release_units id r).
Proof. unfold apply_release_units, release_state_units, release_class_units, release_lender_units. apply _. Qed.

#[export] Instance untouched_closure id report :
  (forall e, Within untouched (report e)) -> Within untouched (verify_closure id report).
Proof.
  intros Hr. unfold verify_closure. apply within_bind; [apply _..|]. intros e. apply within_bind; [apply _..|]. intros s.
  destruct (check_closure s e); apply _.
Qed.

#[export] Instance untouched_sum_raw keep message entries acc : Within untouched (sum_raw keep message entries acc).
Proof. revert acc. induction entries as [|e entries IH]; intros acc; cbn [sum_raw]; apply _. Qed.

#[export] Instance untouched_claim next f requested message :
  (forall n s, untouched s (f n s)) -> Within untouched (claim_id next f requested message).
Proof.
  intros Hf. unfold claim_id. pose proof (fun n => untouched_modify (f n) (Hf n)). unfold checked_add. apply _.
Qed.

(** ** Revocations *)

Lemma fence_evolves s key new_state reason :
  allocation_holds_units new_state = false ->
  (forall r, im_allocations s !! key = Some r -> allocation_holds_units (ar_state r) = true ->
     moves (ar_state r) new_state = true) ->
  wp (fence_allocation_locked key new_state reason) s (fun _ => evolves s) (fun _ => evolves s).
Proof.
  intros Hno Hmove. unfold fence_allocation_locked. do 3 wp_step. wp_step; [reflexivity|].
  match goal with H : im_allocations s !! key = Some ?x |- _ => rename x into r, H into Hr end.
  destruct (im_pools s !! ar_pool r); [|wp_step; reflexivity].
  destruct (allocation_holds_units (ar_state r)) eqn:Hh; simpl; [|wp_step; reflexivity].
  apply wp_before; [apply _|reflexivity|]. intros [] s1 Hs1.
  eapply wp_write; [done|done| |intros []; apply _]. split; try done; [by apply Hmove|congruence].
Qed.

(** A loop goes on from wherever the revocation before it left the table. *)
Lemma wp_fence_then {B} s key new_state reason (k : unit -> M B) :
  allocation_holds_units new_state = false ->
  (forall r, im_allocations s !! key = Some r -> allocation_holds_units (ar_state r) = true ->
     moves (ar_state r) new_state = true) ->
  Within evolves (k tt) ->
  wp (sm_bind (fence_allocation_locked key new_state reason) k) s (fun _ => evolves s) (fun _ => evolves s).
Proof.
  intros Hno Hmove Hk. apply wp_bind. eapply wp_mono; [by apply fence_evolves| |done].
  intros [] s1 H1. eapply wp_mono; [apply Hk| |]; intros ? s2 H2; by transitivity s1.
Qed.

(** The step of every loop but the sweep: revoke what still holds units. *)
Lemma fence_step_evolves {B} key new_state reason (k : AllocationRecord -> M B) (k' : M B) :
  new_state = AllocationState.Fenced \/ new_state = AllocationState.Reclaimed ->
  (forall r, Within evolves (k r)) -> Within evolves k' ->
  Within evolves (let* s := sm_get in
    match im_allocations s !! key with
    | None => k'
    | Some r => if negb (allocation_holds_units (ar_state r)) then k'
                else fence_allocation_locked key new_state reason ;;; k r
    end).
Proof.
  intros Hnew Hk Hk' s. do 2 wp_step. destruct (im_allocations s !! key) as [r|] eqn:Hr; [|apply Hk'].
  destruct (allocation_holds_units (ar_state r)) eqn:Hh; simpl; [|apply Hk'].
  apply wp_fence_then; [by destruct Hnew; subst| |apply Hk].
  intros r1 _ Hh1. by apply moves_end.
Qed.

#[export] Instance evolves_fence_all victims : Within evolves (fence_all victims).
Proof.
  induction victims as [|v victims IH]; cbn [fence_all]; [apply _|]. apply fence_step_evolves; [by left|done|done].
Qed.

#[export] Instance evolves_fence_victims everything pool allowance victims result :
  Within evolves (fence_victims everything pool allowance victims result).
Proof.
  revert result. induction victims as [|v victims IH]; intros result; cbn [fence_victims]; [apply _|].
  apply within_bind; [apply _..|]. intros e. apply within_if; [apply _|].
  apply fence_step_evolves; [by left|auto..].
Qed.

#[export] Instance evolves_fence_borrowers pool allowance candidates result :
  Within evolves (fence_borrowers pool allowance candidates result).
Proof.
  revert result. induction candidates as [|v candidates IH]; intros result; cbn [fence_borrowers]; [apply _|].
  apply within_bind; [apply _..|]. intros e. apply within_if; [apply _|].
  apply fence_step_evolves; [by left|auto..].
Qed.

#[export] Instance evolves_reclaim_victims victims result : Within evolves (reclaim_victims victims result).
Proof.
  revert result. induction victims as [|v victims IH]; intros result; cbn [reclaim_victims]; [apply _|].
  apply fence_step_evolves; [by right|auto..].
Qed.

Lemma evolves_sweep select new_state reason pool members count units :
  allocation_holds_units new_state = false ->
  (forall s e r, select s e r = true -> moves (ar_state r) new_state = true) ->
  Within evolves (sweep select new_state reason pool members count units).
Proof.
  intros Hno Hsel. revert count units. induction members as [|v members IH]; intros count units; cbn [sweep]; [apply _|].
  intros s. do 3 wp_step. apply wp_pool_ref; [intros; reflexivity|]. intros e He.
  destruct (im_allocations s !! v) as [r|] eqn:Hr; [|apply IH]. destruct (select s e r) eqn:Hs; [|apply IH].
  apply wp_fence_then; [done| |apply IH]. intros r1 H1 _. rewrite Hr in H1. injection H1 as <-. by eapply Hsel.
Qed.

Lemma stale_moves policy s e r : select_stale policy s e r = true -> moves (ar_state r) AllocationState.Fenced = true.
Proof. unfold select_stale. intros [H _]%andb_true_iff. by apply moves_end; [|left]. Qed.

Lemma policy_moves generation s e r : select_policy generation s e r = true -> moves (ar_state r) AllocationState.Fenced = true.
Proof. unfold select_policy. intros [H _]%andb_true_iff. by apply moves_end; [|left]. Qed.

Lemma expired_moves policy s e r : select_expired policy s e r = true -> moves (ar_state r) AllocationState.Expired = true.
Proof. unfold select_expired. intros [H%bool_decide_eq_true _]%andb_true_iff. by rewrite H. Qed.

#[export] Instance evolves_sweep_stale policy reason pool members count units :
  Within evolves (sweep (select_stale policy) AllocationState.Fenced reason pool members count units).
Proof. apply evolves_sweep; [done|apply stale_moves]. Qed.
#[export] Instance evolves_sweep_policy generation reason pool members count units :
  Within evolves (sweep (select_policy generation) AllocationState.Fenced reason pool members count units).
Proof. apply evolves_sweep; [done|apply policy_moves]. Qed.
#[export] Instance evolves_sweep_expired policy reason pool members count units :
  Within evolves (sweep (select_expired policy) AllocationState.Expired reason pool members count units).
Proof. apply evolves_sweep; [done|apply expired_moves]. Qed.

#[export] Instance evolves_fence_policy policy generation pools : Within evolves (fence_policy policy generation pools).
Proof. induction pools as [|p pools IH]; cbn [fence_policy]; apply _. Qed.

(** ** The operations *)

#[export] Instance untouched_gate : Within untouched require_open.
Proof. unfold require_open. apply _. Qed.
#[export] Instance untouched_shutdown_gate : Within untouched refuse_after_shutdown.
Proof. unfold refuse_after_shutdown. apply _. Qed.
#[export] Instance untouched_next_generation g message : Within untouched (next_generation g message).
Proof. unfold next_generation. destruct (add_overflow g 1). apply _. Qed.
#[export] Instance untouched_partitioned resource message : Within untouched (partitioned resource message).
Proof. unfold partitioned. apply _. Qed.
#[export] Instance untouched_checked_add a b message : Within untouched (checked_add a b message).
Proof. unfold checked_add. apply _. Qed.
#[export] Instance untouched_partition resource others raw missing exceeded :
  Within untouched (check_partition resource others raw missing exceeded).
Proof. unfold check_partition. apply _. Qed.
#[export] Instance untouched_update_queue k f : Within untouched (update_queue k f).
Proof. unfold update_queue. apply _. Qed.
#[export] Instance untouched_queue_at queue expected : Within untouched (require_queue_at queue expected).
Proof. unfold require_queue_at. apply _. Qed.
#[export] Instance untouched_pool_scope pool : Within untouched (pool_scope pool).
Proof. unfold pool_scope. apply _. Qed.

#[export] Instance evolves_fence_stale pool : Within evolves (fence_stale_locked pool).
Proof.
  unfold fence_stale_locked. apply within_bind; [apply _..|]. intros [[[e policy] ev] stamp].
  apply within_bind; [apply _..|]. intros [fenced units]. apply _.
Qed.
#[export] Instance evolves_expire pool : Within evolves (expire_reservations_locked pool).
Proof.
  unfold expire_reservations_locked. apply within_bind; [apply _..|]. intros [[[e policy] ev] stamp].
  apply within_bind; [apply _..|]. intros [fenced units]. apply _.
Qed.

#[export] Instance logged_journal_capacity c : Within logged (journal_capacity c).
Proof. apply within_journal_encoded. Qed.
#[export] Instance logged_journal_policy p : Within logged (journal_policy p).
Proof. apply within_journal_encoded. Qed.

#[export] Instance evolves_journal op payload : Within evolves (journal op payload) | 0.
Proof. apply evolves_untouched, untouched_hushed, hushed_logged, within_journal. Qed.

Section Operations.
#[local] Hint Extern 4 (forall n s, untouched s _) => (intros ? ?; split; reflexivity) : typeclass_instances.

#[export] Instance evolves_capacity_publish resource backend expected_raw expected a :
  Within evolves (capacity_publish resource backend expected_raw expected a).
Proof. unfold capacity_publish. walk. Qed.

#[export] Instance evolves_set_capacity attached resource backend expected_raw expected :
  Within evolves (set_capacity attached resource backend expected_raw expected).
Proof.
  unfold set_capacity. apply within_bind; [apply _| |].
  { unfold capacity_backend. apply _. }
  intros b. apply within_bind; [apply _| |].
  { unfold capacity_query. apply _. }
  intros a. apply within_bind; [apply _| |].
  { pose proof (capacity_program_logged b resource a). apply _. }
  intros []. apply _.
Qed.

#[export] Instance untouched_policy_revision policy : Within untouched (policy_revision policy).
Proof. unfold policy_revision. cbv zeta. apply _. Qed.

#[export] Instance untouched_store_policy p : Within untouched (store_policy p).
Proof. intros s. by split. Qed.
#[export] Instance untouched_store_pool d e : Within untouched (store_pool d e).
Proof. intros s. by split. Qed.
#[export] Instance untouched_store_queue q : Within untouched (store_queue q).
Proof. intros s. by split. Qed.
#[export] Instance untouched_drop_pool pool name : Within untouched (drop_pool pool name).
Proof. intros s. by split. Qed.

#[export] Instance evolves_publish_policy request : Within evolves (publish_policy request).
Proof. unfold publish_policy. walk. Qed.

#[export] Instance evolves_register_pool g : Within evolves (register_pool g).
Proof. unfold register_pool, check_parent. walk. Qed.

#[export] Instance evolves_remove_pool pool expected : Within evolves (remove_pool pool expected).
Proof. unfold remove_pool. walk. Qed.

#[export] Instance evolves_register_queue g : Within evolves (register_queue g).
Proof. unfold register_queue. walk. Qed.

#[export] Instance evolves_update_queue_demand queue demand expected :
  Within evolves (update_queue_demand queue demand expected).
Proof. unfold update_queue_demand. walk. Qed.

#[export] Instance evolves_fence_queue queue : Within evolves (fence_queue queue).
Proof. unfold fence_queue. walk. Qed.

#[export] Instance evolves_retire_queue queue expected : Within evolves (retire_queue queue expected).
Proof. unfold retire_queue. walk. Qed.

#[export] Instance evolves_retarget_queue queue new_pool expected : Within evolves (retarget_queue queue new_pool expected).
Proof. unfold retarget_queue. walk. Qed.

#[export] Instance evolves_observe_pressure x : Within evolves (observe_pressure x).
Proof. unfold observe_pressure, reject_pressure. walk. Qed.

#[export] Instance evolves_resize_pool pool raw protected expected : Within evolves (resize_pool pool raw protected expected).
Proof. unfold resize_pool, check_resize, enforce_capacity. walk. Qed.
End Operations.

(** ** Requests on one allocation *)

Lemma on_target_evolves kind attempt digest allocation expected body s :
  (forall t e, target_ok s kind attempt digest allocation t e -> wp (body t) s (fun _ => evolves s) (fun _ => evolves s)) ->
  wp (on_target kind attempt digest allocation expected body) s (fun _ => evolves s) (fun _ => evolves s).
Proof.
  intros Hb. apply wp_on_target; [intros; reflexivity| |exact Hb].
  intros d s' (a & _ & _ & _ & _ & _ & ->). by apply untouched_evolves.
Qed.

Lemma wp_rest {B} (m : M B) s0 s :
  Within evolves m -> untouched s0 s -> wp m s (fun _ => evolves s0) (fun _ => evolves s0).
Proof.
  intros Hm Hs%untouched_evolves. eapply wp_mono; [apply Hm| |]; intros ? s' Hs'; by transitivity s.
Qed.

#[export] Instance evolves_commit rq : Within evolves (commit_locked rq).
Proof.
  intros s. apply on_target_evolves. intros t e [(_ & _ & _ & Hkey) _ Hr _ _ _ _]. unfold commit_target. cbv zeta.
  apply wp_before; [apply _|reflexivity|]. intros e1 s1 H1. apply wp_before; [apply _|done|]. intros epoch s2 H2.
  apply wp_before; [apply _|done|]. intros [] s3 H3. wp_step. wp_step; [by apply untouched_evolves|].
  match goal with H : negb (bool_decide _) = false |- _ => rename H into Hst end.
  apply negb_false_iff, bool_decide_eq_true in Hst. do 2 (apply wp_before; [apply _|done|]; intros ? ? ?).
  apply wp_before; [apply _|done|]. intros [] s4 H4. rewrite Hkey.
  eapply wp_write; [done|done| |intros []; walk]. split; try done; simpl; rewrite Hst; done.
Qed.

#[export] Instance evolves_revalidate rq : Within evolves (revalidate_locked rq).
Proof.
  intros s. apply on_target_evolves. intros t e [(_ & _ & _ & Hkey) _ Hr _ _ _ _]. unfold revalidate_target. cbv zeta.
  apply wp_before; [apply _|reflexivity|]. intros e1 sx Hx. apply wp_before; [apply _|done|]. intros s1 sy Hy. wp_step. wp_step; [by apply untouched_evolves|].
  match goal with H : negb (allocation_holds_units _) = false |- _ => rename H into Hh end. apply negb_false_iff in Hh.
  apply wp_before; [apply _|done|]. intros [] sa Ha. case_match; [apply wp_rest; [walk|done]|].
  apply wp_before; [apply _|done|]. intros [] sb Hb. rewrite Hkey.
  eapply wp_write; [done|done| |intros []; walk]. split; try done; [apply moves_refl|simpl; congruence].
Qed.

Lemma release_evolves rq s :
  Inv s -> 0 <= rq_units rq -> wp (release_locked rq) s (fun _ => evolves s) (fun _ => evolves s).
Proof.
  intros HI Hq. apply on_target_evolves. intros t e [(_ & _ & _ & Hkey) _ Hr He _ _ _]. unfold release_target. cbv zeta.
  destruct (allocation_holds_units (ar_state (tg_record t))) eqn:Hh.
  2: { replace (_ || _) with true by (by destruct (ar_state (tg_record t))). apply wp_rest; [walk|done]. }
  replace (_ || _) with false by (by destruct (ar_state (tg_record t))).
  pose proof (record_units_small s _ _ e HI Hr He Hh) as Hsm. unfold kMaxOwnUsage in Hsm.
  wp_step. apply wp_release_amount; [lia|done|reflexivity|]. intros amount Ha _.
  destruct (remainder_facts t amount Ha) as (Hid & Hp & Hu & Hst); [u64_lia|].
  apply wp_before; [apply _|done|]. intros [] s1 H1. apply wp_before; [apply _|done|]. intros [] s2 H2. rewrite Hkey.
  eapply wp_write; [done|done| |intros []; unfold count_release; walk].
  split; [done|done| | |lia| |congruence].
  - unfold remainder_part. simpl. by destruct (sub64 _ _ =? 0).
  - unfold remainder_part. simpl. by destruct (sub64 _ _ =? 0).
  - rewrite Hst. case_decide; [|apply moves_refl]. revert Hh. clear. by destruct (ar_state (tg_record t)).
Qed.

(** ** Allocation *)

(** A grant opens one record, under the next id. *)
Lemma allocate_evolves rq s :
  Inv s -> 0 <= aq_requested_units rq -> wp (allocate_locked rq) s (fun _ => evolves s) (fun _ => evolves s).
Proof.
  intros HI Hu. eapply wp_mono; [by apply allocate_locked_outcome| |].
  - intros d s' [(a & _ & _ & _ & ->)|(_ & e & cx & _ & [(_ & _ & Hq)|(r & next & s1 & Hg & Hgr & Hq)])].
    + by apply untouched_evolves.
    + by apply untouched_evolves, quiet_untouched.
    + transitivity s1; [|by apply untouched_evolves, quiet_untouched].
      destruct Hg as [_ _ _ _ Hrec _ _ _]. destruct Hrec as [Hid Hnext _ _ _ _ _ _ _ _ _ _].
      destruct Hgr as (s0 & pools & (store & metrics & ->) & -> & _). split; simpl.
      * intros k r0 Hk. exists r0. split; [|reflexivity]. rewrite lookup_insert_ne; [done|].
        pose proof (inv_ids s HI k r0 Hk). lia.
      * lia.
      * intros k r0 Hk. destruct (decide (k = ar_id r)) as [->|Hne]; [left; lia|].
        right. rewrite lookup_insert_ne in Hk by done. by exists r0.
  - intros e s' Hq. by apply untouched_evolves, quiet_untouched.
Qed.

(** Planning only reads. *)
Lemma scratch_quiet {A} (m : M A) : Hushed m -> Hushed (with_scratch_events m).
Proof.
  intros Hm s. specialize (Hm (s <| im_events := [] |>)). unfold wp, with_scratch_events in *.
  destruct (m _) as [[a|e] s']; (transitivity s'; [by transitivity (s <| im_events := [] |>)|done]).
Qed.

Lemma hushed_plan rq : Hushed (plan_reclaim rq).
Proof. apply scratch_quiet. unfold plan_reclaim_locked, require_open. apply _. Qed.

#[export] Instance evolves_reclaim rq : Within evolves (apply_reclaim_locked rq).
Proof.
  assert (Hushed (with_scratch_events (plan_reclaim_locked rq))) as Hp by apply hushed_plan.
  unfold apply_reclaim_locked. apply within_bind; [apply _|by apply evolves_untouched, untouched_hushed|]. intros plan. walk.
Qed.
