(* ===== verification/System.v ===== *)
(** * The running fabric

    The public operations as one transition system: [perform] is what an operation does
    under the lock, [step] runs one of them at any time of the clock, and [reachable] is any
    sequence of steps, refused and failed ones included. Every reachable state satisfies the
    invariant, and along every run each allocation moves only along the edges of its state
    machine. *)

From S2P Require Import Prelude Ints Hash Enums Status Codec Model Wire Policy Accounting Authority Persist State Grant Alloc Lifecycle Books Triples Layout Safety AllocSafety LifeSafety Topology Revoke Resize TopoSafety Query QuerySafety Ledger History Recovery.

(** ** Operations *)

(** [set_capacity] drops the lock to ask the backend and takes it again to publish:
    [OpCapacityPublish] is that second section alone, for any answer and after whatever other
    operations ran in between. *)
Inductive Op :=
| OpAllocate (rq : AllocateRequest) | OpCommit (rq : CommitRequest) | OpRelease (rq : ReleaseRequest)
| OpRevalidate (rq : RevalidateRequest) | OpFenceStale (pool : Z) | OpExpireReservations (pool : Z)
| OpEvaluate (rq : EvaluateRequest) | OpPlanReclaim (rq : ReclaimRequest) | OpApplyReclaim (rq : ReclaimRequest)
| OpSetCapacity (attached : Z -> option IBackend) (resource backend expected_raw expected : Z)
| OpCapacityPublish (resource backend expected_raw expected : Z) (authority : CapacityAuthority)
| OpPublishPolicy (request : PoolPolicy) | OpRegisterPool (g : PoolRegistration) | OpRemovePool (pool expected : Z)
| OpResizePool (pool raw protected expected : Z) | OpRegisterQueue (g : QueueRegistration)
| OpUpdateQueueDemand (queue demand expected : Z) | OpRetireQueue (queue expected : Z)
| OpRetargetQueue (queue pool expected : Z) | OpObservePressure (x : PressureSnapshot)
| OpCheckpoint | OpBeginShutdown | OpOpen (c : FabricConfig) (boot : BootIncarnation) | OpClose
| OpAttachBackend (id kind generation : Z) (ready : bool).

Definition ignore {A} (m : M A) : M unit := let* _ := m in ret tt.

Definition perform (op : Op) : M unit :=
  match op with
  | OpAllocate rq => ignore (allocate_locked rq)
  | OpCommit rq => ignore (commit_locked rq)
  | OpRelease rq => ignore (release_locked rq)
  | OpRevalidate rq => ignore (revalidate_locked rq)
  | OpFenceStale pool => ignore (fence_stale pool)
  | OpExpireReservations pool => ignore (expire_reservations pool)
  | OpEvaluate rq => ignore (evaluate rq)
  | OpPlanReclaim rq => ignore (plan_reclaim rq)
  | OpApplyReclaim rq => ignore (apply_reclaim rq)
  | OpSetCapacity attached resource backend expected_raw expected =>
      ignore (set_capacity attached resource backend expected_raw expected)
  | OpCapacityPublish resource backend expected_raw expected authority =>
      ignore (capacity_publish resource backend expected_raw expected authority)
  | OpPublishPolicy request => ignore (publish_policy request)
  | OpRegisterPool g => ignore (register_pool g)
  | OpRemovePool pool expected => remove_pool pool expected
  | OpResizePool pool raw protected expected => ignore (resize_pool pool raw protected expected)
  | OpRegisterQueue g => ignore (register_queue g)
  | OpUpdateQueueDemand queue demand expected => ignore (update_queue_demand queue demand expected)
  | OpRetireQueue queue expected => retire_queue queue expected
  | OpRetargetQueue queue pool expected => retarget_queue queue pool expected
  | OpObservePressure x => observe_pressure x
  | OpCheckpoint => checkpoint
  | OpBeginShutdown => begin_shutdown
  | OpOpen c boot => open c boot
  | OpClose => close
  | OpAttachBackend id kind generation ready => attach_backend id kind generation ready
  end.

(** What the types of the arguments give; for a release the two conditions under which it
    is known to keep the books: no 64-bit wrap in the proportional return of borrowed units,
    and no journal to fail; and for [open], that it recovers nothing from files. *)
Definition admitted (op : Op) (s : Impl) : Prop :=
  match op with
  | OpAllocate rq => 0 <= aq_requested_units rq
  | OpRelease rq => 0 <= rq_units rq /\ durable s = false /\
      forall r, im_allocations s !! rq_allocation rq = Some r -> effective_borrow r * ar_units r <= u64_max
  | OpApplyReclaim rq => 0 <= lq_target_units rq
  | OpPublishPolicy request => policy_fields request
  | OpRegisterPool g => is_u64 (pg_raw_units g) /\ is_u64 (pg_protected_units g)
  | OpResizePool _ raw protected _ => is_u64 raw /\ is_u64 protected
  | OpOpen c _ => pc_mode (fc_persistence c) = DurabilityMode.None /\ 0 <= fc_attempt_memory_capacity c
  | _ => True
  end.

Inductive step (s s' : Impl) : Prop :=
| step_op now op : admitted op s -> s' = snd (operation now (perform op) s) -> step s s'.

Inductive reachable (s : Impl) : Impl -> Prop :=
| reachable_refl : reachable s s
| reachable_step s1 s2 : reachable s s1 -> step s1 s2 -> reachable s s2.

(** ** The invariant along every run *)

(** A lookup in an empty table, up to conversion. *)
Ltac empty H := exfalso; exact (lookup_empty_Some (M := gmap Z) _ _ H) || exact (lookup_empty_Some (M := gmap string) _ _ H).

(** A fabric just constructed. *)
Lemma constructed_inv : Inv default_Impl.
Proof.
  split; try (intros ? ? H; empty H).
  - split; intros ? ? H; empty H.
  - simpl; u64_lia.
  - unfold layout. simpl. rewrite fmap_empty. split; simpl.
    + exists (fun _ => 0%nat). intros p d H. empty H.
    + intros r (p & d & H & _). empty H.
    + intros p d H. empty H.
    + intros k q H. empty H.
    + intros n k. split; [intros H; empty H|]. intros (d & H & _). empty H.
    + intros n k. split; [intros H; empty H|]. intros (d & H & _). empty H.
Qed.

(** Operations whose outcome, whatever it is, satisfies the invariant. *)
Class Keeps {A} (m : M A) (s : Impl) : Prop := keeps : wp m s (fun _ => Inv) (fun _ => Inv).

Lemma keeps_run {A} (m : M A) s : Keeps m s -> Inv (snd (m s)).
Proof. unfold Keeps, wp. by destruct (m s) as [[]]. Qed.

Lemma keeps_ignore {A} (m : M A) s : Keeps m s -> Keeps (ignore m) s.
Proof. intros H. unfold Keeps, ignore. apply wp_bind. eapply wp_mono; [exact H| |done]. intros a s' H'. exact H'. Qed.

Lemma keeps_wp {A} (m : M A) s (Q : A -> Impl -> Prop) (E : Status -> Impl -> Prop) :
  wp m s Q E -> (forall a s', Q a s' -> Inv s') -> (forall e s', E e s' -> Inv s') -> Keeps m s.
Proof. intros Hwp HQ HE. exact (wp_mono m s _ _ _ _ Hwp HQ HE). Qed.

Lemma keeps_quiet {A} (m : M A) s : Inv s -> Hushed m -> Keeps m s.
Proof. intros HI Hm. apply (keeps_wp m s _ _ (Hm s)); intros ? s' Hq; by rewrite <- Hq. Qed.

Lemma keeps_refuse {A} (m : M A) s : Inv s -> Keeps m s -> Keeps (refuse_after_shutdown ;;; m) s.
Proof. intros HI Hm. unfold Keeps. apply wp_bind, wp_refuse_after_shutdown; [done|exact Hm]. Qed.

Lemma hushed_evaluate rq : Hushed (evaluate rq).
Proof. unfold evaluate, require_open. apply _. Qed.

Lemma hushed_checkpoint : Hushed checkpoint.
Proof. unfold checkpoint, require_open, write_full_snapshot. apply _. Qed.

Lemma keeps_sound {A} (m : M A) s (Q : A -> Impl -> Prop) (E : Status -> Impl -> Prop) :
  wp m s Q E -> (forall a s', Q a s' -> sound s s') -> (forall e s', E e s' -> sound s s') -> Keeps m s.
Proof. intros Hwp HQ HE. apply (keeps_wp m s Q E Hwp); [intros ? ? []%HQ|intros ? ? []%HE]; done. Qed.

Lemma keeps_refused {A} (m : M A) s (Q : A -> Impl -> Prop) :
  wp m s Q (fun _ => refused s) -> (forall a s', Q a s' -> sound s s') -> Keeps m s.
Proof. intros Hwp HQ. apply (keeps_sound m s _ _ Hwp HQ). by intros ? ? [? _]. Qed.

(** The lifecycle operations write nothing that the invariant or the histories speak of. *)
Definition administrative (s s' : Impl) : Prop := (Inv s -> Inv s') /\ untouched s s'.

#[export] Instance administrative_preorder : PreOrder administrative.
Proof.
  split; [by split|]. intros s1 s2 s3 [H1 U1] [H2 U2]. split; [auto|by transitivity s2].
Qed.

#[export] Instance administrative_hushed {A} (m : M A) : Hushed m -> Within administrative m | 20.
Proof.
  intros Hm s. eapply wp_mono; [apply Hm| |]; intros ? s' Hq; (split; [by rewrite Hq|by apply quiet_untouched]).
Qed.

Lemma administrative_modify f : (forall s, administrative s (f s)) -> Within administrative (modify f).
Proof. intros Hf s. apply Hf. Qed.

#[export] Hint Extern 5 (Within administrative (modify _)) =>
  (apply administrative_modify; intros ?; split; [intros []; by split|by split]) : typeclass_instances.

Lemma within_on_failure {A} R `{!PreOrder R} (m : M A) f :
  Within R m -> (forall s, R s (f s)) -> Within R (on_failure m f).
Proof.
  intros Hm Hf s. specialize (Hm s). unfold wp, on_failure in *. destruct (m s) as [[a|e] s']; [done|]. by transitivity s'.
Qed.

Lemma administrative_close_store s : administrative s (close_store s).
Proof. split; [intros []; by split|by split]. Qed.

#[export] Instance administrative_shutdown : Within administrative begin_shutdown.
Proof. unfold begin_shutdown. apply _. Qed.

#[export] Instance administrative_close : Within administrative close.
Proof. unfold close. apply _. Qed.

#[export] Instance administrative_attach id kind generation ready : Within administrative (attach_backend id kind generation ready).
Proof. unfold attach_backend. apply _. Qed.

Lemma administrative_open c boot :
  pc_mode (fc_persistence c) = DurabilityMode.None -> Within administrative (open c boot).
Proof.
  intros Hm. unfold open, check_config. rewrite Hm. cbv zeta. simpl (negb _). cbv iota.
  destruct (add_overflow 0 1) as [o n] eqn:Ho.
  repeat (apply within_bind; [apply _|first [apply _|apply within_on_failure; [apply _|apply _|apply administrative_close_store]]|intros ?]).
  apply _.
Qed.

Section Perform.
Context (s : Impl) (HI : Inv s).

Lemma allocate_keeps_inv rq : 0 <= aq_requested_units rq -> Keeps (allocate_locked rq) s.
Proof using HI. intros Hu. pose proof (allocate_keeps rq s HI Hu) as [H _]. unfold Keeps, wp. by destruct (allocate_locked rq s) as [[]]. Qed.

Lemma commit_keeps rq : Keeps (commit_locked rq) s.
Proof using HI.
  apply (keeps_wp _ _ _ _ (commit_locked_outcome rq s HI)); [|done].
  intros d s' [H|(r & e & p & r' & _ & _ & _ & _ & _ & _ & _ & [H _])]; [|done]. by destruct (replayed_sound _ _ _ _ _ HI H).
Qed.

Lemma release_keeps rq :
  0 <= rq_units rq -> durable s = false ->
  (forall r, im_allocations s !! rq_allocation rq = Some r -> effective_borrow r * ar_units r <= u64_max) ->
  Keeps (release_locked rq) s.
Proof using HI.
  intros Hq Hd Hfit. apply (keeps_wp _ _ _ _ (release_locked_outcome rq s HI Hq Hfit)).
  - intros d s' [H|(r & _ & [[_ H]|(amount & rest & _ & _ & _ & _ & _ & _ & _ & _ & [H _])])]; [|by rewrite <- H|done].
    by destruct (replayed_sound _ _ _ _ _ HI H).
  - intros e s' H. by eapply kept_without_journal.
Qed.

Lemma revalidate_keeps rq : Keeps (revalidate_locked rq) s.
Proof using HI.
  apply (keeps_sound _ _ _ _ (revalidate_locked_outcome rq s HI)); [|done].
  intros d s' [H|H]; [by eapply replayed_sound|by eapply revalidated_sound].
Qed.

Lemma fence_stale_keeps pool : Keeps (fence_stale pool) s.
Proof using HI.
  apply keeps_refuse; [done|]. apply (keeps_sound _ _ _ _ (fence_stale_outcome pool s HI)); [|done].
  intros d s' (e & p & _ & _ & Hsw). apply Hsw.
Qed.

Lemma expire_keeps pool : Keeps (expire_reservations pool) s.
Proof using HI.
  apply keeps_refuse; [done|]. apply (keeps_sound _ _ _ _ (expire_outcome pool s HI)); [|done].
  intros d s' (e & p & _ & _ & Hsw). apply Hsw.
Qed.

Lemma reclaim_keeps rq : 0 <= lq_target_units rq -> Keeps (apply_reclaim rq) s.
Proof using HI.
  intros Ht. apply keeps_refuse; [done|]. by apply (keeps_wp _ _ _ _ (apply_reclaim_outcome rq s HI Ht)); [intros o s' [_ []]|intros e s' []].
Qed.

Lemma set_capacity_keeps attached resource backend expected_raw expected :
  Keeps (set_capacity attached resource backend expected_raw expected) s.
Proof using HI.
  apply (keeps_refused _ _ _ (set_capacity_outcome attached resource backend expected_raw expected s HI)).
  intros g s' (? & ? & ? & _ & _ & _ & _ & _ & [H _]). exact H.
Qed.

Lemma capacity_publish_keeps resource backend expected_raw expected a :
  Keeps (capacity_publish resource backend expected_raw expected a) s.
Proof using HI.
  apply (keeps_refused _ _ _ (capacity_publish_outcome s s resource backend expected_raw expected a HI (refused_refl s HI) eq_refl)).
  intros g s' (_ & now & [H _]). exact H.
Qed.

Lemma publish_policy_keeps request : policy_fields request -> Keeps (publish_policy request) s.
Proof using HI.
  intros Hp. apply (keeps_sound _ _ _ _ (publish_policy_outcome request s HI Hp)); [|done]. intros g s' [[[H _] _]|[H _]]; exact H.
Qed.

Lemma register_pool_keeps g : is_u64 (pg_raw_units g) -> is_u64 (pg_protected_units g) -> Keeps (register_pool g) s.
Proof using HI.
  intros Hr Hp. apply (keeps_refused _ _ _ (register_pool_outcome g s HI Hr Hp)). intros id s' (now & _ & _ & _ & _ & H & _). exact H.
Qed.

Lemma remove_pool_keeps pool expected : Keeps (remove_pool pool expected) s.
Proof using HI. apply (keeps_refused _ _ _ (remove_pool_outcome pool expected s HI)). intros ? s' []. done. Qed.

Lemma resize_keeps pool raw protected expected : is_u64 raw -> is_u64 protected -> Keeps (resize_pool pool raw protected expected) s.
Proof using HI.
  intros Hr Hp. by apply (keeps_wp _ _ _ _ (resize_outcome pool raw protected expected s HI Hr Hp)); [intros o s' [_ []]|intros e s' []].
Qed.

Lemma register_queue_keeps g : Keeps (register_queue g) s.
Proof using HI. apply (keeps_refused _ _ _ (register_queue_outcome g s HI)). intros id s' (now & _ & _ & _ & _ & _ & _ & _ & H & _). exact H. Qed.

Lemma update_demand_keeps queue demand expected : Keeps (update_queue_demand queue demand expected) s.
Proof using HI.
  apply (keeps_sound _ _ _ _ (update_queue_demand_outcome queue demand expected s HI)); [|by intros ? ? []].
  intros g s' (q & now & _ & _ & _ & _ & [H _]). exact H.
Qed.

Lemma stay : sound s s.
Proof using HI. by split. Qed.

Lemma retire_queue_keeps queue expected : Keeps (retire_queue queue expected) s.
Proof using HI.
  apply (keeps_sound _ _ _ _ (retire_queue_outcome queue expected s HI)); [|done].
  intros ? s' (q & _ & [[_ ->]|(_ & b & [] & _)]); [apply stay|done].
Qed.

Lemma retarget_queue_keeps queue pool expected : Keeps (retarget_queue queue pool expected) s.
Proof using HI.
  apply (keeps_sound _ _ _ _ (retarget_queue_outcome queue pool expected s HI)); [|done].
  intros ? s' (q & _ & _ & _ & [[_ ->]|[_ []]]); [apply stay|done].
Qed.

Lemma observe_pressure_keeps x : Keeps (observe_pressure x) s.
Proof using HI. apply (keeps_refused _ _ _ (observe_pressure_outcome x s HI)). intros ? s' []. done. Qed.

Lemma keeps_administrative {A} (m : M A) : Within administrative m -> Keeps m s.
Proof using HI. intros Hm. apply (keeps_wp _ _ _ _ (Hm s)); intros ? s' [H _]; auto. Qed.

Lemma perform_keeps op : admitted op s -> Keeps (perform op) s.
Proof using HI.
  destruct op; simpl; intros Hop; try apply keeps_ignore.
  - by apply allocate_keeps_inv.
  - apply commit_keeps.
  - destruct Hop as (? & ? & ?). by apply release_keeps.
  - apply revalidate_keeps.
  - apply fence_stale_keeps.
  - apply expire_keeps.
  - apply keeps_quiet, hushed_evaluate. exact HI.
  - apply keeps_quiet, hushed_plan. exact HI.
  - by apply reclaim_keeps.
  - apply set_capacity_keeps.
  - apply capacity_publish_keeps.
  - by apply publish_policy_keeps.
  - destruct Hop. by apply register_pool_keeps.
  - apply remove_pool_keeps.
  - destruct Hop. by apply resize_keeps.
  - apply register_queue_keeps.
  - apply update_demand_keeps.
  - apply retire_queue_keeps.
  - apply retarget_queue_keeps.
  - apply observe_pressure_keeps.
  - apply keeps_quiet, hushed_checkpoint. exact HI.
  - by apply keeps_administrative, administrative_shutdown.
  - destruct Hop. by apply keeps_administrative, administrative_open.
  - by apply keeps_administrative, administrative_close.
  - by apply keeps_administrative, administrative_attach.
Qed.
End Perform.

(** The lock sets the clock and empties the event vector. *)
Lemma Inv_locked s now : Inv s -> Inv (s <| im_tick := now |> <| im_events := [] |>).
Proof. intros []. by split. Qed.

(** What [admitted] asks does not depend on the clock. *)
Lemma admitted_locked op s now : admitted op s -> admitted op (s <| im_tick := now |> <| im_events := [] |>).
Proof. by destruct op. Qed.

Lemma step_keeps s s' : Inv s -> step s s' -> Inv s'.
Proof.
  intros HI [now op Hop ->]. unfold operation.
  exact (keeps_run _ _ (perform_keeps _ (Inv_locked s now HI) op (admitted_locked op s now Hop))).
Qed.

Lemma reachable_inv s s' : Inv s -> reachable s s' -> Inv s'.
Proof. induction 2; [done|]. by eapply step_keeps. Qed.

(** ** Histories *)

Lemma evolves_ignore {A} (m : M A) : Within evolves m -> Within evolves (ignore m).
Proof. intros Hm. unfold ignore. apply _. Qed.

Lemma evolves_refuse {A} (m : M A) : Within evolves m -> Within evolves (refuse_after_shutdown ;;; m).
Proof. intros Hm. apply _. Qed.

Lemma wp_ignore {A} (m : M A) s R :
  wp m s (fun _ => R) (fun _ => R) -> wp (ignore m) s (fun _ => R) (fun _ => R).
Proof. intros Hm. unfold ignore. apply wp_bind. eapply wp_mono; [exact Hm| |done]. intros a s' H. exact H. Qed.

Lemma untouched_administrative {A} (m : M A) : Within administrative m -> Within untouched m.
Proof. intros Hm s. eapply wp_mono; [apply Hm| |]; by intros ? s' [_ H]. Qed.

Lemma perform_evolves op s :
  Inv s -> admitted op s -> wp (perform op) s (fun _ => evolves s) (fun _ => evolves s).
Proof.
  intros HI. destruct op; simpl; intros Hop; try apply wp_ignore.
  - by apply allocate_evolves.
  - apply evolves_commit.
  - destruct Hop as (? & _). by apply release_evolves.
  - apply evolves_revalidate.
  - by apply evolves_refuse, evolves_fence_stale.
  - by apply evolves_refuse, evolves_expire.
  - apply evolves_untouched, untouched_hushed, hushed_evaluate.
  - apply evolves_untouched, untouched_hushed, hushed_plan.
  - apply evolves_refuse, evolves_reclaim.
  - apply evolves_set_capacity.
  - apply evolves_capacity_publish.
  - apply evolves_publish_policy.
  - apply evolves_register_pool.
  - apply evolves_remove_pool.
  - apply evolves_resize_pool.
  - apply evolves_register_queue.
  - apply evolves_update_queue_demand.
  - apply evolves_retire_queue.
  - apply evolves_retarget_queue.
  - apply evolves_observe_pressure.
  - apply evolves_untouched, untouched_hushed, hushed_checkpoint.
  - apply evolves_untouched, untouched_administrative, _.
  - destruct Hop. by apply evolves_untouched, untouched_administrative, administrative_open.
  - apply evolves_untouched, untouched_administrative, _.
  - apply evolves_untouched, untouched_administrative, _.
Qed.

Lemma step_evolves s s' : Inv s -> step s s' -> evolves s s'.
Proof.
  intros HI [now op Hop ->]. unfold operation.
  pose proof (perform_evolves op _ (Inv_locked s now HI) (admitted_locked op s now Hop)) as H. unfold wp in H.
  unfold sm_bind, modify, sm_modify.
  destruct (perform op _) as [[a|e] s1]; destruct H; by split.
Qed.

Lemma reachable_evolution s s' : Inv s -> reachable s s' -> evolves s s'.
Proof.
  intros HI Hr. induction Hr as [|s1 s2 Hr IH Hs]; [reflexivity|].
  transitivity s1; [done|]. apply step_evolves; [by eapply reachable_inv|done].
Qed.

(** ** Runs *)

(** A list of operations, each with the time at which it takes the lock. *)
Definition run (ops : list (Z * Op)) (s : Impl) : Impl :=
  fold_left (fun s '(now, op) => snd (operation now (perform op) s)) ops s.

Fixpoint all_admitted (ops : list (Z * Op)) (s : Impl) : Prop :=
  match ops with
  | [] => True
  | (now, op) :: ops => admitted op s /\ all_admitted ops (snd (operation now (perform op) s))
  end.

Lemma run_reachable ops s : all_admitted ops s -> reachable s (run ops s).
Proof.
  revert s. assert (forall l s0 s, reachable s0 s -> all_admitted l s -> reachable s0 (run l s)) as H.
  { induction l as [|[now op] l IH]; intros s0 s Hr; simpl; [done|]. intros [Ha Hl]. apply IH; [|done].
    eapply reachable_step; [done|]. by apply (step_op s _ now op). }
  intros s. apply H. constructor.
Qed.

(** ** Properties *)

(** C1. In every state that a run reaches, the books balance. A run starts at a fabric just
    constructed and performs operations in any order, at any times and with any answers, those
    that are refused, that fail half way or that stop the fabric included, as long as each is
    [admitted]: the numbers of an allocation, a reclamation, a policy, a registration or a
    resize are unsigned 64-bit ones as the code's types have them; the fabric is opened without
    a journal ([DurabilityMode.None]; recovery is the matter of [Restart]); and when an
    allocation is released, the product of its borrowed and its total units, which the code
    computes unchecked, fits 64 bits. In every such state every counter of every pool is
    exactly the sum of what the allocation table contributes to it, every lender is owed what
    borrowers hold, no counter wraps, the pools form a forest within their capacity, and an
    audit that recomputes everything from the table reports what the live counters report. *)
Theorem reachable_books (s : Impl) :
  reachable default_Impl s ->
  Inv s /\ (forall p e f, im_pools s !! p = Some e -> counter f e = total_of (share f p) (im_allocations s)) /\
  total pa_borrowed_in (pool_ledger s) = total pa_lent_out (pool_ledger s) /\
  deep_verify s = fs_accounting (summary_of s).
Proof.
  intros Hr. pose proof (reachable_inv _ _ constructed_inv Hr) as HI. split; [done|]. split.
  - intros p e f He. by destruct (bk_entry _ _ (inv_books s HI) p e He) as [_ HC _ _ _].
  - split; [by apply ledger_borrowed_lent|by apply audit_is_summary].
Qed.

(** C2. Along every run of [admitted] operations (see [reachable_books]: no journal, and no release
    whose proportional share wraps) from a fabric whose books balance, each allocation record
    stays in the table under its id, for the same pool, queue and attempt; its units never
    grow; its state follows the edges of the state machine of the code, in which units once
    fenced, reclaimed, released or expired are never held again and such a record never
    changes (revalidation refuses it, although a comment in [allocation.hpp] says that a
    fenced one can be revalidated); and no id is used for a second allocation. *)
Theorem reachable_evolves (s s' : Impl) : Inv s -> reachable s s' -> evolves s s'.
Proof. exact (reachable_evolution s s'). Qed.

(** ** A whole run *)

Definition sample_backend : IBackend :=
  mkIBackend true (fun r => Good (mkCapacityAuthority r 1 1 2000 0 true)) (fun _ _ _ => Good tt).

(** From construction to a fabric with one grant: a hundred units, twenty of them borrowed. *)
Definition sample_start : list (Z * Op) := [
  (1, OpOpen default_FabricConfig (mkBootIncarnation 3 4));
  (2, OpAttachBackend 1 0 1 true);
  (3, OpSetCapacity (fun _ => Some sample_backend) 3 1 0 0);
  (4, OpPublishPolicy (sample_policy <| pol_id := 0 |> <| pol_name := "p"%string |>));
  (5, OpRegisterPool (mkPoolRegistration 0 "root" 3 1 1000 0 0 1 0 0));
  (6, OpRegisterPool (mkPoolRegistration 0 "leaf" 3 1 100 20 1 1 0 0));
  (7, OpRegisterQueue (default_QueueRegistration <| qg_name := "rx"%string |> <| qg_pool := 2 |>));
  (8, OpObservePressure (default_PressureSnapshot <| ps_pool := 2 |> <| ps_epoch := 1 |> <| ps_pool_generation := 1 |>
        <| ps_ttl_ticks := 100 |>));
  (9, OpAllocate (default_AllocateRequest <| aq_attempt := 1 |> <| aq_pool := 2 |> <| aq_queue := 1 |>
        <| aq_requested_units := 100 |>))].

(** Then part of it is released, a reservation made, and the queue retired. *)
Definition sample_end : list (Z * Op) := [
  (10, OpRelease (default_ReleaseRequest <| rq_attempt := 2 |> <| rq_allocation := 1 |> <| rq_release_all := false |>
         <| rq_units := 40 |>));
  (11, OpAllocate (default_AllocateRequest <| aq_attempt := 3 |> <| aq_pool := 2 |> <| aq_queue := 1 |>
         <| aq_requested_units := 10 |> <| aq_commit_immediately := false |>));
  (12, OpRetireQueue 1 0)].

Definition sample_running : Impl := run sample_start default_Impl.
Definition sample_stopped : Impl := run sample_end sample_running.

Lemma start_admitted : all_admitted sample_start default_Impl.
Proof.
  cbn [all_admitted sample_start admitted].
  repeat split; vm_compute; try reflexivity; try discriminate.
Qed.

Lemma end_admitted : all_admitted sample_end sample_running.
Proof.
  cbn [all_admitted sample_end admitted]. split; [split; [vm_compute; discriminate|split; [vm_compute; reflexivity|]]|].
  2: { split; [vm_compute; discriminate|split; exact I]. }
  intros r Hr.
  assert ((fun r => effective_borrow r * ar_units r <=? u64_max) <$> im_allocations sample_running !! 1 = Some true) as H
    by (vm_compute; reflexivity).
  change (im_allocations sample_running !! 1 = Some r) in Hr. rewrite Hr in H. apply Z.leb_le. by injection H.
Qed.

Lemma reachable_books_witness :
  im_allocations sample_running !! 1 <> None /\ total pa_borrowed_in (pool_ledger sample_running) = 20 /\
  deep_verify sample_running = fs_accounting (summary_of sample_running).
Proof.
  split; [vm_compute; discriminate|]. split; [vm_compute; reflexivity|].
  by destruct (reachable_books sample_running (run_reachable _ _ start_admitted)) as (_ & _ & _ & H).
Defined.

Lemma reachable_evolves_witness :
  evolves sample_running sample_stopped /\
  (fun r => (ar_units r, ar_state r)) <$> im_allocations sample_running !! 1 = Some (100, AllocationState.Committed) /\
  (fun r => (ar_units r, ar_state r)) <$> im_allocations sample_stopped !! 1 = Some (60, AllocationState.Fenced).
Proof.
  split; [|split; vm_compute; reflexivity].
  apply (reachable_evolves sample_running sample_stopped); [|apply run_reachable, end_admitted].
  exact (reachable_inv _ _ constructed_inv (run_reachable _ _ start_admitted)).
Defined.
