(* ===== verification/RecoverySafety.v ===== *)
(** * Properties of recovery

    What the image decoder makes of an image that the encoder wrote, and what the journal
    replay makes of a record that an operation journaled. *)

From S2P Require Import Prelude Ints Hash Enums Status Codec Model Wire Policy Accounting Authority Persist State Grant Alloc Lifecycle Books Triples Layout Safety Topology Recovery.

(** ** Decoding steps *)

(** [m] consumes exactly [bs], wherever they stand, returns [a] and changes the tables by [f]. *)
Definition loads {A} (m : Load A) (bs : list Z) (a : A) (f : Impl -> Impl) : Prop := forall pre rest s,
  m (mkReader (pre ++ bs ++ rest) (length pre) false, s) =
  (Good a, (mkReader (pre ++ bs ++ rest) (length pre + length bs) false, f s)).

Lemma loads_ret {A} (a : A) : loads (sm_ret a) [] a (fun s => s).
Proof. intros pre rest s. unfold sm_ret. simpl. by rewrite Nat.add_0_r. Qed.

Lemma loads_bind {A B} (m : Load A) (k : A -> Load B) bs cs a b f g :
  loads m bs a f -> loads (k a) cs b g -> loads (sm_bind m k) (bs ++ cs) b (fun s => g (f s)).
Proof.
  intros Hm Hk pre rest s. unfold sm_bind. rewrite <- app_assoc, (Hm pre (cs ++ rest)).
  specialize (Hk (pre ++ bs) rest (f s)). rewrite <- app_assoc, length_app in Hk. rewrite Hk.
  by rewrite length_app, Nat.add_assoc.
Qed.

Lemma loads_field {A} (g : Reader A) message bs a : reads g bs a -> loads (field g message) bs a (fun s => s).
Proof. intros Hg pre rest s. unfold field. by rewrite Hg. Qed.

Lemma loads_store f : loads (store f) [] tt f.
Proof. intros pre rest s. unfold store, sm_modify. simpl. by rewrite Nat.add_0_r. Qed.

Lemma loads_check c message : c = false -> loads (corrupt_when c message) [] tt (fun s => s).
Proof. intros ->. exact (loads_ret tt). Qed.

(** A check that passes and reads nothing. *)
Lemma loads_checked {B} c message (m : Load B) bs b f :
  c = false -> loads m bs b f -> loads (corrupt_when c message ;;; m) bs b f.
Proof. intros Hc Hm. exact (loads_bind _ (fun _ => m) [] bs tt b _ f (loads_check c message Hc) Hm). Qed.

(** [m] restores, by [f], what [p] writes. *)
Definition restores (p : Put) (m : Load unit) (f : Impl -> Impl) : Prop :=
  exists bs, is_bytes bs /\ appends p bs /\ loads m bs tt f.

Lemma restores_seq p q m m' f g :
  restores p m f -> restores q m' g -> restores (p >+> q) (m ;;; m') (fun s => g (f s)).
Proof.
  intros (bs & Hb & Hp & Hm) (cs & Hc & Hq & Hm'). exists (bs ++ cs). split; [by apply Forall_app|].
  split; [by apply appends_seq|].
  exact (loads_bind m (fun _ => m') bs cs tt tt f g Hm Hm').
Qed.

(** A record whose decoder is the inverse of its encoder. *)
Lemma restores_field {A} (p : Put) (g : Reader A) (a : A) message (k : A -> Load unit) f :
  roundtrips p g a -> loads (k a) [] tt f -> restores p (let* x := field g message in k x) f.
Proof.
  intros (bs & Hb & Hp & Hg) Hk. exists bs. split; [done|]. split; [done|]. rewrite <- (app_nil_r bs).
  exact (loads_bind _ k bs [] a tt (fun s => s) f (loads_field g message bs a Hg) Hk).
Qed.

Lemma restores_then {A} (p q : Put) (g : Reader A) (a : A) message (k : A -> Load unit) f :
  roundtrips p g a -> restores q (k a) f -> restores (p >+> q) (let* x := field g message in k x) f.
Proof.
  intros (bs & Hb & Hp & Hg) (cs & Hc & Hq & Hk). exists (bs ++ cs). split; [by apply Forall_app|].
  split; [by apply appends_seq|].
  exact (loads_bind _ k bs cs a tt (fun s => s) f (loads_field g message bs a Hg) Hk).
Qed.

Lemma restores_check p c message m f :
  c = false -> restores p m f -> restores p (corrupt_when c message ;;; m) f.
Proof. intros Hc (bs & Hb & Hp & Hm). exists bs. split; [done|]. split; [done|by apply loads_checked]. Qed.

Lemma restores_stored p m f g :
  restores p m g -> restores p (store f ;;; m) (fun s => g (f s)).
Proof.
  intros (bs & Hb & Hp & Hm). exists bs. split; [done|]. split; [done|].
  exact (loads_bind (store f) (fun _ => m) [] bs tt tt f g (loads_store f) Hm).
Qed.

(** ** Tables *)

Lemma restores_list {A} (put : A -> Put) (m : Load unit) (f : A -> Impl -> Impl) (l : list A) :
  Forall (fun a => restores (put a) m (f a)) l ->
  restores (put_list put l) (load_times (length l) m) (fun s => fold_left (fun s a => f a s) l s).
Proof.
  induction 1 as [|a l (bs & Hb & Hp & Hm) _ (cs & Hc & Hq & Hl)]; simpl.
  - exists []. split; [constructor|]. split; [|apply loads_ret]. intros [b w] Hw. simpl in Hw. subst. by rewrite app_nil_r.
  - exists (bs ++ cs). split; [by apply Forall_app|]. split; [exact (appends_comp (put a) (put_list put l) bs cs Hp Hq)|].
    exact (loads_bind m (fun _ => load_times (length l) m) bs cs tt tt (f a) _ Hm Hl).
Qed.

Lemma wrap32_small n : 0 <= n <= u32_max -> wrap32 n = n.
Proof. intros H. unfold wrap32. apply Z.mod_small. u64_lia. Qed.

Lemma restores_table {A} (put : A -> Put) (l : list A) bound message m (f : A -> Impl -> Impl) :
  Z.of_nat (length l) <= bound -> bound <= u32_max ->
  Forall (fun a => restores (put a) m (f a)) l ->
  restores (put_u32 (wrap32 (Z.of_nat (length l))) >+> put_list put l) (load_table bound message m)
    (fun s => fold_left (fun s a => f a s) l s).
Proof.
  intros Hl Hb Hf. unfold load_table. eapply restores_then.
  - rewrite wrap32_small by lia. apply roundtrips_u32. unfold is_u32. lia.
  - apply restores_check; [lia|]. rewrite Nat2Z.id. by apply restores_list.
Qed.

(** ** Records *)

Definition wf_capacity (c : CapacityEntry) : Prop :=
  is_u64 (cp_resource c) /\ is_u64 (cp_backend c) /\ is_u64 (cp_generation c) /\ is_u64 (cp_raw_units c) /\
  is_u64 (cp_observed_at c).

Lemma roundtrips_capacity c : wf_capacity c -> roundtrips (encode_capacity c) decode_capacity c.
Proof. intros Hc. red in Hc. destruct_and?. unfold encode_capacity, decode_capacity. solve_roundtrip c. Qed.

(** A pool as an image or a record describes it: no counters yet. *)
Definition fresh_entry (e : PoolEntry) : PoolEntry :=
  default_PoolEntry <| en_descriptor := en_descriptor e |> <| en_capacity_generation := en_capacity_generation e |>.

Definition pool_writable (e : PoolEntry) : Prop :=
  wf_pool (en_descriptor e) /\ is_u64 (en_capacity_generation e) /\ pool_descriptor_validate (en_descriptor e) = Good tt.

Definition policy_writable (p : PoolPolicy) : Prop := wf_policy p /\ policy_validate p = Good tt.

Definition allocation_writable (r : AllocationRecord) : Prop := wf_allocation r /\ ar_units r <= kMaxUnitsPerPool.

Lemma restores_policy p a b : policy_writable p -> restores (encode_policy p) (load_policy a b) (put_policy p).
Proof.
  intros [Hw Hv]. eapply restores_field; [by apply roundtrips_policy|].
  apply loads_checked; [by rewrite Hv|apply loads_store].
Qed.

Lemma restores_snapshot_pool e : pool_writable e ->
  restores (encode_pool_entry e) load_snapshot_pool (put_pool (fresh_entry e)).
Proof.
  intros (Hw & Hg & Hv). eapply restores_then; [by apply roundtrips_pool|].
  eapply restores_field; [by apply roundtrips_id|]. apply loads_checked; [by rewrite Hv|apply loads_store].
Qed.

Lemma restores_queue q a : wf_queue q -> restores (encode_queue q) (load_queue a) (put_queue q).
Proof. intros Hw. eapply restores_field; [by apply roundtrips_queue|apply loads_store]. Qed.

Lemma restores_allocation r a b : allocation_writable r ->
  restores (encode_allocation r) (load_allocation a b) (put_allocation r).
Proof.
  intros [Hw Hu]. eapply restores_field; [by apply roundtrips_allocation|].
  apply loads_checked; [by apply Z.ltb_ge|apply loads_store].
Qed.

Lemma restores_snapshot_pressure x : wf_pressure_snapshot x ->
  restores (encode_pressure_snapshot x) load_snapshot_pressure (put_pressure x (fun h => h)).
Proof. intros Hw. eapply restores_field; [by apply roundtrips_pressure_snapshot|apply loads_store]. Qed.

Definition put_attempt (a : AttemptRecord) (s : Impl) : Impl :=
  s <| im_attempt_order ::= fun o => o ++ [at_id a] |> <| im_attempts ::= <[at_id a := a]> |>.

Lemma restores_snapshot_attempt a : wf_attempt a -> restores (encode_attempt a) load_snapshot_attempt (put_attempt a).
Proof. intros Hw. eapply restores_field; [by apply roundtrips_attempt|apply loads_store]. Qed.

Lemma restores_capacity c a : wf_capacity c -> restores (encode_capacity c) (load_capacity a) (put_capacity c).
Proof. intros Hw. eapply restores_field; [by apply roundtrips_capacity|apply loads_store]. Qed.

(** ** The image *)

Definition counter_ok (c : Z) : Prop := 0 < c <= u64_max.

Definition restore_header (x s : Impl) : Impl :=
  s <| im_epoch := im_epoch x |> <| im_boot := im_boot x |>
    <| im_next_pool_id := im_next_pool_id x |> <| im_next_queue_id := im_next_queue_id x |>
    <| im_next_allocation_id := im_next_allocation_id x |> <| im_next_policy_id := im_next_policy_id x |>
    <| im_next_snapshot_id := im_next_snapshot_id x |> <| im_next_decision_sequence := im_next_decision_sequence x |>
    <| im_next_attempt_sequence := im_next_attempt_sequence x |>.

Definition put_header (s : Impl) : Put :=
  put_u8 0xFF >+> put_u64 (im_epoch s) >+> put_u64 (bi_hi (im_boot s)) >+> put_u64 (bi_lo (im_boot s)) >+>
  put_u64 (im_next_pool_id s) >+> put_u64 (im_next_queue_id s) >+> put_u64 (im_next_allocation_id s) >+>
  put_u64 (im_next_policy_id s) >+> put_u64 (im_next_snapshot_id s) >+>
  put_u64 (im_next_decision_sequence s) >+> put_u64 (im_next_attempt_sequence s).

Record header_ok (s : Impl) : Prop := {
  hd_epoch : is_u64 (im_epoch s);
  hd_boot : is_u64 (bi_hi (im_boot s)) /\ is_u64 (bi_lo (im_boot s));
  hd_pool : counter_ok (im_next_pool_id s);
  hd_queue : counter_ok (im_next_queue_id s);
  hd_allocation : counter_ok (im_next_allocation_id s);
  hd_policy : counter_ok (im_next_policy_id s);
  hd_snapshot : counter_ok (im_next_snapshot_id s);
  hd_decision : counter_ok (im_next_decision_sequence s);
  hd_attempt : counter_ok (im_next_attempt_sequence s)
}.

Lemma counter_stays c : counter_ok c -> counter_or_one c = c /\ is_u64 c.
Proof. unfold counter_ok, counter_or_one. intros H. split; [|u64_lia]. by destruct (Z.eqb_spec c 0); [lia|]. Qed.

Lemma restores_header s : header_ok s -> restores (put_header s) load_header (restore_header s).
Proof.
  intros [He [Hh Hl] H0 H1 H2 H3 H4 H5 H6]. apply counter_stays in H0 as [E0 U0]. apply counter_stays in H1 as [E1 U1].
  apply counter_stays in H2 as [E2 U2]. apply counter_stays in H3 as [E3 U3]. apply counter_stays in H4 as [E4 U4].
  apply counter_stays in H5 as [E5 U5]. apply counter_stays in H6 as [E6 U6].
  assert (exists f, restores (put_header s) load_header f /\ forall s', f s' = restore_header s s') as (f & Hf & Heq).
  { eexists. split.
    - eapply restores_then; [apply roundtrips_u8; u64_lia|]. apply restores_check; [done|].
      eapply restores_then; [by apply roundtrips_u64|]. apply restores_stored.
      eapply restores_then; [by apply roundtrips_u64|]. apply restores_stored.
      eapply restores_then; [by apply roundtrips_u64|]. apply restores_stored.
      do 6 (eapply restores_then; [by apply roundtrips_u64|]).
      eapply restores_field; [by apply roundtrips_u64|]. apply loads_store.
    - intros s'. cbn beta. rewrite E0, E1, E2, E3, E4, E5, E6. unfold restore_header. by destruct (im_boot s). }
  destruct Hf as (bs & Hb & Hp & Hm). exists bs. split; [done|]. split; [done|]. intros pre rest s'. by rewrite Hm, Heq.
Qed.

(** [m] restores what [p] writes at the end of a payload. *)
Definition finishes (p : Put) (m : Load unit) (f : Impl -> Impl) : Prop := exists bs, is_bytes bs /\ appends p bs /\ forall pre s,
  m (mkReader (pre ++ bs) (length pre) false, s) = (Good tt, (mkReader (pre ++ bs) (length pre + length bs) false, f s)).

Lemma finishes_end message : finishes (fun w => w) (load_end message) (fun s => s).
Proof.
  exists []. split; [constructor|]. split.
  - intros [b w] Hw. simpl in *. subst. by rewrite app_nil_r.
  - intros pre s. unfold load_end, corrupt_when, sm_bind, sm_get, sm_lift, reader_empty, rd_size. simpl.
    by rewrite app_nil_r, Z.eqb_refl, Nat.add_0_r.
Qed.

Lemma finishes_seq p q m m' f g :
  restores p m f -> finishes q m' g -> finishes (p >+> q) (m ;;; m') (fun s => g (f s)).
Proof.
  intros (bs & Hb & Hp & Hm) (cs & Hc & Hq & Hm'). exists (bs ++ cs). split; [by apply Forall_app|].
  split; [by apply appends_seq|]. intros pre s.
  unfold sm_bind. rewrite (Hm pre cs s). specialize (Hm' (pre ++ bs) (f s)). rewrite <- app_assoc, length_app in Hm'.
  rewrite Hm'. by rewrite length_app, Nat.add_assoc.
Qed.

(** What the decoder accepts: every record encodable and valid, every table within its bound. *)
Record image_ok (s : Impl) : Prop := {
  io_header : header_ok s;
  io_policies : map_Forall (fun _ => policy_writable) (im_policies s) /\ Z.of_nat (size (im_policies s)) <= kMaxPolicyCount;
  io_pools : map_Forall (fun _ => pool_writable) (im_pools s) /\ Z.of_nat (size (im_pools s)) <= kMaxPoolCount;
  io_queues : map_Forall (fun _ => wf_queue) (im_queues s) /\ Z.of_nat (size (im_queues s)) <= kMaxQueueCount;
  io_allocations : map_Forall (fun _ => allocation_writable) (im_allocations s) /\
    Z.of_nat (size (im_allocations s)) <= kMaxAllocationCount;
  io_pressure : Forall wf_pressure_snapshot (latest_snapshots s) /\ Z.of_nat (length (latest_snapshots s)) <= kMaxSnapshotCount;
  io_attempts : map_Forall (fun _ => wf_attempt) (im_attempts s) /\ Z.of_nat (size (im_attempts s)) <= kMaxAttemptMemory;
  io_capacities : map_Forall (fun _ => wf_capacity) (im_capacities s) /\ Z.of_nat (size (im_capacities s)) <= kMaxPoolCount
}.

Definition put_all {A} (f : A -> Impl -> Impl) (l : list A) (s : Impl) : Impl := fold_left (fun s a => f a s) l s.

(** The tables of [x] written over [s], in the order of the image. *)
Definition restore_image (x s : Impl) : Impl :=
  let s := restore_header x s in
  let s := put_all put_policy (values (im_policies x)) s in
  let s := put_all (fun e => put_pool (fresh_entry e)) (values (im_pools x)) s in
  let s := put_all put_queue (values (im_queues x)) s in
  let s := put_all put_allocation (values (im_allocations x)) s in
  let s := put_all (fun p => put_pressure p (fun h => h)) (latest_snapshots x) s in
  let s := put_all put_attempt (values (im_attempts x)) s in
  put_all put_capacity (values (im_capacities x)) s.

Lemma length_values {A} (m : gmap Z A) : length (values m) = size m.
Proof. unfold values. rewrite length_map. apply length_map_to_list. Qed.

Lemma Forall_values {A} (P : A -> Prop) (m : gmap Z A) : map_Forall (fun _ => P) m -> Forall P (values m).
Proof.
  intros H. apply list.Forall_forall. intros a Ha. unfold values in Ha. apply list_elem_of_In, in_map_iff in Ha as ([k b] & <- & Ha).
  apply list_elem_of_In, elem_of_map_to_list in Ha. exact (H k b Ha).
Qed.

Lemma restores_values {A} (put : A -> Put) (m : gmap Z A) (P : A -> Prop) bound message ld (f : A -> Impl -> Impl) :
  map_Forall (fun _ => P) m /\ Z.of_nat (size m) <= bound -> bound <= u32_max ->
  (forall a, P a -> restores (put a) ld (f a)) ->
  restores (put_table put m) (load_table bound message ld) (put_all f (values m)).
Proof.
  intros [HP Hs] Hb Hf. unfold put_table. rewrite <- length_values in *. apply restores_table; [done|done|].
  eapply Forall_impl; [by apply Forall_values|exact Hf].
Qed.

Lemma image_finishes s : image_ok s -> finishes (encode_image s) load_image (restore_image s).
Proof.
  intros [H0 H1 H2 H3 H4 [H5 H5'] H6 H7].
  assert (exists f, finishes (put_header s >+> put_table encode_policy (im_policies s) >+>
    put_table encode_pool_entry (im_pools s) >+> put_table encode_queue (im_queues s) >+>
    put_table encode_allocation (im_allocations s) >+>
    (put_u32 (wrap32 (Z.of_nat (length (latest_snapshots s)))) >+> put_list encode_pressure_snapshot (latest_snapshots s)) >+>
    put_table encode_attempt (im_attempts s) >+> put_table encode_capacity (im_capacities s) >+> (fun w => w)) load_image f /\
    forall s', f s' = restore_image s s') as (f & (bs & Hb & Hp & Hf) & Heq).
  { eexists. split.
    - eapply finishes_seq; [by apply restores_header|].
      eapply finishes_seq; [by eapply restores_values; [apply H1|done|intros; by apply restores_policy]|].
      eapply finishes_seq; [by eapply restores_values; [apply H2|done|intros; by apply restores_snapshot_pool]|].
      eapply finishes_seq; [by eapply restores_values; [apply H3|done|intros; by apply restores_queue]|].
      eapply finishes_seq; [by eapply restores_values; [apply H4|done|intros; by apply restores_allocation]|].
      eapply finishes_seq.
      { apply restores_table; [done|done|]. eapply Forall_impl; [exact H5|]. intros; by apply restores_snapshot_pressure. }
      eapply finishes_seq; [by eapply restores_values; [apply H6|done|intros; by apply restores_snapshot_attempt]|].
      eapply finishes_seq; [by eapply restores_values; [apply H7|done|intros; by apply restores_capacity]|].
      apply finishes_end.
    - reflexivity. }
  exists bs. split; [done|]. split; [exact Hp|]. intros pre s'. by rewrite Hf, Heq.
Qed.

(** ** What the tables become *)

Lemma put_all_proj {A B} (proj : Impl -> B) (f : A -> Impl -> Impl) (g : A -> B -> B) l s :
  (forall a s, proj (f a s) = g a (proj s)) -> proj (put_all f l s) = fold_left (fun b a => g a b) l (proj s).
Proof. intros H. revert s. induction l as [|a l IH]; intros s; [done|]. simpl. by rewrite <- H. Qed.

Lemma put_all_same {A B} (proj : Impl -> B) (f : A -> Impl -> Impl) l s :
  (forall a s, proj (f a s) = proj s) -> proj (put_all f l s) = proj s.
Proof. intros H. revert s. induction l as [|a l IH]; intros s; [done|]. simpl. rewrite <- (H a s). apply IH. Qed.

Definition keyed {A} (key : A -> Z) (m : gmap Z A) : Prop := forall k a, m !! k = Some a -> key a = k.

(** Records stored under the key they carry, the slot being built from what it held. *)
Lemma fold_keyed {A B} (key : A -> Z) (g : A -> option B -> B) (l : list A) (m : gmap Z B) :
  NoDup (map key l) -> (forall a, a ∈ l -> m !! key a = None) ->
  fold_left (fun m a => <[key a := g a (m !! key a)]> m) l m = list_to_map (map (fun a => (key a, g a None)) l) ∪ m.
Proof.
  revert m. induction l as [|a l IH]; intros m Hnd Hm; simpl; [by rewrite (left_id_L ∅ (∪))|].
  apply NoDup_cons in Hnd as [Ha Hnd]. assert (m !! key a = None) as Hnone by (apply Hm; left). rewrite Hnone.
  rewrite IH; [|done|].
  - rewrite <- insert_union_l, insert_union_r; [done|].
    apply not_elem_of_list_to_map. intros Hin. apply Ha. apply list_elem_of_fmap in Hin as ([k b] & Hk & Hin).
    apply list_elem_of_In, in_map_iff in Hin as (a' & Ha' & Hin). injection Ha' as <- _. simpl in Hk. rewrite Hk.
    by apply list_elem_of_In, in_map.
  - intros a' Ha'. rewrite lookup_insert_ne; [by apply Hm; right|]. intros Heq. apply Ha. rewrite Heq.
    by apply list_elem_of_In, in_map, list_elem_of_In.
Qed.

Lemma values_keys {A} (key : A -> Z) (m : gmap Z A) : keyed key m -> map key (values m) = map fst (map_to_list m).
Proof.
  intros Hk. unfold values. rewrite map_map. apply map_ext_in. intros [k a] Hin. apply (Hk k a).
  by apply elem_of_map_to_list, list_elem_of_In.
Qed.

Lemma NoDup_values {A} (key : A -> Z) (m : gmap Z A) : keyed key m -> NoDup (map key (values m)).
Proof. intros Hk. rewrite values_keys by done. apply NoDup_fst_map_to_list. Qed.

(** A table written record by record over an empty one. *)
Lemma fold_values {A B} (key : A -> Z) (g : A -> B) (m : gmap Z A) :
  keyed key m -> fold_left (fun n a => <[key a := g a]> n) (values m) ∅ = g <$> m.
Proof.
  intros Hk. rewrite (fold_keyed key (fun a _ => g a)); [|by apply NoDup_values|done].
  rewrite (right_id_L ∅ (∪)). rewrite <- (list_to_map_to_list (g <$> m)). rewrite map_to_list_fmap. f_equal.
  unfold values. rewrite map_map. apply map_ext_in. intros [k a] Hin. simpl. f_equal. apply (Hk k a).
  by apply elem_of_map_to_list, list_elem_of_In.
Qed.

Lemma elem_of_values {A} (m : gmap Z A) a : a ∈ values m <-> exists k, m !! k = Some a.
Proof.
  unfold values. rewrite list_elem_of_In, in_map_iff. split.
  - intros ([k b] & <- & Hin). exists k. by apply elem_of_map_to_list, list_elem_of_In.
  - intros [k Hk]. exists (k, a). split; [done|]. by apply list_elem_of_In, elem_of_map_to_list.
Qed.

Lemma fold_names_lookup {A} (name : A -> string) (key : A -> Z) (l : list A) (m : gmap string Z) n :
  let m' := fold_left (fun m a => <[name a := key a]> m) l m in
  (forall k, m' !! n = Some k -> (exists a, a ∈ l /\ name a = n /\ key a = k) \/ m !! n = Some k) /\
  ((exists a, a ∈ l /\ name a = n) \/ is_Some (m !! n) -> is_Some (m' !! n)).
Proof.
  revert m. induction l as [|a l IH]; intros m; simpl.
  - split; [by right|]. by intros [(a & Ha & _)|H]; [apply elem_of_nil in Ha|].
  - destruct (IH (<[name a := key a]> m)) as [H1 H2]. split.
    + intros k [(b & Hb & Hn & Hk)|Hk]%H1; [left; exists b; split; [by right|done]|].
      apply lookup_insert_Some in Hk as [[<- <-]|[_ Hk]]; [|by right]. left. exists a. split; [left|done].
    + intros H. apply H2. rewrite lookup_insert_is_Some'. destruct H as [(b & Hb & Hn)|H]; [|by right; right].
      apply elem_of_cons in Hb as [-> |Hb]; [by right; left|]. left. by exists b.
Qed.

(** The name table is the names of the records. *)
Lemma fold_names {A} (name : A -> string) (key : A -> Z) (m : gmap Z A) (names : gmap string Z) :
  keyed key m -> named name m names -> fold_left (fun n a => <[name a := key a]> n) (values m) ∅ = names.
Proof.
  intros Hk Hn. apply map_eq. intros n. destruct (fold_names_lookup name key (values m) ∅ n) as [H1 H2].
  assert (forall k, fold_left (fun (n : gmap string Z) a => <[name a := key a]> n) (values m) ∅ !! n = Some k -> names !! n = Some k) as H.
  { intros k [(a & Ha & Hna & <-)|Hnone]%H1; [|by rewrite lookup_empty in Hnone].
    apply elem_of_values in Ha as [j Hj]. apply Hn. exists a. by rewrite (Hk j a Hj). }
  destruct (names !! n) as [k|] eqn:Hkn.
  - apply Hn in Hkn as (a & Ha & Hna). destruct H2 as [k' Hk']; [left; exists a; split; [by apply elem_of_values; exists k|done]|].
    rewrite Hk'. apply H in Hk'. congruence.
  - destruct (fold_left _ _ _ !! n) as [k|]; [|done]. by specialize (H k eq_refl).
Qed.

(** The latest observation of each pool, with a history of that one alone. *)
Definition fresh_pressure (x : PressureSnapshot) : PressureEntry :=
  default_PressureEntry <| pr_latest := x |> <| pr_has_latest := true |> <| pr_history := [x] |>.

Definition next_pressure (x : PressureSnapshot) (o : option PressureEntry) : PressureEntry :=
  default default_PressureEntry o <| pr_latest := x |> <| pr_has_latest := true |> <| pr_latest_revalidated := false |>
    <| pr_history ::= fun h => h ++ [x] |>.

Definition pressure_keyed (m : gmap Z PressureEntry) : Prop :=
  forall k e, m !! k = Some e -> pr_has_latest e = true -> ps_pool (pr_latest e) = k.

Definition restore_pressure (m : gmap Z PressureEntry) : gmap Z PressureEntry :=
  omap (fun e => if pr_has_latest e then Some (fresh_pressure (pr_latest e)) else None) m.

Lemma latest_list (l : list (Z * PressureEntry)) :
  NoDup (map fst l) -> (forall k e, (k, e) ∈ l -> pr_has_latest e = true -> ps_pool (pr_latest e) = k) ->
  let xs := map pr_latest (List.filter pr_has_latest (map snd l)) in
  NoDup (map ps_pool xs) /\
  (forall x, x ∈ xs <-> exists k e, (k, e) ∈ l /\ pr_has_latest e = true /\ pr_latest e = x).
Proof.
  induction l as [|[k e] l IH]; intros Hnd Hk; simpl.
  - split; [constructor|]. intros x. split; [by intros H%elem_of_nil|]. by intros (? & ? & H%elem_of_nil & _).
  - apply NoDup_cons in Hnd as [Hnew Hnd]. destruct IH as [IHn IHx]; [done|by intros j d Hj; apply Hk; right|].
    destruct (pr_has_latest e) eqn:He; simpl.
    + split.
      * apply NoDup_cons. split; [|done]. rewrite (Hk k e); [|by left|done]. intros Hin. apply Hnew.
        apply list_elem_of_In, in_map_iff in Hin as (x & Hx & Hin). apply list_elem_of_In, IHx in Hin as (j & d & Hj & Hd & <-).
        rewrite (Hk j d) in Hx; [|by right|done]. subst j. apply list_elem_of_In, in_map_iff. exists (k, d).
        split; [done|by apply list_elem_of_In].
      * intros x. rewrite elem_of_cons, IHx. split.
        -- intros [-> |(j & d & Hj & H)]; [exists k, e; by repeat split; [left|]|exists j, d; by split; [right|]].
        -- intros (j & d & [[= -> ->]|Hj]%elem_of_cons & Hd & <-); [by left|right; by exists j, d].
    + split; [done|]. intros x. rewrite IHx. split.
      * intros (j & d & Hj & H). exists j, d. by split; [right|].
      * intros (j & d & [[= -> ->]|Hj]%elem_of_cons & Hd & <-); [congruence|by exists j, d].
Qed.

Lemma fold_pressure (s : Impl) :
  pressure_keyed (im_pressure s) ->
  list_to_map (map (fun x => (ps_pool x, fresh_pressure x)) (latest_snapshots s)) = restore_pressure (im_pressure s).
Proof.
  intros Hk. destruct (latest_list (map_to_list (im_pressure s))) as [Hnd Hx].
  { apply NoDup_fst_map_to_list. }
  { intros k e Hin%elem_of_map_to_list. by apply Hk. }
  apply map_eq. intros k. apply option_eq. intros e'. unfold restore_pressure. rewrite lookup_omap, bind_Some.
  rewrite <- elem_of_list_to_map.
  2: { fold (values (im_pressure s)) in Hnd. fold (latest_snapshots s) in Hnd. revert Hnd. generalize (latest_snapshots s).
       clear. intros l. induction l as [|x l IH]; simpl; [constructor|]. intros [H1 H2]%NoDup_cons. apply NoDup_cons.
       split; [|by apply IH]. intros Hin. apply H1. apply list_elem_of_fmap in Hin as ([j d] & -> & Hin).
       apply list_elem_of_In, in_map_iff in Hin as (y & [= <- <-] & Hin). by apply list_elem_of_In, (in_map ps_pool). }
  rewrite list_elem_of_In, in_map_iff. split.
  - intros (x & [= <- <-] & Hin). apply list_elem_of_In, Hx in Hin as (j & e & Hj%elem_of_map_to_list & He & <-).
    exists e. by rewrite (Hk j e Hj He), He.
  - intros (e & He & Hif). destruct (pr_has_latest e) eqn:Hh; [|done]. injection Hif as <-. exists (pr_latest e).
    rewrite (Hk k e He Hh). split; [done|]. apply list_elem_of_In, Hx. exists k, e. by rewrite elem_of_map_to_list.
Qed.

(** ** Images restored over empty tables *)

Definition blank (s : Impl) : Prop :=
  im_policies s = ∅ /\ im_policy_names s = ∅ /\ im_pools s = ∅ /\ im_pool_names s = ∅ /\ im_queues s = ∅ /\
  im_queue_names s = ∅ /\ im_allocations s = ∅ /\ im_pressure s = ∅ /\ im_attempts s = ∅ /\ im_capacities s = ∅.

(** Every table is indexed by the ids its records carry. *)
Record indexed (s : Impl) : Prop := {
  ix_policies : keyed pol_id (im_policies s);
  ix_pools : keyed (fun e => pd_id (en_descriptor e)) (im_pools s);
  ix_queues : keyed qd_id (im_queues s);
  ix_allocations : keyed ar_id (im_allocations s);
  ix_attempts : keyed at_id (im_attempts s);
  ix_capacities : keyed cp_resource (im_capacities s);
  ix_pressure : pressure_keyed (im_pressure s);
  ix_pool_names : named pd_name (en_descriptor <$> im_pools s) (im_pool_names s);
  ix_queue_names : named qd_name (im_queues s) (im_queue_names s)
}.

(** Epoch, boot incarnation and the seven counters. *)
Definition same_header (x s : Impl) : Prop :=
  im_epoch s = im_epoch x /\ im_boot s = im_boot x /\ im_next_pool_id s = im_next_pool_id x /\
  im_next_queue_id s = im_next_queue_id x /\ im_next_allocation_id s = im_next_allocation_id x /\
  im_next_policy_id s = im_next_policy_id x /\ im_next_snapshot_id s = im_next_snapshot_id x /\
  im_next_decision_sequence s = im_next_decision_sequence x /\ im_next_attempt_sequence s = im_next_attempt_sequence x.

(** What the image does not speak of. *)
Definition same_process (s s' : Impl) : Prop :=
  im_tick s' = im_tick s /\ im_config s' = im_config s /\ im_open s' = im_open s /\
  im_shutting_down s' = im_shutting_down s /\ im_store s' = im_store s /\ im_backends s' = im_backends s.

Record restored (x s s' : Impl) : Prop := {
  re_header : same_header x s';
  re_policies : im_policies s' = im_policies x;
  re_pools : im_pools s' = fresh_entry <$> im_pools x;
  re_pool_names : im_pool_names s' = im_pool_names x;
  re_queues : im_queues s' = im_queues x;
  re_queue_names : im_queue_names s' = im_queue_names x;
  re_allocations : im_allocations s' = im_allocations x;
  re_pressure : im_pressure s' = restore_pressure (im_pressure x);
  re_attempts : im_attempts s' = im_attempts x;
  re_capacities : im_capacities s' = im_capacities x;
  re_process : same_process s s'
}.

Ltac through proj := rewrite ?(put_all_same proj) by done.

(** One table: written by one of the loops, passed through by the others. *)
Ltac restored_table proj put g :=
  through proj; rewrite (put_all_proj proj put g) by done; through proj; cbn -[values fold_left].

Lemma restore_image_restored x s : indexed x -> blank s -> restored x s (restore_image x s).
Proof.
  intros [I1 I2 I3 I4 I5 I6 IP I7 I8] (B1 & B2 & B3 & B4 & B5 & B6 & B7 & B8 & B9 & B10). unfold restore_image. split.
  - split_and!; [through im_epoch|through im_boot|through im_next_pool_id|through im_next_queue_id
      |through im_next_allocation_id|through im_next_policy_id|through im_next_snapshot_id
      |through im_next_decision_sequence|through im_next_attempt_sequence]; done.
  - restored_table im_policies put_policy (fun p (m : gmap Z PoolPolicy) => <[pol_id p := p]> m).
    rewrite B1, (fold_values pol_id (fun p => p)) by done. apply map_fmap_id.
  - restored_table im_pools (fun e => put_pool (fresh_entry e)) (fun e (m : gmap Z PoolEntry) => <[pd_id (en_descriptor e) := fresh_entry e]> m).
    rewrite B3. by apply (fold_values (fun e => pd_id (en_descriptor e)) fresh_entry).
  - restored_table im_pool_names (fun e => put_pool (fresh_entry e))
      (fun e (m : gmap string Z) => <[pd_name (en_descriptor e) := pd_id (en_descriptor e)]> m).
    rewrite B4. apply (fold_names (fun e => pd_name (en_descriptor e)) (fun e => pd_id (en_descriptor e))); [done|].
    intros n k. rewrite (I7 n k). split.
    + intros (d & Hd & Hn). rewrite lookup_fmap in Hd. destruct (im_pools x !! k) as [e|]; [|done]. exists e.
      by injection Hd as <-.
    + intros (e & He & Hn). exists (en_descriptor e). by rewrite lookup_fmap, He.
  - restored_table im_queues put_queue (fun q (m : gmap Z QueueDescriptor) => <[qd_id q := q]> m).
    rewrite B5, (fold_values qd_id (fun q => q)) by done. apply map_fmap_id.
  - restored_table im_queue_names put_queue (fun q (m : gmap string Z) => <[qd_name q := qd_id q]> m).
    rewrite B6. by apply (fold_names qd_name qd_id).
  - restored_table im_allocations put_allocation (fun r (m : gmap Z AllocationRecord) => <[ar_id r := r]> m).
    rewrite B7, (fold_values ar_id (fun r => r)) by done. apply map_fmap_id.
  - through im_pressure.
    rewrite (put_all_proj im_pressure _ (fun x (m : gmap Z PressureEntry) => <[ps_pool x := next_pressure x (m !! ps_pool x)]> m)) by done.
    through im_pressure. change (im_pressure (restore_header x s)) with (im_pressure s).
    rewrite B8, (fold_keyed ps_pool next_pressure).
    + rewrite (right_id_L ∅ (∪)). by apply (fold_pressure x).
    + apply (latest_list (map_to_list (im_pressure x))); [apply NoDup_fst_map_to_list|].
      intros k e Hin%elem_of_map_to_list. by apply IP.
    + done.
  - restored_table im_attempts put_attempt (fun a (m : gmap Z AttemptRecord) => <[at_id a := a]> m).
    rewrite B9, (fold_values at_id (fun a => a)) by done. apply map_fmap_id.
  - restored_table im_capacities put_capacity (fun c (m : gmap Z CapacityEntry) => <[cp_resource c := c]> m).
    rewrite B10, (fold_values cp_resource (fun c => c)) by done. apply map_fmap_id.
  - split_and!; [through im_tick|through im_config|through im_open|through im_shutting_down|through im_store|through im_backends]; done.
Qed.

(** The bytes of an image, and what decoding them over empty tables gives. *)
Definition image_bytes (x : Impl) : list Z := wr_buffer (encode_image x writer_empty).

Lemma image_restores x h s :
  image_ok x -> indexed x -> blank s ->
  is_bytes (image_bytes x) /\ wr_failed (encode_image x writer_empty) = false /\
  exists s', apply_snapshot_payload h (image_bytes x) s = (Good tt, s') /\ restored x s s'.
Proof.
  intros Hx Hi Hs. destruct (image_finishes x Hx) as (bs & Hb & Hp & Hf). unfold image_bytes. rewrite (Hp writer_empty eq_refl).
  cbn [wr_buffer wr_failed writer_empty]. split; [done|]. split; [done|]. exists (restore_image x s).
  split; [|by apply restore_image_restored]. unfold apply_snapshot_payload, load, reader_of.
  specialize (Hf [] s). cbn [length app Nat.add] in *. by rewrite Hf.
Qed.
