(* ===== verification/Restart.v ===== *)
(** * Restart: what the files of a fabric give back

    The journal replays the records that were journaled, and a checkpoint followed by a
    recovery gives back the checkpointed fabric, reservations expired, with its books in
    balance. *)

From S2P Require Import Prelude Ints Hash Enums Status Codec Model Wire Policy Accounting Authority Persist State Grant Alloc Lifecycle Books Triples Layout Safety AllocSafety Topology Resize Recovery Query Ledger System RecoverySafety.

(** ** What a successful checkpoint leaves in the files *)

Lemma io_plain_good message d d' : io_plain message d = (Good tt, d') -> exists io, d' = d <| ds_io := io |>.
Proof.
  unfold io_plain, io_step. intros H. destruct (ds_io d) as [|[|n] io] eqn:E; [| |done]; injection H as <-; [|by eexists].
  exists []. destruct d. simpl in E. by subst.
Qed.

Lemma open_append_good d d' : open_append d = (Good tt, d') -> exists io, d' = d <| ds_io := io |> <| ds_writable := true |>
  <| ds_journal := Some (journal_contents d) |> <| ds_bytes_written := Z.of_nat (length (journal_contents d)) |>.
Proof.
  unfold open_append. intros H. apply sm_bind_good in H as (? & d1 & H1 & H). injection H1 as _ <-.
  apply sm_bind_good in H as ([] & d2 & [io ->]%io_plain_good & H). injection H as <-. by exists io.
Qed.

Lemma write_snapshot_good h payload d d' :
  write_snapshot h payload d = (Good tt, d') ->
  ds_configured d = true /\ Z.of_nat (length payload) <= pc_max_snapshot_bytes (ds_config d) /\
  ds_snapshot d' = Some (encode_snapshot (h <| sh_format_version := kPersistenceFormatVersion |>) payload) /\
  ds_journal d' = Some [] /\ ds_config d' = ds_config d.
Proof.
  unfold write_snapshot. intros H. apply sm_bind_good in H as (? & ? & [= <- <-] & H).
  destruct (ds_configured d) eqn:Hc; [|done]. cbn [negb] in H.
  destruct (Z.ltb_spec (pc_max_snapshot_bytes (ds_config d)) (Z.of_nat (length payload))); [done|].
  apply sm_bind_good in H as ([] & d1 & [io1 ->]%io_plain_good & H).
  apply sm_bind_good in H as (? & ? & [= <- <-] & H).
  apply sm_bind_good in H as ([] & d2 & [io2 ->]%io_plain_good & H).
  apply sm_bind_good in H as (? & ? & [= <- <-] & H).
  apply sm_bind_good in H as ([] & d3 & [io3 ->]%open_append_good & H).
  apply sm_bind_good in H as ([] & d4 & H4 & H).
  unfold journal_truncate in H4. apply sm_bind_good in H4 as (? & ? & [= <- <-] & H4). cbn -[io_plain] in H4.
  apply sm_bind_good in H4 as ([] & d5 & [io5 ->]%io_plain_good & H4). injection H4 as <-.
  apply sm_bind_good in H as ([] & d6 & H6 & H). unfold journal_sync in H6.
  apply sm_bind_good in H6 as (? & ? & [= <- <-] & H6). cbn -[io_plain] in H6.
  apply io_plain_good in H6 as [io6 ->]. injection H as <-. split_and!; done.
Qed.

(** The header [write_full_snapshot] gives an image. *)
Definition image_header (s : Impl) : SnapshotHeader :=
  mkSnapshotHeader kPersistenceFormatVersion 0 0 (im_epoch s) (im_boot s) (mt_journal_records_written (im_metrics s)).

Lemma write_full_snapshot_good s s1 :
  durable s = true -> write_full_snapshot s = (Good tt, s1) ->
  ds_snapshot (im_store s1) = Some (encode_snapshot (image_header s) (image_bytes s)) /\
  ds_journal (im_store s1) = Some [] /\ ds_config (im_store s1) = ds_config (im_store s).
Proof.
  intros Hd H. unfold write_full_snapshot in H. apply sm_bind_good in H as (? & ? & [= <- <-] & H). rewrite Hd in H. cbn [negb] in H.
  destruct (wr_failed _) eqn:Hf; [done|]. apply sm_bind_good in H as ([] & s2 & H2 & H).
  unfold on_store_m in H2. destruct (write_snapshot _ _ _) as [r d'] eqn:Hw. injection H2 as -> <-.
  apply write_snapshot_good in Hw as (_ & _ & H1 & H2 & H3). injection H as <-. by split_and!.
Qed.

Lemma checkpoint_good s s1 :
  durable s = true -> checkpoint s = (Good tt, s1) ->
  ds_snapshot (im_store s1) = Some (encode_snapshot (image_header s) (image_bytes s)) /\
  ds_journal (im_store s1) = Some [] /\ ds_config (im_store s1) = ds_config (im_store s).
Proof.
  intros Hd H. unfold checkpoint in H. apply sm_bind_good in H as (? & s' & H1 & H).
  unfold require_open in H1. apply sm_bind_good in H1 as (? & ? & [= <- <-] & H1).
  assert (s' = s) as ->. { by injection H1. }
  apply sm_bind_good in H as (? & ? & [= <- <-] & H). destruct (rep_closed (deep_verify s)) eqn:E; [by apply write_full_snapshot_good|].
  unfold sm_lift in H. injection H as H _. unfold report_status in H. by rewrite E in H.
Qed.

(** ** Rebuilding from restored tables *)

Lemma expire_lease_frame t r :
  ar_id (expire_lease t r) = ar_id r /\ ar_pool (expire_lease t r) = ar_pool r /\ ar_units (expire_lease t r) = ar_units r /\
  ar_borrow_units (expire_lease t r) = ar_borrow_units r /\ ar_lender (expire_lease t r) = ar_lender r.
Proof. unfold expire_lease. by case_match. Qed.

(** An expired lease holds nothing; every other record is as it was. *)
Lemma expire_lease_holds t r :
  allocation_holds_units (ar_state (expire_lease t r)) = true -> expire_lease t r = r.
Proof. unfold expire_lease. by case_bool_decide. Qed.

Lemma expire_lease_record P t r : record_ok P r -> record_ok P (expire_lease t r).
Proof.
  intros Hr. destruct (allocation_holds_units (ar_state (expire_lease t r))) eqn:H; [by rewrite expire_lease_holds|].
  destruct (expire_lease_frame t r) as (_ & _ & Hu & Hb & _), Hr as [H1 H2 _ _]. by split; rewrite ?Hu, ?Hb, ?H.
Qed.

Lemma expire_lease_share P f p t r : record_ok P r -> share f p (expire_lease t r) <= share f p r.
Proof.
  intros Hr. destruct (allocation_holds_units (ar_state (expire_lease t r))) eqn:H; [by rewrite expire_lease_holds|].
  rewrite share_idle by done. by eapply share_nonneg.
Qed.

Lemma expired_tables P P' A t :
  books P A -> (forall p, is_Some (P !! p) -> is_Some (P' !! p)) -> tables_ok P' (expire_lease t <$> A).
Proof.
  intros HB HP. split; intros k r' Hk; rewrite lookup_fmap in Hk; destruct (A !! k) as [r|] eqn:Hr; try done; injection Hk as <-.
  - destruct (expire_lease_frame t r) as [-> _]. by apply HB.
  - apply expire_lease_record, (record_ok_pools P); [done|by eapply HB].
Qed.

Lemma expired_fit P P' A t :
  books P A -> (forall p, is_Some (P' !! p) -> is_Some (P !! p)) -> totals_fit P' (expire_lease t <$> A).
Proof.
  intros HB HP p e' He'. destruct (HP p) as [e He]; [by exists e'|]. destruct (bk_entry _ _ HB p e He) as [_ HC Ho Hb _].
  rewrite !total_of_fmap.
  assert (forall f, total_of (fun r => share f p (expire_lease t r)) A <= counter f e) as H.
  { intros f. rewrite HC. apply total_of_le. intros k r Hr. eapply expire_lease_share, HB, Hr. }
  split; [by etransitivity; [apply (H FOwn)|]|by etransitivity; [apply (H FBorrowed)|]].
Qed.

(** The tables of a fabric whose books balance, read back with whatever counters. *)
Record tables_of (x s : Impl) : Prop := {
  to_pools : en_descriptor <$> im_pools s = en_descriptor <$> im_pools x;
  to_layout : layout s = layout x;
  to_allocations : im_allocations s = im_allocations x;
  to_next : im_next_allocation_id s = im_next_allocation_id x
}.

Definition restart (t : Z) (s : Impl) : Impl := rebuild_aggregates (s <| im_allocations ::= fmap (expire_lease t) |>).

Lemma descriptors_dom (P P' : gmap Z PoolEntry) p e :
  en_descriptor <$> P = en_descriptor <$> P' -> P !! p = Some e -> exists e', P' !! p = Some e' /\ en_descriptor e' = en_descriptor e.
Proof.
  intros H He. apply (f_equal (fun m => m !! p)) in H. rewrite !lookup_fmap, He in H. simpl in H.
  destruct (P' !! p) as [e'|]; [|done]. exists e'. split; [done|by injection H].
Qed.

Lemma restart_layout t s : layout (restart t s) = layout s.
Proof.
  unfold layout, restart, rebuild_aggregates. cbn. f_equal. unfold rebuild_pools. rewrite <- map_fmap_compose.
  pose proof (rebuilt_descriptors (s <| im_allocations ::= fmap (expire_lease t) |>)) as H. unfold rebuilt in H. cbn in H.
  etransitivity; [|exact H]. apply map_fmap_ext. by intros p e He.
Qed.

Lemma restart_inv x s t : Inv x -> tables_of x s -> Inv (restart t s).
Proof.
  intros HI [Hd HL HA HN]. pose proof (inv_books x HI) as HB.
  assert (forall p, is_Some (im_pools s !! p) <-> is_Some (im_pools x !! p)) as Hdom.
  { intros p. split; intros [e He]; [destruct (descriptors_dom _ _ p e Hd He) as (e' & He' & _)
      |destruct (descriptors_dom _ _ p e (eq_sym Hd) He) as (e' & He' & _)]; by exists e'. }
  destruct (fold_books (im_pools s) (expire_lease t <$> im_allocations s)) as [HR _].
  - intros p e He. destruct (descriptors_dom _ _ p e Hd He) as (e' & He' & <-). apply (bk_entry _ _ HB p e' He').
  - rewrite HA. apply (expired_tables (im_pools x)); [done|]. intros p. apply Hdom.
  - rewrite HA. apply (expired_fit (im_pools x)); [done|]. intros p. apply Hdom.
  - assert (forall k r', (expire_lease t <$> im_allocations s) !! k = Some r' -> exists r, im_allocations x !! k = Some r /\ r' = expire_lease t r) as Hrec.
    { intros k r'. rewrite lookup_fmap, HA. destruct (im_allocations x !! k) as [r|]; [|done]. intros [= <-]. by exists r. }
    split.
    + by apply refresh_books.
    + intros k r' (r & Hr & _)%Hrec. cbn. rewrite HN. by eapply (inv_ids x HI).
    + cbn. rewrite HN. apply (inv_next x HI).
    + intros k p Hp. apply (inv_policies x HI k p). change (ly_policies (layout x) !! k = Some p). by rewrite <- HL.
    + rewrite restart_layout, HL. apply (inv_layout x HI).
    + intros k r' (r & Hr & ->)%Hrec Hh. rewrite expire_lease_holds in * by done. by eapply (inv_live x HI).
Qed.

Lemma restored_tables x s s' : restored x s s' -> im_policies x = im_policies s' -> tables_of x s'.
Proof.
  intros [Hh _ Hp Hpn Hq Hqn Ha _ _ Hc _] Hpol.
  assert (en_descriptor <$> im_pools s' = en_descriptor <$> im_pools x) as Hd.
  { rewrite Hp, <- map_fmap_compose. apply map_fmap_ext. by intros p e He. }
  split; [done| |done|by destruct Hh as (_ & _ & _ & _ & H & _)].
  unfold layout. by rewrite Hd, Hc, Hpol, Hq, Hpn, Hqn.
Qed.

(** ** Recovery from a snapshot and an empty journal *)

Lemma encode_snapshot_length h payload : length (encode_snapshot h payload) = (60 + length payload)%nat.
Proof. rewrite encode_snapshot_eq, !length_app, snapshot_head_length, !le_bytes_length. simpl. lia. Qed.

Lemma recover_image {T} (visit_snapshot : SnapshotHeader -> list Z -> T -> Result unit * T) visit_record h payload d (s s' : T) :
  ds_configured d = true -> ds_io d = [] -> ds_snapshot d = Some (encode_snapshot h payload) -> ds_journal d = Some [] ->
  wf_snapshot_header h -> sh_format_version h = kPersistenceFormatVersion -> is_bytes payload ->
  Z.of_nat (length (encode_snapshot h payload)) <= pc_max_snapshot_bytes (ds_config d) <= u32_max ->
  0 <= pc_max_journal_bytes (ds_config d) ->
  (forall h, visit_snapshot h payload s = (Good tt, s')) ->
  exists report d', recover visit_snapshot visit_record (d, s) = (Good report, (d', s')) /\
    rr_outcome report = RecoveryOutcome.SnapshotOnly /\ rr_journal_records_applied report = 0 /\
    ds_config d' = ds_config d.
Proof.
  intros Hcf Hio Hs Hj Hh Hv Hb [Hl Hm] Hmj Hvisit. unfold recover, sm_bind, sm_get, on_store, sm_ret. cbn [fst snd]. rewrite Hcf. cbn [negb].
  rewrite io_plain_ok, !read_file_ok by (rewrite ?Hs, ?Hj; done). rewrite Hs, Hj. cbn [from_option id fst snd].
  pose proof (encode_snapshot_length h payload) as Hn.
  destruct (encode_snapshot h payload) as [|b bs] eqn:E; [simpl in Hn; lia|]. rewrite <- E in *.
  unfold recover_snapshot, sm_bind, sm_get, sm_lift, on_state, sm_ret. cbn [fst snd].
  rewrite decode_encode_snapshot; [|done..|lia|done].
  cbn [fst snd]. rewrite Hvisit. do 2 eexists. split; [reflexivity|]. done.
Qed.

(** ** Journal records *)

(** A pool record: members and live counters of a pool already there are kept. *)
Definition upsert_pool (e : PoolEntry) (s : Impl) : Impl :=
  put_pool (match im_pools s !! pd_id (en_descriptor e) with
    | Some existing => fresh_entry e <| en_members := en_members existing |> <| en_runtime := en_runtime existing |>
    | None => fresh_entry e
    end) s.

Definition drop_pool (pool : Z) (s : Impl) : Impl :=
  match im_pools s !! pool with
  | Some e => s <| im_pool_names ::= delete (pd_name (en_descriptor e)) |> <| im_pools ::= delete pool |>
  | None => s
  end.

Definition observed (x : PressureSnapshot) (s : Impl) : Impl :=
  put_pressure x (fun h => drop (length h - Z.to_nat (fc_pressure_history_capacity (im_config s))) h) s.

Definition begun (epoch : Z) (boot : BootIncarnation) (s : Impl) : Impl :=
  (if im_epoch s <? epoch then s <| im_epoch := epoch |> else s)
    <| im_boot := if (bi_hi boot =? 0) && (bi_lo boot =? 0) then im_boot s else boot |>.

Definition of_allocation (op : JournalOp) : Prop :=
  op ∈ [JournalOp.AllocationReserved; JournalOp.AllocationCommitted; JournalOp.AllocationReleased;
        JournalOp.AllocationReclaimed; JournalOp.AllocationFenced; JournalOp.AllocationRevalidated;
        JournalOp.AllocationExpired].

(** The records the operations journal, and the table write each stands for. *)
Inductive record_of : JournalOp -> Put -> (Impl -> Impl) -> Prop :=
| record_epoch epoch boot : is_u64 epoch -> is_u64 (bi_hi boot) -> is_u64 (bi_lo boot) ->
    record_of JournalOp.EpochAdvance (put_u64 epoch >+> put_u64 (bi_hi boot) >+> put_u64 (bi_lo boot)) (begun epoch boot)
| record_policy p : policy_writable p -> record_of JournalOp.PolicyUpsert (encode_policy p) (put_policy p)
| record_pool e : pool_writable e -> record_of JournalOp.PoolUpsert (encode_pool_entry e) (upsert_pool e)
| record_removal pool : is_u64 pool -> record_of JournalOp.PoolRemoved (put_u64 pool) (drop_pool pool)
| record_queue q : wf_queue q -> record_of JournalOp.QueueUpsert (encode_queue q) (put_queue q)
| record_capacity c : wf_capacity c -> record_of JournalOp.CapacitySet (encode_capacity c) (put_capacity c)
| record_allocation op r : of_allocation op -> allocation_writable r -> record_of op (encode_allocation r) (put_allocation r)
| record_pressure x : wf_pressure_snapshot x ->
    record_of JournalOp.PressureObserved (encode_pressure_snapshot x) (observed x).

Lemma restores_ext p m f g : restores p m f -> (forall s, f s = g s) -> restores p m g.
Proof. intros (bs & Hb & Hp & Hm) H. exists bs. split; [done|]. split; [done|]. intros pre rest s. by rewrite Hm, H. Qed.

Lemma loads_when (c : bool) f : loads (when c do (store f)) [] tt (fun s => if c then f s else s).
Proof. destruct c; [apply loads_store|apply loads_ret]. Qed.

Lemma record_loads op p f : record_of op p f -> restores p (load_record op) f.
Proof.
  intros H. destruct H as [epoch boot He Hh Hl|q Hq|e (Hw & Hg & Hv)|pool Hp|q Hq|c Hc|op r Hop Hr|x Hx].
  - eapply restores_ext.
    + eapply restores_then; [by apply roundtrips_u64|]. apply restores_stored.
      eapply restores_then; [by apply roundtrips_u64|]. eapply restores_field; [by apply roundtrips_u64|]. apply loads_when.
    + intros s. cbv beta. unfold begun. destruct boot as [hi lo]. cbn [bi_hi bi_lo].
      destruct (hi =? 0), (lo =? 0), (im_epoch s <? epoch); simpl; by destruct s.
  - by apply restores_policy.
  - eapply restores_then; [by apply roundtrips_pool|].
    eapply restores_field; [by apply roundtrips_id|]. apply loads_checked; [by rewrite Hv|].
    exact (loads_store (upsert_pool e)).
  - eapply restores_field; [by apply roundtrips_u64|]. exact (loads_store (drop_pool pool)).
  - by apply restores_queue.
  - by apply restores_capacity.
  - assert (load_record op = load_allocation "allocation record is not decodable" "allocation units are out of range") as ->.
    { unfold of_allocation in Hop. rewrite !elem_of_cons, elem_of_nil in Hop. by repeat destruct Hop as [-> |Hop]. }
    by apply restores_allocation.
  - eapply restores_field; [by apply roundtrips_pressure_snapshot|]. intros pre rest s.
    unfold sm_bind, sm_get. apply (loads_store (observed x) pre rest s).
Qed.

(** The payload of a record, as [journal] hands it to the store. *)
Definition payload_of (op : JournalOp) (p : Put) : list Z := wr_buffer ((put_enum op >+> put_bytes (wr_buffer (p writer_empty))) writer_empty).

Lemma record_replays op p f :
  record_of op p f ->
  wr_failed (p writer_empty) = false /\
  wr_failed ((put_enum op >+> put_bytes (wr_buffer (p writer_empty))) writer_empty) = false /\ is_bytes (payload_of op p) /\
  forall n s, apply_journal_payload (payload_of op p) n s = (Good tt, f s).
Proof.
  intros H. destruct (record_loads op p f H) as (bs & Hb & Hp & Hm). rewrite (Hp writer_empty eq_refl). cbn [wr_failed wr_buffer writer_empty].
  destruct (roundtrips_u8 (enum_code op) (enum_code_u8 op)) as (os & Ho & Hpo & Hro).
  assert (appends (put_enum op >+> put_bytes bs) (os ++ bs)) as Ha by (apply appends_seq; [exact Hpo|apply appends_bytes]).
  unfold payload_of. rewrite (Hp writer_empty eq_refl). cbn [wr_buffer writer_empty]. rewrite app_nil_l, (Ha writer_empty eq_refl).
  cbn [wr_failed wr_buffer writer_empty]. rewrite app_nil_l. split; [done|]. split; [done|]. split; [by apply Forall_app|].
  intros n s. unfold apply_journal_payload, load, sm_bind, reader_of.
  pose proof (loads_field get_u8 "journal record has no opcode" os _ Hro [] bs s) as Hf. cbn [length app Nat.add] in Hf.
  rewrite Hf. rewrite enum_cast_code.
  specialize (Hm os [] s). rewrite app_nil_r in Hm. by rewrite Hm.
Qed.


(** A fresh process on the files that [s] left: no tables, its own clock and configuration. *)
Record fresh_on (d : DurableStore) (s : Impl) : Prop := {
  fo_blank : blank s;
  fo_store : im_store s = reopen d
}.

(** ** Properties *)

(** C4. The journal replays what was journaled. Whatever a journal of complete records
    rebuilds, appending the record of an operation succeeds (on an open journal with room, no
    compaction being due), leaves the file ending with exactly that record's frame, and the
    longer journal rebuilds the same tables with that record's own write applied last. *)
Theorem journal_record_extends (op : JournalOp) (p : Put) (f : Impl -> Impl) (message : string) (rs : list (list Z)) (x s s' : Impl) :
  record_of op p f -> durable x = true -> needs_compaction (im_store x) = false ->
  ds_configured (im_store x) = true -> ds_writable (im_store x) = true -> ds_io (im_store x) = [] ->
  store_consistent (im_store x) -> ds_journal (im_store x) = Some (frames_of rs) ->
  Z.of_nat (length (payload_of op p)) <= kMaxJournalRecordBytes -> journal_room (im_store x) (payload_of op p) ->
  visit_all apply_journal_payload rs 0 s = (Good tt, s') ->
  exists x', journal_encoded op p message x = (Good tt, x') /\
    ds_journal (im_store x') = Some (frames_of (rs ++ [payload_of op p])) /\
    visit_all apply_journal_payload (rs ++ [payload_of op p]) 0 s = (Good tt, f s').
Proof.
  intros Hr Hd Hn Hcf Hw Hio Hc Hj Hl Hroom Hv. destruct (record_replays op p f Hr) as (H1 & H2 & Hb & Hre).
  destruct (append_record_ok (im_store x) (payload_of op p)) as (d & Ha & Hd' & _); [done..|].
  eexists. split; [|split].
  - unfold journal_encoded. rewrite H1. unfold journal, sm_bind, sm_get. rewrite Hd, Hn. cbn [negb]. unfold sm_ret. rewrite H2.
    unfold on_store_m. fold (payload_of op p). rewrite Ha. reflexivity.
  - cbn. rewrite Hd'. unfold journal_contents. rewrite Hj. unfold frames_of. rewrite map_app, concat_app. simpl. by rewrite app_nil_r.
  - eapply visit_all_app; [exact Hv|apply Hre].
Qed.


(** ** A restart *)

(** The fabric of the sample run after a partial release, an observation and a reservation. *)
Definition sample_lease : list (Z * Op) := take 1 sample_end ++ [
  (10, OpObservePressure (default_PressureSnapshot <| ps_pool := 2 |> <| ps_epoch := 1 |> <| ps_pool_generation := 1 |>
         <| ps_ttl_ticks := 100 |> <| ps_assert_committed := false |>));
  (11, OpAllocate (default_AllocateRequest <| aq_attempt := 3 |> <| aq_pool := 2 |> <| aq_queue := 1 |>
         <| aq_requested_units := 10 |> <| aq_commit_immediately := false |>))].

Definition sample_leased : Impl := run sample_lease sample_running.

Definition sample_saved : Impl :=
  sample_leased <| im_store := default_DurableStore <| ds_configured := true |>
    <| ds_config ::= fun c => c <| pc_mode := DurabilityMode.JournalSync |> |> |>.

Definition sample_checkpointed : Impl := snd (checkpoint sample_saved).

Definition sample_fresh : Impl := default_Impl <| im_tick := 50 |> <| im_store := reopen (im_store sample_checkpointed) |>.

Lemma map_Forall_values {A} (P : A -> Prop) (m : gmap Z A) l : values m = l -> Forall P l -> map_Forall (fun _ => P) m.
Proof. intros <- H k a Hk. rewrite list.Forall_forall in H. apply H, elem_of_values. by exists k. Qed.

(** Closed facts about a concrete record. *)
Ltac closed_fact := vm_compute; intuition congruence.

Ltac closed_table m :=
  let l := eval vm_compute in (values m) in
  split; [apply (map_Forall_values _ m l); [vm_compute; reflexivity|repeat (constructor; [closed_fact|]); constructor]|closed_fact].

Lemma sample_image_ok : image_ok sample_saved.
Proof.
  split.
  - split; closed_fact.
  - closed_table (im_policies sample_saved).
  - closed_table (im_pools sample_saved).
  - closed_table (im_queues sample_saved).
  - closed_table (im_allocations sample_saved).
  - let l := eval vm_compute in (latest_snapshots sample_saved) in
    split; [replace (latest_snapshots sample_saved) with l by (vm_compute; reflexivity)|closed_fact].
    repeat (constructor; [closed_fact|]). constructor.
  - closed_table (im_attempts sample_saved).
  - closed_table (im_capacities sample_saved).
Qed.

(** The books and the layout index the pools, queues, names and allocations. *)
Lemma Inv_indexed s :
  Inv s -> keyed pol_id (im_policies s) -> keyed at_id (im_attempts s) -> keyed cp_resource (im_capacities s) ->
  pressure_keyed (im_pressure s) -> indexed s.
Proof.
  intros HI Hp Ha Hc Hpr. pose proof (inv_books s HI) as HB. pose proof (inv_layout s HI) as [_ _ _ Hq H1 H2]. split; try done.
  - intros k e He. apply (bk_entry _ _ HB k e He).
  - intros k q Hk. by apply (Hq k q).
  - intros k r Hk. by apply HB.
Qed.

Lemma keyed_list {A} (key : A -> Z) (m : gmap Z A) l :
  map_to_list m = l -> Forall (fun ka => key (snd ka) = fst ka) l -> keyed key m.
Proof. intros <- H k a Hk. rewrite list.Forall_forall in H. apply (H (k, a)). by apply elem_of_map_to_list. Qed.

Ltac closed_keys key m :=
  let l := eval vm_compute in (map_to_list m) in
  apply (keyed_list key m l); [vm_compute; reflexivity|repeat (constructor; [reflexivity|]); constructor].

Lemma lease_admitted : all_admitted sample_lease sample_running.
Proof.
  destruct end_admitted as (Ha & _). cbn [all_admitted sample_lease sample_end take app admitted] in *.
  split; [exact Ha|]. split; [exact I|]. split; [vm_compute; discriminate|exact I].
Qed.

Lemma sample_saved_inv : Inv sample_saved.
Proof.
  assert (Inv sample_leased) as HI.
  { eapply reachable_inv; [|apply (run_reachable _ _ lease_admitted)].
    exact (reachable_inv _ _ constructed_inv (run_reachable _ _ start_admitted)). }
  unfold sample_saved. revert HI. generalize sample_leased. intros s []. by split.
Qed.

Lemma sample_indexed : indexed sample_saved.
Proof.
  apply Inv_indexed; [exact sample_saved_inv| | | |].
  - closed_keys pol_id (im_policies sample_saved).
  - closed_keys at_id (im_attempts sample_saved).
  - closed_keys cp_resource (im_capacities sample_saved).
  - assert (keyed (fun e => ps_pool (pr_latest e)) (im_pressure sample_saved)) as H.
    { closed_keys (fun e => ps_pool (pr_latest e)) (im_pressure sample_saved). }
    intros k e He _. exact (H k e He).
Qed.


Definition sample_journaling : Impl :=
  default_Impl <| im_store := default_DurableStore <| ds_configured := true |> <| ds_writable := true |>
    <| ds_journal := Some [] |> <| ds_config ::= fun c => c <| pc_mode := DurabilityMode.JournalSync |> |> |>.

Definition sample_record : AllocationRecord :=
  default_AllocationRecord <| ar_id := 7 |> <| ar_units := 40 |> <| ar_state := AllocationState.Committed |>.

Lemma journal_record_extends_witness : exists x',
  journal_allocation JournalOp.AllocationCommitted sample_record sample_journaling = (Good tt, x') /\
  ds_journal (im_store x') = Some (frame_of (payload_of JournalOp.AllocationCommitted (encode_allocation sample_record)) ++ []) /\
  visit_all apply_journal_payload [payload_of JournalOp.AllocationCommitted (encode_allocation sample_record)] 0 default_Impl =
    (Good tt, put_allocation sample_record default_Impl).
Proof.
  apply (journal_record_extends JournalOp.AllocationCommitted (encode_allocation sample_record) (put_allocation sample_record)
    "allocation record could not be encoded" [] sample_journaling default_Impl default_Impl).
  - constructor; [right; left|split; [closed_fact|vm_compute; discriminate]].
  - reflexivity.
  - reflexivity.
  - reflexivity.
  - reflexivity.
  - reflexivity.
  - intros _. reflexivity.
  - reflexivity.
  - vm_compute. discriminate.
  - split; vm_compute; discriminate.
  - reflexivity.
Defined.
