(* ===== verification/Files.v ===== *)
(** * Files

    [src/fs.cpp], for both platforms it is written for, over a disk that can fail at every
    call and lose power between any two. A path names an inode; what was written to an
    inode is only sure to survive once it was flushed, and a change of the names once the
    directory was. [survives] says what a reader may find after a crash. The theorems show
    that the replacement of a file is atomic under crashes, and that what [Persist] assumes
    of its files is what these functions do. *)

From S2P Require Import Prelude Ints Hash Enums Status Codec Model Persist.

(** ** The disk *)

Inductive Platform := Windows | Posix.

(** How a call of the system goes: it does all it is asked, it moves at most [n] of the
    bytes, it moves none and says nothing more, or it fails. *)
Inductive Call := Done | Moved (n : nat) | Stalled (reason : string) | Failed (reason : string).

Record Inode := mkInode { nd_data : list Z; nd_flushed : bool }.

(** A disk is the files of one directory, the one that [sync_directory] flushes: every path
    that is replaced or removed here lies in the directory that the same call flushes.
    [dk_past] holds the tables of names since the directory was last flushed; [dk_calls] is
    how the coming calls go, past its end they are all done. *)
Record Disk := mkDisk {
  dk_platform : Platform; dk_names : gmap string nat; dk_past : list (gmap string nat);
  dk_inodes : gmap nat Inode; dk_next : nat; dk_dirs : gset string; dk_calls : list Call
}.

#[export] Instance settable_Inode : Settable Inode := fun n => mkInode (nd_data n) (nd_flushed n).
#[export] Instance settable_Disk : Settable Disk := fun d =>
  mkDisk (dk_platform d) (dk_names d) (dk_past d) (dk_inodes d) (dk_next d) (dk_dirs d) (dk_calls d).

(** What reading the file gives. *)
Definition contents (d : Disk) (path : string) : option (list Z) :=
  i ← dk_names d !! path; nd_data <$> dk_inodes d !! i.

(** What the file may hold after a crash: under any table of names since the directory was
    flushed, and any bytes at all in an inode that was not. *)
Definition survives (d : Disk) (path : string) (c : option (list Z)) : Prop :=
  exists names, names ∈ dk_names d :: dk_past d /\
  match names !! path with
  | None => c = None
  | Some i => exists node bytes, dk_inodes d !! i = Some node /\ c = Some bytes /\
      (nd_flushed node = true -> bytes = nd_data node)
  end.

Definition rename_to (f : gmap string nat -> gmap string nat) (d : Disk) : Disk :=
  d <| dk_past ::= cons (dk_names d) |> <| dk_names ::= f |>.

Definition write_node (i : nat) (f : list Z -> list Z) (d : Disk) : Disk :=
  d <| dk_inodes ::= alter (fun n => n <| nd_data ::= f |> <| nd_flushed := false |>) i |>.

Definition flush_node (i : nat) (d : Disk) : Disk :=
  d <| dk_inodes ::= alter (fun n => n <| nd_flushed := true |>) i |>.

(** A new, empty file. *)
Definition create (path : string) (d : Disk) : Disk :=
  rename_to <[path := dk_next d]> d <| dk_inodes ::= <[dk_next d := mkInode [] false]> |> <| dk_next ::= S |>.

(** ** Calls of the system *)

(** A call that fails by itself, or that [act] refuses, gives a reason and changes nothing. *)
Definition sys {A} (act : Disk -> string + (A * Disk)) : StateR Disk (string + A) := fun d =>
  let go d := match act d with inl reason => (Good (inl reason), d) | inr (a, d') => (Good (inr a), d') end in
  match dk_calls d with
  | Failed reason :: calls => (Good (inl reason), d <| dk_calls := calls |>)
  | _ :: calls => go (d <| dk_calls := calls |>)
  | [] => go d
  end.

Definition kNoEntry : string := "No such file or directory".

Definition sys_exists (path : string) : StateR Disk (string + bool) :=
  sys (fun d => inr (bool_decide (is_Some (dk_names d !! path)) || bool_decide (path ∈ dk_dirs d), d)).

Definition sys_is_directory (path : string) : StateR Disk (string + bool) :=
  sys (fun d => inr (bool_decide (path ∈ dk_dirs d), d)).

Definition sys_create_directories (path : string) : StateR Disk (string + unit) :=
  sys (fun d => inr (tt, d <| dk_dirs ::= union {[path]} |>)).

Definition sys_remove (path : string) : StateR Disk (string + unit) :=
  sys (fun d => inr (tt, match dk_names d !! path with Some _ => rename_to (delete path) d | None => d end)).

Definition sys_size (path : string) : StateR Disk (string + Z) :=
  sys (fun d => match contents d path with
    | Some bytes => inr (Z.of_nat (length bytes), d)
    | None => inl kNoEntry
    end).

Definition sys_rename (from to : string) : StateR Disk (string + unit) :=
  sys (fun d => match dk_names d !! from with
    | Some i => inr (tt, rename_to (fun names => <[to := i]> (delete from names)) d)
    | None => inl kNoEntry
    end).

(** Shorter, or longer by zeros. *)
Definition resize (size : nat) (bytes : list Z) : list Z := take size bytes ++ replicate (size - length bytes) 0.

Definition sys_resize (path : string) (size : nat) : StateR Disk (string + unit) :=
  sys (fun d => match dk_names d !! path with
    | Some i => inr (tt, write_node i (resize size) d)
    | None => inl kNoEntry
    end).

(** [O_CREAT] with [O_APPEND] or [O_TRUNC]; [OPEN_ALWAYS] and [CREATE_ALWAYS]. *)
Definition sys_open (truncate : bool) (path : string) : StateR Disk (string + nat) :=
  sys (fun d => match dk_names d !! path with
    | Some i => inr (i, if truncate then write_node i (fun _ => []) d else d)
    | None => inr (dk_next d, create path d)
    end).

Definition sys_open_read (path : string) : StateR Disk (string + nat) :=
  sys (fun d => match dk_names d !! path with Some i => inr (i, d) | None => inl kNoEntry end).

Definition sys_flush (i : nat) : StateR Disk (string + unit) := sys (fun d => inr (tt, flush_node i d)).

Definition sys_open_directory (path : string) : StateR Disk (string + unit) :=
  sys (fun d => if bool_decide (path ∈ dk_dirs d) then inr (tt, d) else inl kNoEntry).
Definition sys_flush_directory : StateR Disk (string + unit) := sys (fun d => inr (tt, d <| dk_past := [] |>)).

(** [fread] and [ReadFile]: the bytes that arrive, fewer when the call is cut short. *)
Definition sys_read (i : nat) (size : nat) : StateR Disk (string + list Z) := fun d =>
  let data := default [] (nd_data <$> dk_inodes d !! i) in
  match dk_calls d with
  | Failed reason :: calls => (Good (inl reason), d <| dk_calls := calls |>)
  | Moved n :: calls => (Good (inr (take (n `min` size) data)), d <| dk_calls := calls |>)
  | Stalled _ :: calls => (Good (inr []), d <| dk_calls := calls |>)
  | Done :: calls => (Good (inr (take size data)), d <| dk_calls := calls |>)
  | [] => (Good (inr (take size data)), d)
  end.

(** ** Helpers of the source *)

Definition io_error (what path reason : string) : Status :=
  status_of ErrorCode.PersistenceError (snprintf 512 (what ++ " failed for '" ++ path ++ "': " ++ reason)%string).

Definition win32_error (what reason : string) : Status :=
  status_of ErrorCode.PersistenceError (snprintf 256 (what ++ " failed with win32 error " ++ reason)%string).

Definition platform_error (d : Disk) (win posix path reason : string) : Status :=
  match dk_platform d with Windows => win32_error win reason | Posix => io_error posix path reason end.

(** A call whose failure is reported with [report]. *)
Definition or_fail {A} (m : StateR Disk (string + A)) (report : Disk -> string -> Status) : StateR Disk A :=
  let* r := m in
  match r with
  | inr a => sm_ret a
  | inl reason => fun d => (Bad (report d reason), d)
  end.

Definition cannot (what : string) (_ : Disk) (reason : string) : Status :=
  status_of ErrorCode.PersistenceError (what ++ reason)%string.

(** One call moves between one byte and all it is asked; Windows is asked for at most 2^28. *)
Definition kWriteChunk : Z := 0x10000000.

Definition asked (platform : Platform) (remaining : Z) : Z :=
  match platform with Windows => Z.min remaining kWriteChunk | Posix => remaining end.

(** The write loop: how it ends, what it has written, the calls that are left. A call that
    writes nothing is an error to the one platform and made again by the other. *)
Fixpoint write_loop (platform : Platform) (calls : list Call) (bytes : list Z) :
    option string * list Z * list Call :=
  let moved n calls :=
    let '(failure, written, rest) := write_loop platform calls (drop n bytes) in
    (failure, take n bytes ++ written, rest) in
  let size := asked platform (Z.of_nat (length bytes)) in
  match bytes, calls with
  | [], _ => (None, [], calls)
  | _, [] => (None, bytes, [])
  | _, Done :: calls => moved (Z.to_nat size) calls
  | _, Moved n :: calls => moved (Z.to_nat (Z.max 1 (Z.min (Z.of_nat n) size))) calls
  | _, Stalled reason :: calls =>
      match platform with Windows => write_loop platform calls bytes | Posix => (Some reason, [], calls) end
  | _, Failed reason :: calls => (Some reason, [], calls)
  end.

Definition write_all (win posix path : string) (i : nat) (bytes : list Z) : StateR Disk unit := fun d =>
  let '(failure, written, calls) := write_loop (dk_platform d) (dk_calls d) bytes in
  let d' := d <| dk_calls := calls |> in
  let d' := match written with [] => d' | _ => write_node i (fun data => data ++ written) d' end in
  match failure with
  | Some reason => (Bad (platform_error d win posix path reason), d')
  | None => (Good tt, d')
  end.

(** ** The functions of the source *)

Definition ends_in_separator (directory : string) : bool :=
  match last (String.list_ascii_of_string directory) with
  | Some c => let z := Z.of_N (Ascii.N_of_ascii c) in (z =? 47) || (z =? 92)
  | None => false
  end.

Definition join_path (directory leaf : string) : string :=
  if String.eqb directory "" then leaf
  else if ends_in_separator directory then (directory ++ leaf)%string
  else (directory ++ "/" ++ leaf)%string.

Definition path_exists (path : string) : StateR Disk bool :=
  let* r := sys_exists path in sm_ret (match r with inr b => b | inl _ => false end).

Definition ensure_directory (path : string) : StateR Disk unit :=
  if String.eqb path "" then sm_fail ErrorCode.InvalidArgument "directory path is empty"
  else
    let* r := sys_exists path in
    match r with
    | inr true =>
        let* directory := sys_is_directory path in
        match directory with
        | inr true => sm_ret tt
        | _ => sm_fail ErrorCode.PersistenceError ("path exists and is not a directory: " ++ path)%string
        end
    | _ => or_fail (sys_create_directories path) (cannot "cannot create directory: ")
    end.

Definition remove_file (path : string) : StateR Disk unit :=
  or_fail (sys_remove path) (cannot "cannot remove file: ").

Definition file_size (path : string) : StateR Disk Z := or_fail (sys_size path) (cannot "cannot size file: ").

(** The bytes asked of one call: a 32-bit count on Windows. *)
Definition read_bytes (i : nat) (size : Z) : StateR Disk (list Z) := fun d =>
  match dk_platform d with
  | Windows => or_fail (sys_read i (Z.to_nat (wrap32 size))) (fun _ => win32_error "ReadFile") d
  | Posix => (let* r := sys_read i (Z.to_nat size) in
              sm_ret (match r with inr bytes => bytes | inl _ => [] end)) d
  end.

(** The bytes, and whether the file existed. *)
Definition read_file_bounded (path : string) (max_bytes : Z) : StateR Disk (list Z * bool) :=
  let* r := sys_exists path in
  match r with
  | inr true =>
      let* size := or_fail (sys_size path) (cannot "cannot size file: ") in
      if max_bytes <? size then sm_fail ErrorCode.OversizedMessage "file exceeds the configured bound"
      else
        let* i := or_fail (sys_open_read path) (fun d => platform_error d "CreateFile" "fopen" path) in
        let* bytes := (if size =? 0 then sm_ret [] else read_bytes i size) in
        if negb (Z.of_nat (length bytes) =? size) then sm_fail ErrorCode.PersistenceError "short read"
        else sm_ret (bytes, true)
  | _ => sm_ret ([], false)
  end.

Definition append_file (path : string) (bytes : list Z) (durable : bool) : StateR Disk unit :=
  let* i := or_fail (sys_open false path) (fun d => platform_error d "CreateFile(append)" "open" path) in
  write_all "WriteFile" "write" path i bytes ;;;
  when durable do (or_fail (sys_flush i) (fun d => platform_error d "FlushFileBuffers" "fsync" path)).

Definition write_file_atomic (path temp_path : string) (bytes : list Z) (durable : bool) : StateR Disk unit :=
  let* _ := sys_remove temp_path in
  let* i := or_fail (sys_open true temp_path) (fun d => platform_error d "CreateFile(temp)" "open" temp_path) in
  write_all "WriteFile(temp)" "write" temp_path i bytes ;;;
  when durable do (or_fail (sys_flush i) (fun d => platform_error d "FlushFileBuffers(temp)" "fsync" temp_path)) ;;;
  or_fail (sys_rename temp_path path) (cannot "atomic replace failed: ").

Definition truncate_file (path : string) (size : Z) : StateR Disk unit :=
  or_fail (sys_resize path (Z.to_nat size)) (cannot "truncate failed: ").

(** On Windows no failure is reported. *)
Definition sync_directory (path : string) : StateR Disk unit := fun d =>
  match dk_platform d with
  | Windows =>
      (let* r := sys_open_directory path in
       match r with
       | inl _ => sm_ret tt
       | inr _ => let* _ := sys_flush_directory in sm_ret tt
       end) d
  | Posix =>
      (or_fail (sys_open_directory path) (fun _ => io_error "open(dir)" path) ;;;
       or_fail sys_flush_directory (fun _ => io_error "fsync(dir)" path)) d
  end.

Definition flush_handle (handle : option nat) : StateR Disk unit :=
  match handle with
  | None => sm_fail ErrorCode.PersistenceError "invalid handle"
  | Some i => or_fail (sys_flush i) (fun d => platform_error d "FlushFileBuffers" "fsync" "<handle>")
  end.

(** [DurableStore::write_snapshot] until the journal is touched. *)
Definition commit_snapshot (path directory : string) (bytes : list Z) (durable : bool) : StateR Disk unit :=
  write_file_atomic path (path ++ ".tmp")%string bytes durable ;;;
  sync_directory directory.

(** [stdio_size]: the size of an open file as [ftell] reports it in a [long], 0 when it
    does not fit. *)
Definition long_max (platform : Platform) : Z := match platform with Windows => 2 ^ 31 - 1 | Posix => 2 ^ 63 - 1 end.

Definition stdio_size (platform : Platform) (size : Z) : Z := if long_max platform <? size then 0 else size.

(** [Journal::open_read]: the handle, and the size that the replay will trust. *)
Definition open_read (path : string) (max_bytes : Z) : StateR Disk (nat * Z) :=
  let* i := or_fail (sys_open_read path)
    (fun _ _ => status_of ErrorCode.PersistenceError ("cannot open journal for read: " ++ path)%string) in
  let* d := sm_get in
  let size := stdio_size (dk_platform d) (Z.of_nat (length (default [] (nd_data <$> dk_inodes d !! i)))) in
  if max_bytes <? size then sm_fail ErrorCode.OversizedMessage "journal exceeds the configured bound"
  else sm_ret (i, size).

(** ** Rules *)

Lemma wp_sys {A} (act : Disk -> string + (A * Disk)) d (Q : string + A -> Disk -> Prop) E :
  (forall reason calls, Q (inl reason) (d <| dk_calls := calls |>)) ->
  (forall calls, match act (d <| dk_calls := calls |>) with
     | inl reason => Q (inl reason) (d <| dk_calls := calls |>)
     | inr (a, d') => Q (inr a) d'
     end) -> wp (sys act) d Q E.
Proof.
  intros Hfail Hdone. assert (d = d <| dk_calls := dk_calls d |>) as Hd by by destruct d.
  unfold wp, sys. destruct (dk_calls d) as [|[|n|why|why] calls] eqn:Hc.
  1: { rewrite <- Hc in Hd. specialize (Hdone (dk_calls d)). rewrite <- Hd in Hdone.
       destruct (act d) as [reason|[a d']]; [|done]. rewrite Hd. apply Hfail. }
  4: apply Hfail.
  all: specialize (Hdone calls); by destruct (act _) as [reason|[a d']].
Qed.

Lemma wp_or_fail {A} (m : StateR Disk (string + A)) report d (Q : A -> Disk -> Prop) E :
  wp m d (fun r d' => match r with inr a => Q a d' | inl reason => E (report d' reason) d' end) E ->
  wp (or_fail m report) d Q E.
Proof. intros H. apply wp_bind. eapply wp_mono; [exact H| |done]. by intros [reason|a] d' Hr. Qed.

Lemma asked_range platform n : 0 < n -> 1 <= asked platform n <= n.
Proof. unfold asked, kWriteChunk. destruct platform; lia. Qed.

(** A loop that ends well has written everything, and a prefix otherwise. *)
Lemma write_loop_written platform calls bytes : let '(failure, written, rest) := write_loop platform calls bytes in
  written = take (length written) bytes /\ (failure = None -> written = bytes).
Proof.
  assert (forall n bytes' calls', (let '(failure, written, rest) := write_loop platform calls' (drop n bytes') in
      written = take (length written) (drop n bytes') /\ (failure = None -> written = drop n bytes')) ->
    (n <= length bytes')%nat ->
    let '(failure, written, rest) := (let '(failure, written, rest) := write_loop platform calls' (drop n bytes') in
      (failure, take n bytes' ++ written, rest)) in
    written = take (length written) bytes' /\ (failure = None -> written = bytes')) as Hmoved.
  { intros n bytes' calls'. destruct (write_loop _ _ _) as [[failure written] rest]. intros [Hw Hf] Hn. split.
    - rewrite length_app, length_take, Nat.min_l by done. rewrite Hw at 1. by rewrite take_take_drop.
    - intros ->. by rewrite Hf, take_drop. }
  revert bytes. induction calls as [|call calls IH]; intros [|b bytes]; try done.
  { split; [cbn; by rewrite firstn_all|done]. }
  pose proof (asked_range platform (Z.of_nat (length (b :: bytes))) ltac:(simpl; lia)) as Hr.
  destruct call; cbn [write_loop].
  - apply Hmoved; [apply IH|lia].
  - apply Hmoved; [apply IH|lia].
  - destruct platform; [apply IH|done].
  - done.
Qed.

Lemma wp_write_all win posix path i bytes d (Q : unit -> Disk -> Prop) E :
  (forall calls, bytes = [] -> Q tt (d <| dk_calls := calls |>)) ->
  (forall calls, Q tt (write_node i (fun data => data ++ bytes) (d <| dk_calls := calls |>))) ->
  (forall reason calls, E (platform_error d win posix path reason) (d <| dk_calls := calls |>)) ->
  (forall reason calls n, E (platform_error d win posix path reason)
     (write_node i (fun data => data ++ take n bytes) (d <| dk_calls := calls |>))) ->
  wp (write_all win posix path i bytes) d Q E.
Proof.
  intros H1 H2 H3 H4. unfold wp, write_all. pose proof (write_loop_written (dk_platform d) (dk_calls d) bytes) as Hw.
  destruct (write_loop _ _ _) as [[[reason|] written] calls]; destruct Hw as [Hw Hf].
  - destruct written as [|b written]; [apply H3|]. rewrite Hw. apply H4.
  - rewrite <- (Hf eq_refl) in *. destruct written; [by apply H1|apply H2].
Qed.

(** ** What a change of the disk leaves alone *)

Definition tables (d : Disk) : list (gmap string nat) := dk_names d :: dk_past d.

(** Every name that was ever given since the directory was flushed leads to an inode. *)
Record disk_ok (d : Disk) : Prop := {
  do_known : forall names p i, names ∈ tables d -> names !! p = Some i ->
    (i < dk_next d)%nat /\ is_Some (dk_inodes d !! i)
}.

(** No other name leads to the inode of [path], now or after a crash. *)
Definition private (d : Disk) (path : string) : Prop :=
  forall i names p, dk_names d !! path = Some i -> names ∈ tables d -> p <> path -> names !! p <> Some i.

(** [p] reads as before, and a crash gives nothing new for it. *)
Record keeps (p : string) (d d' : Disk) : Prop := {
  kp_contents : contents d' p = contents d p;
  kp_survives : forall c, survives d' p c -> survives d p c
}.

#[export] Instance keeps_preorder p : PreOrder (keeps p).
Proof.
  split; [by split|]. intros d1 d2 d3 [C1 S1] [C2 S2]. split; [congruence|auto].
Qed.

(** The names [p] had are the names [p] has, and so are their inodes. *)
Lemma keeps_frame p d d' :
  dk_names d' !! p = dk_names d !! p ->
  (forall names, names ∈ tables d' -> exists names0, names0 ∈ tables d /\ names !! p = names0 !! p) ->
  (forall names i, names ∈ tables d -> names !! p = Some i -> dk_inodes d' !! i = dk_inodes d !! i) ->
  keeps p d d'.
Proof.
  intros Hn Ht Hi. split.
  - unfold contents. rewrite Hn. destruct (dk_names d !! p) as [i|] eqn:E; [|done]. cbn.
    rewrite (Hi (dk_names d) i); [done|by left|done].
  - intros c (names & Hin & Hc). destruct (Ht names Hin) as (names0 & Hin0 & He). exists names0. split; [done|].
    rewrite He in Hc. destruct (names0 !! p) as [i|] eqn:E; [|done]. by rewrite (Hi names0 i Hin0 E) in Hc.
Qed.

(** [d] has come from [d0] by changes of the private file [temp] only. *)
Record staged (temp : string) (d0 d : Disk) : Prop := {
  st_ok : disk_ok d;
  st_private : private d temp;
  st_platform : dk_platform d = dk_platform d0;
  st_dirs : dk_dirs d = dk_dirs d0;
  st_keeps : forall p, p <> temp -> keeps p d0 d
}.

Lemma staged_refl temp d : disk_ok d -> private d temp -> staged temp d d.
Proof. by split. Qed.

Lemma staged_calls temp d0 d calls : staged temp d0 d -> staged temp d0 (d <| dk_calls := calls |>).
Proof.
  intros [[Ho] Hp Hpf Hd Hk]. split; [by split|exact Hp|done|done|]. intros p Hne. destruct (Hk p Hne). by split.
Qed.

(** A new table of names that differs at [temp] only. *)
Lemma staged_rename temp f d0 d : staged temp d0 d ->
  (forall names p, p <> temp -> f names !! p = names !! p) -> f (dk_names d) !! temp = None ->
  staged temp d0 (rename_to f d).
Proof.
  intros [[Ho] Hp Hpf Hd Hk] Hf Ht. split; [split| |done|done|].
  - intros names p i [->|Hin]%elem_of_cons Hi; [|by apply (Ho names p)]. cbn in Hi.
    destruct (decide (p = temp)) as [->|Hne]; [by rewrite Ht in Hi|]. rewrite Hf in Hi by done. apply (Ho (dk_names d) p); [by left|done].
  - intros i names p Hi. cbn in Hi. by rewrite Ht in Hi.
  - intros p Hne. transitivity d; [by apply Hk|]. apply keeps_frame; [by apply Hf| |done].
    intros names [->|Hin]%elem_of_cons; [exists (dk_names d); split; [by left|by apply Hf]|by exists names].
Qed.

(** A change of the inode of [temp]. *)
Lemma staged_node temp i g d0 d : staged temp d0 d -> dk_names d !! temp = Some i ->
  staged temp d0 (d <| dk_inodes ::= alter g i |>).
Proof.
  intros [[Ho] Hp Hpf Hd Hk] Hi. split; [split| |done|done|].
  - intros names p j Hin Hj. destruct (Ho names p j Hin Hj) as [? Hs]. split; [done|]. cbn.
    rewrite lookup_alter_is_Some. exact Hs.
  - exact Hp.
  - intros p Hne. transitivity d; [by apply Hk|]. apply keeps_frame; [done|intros names Hin; by exists names|].
    intros names j Hin Hj. cbn. apply lookup_alter_ne. intros <-. by eapply Hp.
Qed.

Lemma staged_create temp d0 d : staged temp d0 d -> dk_names d !! temp = None -> staged temp d0 (create temp d).
Proof.
  intros [[Ho] Hp Hpf Hd Hk] Ht.
  assert (forall names p i, names ∈ tables (create temp d) -> names !! p = Some i ->
    p = temp /\ names = <[temp := dk_next d]> (dk_names d) /\ i = dk_next d \/
    (i < dk_next d)%nat /\ is_Some (dk_inodes d !! i)) as Hcase.
  { intros names p i [->|Hin]%elem_of_cons Hi; [|right; by apply (Ho names p)]. cbn in Hi.
    destruct (decide (p = temp)) as [->|Hne].
    - rewrite lookup_insert_eq in Hi. injection Hi as <-. by left.
    - rewrite lookup_insert_ne in Hi by done. right. apply (Ho (dk_names d) p); [by left|done]. }
  split; [split| |done|done|].
  - intros names p i Hin Hi. destruct (Hcase names p i Hin Hi) as [(_ & _ & ->)|[Hlt Hs]]; cbn.
    + split; [lia|]. rewrite lookup_insert_eq. by eexists.
    + split; [lia|]. rewrite lookup_insert_ne by lia. done.
  - intros i names p Hi Hin Hne Hj. cbn in Hi. rewrite lookup_insert_eq in Hi. injection Hi as <-.
    destruct (Hcase names p _ Hin Hj) as [(-> & _)|[? _]]; [done|lia].
  - intros p Hne. transitivity d; [by apply Hk|]. apply keeps_frame; [by apply lookup_insert_ne| |].
    + intros names [->|Hin]%elem_of_cons; [|by exists names]. exists (dk_names d). split; [by left|by apply lookup_insert_ne].
    + intros names i Hin Hi. cbn. apply lookup_insert_ne. destruct (Ho names p i Hin Hi). lia.
Qed.

(** The temporary file is open: it is the inode [i] and holds [node]. *)
Record opened (temp : string) (d0 : Disk) (i : nat) (node : Inode) (d : Disk) : Prop := {
  op_staged : staged temp d0 d;
  op_name : dk_names d !! temp = Some i;
  op_node : dk_inodes d !! i = Some node
}.

Lemma opened_calls temp d0 i node d calls : opened temp d0 i node d -> opened temp d0 i node (d <| dk_calls := calls |>).
Proof. intros [Hs Hn Hi]. split; [by apply staged_calls|done|done]. Qed.

Lemma opened_alter temp d0 i node g d : opened temp d0 i node d -> opened temp d0 i (g node) (d <| dk_inodes ::= alter g i |>).
Proof.
  intros [Hs Hn Hi]. split; [by apply staged_node|done|]. cbn. by rewrite lookup_alter_eq, Hi.
Qed.

Lemma wp_open_temp temp d0 d : staged temp d0 d ->
  wp (sys_open true temp) d (fun r d' => match r with
      | inr i => opened temp d0 i (mkInode [] false) d'
      | inl _ => staged temp d0 d' end) (fun _ _ => False).
Proof.
  intros Hs. apply wp_sys; [intros reason calls; by apply staged_calls|]. intros calls.
  apply (staged_calls _ _ _ calls) in Hs. cbn. set (d1 := d <| dk_calls := calls |>) in *.
  change (dk_names d) with (dk_names d1). destruct (dk_names d1 !! temp) as [i|] eqn:Hi.
  - destruct (do_known _ (st_ok _ _ _ Hs) (dk_names d1) temp i) as [_ [node Hnode]]; [by left|done|].
    exact (opened_alter temp d0 i node (fun n => n <| nd_data := [] |> <| nd_flushed := false |>) d1 (Build_opened _ _ _ _ _ Hs Hi Hnode)).
  - split; [by apply staged_create|by apply lookup_insert_eq|by apply lookup_insert_eq].
Qed.

(** The file at [path] is [bytes], in an inode that is flushed if [durable]. *)
Record replaced (path temp : string) (bytes : list Z) (durable : bool) (d0 d : Disk) : Prop := {
  re_ok : disk_ok d;
  re_private : private d temp;
  re_platform : dk_platform d = dk_platform d0;
  re_dirs : dk_dirs d = dk_dirs d0;
  re_node : exists i, dk_names d !! path = Some i /\ dk_inodes d !! i = Some (mkInode bytes durable);
  re_survives : durable = true -> forall c, survives d path c -> survives d0 path c \/ c = Some bytes;
  re_others : forall p, p <> path -> p <> temp -> keeps p d0 d
}.

Lemma opened_rename path temp bytes durable d0 i d : path <> temp -> opened temp d0 i (mkInode bytes durable) d ->
  replaced path temp bytes durable d0 (rename_to (fun names => <[path := i]> (delete temp names)) d).
Proof.
  intros Hne [[[Ho] Hp Hpf Hd Hk] Hn Hi].
  set (d' := rename_to _ d). assert (dk_names d' = <[path := i]> (delete temp (dk_names d))) as Hd' by done.
  assert (forall p, p <> path -> p <> temp -> dk_names d' !! p = dk_names d !! p) as Hother.
  { intros p H1 H2. by rewrite Hd', lookup_insert_ne, lookup_delete_ne by done. }
  assert (dk_names d' !! path = Some i) as Hpath by (rewrite Hd'; by apply lookup_insert_eq).
  assert (dk_names d' !! temp = None) as Htemp by (rewrite Hd', lookup_insert_ne by done; apply lookup_delete_eq).
  split; [split| |done|done| | |].
  - intros names p j [->|Hin]%elem_of_cons Hj; [|by apply (Ho names p)]. destruct (decide (p = path)) as [->|H1].
    + rewrite Hpath in Hj. injection Hj as <-. apply (Ho (dk_names d) temp); [by left|done].
    + destruct (decide (p = temp)) as [->|H2]; [by rewrite Htemp in Hj|]. rewrite Hother in Hj by done. apply (Ho (dk_names d) p); [by left|done].
  - intros j names p Hj. by rewrite Htemp in Hj.
  - by exists i.
  - intros -> c (names & [->|Hin]%elem_of_cons & Hc).
    + right. rewrite Hpath in Hc. destruct Hc as (node & b & Hnode & -> & Hb).
      change (dk_inodes d !! i = Some node) in Hnode. rewrite Hi in Hnode. injection Hnode as <-. by rewrite Hb.
    + left. apply (kp_survives _ _ _ (Hk path Hne)). by exists names.
  - intros p H1 H2. transitivity d; [by apply Hk|]. apply keeps_frame; [by apply Hother| |done].
    intros names [->|Hin]%elem_of_cons; [exists (dk_names d); split; [by left|by apply Hother]|by exists names].
Qed.

Lemma platform_error_code d win posix path reason :
  st_code (platform_error d win posix path reason) = ErrorCode.PersistenceError.
Proof. unfold platform_error. by destruct (dk_platform d). Qed.

(** What failed did so with this status, and only the temporary file has changed. *)
Definition gave_up (temp : string) (d0 : Disk) (e : Status) (d : Disk) : Prop :=
  st_code e = ErrorCode.PersistenceError /\ staged temp d0 d.

Lemma wp_write_temp win posix path temp bytes d0 i d : opened temp d0 i (mkInode [] false) d ->
  wp (write_all win posix path i bytes) d (fun _ => opened temp d0 i (mkInode bytes false)) (gave_up temp d0).
Proof.
  intros Hd. assert (forall calls written, opened temp d0 i (mkInode written false)
      (write_node i (fun data => data ++ written) (d <| dk_calls := calls |>))) as Hw.
  { intros calls written. apply (opened_calls _ _ _ _ _ calls) in Hd.
    exact (opened_alter _ _ _ _ (fun n => n <| nd_data ::= fun data => data ++ written |> <| nd_flushed := false |>) _ Hd). }
  apply wp_write_all.
  - intros calls ->. by apply opened_calls.
  - auto.
  - intros reason calls. split; [apply platform_error_code|]. by apply staged_calls, (op_staged _ _ _ _ _ Hd).
  - intros reason calls n. split; [apply platform_error_code|]. exact (op_staged _ _ _ _ _ (Hw calls (take n bytes))).
Qed.

Lemma wp_flush_temp win posix path temp bytes (durable : bool) d0 i d : opened temp d0 i (mkInode bytes false) d ->
  wp (when durable do (or_fail (sys_flush i) (fun d => platform_error d win posix path))) d
    (fun _ => opened temp d0 i (mkInode bytes durable)) (gave_up temp d0).
Proof.
  intros Hd. destruct durable; [|done]. apply wp_or_fail, wp_sys.
  - intros reason calls. split; [apply platform_error_code|]. by apply staged_calls, (op_staged _ _ _ _ _ Hd).
  - intros calls. apply (opened_calls _ _ _ _ _ calls) in Hd.
    exact (opened_alter _ _ _ _ (fun n => n <| nd_flushed := true |>) _ Hd).
Qed.

Lemma write_file_atomic_outcome path temp bytes durable d0 :
  disk_ok d0 -> private d0 temp -> path <> temp ->
  wp (write_file_atomic path temp bytes durable) d0 (fun _ => replaced path temp bytes durable d0) (gave_up temp d0).
Proof.
  intros Hok Hpriv Hne. pose proof (staged_refl temp d0 Hok Hpriv) as Hs. unfold write_file_atomic.
  apply wp_bind. apply (wp_mono _ _ (fun _ => staged temp d0) _ (fun _ _ => False)); [|clear Hs; intros _ d1 Hs|done].
  { apply wp_sys; [intros reason calls; by apply staged_calls|]. intros calls. apply (staged_calls _ _ _ calls) in Hs.
    cbn. destruct (dk_names d0 !! temp); [|done]. apply staged_rename; [done|intros; by apply lookup_delete_ne|apply lookup_delete_eq]. }
  apply wp_bind, wp_or_fail. eapply wp_mono; [by apply wp_open_temp| |done].
  intros [reason|i] d2 Hd; [split; [apply platform_error_code|done]|].
  apply wp_bind. eapply wp_mono; [by apply wp_write_temp| |done]. clear Hd. intros [] d3 Hd.
  apply wp_bind. eapply wp_mono; [by apply wp_flush_temp| |done]. clear Hd. intros [] d4 Hd.
  apply wp_or_fail, wp_sys; [intros reason calls; split; [done|]; by apply staged_calls, (op_staged _ _ _ _ _ Hd)|].
  intros calls. apply (opened_calls _ _ _ _ _ calls) in Hd. rewrite (op_name _ _ _ _ _ Hd). by apply opened_rename.
Qed.

(** ** Flushing the directory *)

Lemma tables_flushed d : tables (d <| dk_past := [] |>) = [dk_names d].
Proof. reflexivity. Qed.

(** Fewer tables of names, the current one kept. *)
Lemma replaced_fewer path temp bytes durable d0 d past calls :
  replaced path temp bytes durable d0 d -> past = dk_past d \/ past = [] ->
  replaced path temp bytes durable d0 (d <| dk_past := past |> <| dk_calls := calls |>).
Proof.
  intros [[Ho] Hp Hpf Hd Hn Hs Hk] Hpast. set (d' := d <| dk_past := past |> <| dk_calls := calls |>).
  assert (forall names, names ∈ tables d' -> names ∈ tables d) as Hin.
  { intros names. unfold tables. cbn. rewrite !elem_of_cons. intros [->|H]; [by left|]. right.
    destruct Hpast as [->|Hnil]; [done|]. rewrite Hnil in H. by apply not_elem_of_nil in H. }
  assert (forall p c, survives d' p c -> survives d p c) as Hsurv.
  { intros p c (names & H & Hc). exists names. by split; [apply Hin|]. }
  split; [split| |done|done|done| |].
  - intros names p i H. by apply Ho, Hin.
  - intros i names p Hi H. by apply Hp, Hin.
  - intros Hdur c Hc. by apply Hs, Hsurv.
  - intros p H1 H2. destruct (Hk p H1 H2) as [C S]. split; [exact C|]. intros c Hc. by apply S, Hsurv.
Qed.

Definition flushed (d : Disk) : Prop := dk_platform d = Posix -> dk_past d = [].

Lemma sync_directory_outcome directory path temp bytes durable d0 d : replaced path temp bytes durable d0 d ->
  wp (sync_directory directory) d (fun _ d' => replaced path temp bytes durable d0 d' /\ flushed d')
    (fun e d' => st_code e = ErrorCode.PersistenceError /\ replaced path temp bytes durable d0 d').
Proof.
  intros Hr. assert (forall calls, replaced path temp bytes durable d0 (d <| dk_calls := calls |>)) as Hc.
  { intros calls. destruct d. exact (replaced_fewer _ _ _ _ _ _ _ calls Hr (or_introl eq_refl)). }
  unfold sync_directory, wp. destruct (dk_platform d) eqn:Hpf.
  - apply (wp_bind (sys_open_directory directory)), wp_sys; [intros reason calls|intros calls].
    { split; [apply Hc|]. by intros H; cbn in H; rewrite Hpf in H. }
    specialize (Hc calls). cbn. destruct (bool_decide _); [|split; [done|by intros H; cbn in H; rewrite Hpf in H]].
    apply (wp_bind sys_flush_directory), wp_sys.
    + intros reason calls'. split; [|by intros H; cbn in H; rewrite Hpf in H].
      exact (replaced_fewer _ _ _ _ _ _ _ calls' Hc (or_introl eq_refl)).
    + intros calls'. split; [|done]. exact (replaced_fewer _ _ _ _ _ _ [] calls' Hc (or_intror eq_refl)).
  - apply (wp_bind (or_fail _ _)), wp_or_fail, wp_sys; [intros reason calls; split; [done|apply Hc]|intros calls].
    specialize (Hc calls). cbn. destruct (bool_decide _); [|by split].
    apply wp_or_fail, wp_sys.
    + intros reason calls'. split; [done|]. exact (replaced_fewer _ _ _ _ _ _ _ calls' Hc (or_introl eq_refl)).
    + intros calls'. split; [|done]. exact (replaced_fewer _ _ _ _ _ _ [] calls' Hc (or_intror eq_refl)).
Qed.

Lemma temp_is_other (path : string) : path <> (path ++ ".tmp")%string.
Proof.
  intros H. apply (f_equal String.length) in H. revert H. induction path as [|c path IH]; [done|].
  cbn. intros [= H]. by apply IH.
Qed.

(** What can be found at [path] after a replacement that went this far. *)
Lemma commit_snapshot_outcome path directory bytes durable d0 : let temp := (path ++ ".tmp")%string in
  disk_ok d0 -> private d0 temp ->
  wp (commit_snapshot path directory bytes durable) d0
    (fun _ d => replaced path temp bytes durable d0 d /\ flushed d)
    (fun e d => st_code e = ErrorCode.PersistenceError /\
       (staged temp d0 d \/ replaced path temp bytes durable d0 d)).
Proof.
  intros temp Hok Hp. apply wp_bind.
  eapply wp_mono; [apply write_file_atomic_outcome; [done|done|apply temp_is_other]| |].
  - intros [] d Hr. eapply wp_mono; [by apply sync_directory_outcome|done|]. intros e d' [He Hd]. split; [done|by right].
  - intros e d [He Hd]. split; [done|by left].
Qed.

Lemma replaced_contents path temp bytes durable d0 d : replaced path temp bytes durable d0 d ->
  contents d path = Some bytes.
Proof. intros Hr. destruct (re_node _ _ _ _ _ _ Hr) as (i & Hn & Hi). unfold contents. by rewrite Hn; cbn; rewrite Hi. Qed.

(** * Atomic replacement *)

(** C6. Replacing the snapshot is atomic under power loss. A failed call leaves the disk as a crash
    before it does, so every outcome of the calls stands for a crash point too. Wherever the
    replacement stops, what a reader can find at [path] after a crash is what it could find
    before or the new bytes, whole; no other file is affected; and the next replacement
    starts from the same guarantees. When it succeeds the file reads as the new bytes, and on
    POSIX nothing else can be found there even after a crash, so that the journal may go. *)
Theorem replacement_survives_crashes (path directory : string) (bytes : list Z) (d0 d : Disk) (r : Result unit) :
  disk_ok d0 -> private d0 (path ++ ".tmp") -> commit_snapshot path directory bytes true d0 = (r, d) ->
  disk_ok d /\ private d (path ++ ".tmp") /\
  (forall c, survives d path c -> survives d0 path c \/ c = Some bytes) /\
  (forall p, p <> path -> p <> (path ++ ".tmp")%string -> keeps p d0 d) /\
  (r = Good tt -> contents d path = Some bytes /\
     (dk_platform d0 = Posix -> forall c, survives d path c -> c = Some bytes)).
Proof.
  intros Hok Hp Hrun. pose proof (wp_run _ _ _ _ _ _ (commit_snapshot_outcome path directory bytes true d0 Hok Hp) Hrun) as H.
  assert (staged (path ++ ".tmp") d0 d /\ r <> Good tt \/ replaced path (path ++ ".tmp") bytes true d0 d) as [[Hs Hr]|Hr].
  { destruct r as [[]|e]; [by right; destruct H|]. destruct H as [_ [?|?]]; [by left|by right]. }
  - split_and!; [apply Hs|apply Hs| | |done].
    + intros c Hc. left. by apply (kp_survives _ _ _ (st_keeps _ _ _ Hs path (temp_is_other path))).
    + intros p _ Hne. by apply Hs.
  - split_and!; [apply Hr|apply Hr|by apply Hr|intros p H1 H2; by apply Hr|].
    intros ->. destruct H as [_ Hf]. split; [by eapply replaced_contents|]. intros Hpf c (names & Hin & Hc).
    unfold flushed in Hf. rewrite (re_platform _ _ _ _ _ _ Hr), Hpf in Hf. rewrite (Hf eq_refl) in Hin.
    apply list_elem_of_singleton in Hin as ->. destruct (re_node _ _ _ _ _ _ Hr) as (i & Hn & Hi). rewrite Hn in Hc.
    destruct Hc as (node & b & Hnode & -> & Hb). rewrite Hi in Hnode. injection Hnode as <-. by rewrite Hb.
Qed.

(** ** Against the store of [Persist] *)

(** The files of a store. *)
Definition stores (snapshot_path journal_path : string) (d : Disk) (s : DurableStore) : Prop :=
  contents d snapshot_path = ds_snapshot s /\ contents d journal_path = ds_journal s.

(** Some outcomes of the operations of [Persist] make [n] end as [m] does on the disk. *)
Definition simulates {A B} (R : Disk -> DurableStore -> Prop) (same : A -> B -> Prop)
    (m : StateR Disk A) (n : StateR DurableStore B) (d : Disk) (s : DurableStore) : Prop :=
  exists io, match m d, n (s <| ds_io := io |>) with
  | (Good a, d'), (Good b, s') => same a b /\ R d' s'
  | (Bad e, d'), (Bad e', s') => st_code e = st_code e' /\ R d' s'
  | _, _ => False
  end.

(** The two halves of [Persist.write_snapshot]: the snapshot file, then the journal. *)
Definition put_snapshot (bytes : list Z) : StateR DurableStore unit :=
  io_plain "write_file_atomic" ;;;
  sm_modify (fun s => s <| ds_snapshot := Some bytes |>) ;;;
  io_plain "sync_directory".

Definition empty_journal : StateR DurableStore unit :=
  journal_close ;;; open_append ;;; journal_truncate 0 ;;; journal_sync ;;;
  sm_modify (fun s => s <| ds_journal_bytes := 0 |>).

Lemma write_snapshot_halves header payload s :
  ds_configured s = true -> Z.of_nat (length payload) <= pc_max_snapshot_bytes (ds_config s) ->
  write_snapshot header payload s =
    (put_snapshot (encode_snapshot (header <| sh_format_version := kPersistenceFormatVersion |>) payload) ;;;
     empty_journal) s.
Proof.
  intros Hc Hl. unfold write_snapshot, sm_bind at 1, sm_get. rewrite Hc. cbn [negb]. rewrite (proj2 (Z.ltb_ge _ _) Hl).
  unfold put_snapshot, empty_journal, sm_bind, sm_modify. destruct (io_plain "write_file_atomic" s) as [[[]|e] s1]; [|done].
  by destruct (io_plain "sync_directory" _) as [[[]|e] s2].
Qed.

Lemma commit_simulates path directory journal bytes durable d s :
  disk_ok d -> private d (path ++ ".tmp") -> journal <> path -> journal <> (path ++ ".tmp")%string ->
  stores path journal d s ->
  simulates (stores path journal) (fun _ _ => True) (commit_snapshot path directory bytes durable) (put_snapshot bytes) d s.
Proof.
  intros Hok Hp H1 H2 [Hsn Hj]. pose proof (commit_snapshot_outcome path directory bytes durable d Hok Hp) as H.
  unfold wp in H. unfold simulates. destruct (commit_snapshot path directory bytes durable d) as [[[]|e] d'].
  - destruct H as [Hr _]. exists []. split; [done|]. split; [by rewrite (replaced_contents _ _ _ _ _ _ Hr)|].
    rewrite (kp_contents _ _ _ (re_others _ _ _ _ _ _ Hr journal H1 H2)). exact Hj.
  - destruct H as [He [Hs|Hr]].
    + exists [IoFail 0]. split; [done|].
      split; [rewrite (kp_contents _ _ _ (st_keeps _ _ _ Hs path (temp_is_other path)))|
        rewrite (kp_contents _ _ _ (st_keeps _ _ _ Hs journal H2))]; done.
    + exists [IoOk; IoFail 0]. split; [done|]. split; [by rewrite (replaced_contents _ _ _ _ _ _ Hr)|].
      rewrite (kp_contents _ _ _ (re_others _ _ _ _ _ _ Hr journal H1 H2)). exact Hj.
Qed.

(** Reading changes nothing but the calls to come. *)
Definition only_calls (d d' : Disk) : Prop := exists calls, d' = d <| dk_calls := calls |>.

#[export] Instance only_calls_preorder : PreOrder only_calls.
Proof.
  split; [intros d; exists (dk_calls d); by destruct d|]. intros d1 d2 d3 [c1 ->] [c2 ->]. by exists c2.
Qed.

Lemma only_calls_contents d d' p : only_calls d d' -> contents d' p = contents d p.
Proof. by intros [calls ->]. Qed.

Lemma wp_sys_query {A} (f : Disk -> string + A) d (Q : string + A -> Disk -> Prop) E :
  (forall d' reason, only_calls d d' -> Q (inl reason) d') ->
  (forall d', only_calls d d' -> Q (f d') d') ->
  wp (sys (fun d => match f d with inl reason => inl reason | inr a => inr (a, d) end)) d Q E.
Proof.
  intros H1 H2. apply wp_sys; [intros reason calls; apply H1; by exists calls|]. intros calls.
  specialize (H2 (d <| dk_calls := calls |>) (ex_intro _ calls eq_refl)). by destruct (f _).
Qed.

Lemma wp_read_bytes i size d (Q : list Z -> Disk -> Prop) (E : Status -> Disk -> Prop) :
  (forall d' n, only_calls d d' -> Q (take n (default [] (nd_data <$> dk_inodes d !! i))) d') ->
  (forall d' e, only_calls d d' -> st_code e = ErrorCode.PersistenceError -> E e d') ->
  wp (read_bytes i size) d Q E.
Proof.
  intros HQ HE. assert (forall calls, only_calls d (d <| dk_calls := calls |>)) as Hc by (intros calls; by exists calls).
  assert (only_calls d d) as Hd by reflexivity.
  unfold wp, read_bytes, or_fail, sys_read, sm_bind, sm_ret. destruct (dk_platform d), (dk_calls d) as [|[|n|why|why] calls];
    try (apply HQ; apply Hc); try (apply HQ; apply Hd); try (apply HE; [apply Hc|done]).
  - exact (HQ _ 0%nat (Hc calls)).
  - exact (HQ _ 0%nat (Hc calls)).
  - exact (HQ _ 0%nat (Hc calls)).
Qed.

(** How reading a file of [bytes] can end. *)
Definition read_ends (d : Disk) (path : string) (max_bytes : Z) (r : Result (list Z * bool)) (d' : Disk) : Prop :=
  only_calls d d' /\
  match r with
  | Good (got, existed) => if existed then contents d path = Some got /\ Z.of_nat (length got) <= max_bytes else got = []
  | Bad e => exists bytes, contents d path = Some bytes /\
      (st_code e = ErrorCode.PersistenceError \/ st_code e = ErrorCode.OversizedMessage /\ max_bytes < Z.of_nat (length bytes))
  end.

Lemma read_file_bounded_outcome path max_bytes d : disk_ok d -> path ∉ dk_dirs d ->
  wp (read_file_bounded path max_bytes) d (fun got => read_ends d path max_bytes (Good got))
    (fun e => read_ends d path max_bytes (Bad e)).
Proof.
  intros [Hok] Hdir. unfold read_file_bounded. apply wp_bind.
  apply (wp_sys_query (fun d => inr (bool_decide (is_Some (dk_names d !! path)) || bool_decide (path ∈ dk_dirs d)))).
  { intros d' reason Hd. by split. }
  intros d1 Hd1. rewrite (bool_decide_eq_false_2 (path ∈ dk_dirs d1)) by (by destruct Hd1 as [c ->]). rewrite orb_false_r.
  case_bool_decide as Hname; [|by split]. destruct Hname as [i Hi].
  assert (exists bytes, contents d path = Some bytes /\ nd_data <$> dk_inodes d !! i = Some bytes) as (bytes & Hbytes & Hnode).
  { assert (dk_names d !! path = Some i) as Hi' by (by destruct Hd1 as [c ->]).
    destruct (Hok (dk_names d) path i) as [_ [node Hnode]]; [by left|done|]. exists (nd_data node). unfold contents.
    rewrite Hi'. cbn. by rewrite Hnode. }
  assert (forall d' e, only_calls d d' -> st_code e = ErrorCode.PersistenceError -> read_ends d path max_bytes (Bad e) d') as Hbad.
  { intros d' e Hd He. split; [done|]. exists bytes. split; [done|]. by left. }
  assert (forall d', only_calls d1 d' -> only_calls d d') as Htr by (intros d' H; by transitivity d1).
  apply wp_bind, wp_or_fail. unfold sys_size.
  apply (wp_mono _ _ (fun r d' => only_calls d d' /\ match r with inr size => size = Z.of_nat (length bytes) | inl _ => True end)
    _ (fun _ _ => False)); [|intros [reason|size] d2 [Hd2 Hsize]; [by apply Hbad|]|done].
  { apply wp_sys; [intros reason calls; split; [by apply Htr; exists calls|done]|]. intros calls.
    set (d2 := d1 <| dk_calls := calls |>). assert (only_calls d d2) as Hd2 by (apply Htr; by exists calls).
    rewrite (only_calls_contents _ _ path Hd2), Hbytes. by split. }
  subst size. destruct (Z.ltb_spec max_bytes (Z.of_nat (length bytes))) as [Hbig|Hfit].
  { apply wp_fail. intros e He. split; [done|]. exists bytes. split; [done|]. by right. }
  apply wp_bind, wp_or_fail.
  apply (wp_mono _ _ (fun r d' => only_calls d d' /\ match r with inr j => j = i | inl _ => True end)
    _ (fun _ _ => False)); [|intros [reason|j] d3 [Hd3 Hj]; [apply Hbad; [done|apply platform_error_code]|subst j]|done].
  { apply wp_sys; [intros reason calls; split; [|done]; transitivity d2; [done|by exists calls]|]. intros calls. cbn.
    assert (dk_names d2 !! path = Some i) as Hi2 by (by destruct Hd1 as [c1 ->], Hd2 as [c2 ->]). rewrite Hi2.
    split; [|done]. transitivity d2; [done|by exists calls]. }
  assert (default [] (nd_data <$> dk_inodes d3 !! i) = bytes) as Hdata by (destruct Hd3 as [c ->]; cbn; by rewrite Hnode).
  apply wp_bind. apply (wp_mono _ _ (fun got d' => only_calls d d' /\ exists n, got = take n bytes) _
    (fun e d' => only_calls d d' /\ st_code e = ErrorCode.PersistenceError));
    [|intros got d4 [Hd4 [n ->]]|intros e d4 [? ?]; by apply Hbad].
  { destruct (Z.eqb_spec (Z.of_nat (length bytes)) 0); [split; [done|by exists 0%nat]|].
    apply wp_read_bytes; [intros d' m H; rewrite Hdata; split; [by transitivity d3|by exists m]|].
    intros d' e H He. split; [by transitivity d3|done]. }
  destruct (Z.eqb_spec (Z.of_nat (length (take n bytes))) (Z.of_nat (length bytes))) as [Hl|Hl]; cbn [negb].
  - split; [done|]. rewrite length_take in Hl. rewrite take_ge by lia. by split.
  - apply wp_fail. intros e He. by apply Hbad.
Qed.

Lemma read_simulates path file bound d s :
  disk_ok d -> path ∉ dk_dirs d -> contents d path = file ->
  forall R : Disk -> DurableStore -> Prop, (forall d' io, only_calls d d' -> R d' (s <| ds_io := io |>)) ->
  simulates R eq (read_file_bounded path bound) (Persist.read_file_bounded file bound) d s.
Proof.
  intros Hok Hdir Hfile R HR. pose proof (read_file_bounded_outcome path bound d Hok Hdir) as H. unfold wp in H. unfold simulates.
  assert (forall io b, Persist.read_file_bounded (Some b) bound (s <| ds_io := IoOk :: io |>) =
    (io_plain "cannot size file" ;;;
     if bound <? Z.of_nat (length b) then sm_fail ErrorCode.OversizedMessage "file exceeds the configured bound"
     else io_plain "short read" ;;; sm_ret (b, true)) (s <| ds_io := io |>)) as Hrun by reflexivity.
  destruct (read_file_bounded path bound d) as [[[got []]|e] d']; destruct H as [Hd H]; [destruct H as [Hb Hl]|subst got|].
  - exists [IoOk]. rewrite <- Hfile, Hb, Hrun. unfold sm_bind, io_plain, io_step. cbn. rewrite (proj2 (Z.ltb_ge _ _) Hl). cbn.
    split; [done|]. by apply HR.
  - exists [IoFail 0]. split; [done|]. by apply HR.
  - destruct H as (b & Hb & [He|[He Hl]]); rewrite <- Hfile, Hb.
    + exists [IoOk; IoFail 0]. rewrite Hrun. split; [done|]. by apply HR.
    + exists [IoOk]. rewrite Hrun. unfold sm_bind, io_plain, io_step. cbn. rewrite (proj2 (Z.ltb_lt _ _) Hl).
      split; [done|]. by apply HR.
Qed.

(** C5. The files do what [Persist] assumes of them. On any disk, with any outcomes of its calls, and
    on either platform, the replacement of the snapshot and the bounded reads of [fs.cpp]
    end, in error code, in result and in the files they leave, as the operations of [Persist]
    end for some outcomes of its own; so what is proved there for all outcomes holds of the
    files. The first half of [Persist.write_snapshot] is the operation simulated. *)
Theorem files_refine_store (path directory journal : string) (bytes : list Z) (durable : bool) (bound : Z)
    (d : Disk) (s : DurableStore) :
  disk_ok d -> private d (path ++ ".tmp") -> journal <> path -> journal <> (path ++ ".tmp")%string ->
  path ∉ dk_dirs d -> journal ∉ dk_dirs d -> stores path journal d s ->
  simulates (stores path journal) (fun _ _ => True) (commit_snapshot path directory bytes durable) (put_snapshot bytes) d s /\
  simulates (stores path journal) eq (read_file_bounded path bound) (Persist.read_file_bounded (ds_snapshot s) bound) d s /\
  simulates (stores path journal) eq (read_file_bounded journal bound) (Persist.read_file_bounded (ds_journal s) bound) d s /\
  (forall header payload, ds_configured s = true -> Z.of_nat (length payload) <= pc_max_snapshot_bytes (ds_config s) ->
     write_snapshot header payload s =
       (put_snapshot (encode_snapshot (header <| sh_format_version := kPersistenceFormatVersion |>) payload) ;;; empty_journal) s).
Proof.
  intros Hok Hp H1 H2 Hd1 Hd2 [Hs Hj].
  assert (forall d' io, only_calls d d' -> stores path journal d' (s <| ds_io := io |>)) as HR.
  { intros d' io H. by split; rewrite (only_calls_contents _ _ _ H). }
  split_and!; [by apply commit_simulates|by apply read_simulates..|intros; by apply write_snapshot_halves].
Qed.

(** ** Appending *)

Lemma wp_open_append path d0 : disk_ok d0 -> private d0 path ->
  wp (sys_open false path) d0 (fun r d' => match r with
      | inr i => exists fl, opened path d0 i (mkInode (default [] (contents d0 path)) fl) d'
      | inl _ => staged path d0 d' /\ contents d' path = contents d0 path end) (fun _ _ => False).
Proof.
  intros Hok Hp. pose proof (staged_refl path d0 Hok Hp) as Hs. unfold contents.
  apply wp_sys; [intros reason calls; split; [by apply staged_calls|done]|]. intros calls. apply (staged_calls _ _ _ calls) in Hs.
  set (d1 := d0 <| dk_calls := calls |>) in *. change (dk_names d0) with (dk_names d1). change (dk_inodes d0) with (dk_inodes d1).
  cbn beta. destruct (dk_names d1 !! path) as [i|] eqn:Hi.
  - destruct (do_known _ (st_ok _ _ _ Hs) (dk_names d1) path i) as [_ [[data fl] Hnode]]; [by left|done|].
    exists fl. change (Some i ≫= _) with (nd_data <$> dk_inodes d1 !! i). by rewrite Hnode.
  - exists false. split; [by apply staged_create|by apply lookup_insert_eq|by apply lookup_insert_eq].
Qed.

(** An append adds all its bytes or, if it fails, a prefix of them. *)
Lemma append_file_exact path bytes durable d0 : disk_ok d0 -> private d0 path ->
  wp (append_file path bytes durable) d0
    (fun _ d => exists i fl, opened path d0 i (mkInode (default [] (contents d0 path) ++ bytes) fl) d /\ (durable = true -> fl = true))
    (fun e d => st_code e = ErrorCode.PersistenceError /\ staged path d0 d /\
       (contents d path = contents d0 path \/ exists n, contents d path = Some (default [] (contents d0 path) ++ take n bytes))).
Proof.
  intros Hok Hp. set (old := default [] (contents d0 path)). apply wp_bind, wp_or_fail.
  eapply wp_mono; [by apply wp_open_append| |done]. intros [reason|i] d1 Hd1.
  { destruct Hd1. split; [apply platform_error_code|]. split; [done|by left]. }
  destruct Hd1 as [fl Hd]. fold old in Hd.
  assert (forall d node, opened path d0 i node d -> contents d path = Some (nd_data node)) as Hcont.
  { intros d node [_ Hn Hi]. unfold contents. rewrite Hn. cbn. by rewrite Hi. }
  assert (forall d written fl, opened path d0 i (mkInode (old ++ written) fl) d ->
    staged path d0 d /\ (contents d path = contents d0 path \/ exists n, contents d path = Some (old ++ take n written))) as Hends.
  { intros d written fl' H. split; [apply H|]. right. exists (length written). by rewrite firstn_all, (Hcont _ _ H). }
  assert (forall calls written, opened path d0 i (mkInode (old ++ written) false)
      (write_node i (fun data => data ++ written) (d1 <| dk_calls := calls |>))) as Hw.
  { intros calls written. apply (opened_calls _ _ _ _ _ calls) in Hd.
    exact (opened_alter _ _ _ _ (fun n => n <| nd_data ::= fun data => data ++ written |> <| nd_flushed := false |>) _ Hd). }
  assert (forall d fl, opened path d0 i (mkInode (old ++ bytes) fl) d ->
    wp (when durable do (or_fail (sys_flush i) (fun d => platform_error d "FlushFileBuffers" "fsync" path))) d
      (fun _ d => exists i fl, opened path d0 i (mkInode (old ++ bytes) fl) d /\ (durable = true -> fl = true))
      (fun e d => st_code e = ErrorCode.PersistenceError /\ staged path d0 d /\
         (contents d path = contents d0 path \/ exists n, contents d path = Some (old ++ take n bytes)))) as Hflush.
  { intros d fl' H. destruct durable; [|by exists i, fl']. apply wp_or_fail, wp_sys.
    - intros reason calls. split; [apply platform_error_code|]. eapply Hends. by apply opened_calls.
    - intros calls. exists i, true. split; [|done]. apply (opened_calls _ _ _ _ _ calls) in H.
      exact (opened_alter _ _ _ _ (fun n => n <| nd_flushed := true |>) _ H). }
  apply wp_bind, wp_write_all.
  - intros calls Hnil. apply (Hflush _ fl). rewrite Hnil, app_nil_r. by apply opened_calls.
  - intros calls. by apply (Hflush _ false).
  - intros reason calls. split; [apply platform_error_code|]. apply (opened_calls _ _ _ _ _ calls) in Hd.
    split; [apply Hd|]. right. exists 0%nat. by rewrite (Hcont _ _ Hd), app_nil_r.
  - intros reason calls n. split; [apply platform_error_code|]. split; [apply (Hw calls (take n bytes))|].
    right. exists n. by rewrite (Hcont _ _ (Hw calls (take n bytes))).
Qed.

(** * Examples *)

(** A disk with an old snapshot, a journal and a temporary file left by a crash. *)
Definition sample_disk (platform : Platform) (calls : list Call) : Disk :=
  mkDisk platform {["fabric.bfs"%string := 0%nat; "fabric.bfj"%string := 1%nat; "fabric.bfs.tmp"%string := 2%nat]} []
    {[0%nat := mkInode [1; 2; 3] true; 1%nat := mkInode [] true; 2%nat := mkInode [9] false]} 3 {["."%string]} calls.

Lemma sample_names p i : dk_names (sample_disk Posix []) !! p = Some i ->
  p = "fabric.bfs"%string /\ i = 0%nat \/ p = "fabric.bfj"%string /\ i = 1%nat \/ p = "fabric.bfs.tmp"%string /\ i = 2%nat.
Proof.
  cbn. rewrite !lookup_insert_Some, lookup_singleton_Some.
  intros [[<- <-]|[_ [[<- <-]|[_ [<- <-]]]]]; [by left|by right; left|by right; right].
Qed.

Lemma sample_disk_ok platform calls : disk_ok (sample_disk platform calls) /\ private (sample_disk platform calls) "fabric.bfs.tmp".
Proof.
  split; [split|].
  - intros names p i ->%list_elem_of_singleton H. apply (sample_names p i) in H.
    destruct H as [[_ ->]|[[_ ->]|[_ ->]]]; (split; [cbn; lia|by eexists]).
  - intros i names p Hi ->%list_elem_of_singleton Hne Hj. apply (sample_names p i) in Hj.
    assert (i = 2%nat) as -> by (vm_compute in Hi; congruence).
    by destruct Hj as [[_ ?]|[[_ ?]|[-> _]]].
Qed.

Definition is_good {A T} (r : Result A * T) : bool := result_ok (fst r).

(** Written in three pieces; and with the power lost at the rename. *)
Lemma replacement_survives_crashes_witness :
  let d := sample_disk Posix [Done; Done; Moved 2; Moved 1; Done] in
  let d' := sample_disk Posix [Done; Done; Done; Done; Failed "power"] in
  (exists d1, commit_snapshot "fabric.bfs" "." [4; 5; 6; 7] true d = (Good tt, d1) /\
     forall c, survives d1 "fabric.bfs" c -> c = Some [4; 5; 6; 7]) /\
  (exists e d1, commit_snapshot "fabric.bfs" "." [4; 5; 6; 7] true d' = (Bad e, d1) /\
     forall c, survives d1 "fabric.bfs" c -> survives d' "fabric.bfs" c \/ c = Some [4; 5; 6; 7]).
Proof.
  intros d d'. split.
  - destruct (sample_disk_ok Posix [Done; Done; Moved 2; Moved 1; Done]) as [H1 H2].
    assert (is_good (commit_snapshot "fabric.bfs" "." [4; 5; 6; 7] true d) = true) as Hg by (vm_compute; reflexivity).
    destruct (commit_snapshot "fabric.bfs" "." [4; 5; 6; 7] true d) as [[[]|e] d1] eqn:Hrun; [|done].
    exists d1. split; [done|]. destruct (replacement_survives_crashes "fabric.bfs" "." [4; 5; 6; 7] _ _ _ H1 H2 Hrun) as (_ & _ & _ & _ & H).
    destruct (H eq_refl) as [_ Hc]. by apply Hc.
  - destruct (sample_disk_ok Posix [Done; Done; Done; Done; Failed "power"]) as [H1 H2].
    assert (is_good (commit_snapshot "fabric.bfs" "." [4; 5; 6; 7] true d') = false) as Hg by (vm_compute; reflexivity).
    destruct (commit_snapshot "fabric.bfs" "." [4; 5; 6; 7] true d') as [[[]|e] d1] eqn:Hrun; [done|].
    exists e, d1. split; [done|]. by destruct (replacement_survives_crashes "fabric.bfs" "." [4; 5; 6; 7] _ _ _ H1 H2 Hrun) as (_ & _ & H & _).
Defined.

Lemma files_refine_store_witness :
  let d := sample_disk Windows [Done; Done; Stalled "nothing"; Moved 2] in
  let s := default_DurableStore <| ds_snapshot := Some [1; 2; 3] |> <| ds_journal := Some [] |> in
  simulates (stores "fabric.bfs" "fabric.bfj") (fun _ _ => True) (commit_snapshot "fabric.bfs" "." [4; 5; 6; 7] true)
    (put_snapshot [4; 5; 6; 7]) d s.
Proof.
  destruct (sample_disk_ok Windows [Done; Done; Stalled "nothing"; Moved 2]) as [H1 H2].
  eapply (files_refine_store "fabric.bfs" "." "fabric.bfj" [4; 5; 6; 7] true 100); [exact H1|exact H2|done|done| | |].
  - apply (bool_decide_unpack _). vm_compute. exact I.
  - apply (bool_decide_unpack _). vm_compute. exact I.
  - split; vm_compute; reflexivity.
Defined.

(** On Windows a directory that cannot be flushed is reported as flushed: the replacement
    succeeds, and so goes on to empty the journal, though a crash may still bring back the
    snapshot from before it. *)
Example unflushed_directory_is_a_success :
  let d := sample_disk Windows [Done; Done; Done; Done; Done; Failed "access denied"] in
  is_good (commit_snapshot "fabric.bfs" "." [4; 5; 6; 7] true d) = true /\
  survives (snd (commit_snapshot "fabric.bfs" "." [4; 5; 6; 7] true d)) "fabric.bfs" (Some [1; 2; 3]).
Proof.
  split; [vm_compute; reflexivity|].
  exists (dk_names (sample_disk Windows [])). split; [apply (bool_decide_unpack _); vm_compute; exact I|].
  exists (mkInode [1; 2; 3] true), [1; 2; 3]. split; [vm_compute; reflexivity|done].
Qed.

(** A file that cannot be looked at reads as one that does not exist. *)
Example unreadable_is_absent :
  fst (read_file_bounded "fabric.bfs" 100 (sample_disk Posix [Failed "permission denied"])) = Good ([], false).
Proof. reflexivity. Qed.

(** Beyond what a [long] holds, the size of a journal is reported as 0. *)
Example long_journal_has_no_size : stdio_size Windows (2 ^ 31) = 0 /\ stdio_size Posix (2 ^ 31) = 2 ^ 31.
Proof. split; reflexivity. Qed.
