(* ===== verification/Process.v ===== *)
(** * Child processes

    [src/process.cpp]: the command line a child is started with, the life of a child as its
    owner sees it, and the reading of its output line by line. What the operating system
    does is given: the outcome of each call, and on Windows how UTF-8 becomes UTF-16 and how
    a program finds its arguments in a command line, parameters with the documented rules as
    hypotheses. Texts are lists of characters, wide texts lists of 16-bit units. *)

From S2P Require Import Prelude Ints Hash Enums Status Codec Model Persist Files.

(** ** Characters *)

Abbreviation Text := (list Ascii.ascii).
Definition backslash : Ascii.ascii := Ascii.ascii_of_nat 92.
Definition quote : Ascii.ascii := Ascii.ascii_of_nat 34.
Definition blank : Ascii.ascii := Ascii.ascii_of_nat 32.
Definition tab : Ascii.ascii := Ascii.ascii_of_nat 9.
Definition newline : Ascii.ascii := Ascii.ascii_of_nat 10.
Definition carriage_return : Ascii.ascii := Ascii.ascii_of_nat 13.
Definition slash : Ascii.ascii := Ascii.ascii_of_nat 47.

(** ** Quoting *)

(** The loop of [quote_argument]: [backslashes] are seen and not yet written. *)
Fixpoint quote_loop (argument : Text) (backslashes : nat) (out : Text) : nat * Text :=
  match argument with
  | [] => (backslashes, out)
  | c :: argument =>
      if decide (c = backslash) then quote_loop argument (S backslashes) out
      else if decide (c = quote) then
        quote_loop argument 0 (out ++ replicate (backslashes * 2 + 1) backslash ++ [quote])
      else quote_loop argument 0 (out ++ replicate backslashes backslash ++ [c])
  end.

Definition quote_argument (argument : Text) : Text :=
  let '(backslashes, out) := quote_loop argument 0 [quote] in
  out ++ replicate (backslashes * 2) backslash ++ [quote].

(** ** Starting a child *)

Record ProcessOptions := mkProcessOptions {
  po_executable : Text; po_arguments : list Text; po_working_directory : Text;
  po_capture_stdout : bool; po_merge_stderr : bool; po_environment : list Text
}.

(** What is read from the pipe: a character, the end, or an error. *)
Inductive PipeRead := PipeChar (c : Ascii.ascii) | PipeEnd | PipeError.

(** How the child is found to have ended; on Windows its code is asked for in a second call,
    and is an unsigned number of 32 bits. *)
Inductive WaitOutcome := WaitFails | CodeFails | Exited (code : Z) | Signalled.

(** [ch_pid], the two handles, and what the calls on the child will answer: past the end of
    the output it has ended, past the end of the other lists the calls succeed. *)
Record ChildProcess := mkChildProcess {
  ch_pid : Z; ch_process : bool; ch_output : option (list PipeRead); ch_exited : bool; ch_exit_code : Z;
  ch_waits : list WaitOutcome; ch_kills : list bool
}.

#[export] Instance settable_ChildProcess : Settable ChildProcess := fun c =>
  mkChildProcess (ch_pid c) (ch_process c) (ch_output c) (ch_exited c) (ch_exit_code c) (ch_waits c) (ch_kills c).

Definition default_ChildProcess : ChildProcess := mkChildProcess 0 false None false 0 [] [].

(** What the system is asked to start: one command line, or a vector of arguments; and where
    the output of the child goes. *)
Inductive CommandLine := OneLine (line : list Z) | Vector (argv : list Text).

Record Launch := mkLaunch {
  la_command : CommandLine; la_directory : option (list Z + Text); la_stdout_piped : bool; la_stderr_piped : bool
}.

(** The system takes a text up to the first zero in it. *)
Fixpoint before_zero {A} `{EqDecision A} (zero : A) (text : list A) : list A :=
  match text with
  | [] => []
  | c :: text => if decide (c = zero) then [] else c :: before_zero zero text
  end.

Definition c_text : Text -> Text := before_zero Ascii.zero.
Definition wide_blank : Z := 32.

Section Start.
(** [MultiByteToWideChar] for UTF-8; nothing when it fails. *)
Context (multi_byte : Text -> list Z).

Definition widen (utf8 : Text) : list Z := match utf8 with [] => [] | _ => multi_byte utf8 end.

Definition arguments_line (arguments : list Text) : list Z :=
  concat ((fun argument => wide_blank :: widen (quote_argument argument)) <$> arguments).

Definition command_of (platform : Platform) (options : ProcessOptions) : CommandLine :=
  match platform with
  | Windows => OneLine (before_zero 0 (widen (po_executable options) ++ arguments_line (po_arguments options)))
  | Posix => Vector (c_text <$> po_executable options :: po_arguments options)
  end.

Definition directory_of (platform : Platform) (directory : Text) : option (list Z + Text) :=
  match platform with
  | Windows => match widen directory with [] => None | wide => Some (inl (before_zero 0 wide)) end
  | Posix => match directory with [] => None | _ => Some (inr (c_text directory)) end
  end.

Definition launch_of (platform : Platform) (options : ProcessOptions) : Launch :=
  mkLaunch (command_of platform options) (directory_of platform (po_working_directory options))
    (po_capture_stdout options) (po_capture_stdout options && po_merge_stderr options).

(** [spawn_process]: whether the pipe could be made, and what starting the child gives. *)
Definition spawn_process (platform : Platform) (pipe : bool) (start : Launch -> option ChildProcess)
    (options : ProcessOptions) : Result ChildProcess :=
  match po_executable options with
  | [] => fail ErrorCode.InvalidArgument "executable path is empty"
  | _ =>
      if po_capture_stdout options && negb pipe then
        fail ErrorCode.PersistenceError (match platform with Windows => "CreatePipe failed" | Posix => "pipe failed" end)
      else match start (launch_of platform options) with
      | None => fail ErrorCode.NotFound (match platform with
          | Windows => "CreateProcess failed for the requested executable"
          | Posix => "posix_spawn failed for the requested executable" end)
      | Some child => Good (child <| ch_process := true |> <| ch_exited := false |> <| ch_exit_code := 0 |>
          <| ch_output ::= fun output => if po_capture_stdout options then Some (default [] output) else None |>)
      end
  end.
End Start.

(** ** The life of a child *)

Definition child_valid (c : ChildProcess) : bool := ch_process c.
Definition child_running (c : ChildProcess) : bool := child_valid c && negb (ch_exited c).

(** The destructor closes the handles. *)
Definition child_destroy (c : ChildProcess) : ChildProcess := c <| ch_process := false |> <| ch_output := None |>.

(** The new child and what is left of the old one. *)
Definition child_move (c : ChildProcess) : ChildProcess * ChildProcess :=
  (c, c <| ch_pid := 0 |> <| ch_process := false |> <| ch_output := None |> <| ch_exited := false |>).

(** The loop of [read_line]; each turn reads one character. *)
Fixpoint read_line_loop (platform : Platform) (max_bytes : Z) (output : list PipeRead) (line : Text) :
    Result Text * list PipeRead :=
  if Z.of_nat (length line) <? max_bytes then
    let ended := match line with [] => fail ErrorCode.NotFound "end of child output" | _ => Good line end in
    match output with
    | [] => (ended, [])
    | PipeEnd :: output => (ended, output)
    | PipeError :: output =>
        (fail ErrorCode.PersistenceError (match platform with
           | Windows => "ReadFile on child pipe failed" | Posix => "read on child pipe failed" end), output)
    | PipeChar c :: output =>
        if decide (c = newline) then (Good line, output)
        else if decide (c = carriage_return) then read_line_loop platform max_bytes output line
        else read_line_loop platform max_bytes output (line ++ [c])
    end
  else (fail ErrorCode.OversizedMessage "child output line exceeds the bound", output).

Definition read_line (platform : Platform) (max_bytes : Z) : StateR ChildProcess Text := fun c =>
  match ch_output c with
  | None => (fail ErrorCode.LifecycleViolation "child output is not captured", c)
  | Some output =>
      let '(r, output) := read_line_loop platform max_bytes output [] in (r, c <| ch_output := Some output |>)
  end.

(** The calls to come, one taken. *)
Definition next_wait (c : ChildProcess) : WaitOutcome * ChildProcess :=
  match ch_waits c with [] => (Exited 0, c) | w :: waits => (w, c <| ch_waits := waits |>) end.
Definition next_kill (c : ChildProcess) : bool * ChildProcess :=
  match ch_kills c with [] => (true, c) | k :: kills => (k, c <| ch_kills := kills |>) end.

(** [static_cast<i32>]. *)
Definition to_i32 (code : Z) : Z := if code <? 2 ^ 31 then code else code - 2 ^ 32.

Definition wait (platform : Platform) : StateR ChildProcess Z := fun c =>
  if negb (child_valid c) then (fail ErrorCode.LifecycleViolation "no child process", c)
  else if ch_exited c then (Good (ch_exit_code c), c)
  else
    let '(outcome, c) := next_wait c in
    let exited code := (Good code, c <| ch_exited := true |> <| ch_exit_code := code |>) in
    match outcome with
    | WaitFails => (fail ErrorCode.PersistenceError (match platform with
        | Windows => "WaitForSingleObject failed" | Posix => "waitpid failed" end), c)
    | CodeFails => (fail ErrorCode.PersistenceError (match platform with
        | Windows => "GetExitCodeProcess failed" | Posix => "waitpid failed" end), c)
    | Exited code => exited (match platform with Windows => to_i32 code | Posix => code end)
    | Signalled => exited (-1)
    end.

(** The exit code is not touched. *)
Definition terminate (platform : Platform) : StateR ChildProcess unit := fun c =>
  if negb (child_valid c) then (fail ErrorCode.LifecycleViolation "no child process", c)
  else if ch_exited c then (Good tt, c)
  else
    let '(killed, c) := next_kill c in
    if killed then (Good tt, snd (next_wait c) <| ch_exited := true |>)
    else (fail ErrorCode.PersistenceError (match platform with
            | Windows => "TerminateProcess failed" | Posix => "kill failed" end), c).

(** ** Where the program is *)

(** [executable_path], of what the system says it is: a name that does not fit in the buffer
    is refused on Windows and cut on POSIX. *)
Definition kPathBuffer : Z := 4096.

Definition executable_path (platform : Platform) (name : Text) : Result Text :=
  let size := Z.of_nat (length name) in
  match platform with
  | Windows => if (size =? 0) || (kPathBuffer <=? size) then fail ErrorCode.NotFound "GetModuleFileName failed"
               else Good name
  | Posix => if size =? 0 then fail ErrorCode.NotFound "readlink(/proc/self/exe) failed"
             else Good (take (Z.to_nat (kPathBuffer - 1)) name)
  end.

Definition is_separator (c : Ascii.ascii) : bool := bool_decide (c = slash) || bool_decide (c = backslash).

(** What stands before the last separator of either kind. *)
Fixpoint before_last_separator (path : Text) : option Text :=
  match path with
  | [] => None
  | c :: path =>
      match before_last_separator path with
      | Some front => Some (c :: front)
      | None => if is_separator c then Some [] else None
      end
  end.

Definition executable_directory (platform : Platform) (name : Text) : Result Text :=
  match executable_path platform name with
  | Bad e => Bad e
  | Good path => Good (default [Ascii.ascii_of_nat 46] (before_last_separator path))
  end.

(** * The command line *)

(** What [quote_argument] writes after the opening quote. *)
Fixpoint quoted (argument : Text) (backslashes : nat) : Text :=
  match argument with
  | [] => replicate (backslashes * 2) backslash ++ [quote]
  | c :: argument =>
      if decide (c = backslash) then quoted argument (S backslashes)
      else if decide (c = quote) then replicate (backslashes * 2 + 1) backslash ++ quote :: quoted argument 0
      else replicate backslashes backslash ++ c :: quoted argument 0
  end.

Lemma quote_loop_quoted argument : forall backslashes out,
  (let '(n, out') := quote_loop argument backslashes out in out' ++ replicate (n * 2) backslash ++ [quote])
    = out ++ quoted argument backslashes.
Proof.
  induction argument as [|c argument IH]; intros backslashes out; [done|]. cbn [quote_loop quoted].
  destruct (decide (c = backslash)); [by rewrite IH|]. destruct (decide (c = quote)) as [->|]; rewrite IH, <- !app_assoc; done.
Qed.

Lemma quote_argument_quoted argument : quote_argument argument = quote :: quoted argument 0.
Proof. unfold quote_argument. apply (quote_loop_quoted argument 0 [quote]). Qed.

Definition unit_of (c : Ascii.ascii) : Z := Z.of_N (Ascii.N_of_ascii c).
Definition wide_backslash : Z := 92.
Definition wide_quote : Z := 34.
Definition wide_tab : Z := 9.

(** A character that is one byte of UTF-8, and one unit of UTF-16, by itself. *)
Definition single (c : Ascii.ascii) : Prop := c <> Ascii.zero /\ unit_of c < 128.

Lemma single_quote : single quote.
Proof. by split. Qed.
Lemma single_backslash : single backslash.
Proof. by split. Qed.
#[local] Hint Resolve single_quote single_backslash : core.

(** What is documented of the conversion for the texts that are [valid], well-formed and
    without zeros: a single character stands for itself, wherever it occurs, and no other
    character gives its unit. *)
Class WideText (multi_byte : Text -> list Z) (valid : Text -> Prop) := {
  wt_nil : valid [];
  wt_split x c y : single c -> (valid (x ++ c :: y) <-> (valid x /\ valid y));
  wt_app x c y : single c -> valid x -> valid y ->
    widen multi_byte (x ++ c :: y) = widen multi_byte x ++ unit_of c :: widen multi_byte y;
  wt_unit x c : valid x -> single c -> unit_of c ∈ widen multi_byte x -> c ∈ x;
  wt_some x : valid x -> x <> [] -> widen multi_byte x <> [];
  wt_zero x : valid x -> (Ascii.zero ∉ x) /\ (0 ∉ widen multi_byte x)
}.

(** Taking a command line apart: [next inside text] gives the rest of the argument that
    [text] is in the middle of, [inside] quotes or not, and what follows the blank after it. *)
Class Splitter (next : bool -> list Z -> list Z * list Z) := {
  sp_open text : next false (wide_quote :: text) = next true text;
  sp_close n : next true (replicate (n * 2) wide_backslash ++ [wide_quote]) = (replicate n wide_backslash, []);
  sp_close_blank n text :
    next true (replicate (n * 2) wide_backslash ++ wide_quote :: wide_blank :: text) = (replicate n wide_backslash, text);
  sp_escape n text : next true (replicate (n * 2 + 1) wide_backslash ++ wide_quote :: text) =
    (replicate n wide_backslash ++ wide_quote :: fst (next true text), snd (next true text));
  sp_plain n c text : c <> wide_backslash -> c <> wide_quote ->
    next true (replicate n wide_backslash ++ c :: text) =
      (replicate n wide_backslash ++ c :: fst (next true text), snd (next true text));
  sp_word word text : word <> [] -> wide_blank ∉ word -> wide_tab ∉ word -> wide_quote ∉ word ->
    next false word = (word, []) /\ next false (word ++ wide_blank :: text) = (word, text)
}.

(** The words of a command line. *)
Fixpoint split_line (next : bool -> list Z -> list Z * list Z) (fuel : nat) (text : list Z) : list (list Z) :=
  match fuel, text with
  | S fuel, _ :: _ => fst (next false text) :: split_line next fuel (snd (next false text))
  | _, _ => []
  end.

Lemma before_zero_id {A} `{EqDecision A} (zero : A) text : zero ∉ text -> before_zero zero text = text.
Proof.
  induction text as [|c text IH]; [done|]. rewrite not_elem_of_cons. intros [Hc Ht]. cbn.
  rewrite decide_False by done. by rewrite IH.
Qed.

Section Wide.
Context (multi_byte : Text -> list Z) (valid : Text -> Prop) `{!WideText multi_byte valid}.
#[local] Abbreviation widen := (widen multi_byte).

Lemma valid_backslashes x n : valid (x ++ replicate n backslash) <-> valid x.
Proof.
  induction n as [|n IH]; cbn; [by rewrite app_nil_r|]. rewrite <- IH.
  rewrite replicate_cons_app, app_assoc, wt_split by done. split; [by intros []|by split; [|apply wt_nil]].
Qed.

Lemma widen_backslashes n y : valid y -> widen (replicate n backslash ++ y) = replicate n wide_backslash ++ widen y.
Proof.
  intros Hy. induction n as [|n IH]; [done|]. cbn [replicate app]. rewrite <- IH.
  apply (wt_app [] backslash); [done|apply wt_nil|].
  clear IH. induction n as [|n IH]; [done|]. apply (wt_split []); [done|by split; [apply wt_nil|]].
Qed.

Lemma valid_close x n : valid x -> valid (x ++ replicate n backslash ++ [quote]).
Proof. intros Hx. rewrite app_assoc. apply wt_split; [done|]. split; [by apply valid_backslashes|apply wt_nil]. Qed.

Lemma widen_run x n : valid x ->
  widen (x ++ replicate n backslash) = widen x ++ replicate n wide_backslash.
Proof.
  intros Hx. destruct n as [|n]; [by rewrite !app_nil_r|]. cbn [replicate].
  rewrite wt_app; [|done|done|by apply (valid_backslashes []), wt_nil].
  f_equal. f_equal. pose proof (widen_backslashes n [] wt_nil) as H. by rewrite !app_nil_r in H.
Qed.

Lemma widen_escape x n c y : single c -> valid x -> valid y ->
  widen (x ++ replicate n backslash ++ c :: y) = widen x ++ replicate n wide_backslash ++ unit_of c :: widen y.
Proof.
  intros Hc Hx Hy. rewrite app_assoc, wt_app by (done || by apply valid_backslashes). by rewrite widen_run, <- app_assoc.
Qed.

(** A text that does not end in a backslash does not do so in UTF-16 either. *)
Lemma widen_last x : valid x -> last x <> Some backslash -> last (widen x) <> Some wide_backslash.
Proof.
  intros Hx Hl Hw. assert (wide_backslash ∈ widen x) as Hin by (apply last_Some_elem_of in Hw; done).
  apply (wt_unit x backslash) in Hin; [|done|done].
  apply list_elem_of_split_r in Hin as (y & z & -> & Hz). apply wt_split in Hx as [Hy Hzv]; [|done].
  rewrite wt_app, last_app_cons in Hw by done. destruct z as [|c z]; [by rewrite last_snoc in Hl|].
  destruct (widen (c :: z)) as [|u w] eqn:E; [by apply (wt_some (c :: z)) in E|].
  assert (wide_backslash ∈ widen (c :: z)) as Hin.
  { rewrite E. apply last_Some_elem_of. exact Hw. }
  by apply Hz, (wt_unit _ backslash).
Qed.

Lemma valid_quoted argument : forall x n, valid (x ++ replicate n backslash ++ argument) -> valid (x ++ quoted argument n).
Proof.
  induction argument as [|c argument IH]; intros x n Hv; cbn [quoted].
  - rewrite app_nil_r in Hv. by apply valid_close, (valid_backslashes x n).
  - destruct (decide (c = backslash)) as [->|].
    { apply IH. by rewrite replicate_S_end, <- app_assoc. }
    destruct (decide (c = quote)) as [->|].
    + rewrite app_assoc in Hv |- *. apply wt_split in Hv as [Hx Ha]; [|done]. apply wt_split; [done|].
      split; [by apply valid_backslashes, (valid_backslashes x n)|]. by apply (IH [] 0%nat).
    + specialize (IH (x ++ replicate n backslash ++ [c]) 0%nat). cbn in IH. rewrite <- !app_assoc in IH. by apply IH.
Qed.

Lemma valid_quote_argument argument : valid argument -> valid (quote_argument argument).
Proof. intros Ha. rewrite quote_argument_quoted. apply (wt_split []); [done|]. split; [apply wt_nil|]. by apply (valid_quoted argument [] 0). Qed.

Lemma widen_quote_argument argument : valid argument -> widen (quote_argument argument) = wide_quote :: widen (quoted argument 0).
Proof.
  intros Ha. rewrite quote_argument_quoted. apply (wt_app [] quote); [done|apply wt_nil|]. by apply (valid_quoted argument [] 0).
Qed.

Section Splitting.
Context (next : bool -> list Z -> list Z * list Z) `{!Splitter next}.

(** A run without quotes that does not end in a backslash is taken as it is. *)
Lemma next_run_from w : forall n text, wide_quote ∉ w -> w <> [] -> last w <> Some wide_backslash ->
  next true (replicate n wide_backslash ++ w ++ text) =
    (replicate n wide_backslash ++ w ++ fst (next true text), snd (next true text)).
Proof.
  induction w as [|u w IH]; intros n text Hq Hw Hl; [done|]. apply not_elem_of_cons in Hq as [Hu Hq]. cbn [app].
  destruct (decide (u = wide_backslash)) as [->|Hb].
  - destruct w as [|u' w]; [by destruct Hl|]. specialize (IH (S n) text Hq ltac:(done) Hl).
    rewrite replicate_S_end, <- !app_assoc in IH. exact IH.
  - rewrite sp_plain by done. destruct w as [|u' w]; [done|].
    specialize (IH 0%nat text Hq ltac:(done) Hl). cbn [replicate app] in IH. cbn [app]. by rewrite IH.
Qed.

Lemma next_run w text : wide_quote ∉ w -> last w <> Some wide_backslash ->
  next true (w ++ text) = (w ++ fst (next true text), snd (next true text)).
Proof.
  intros Hq Hl. destruct w as [|u w]; [cbn; by destruct (next true text)|]. by apply (next_run_from (u :: w) 0).
Qed.

(** The argument, with [x] read, [n] backslashes pending, and [tail] after its last quote. *)
Lemma next_quoted tail : (tail = [] \/ exists text, tail = wide_blank :: text) -> forall argument x n,
  valid (x ++ replicate n backslash ++ argument) -> quote ∉ x -> last x <> Some backslash ->
  next true (widen (x ++ quoted argument n) ++ tail) =
    (widen (x ++ replicate n backslash ++ argument), match tail with [] => [] | _ :: text => text end).
Proof.
  intros Htail. induction argument as [|c argument IH]; intros x n Hv Hq Hl; cbn [quoted].
  - rewrite app_nil_r in Hv |- *. pose proof (proj1 (valid_backslashes x n) Hv) as Hx.
    rewrite widen_escape, widen_run, <- !app_assoc by (done || apply wt_nil). cbn [app].
    rewrite next_run; [|intros H; by apply Hq, (wt_unit x quote)|by apply widen_last].
    change (unit_of quote) with wide_quote. cbn [Process.widen app].
    destruct Htail as [->|[text ->]]; [by rewrite sp_close|by rewrite sp_close_blank].
  - destruct (decide (c = backslash)) as [->|Hb].
    { rewrite IH by (done || by rewrite replicate_S_end, <- app_assoc). by rewrite replicate_S_end, <- app_assoc. }
    destruct (decide (c = quote)) as [->|Hc].
    + pose proof Hv as Hv'. rewrite app_assoc in Hv'. apply wt_split in Hv' as [Hx Ha]; [|done].
      apply valid_backslashes in Hx. pose proof (valid_quoted argument [] 0 Ha) as Hqv. cbn [app] in Hqv.
      rewrite !widen_escape, <- !app_assoc by done. cbn [app].
      rewrite next_run; [|intros H; by apply Hq, (wt_unit x quote)|by apply widen_last].
      rewrite sp_escape. specialize (IH [] 0%nat Ha (not_elem_of_nil _) ltac:(done)). cbn [app replicate] in IH. by rewrite IH.
    + specialize (IH (x ++ replicate n backslash ++ [c]) 0%nat). cbn [replicate app] in IH. rewrite <- !app_assoc in IH.
      cbn [app] in IH. apply IH; [done| |].
      * rewrite !not_elem_of_app, not_elem_of_cons. split; [done|]. split; [|by split; [|apply not_elem_of_nil]].
        intros H. apply elem_of_replicate in H as [? _]. done.
      * rewrite app_assoc, last_snoc. congruence.
Qed.

Definition following (arguments : list Text) : list Z :=
  match arguments with [] => [] | a :: arguments => widen (quote_argument a) ++ arguments_line multi_byte arguments end.

Lemma next_argument argument arguments : valid argument ->
  next false (widen (quote_argument argument) ++ arguments_line multi_byte arguments) = (widen argument, following arguments).
Proof.
  intros Ha. rewrite widen_quote_argument by done. cbn [app]. rewrite sp_open.
  assert (arguments_line multi_byte arguments = [] \/ exists text, arguments_line multi_byte arguments = wide_blank :: text) as Htail
    by (destruct arguments as [|a arguments]; [by left|right; by eexists]).
  pose proof (next_quoted _ Htail argument [] 0 Ha (not_elem_of_nil _) ltac:(done)) as H. cbn [app replicate] in H.
  rewrite H. by destruct arguments.
Qed.

Lemma split_line_arguments arguments : forall argument fuel, Forall valid (argument :: arguments) -> (length arguments < fuel)%nat ->
  split_line next fuel (widen (quote_argument argument) ++ arguments_line multi_byte arguments) = widen <$> argument :: arguments.
Proof.
  induction arguments as [|a arguments IH]; intros argument [|fuel] [Ha Hv]%Forall_cons Hf; try (simpl in Hf; lia);
    pose proof (next_argument argument) as Hn; rewrite widen_quote_argument in Hn |- * by done; cbn [app split_line].
  - specialize (Hn [] Ha). cbn [app] in Hn. rewrite Hn. by destruct fuel.
  - specialize (Hn (a :: arguments) Ha). cbn [app] in Hn. rewrite Hn. cbn [fst snd fmap list_fmap]. f_equal.
    apply IH; [done|]. simpl in Hf. lia.
Qed.

Lemma arguments_line_length arguments : (length arguments <= length (arguments_line multi_byte arguments))%nat.
Proof.
  unfold arguments_line. induction arguments as [|a arguments IH]; [done|]. cbn. rewrite length_app. lia.
Qed.

Lemma arguments_line_cons argument arguments : arguments_line multi_byte (argument :: arguments) =
  wide_blank :: widen (quote_argument argument) ++ arguments_line multi_byte arguments.
Proof. done. Qed.

Lemma arguments_line_zero arguments : Forall valid arguments -> 0 ∉ arguments_line multi_byte arguments.
Proof.
  induction 1 as [|a arguments Ha Hv IH]; [apply not_elem_of_nil|]. rewrite arguments_line_cons, not_elem_of_cons, not_elem_of_app.
  split; [done|]. split; [|done]. by apply wt_zero, valid_quote_argument.
Qed.
End Splitting.
End Wide.

(** C39. A child gets the arguments it is started with, when they are well-formed UTF-8 without
    zeros. On Windows, where the executable and the arguments travel in one command line, the
    line is the executable as it stands, and after it, if there are arguments, a blank and a
    text that a program which takes it apart by the documented rules (backslashes count only
    before a quote, where two stand for one and an odd one for the quote itself) finds to be
    exactly the arguments in UTF-16, whatever quotes, blanks and trailing backslashes are in
    them, and empty ones too. When the path of the executable has no blank, tab or quote in it
    (it is not quoted), taking apart the whole line gives the executable and the arguments. On
    POSIX both are passed as they are. *)
Theorem command_line_roundtrip (multi_byte : Text -> list Z) (valid : Text -> Prop) (Hwide : WideText multi_byte valid)
    (next : bool -> list Z -> list Z * list Z) (Hnext : Splitter next) (options : ProcessOptions) :
  Forall valid (po_executable options :: po_arguments options) ->
  match command_of multi_byte Windows options with
  | OneLine line => exists rest, line = widen multi_byte (po_executable options) ++ rest /\
      (po_arguments options = [] -> rest = []) /\
      (po_arguments options <> [] -> exists text, rest = wide_blank :: text /\
         split_line next (length text) text = widen multi_byte <$> po_arguments options) /\
      (po_executable options <> [] -> blank ∉ po_executable options -> tab ∉ po_executable options ->
         quote ∉ po_executable options ->
         split_line next (length line) line = widen multi_byte <$> po_executable options :: po_arguments options)
  | Vector _ => False
  end /\
  command_of multi_byte Posix options = Vector (po_executable options :: po_arguments options).
Proof.
  intros Hv. split.
  2: { unfold command_of. f_equal. transitivity (id <$> po_executable options :: po_arguments options); [|apply list_fmap_id].
       apply list_fmap_ext. intros _ text Ht%list_elem_of_lookup_2.
       apply before_zero_id, (wt_zero (multi_byte := multi_byte) (valid := valid)).
       rewrite Forall_forall in Hv. by apply Hv. }
  cbn [command_of]. apply Forall_cons in Hv as [He Ha].
  rewrite before_zero_id by (rewrite not_elem_of_app; split; [by apply wt_zero|by apply (arguments_line_zero _ valid)]).
  exists (arguments_line multi_byte (po_arguments options)). split; [done|]. split; [by intros ->|].
  destruct (po_arguments options) as [|a arguments] eqn:Hargs.
  - split; [done|]. intros Hne Hb Ht Hq. cbn. rewrite app_nil_r.
    assert (widen multi_byte (po_executable options) <> []) as Hw by by apply wt_some.
    destruct (sp_word (widen multi_byte (po_executable options)) []) as [Hword _]; [done|..];
      [by intros H%(wt_unit _ blank)|by intros H%(wt_unit _ tab)|by intros H%(wt_unit _ quote)|].
    destruct (widen multi_byte (po_executable options)) as [|u w]; [done|]. cbn [length split_line]. rewrite Hword. by destruct (length w).
  - rewrite arguments_line_cons. set (text := widen multi_byte (quote_argument a) ++ arguments_line multi_byte arguments).
    assert (forall fuel, (length arguments < fuel)%nat -> split_line next fuel text = widen multi_byte <$> a :: arguments) as Htext
      by (intros fuel Hf; by apply (split_line_arguments multi_byte valid)).
    assert (length arguments < length text)%nat as Hlen.
    { unfold text. apply Forall_cons in Ha as [Ha _]. rewrite (widen_quote_argument _ valid) by done. cbn [app length].
      rewrite length_app. pose proof (arguments_line_length multi_byte arguments). lia. }
    split; [intros _; exists text; split; [done|by apply Htext]|]. intros Hne Hb Ht Hq.
    assert (widen multi_byte (po_executable options) <> []) as Hw by by apply wt_some.
    destruct (sp_word (widen multi_byte (po_executable options)) text) as [_ Hword]; [done|..];
      [by intros H%(wt_unit _ blank)|by intros H%(wt_unit _ tab)|by intros H%(wt_unit _ quote)|].
    destruct (widen multi_byte (po_executable options)) as [|u w] eqn:E; [done|]. cbn [length split_line app] in Hword |- *.
    rewrite Hword. cbn [fst snd fmap list_fmap]. rewrite E. f_equal. apply Htext. rewrite length_app. cbn. lia.
Qed.

(** A program that takes its command line apart with a count of backslashes. *)
Fixpoint scan (inside : bool) (backslashes : nat) (text : list Z) : list Z * list Z :=
  match text with
  | [] => (replicate backslashes wide_backslash, [])
  | c :: text =>
      if decide (c = wide_backslash) then scan inside (S backslashes) text
      else if decide (c = wide_quote) then
        let half := replicate (Nat.div2 backslashes) wide_backslash in
        if Nat.even backslashes then
          let '(a, rest) := scan (negb inside) 0 text in (half ++ a, rest)
        else let '(a, rest) := scan inside 0 text in (half ++ wide_quote :: a, rest)
      else if decide (c = wide_blank) then
        if inside then let '(a, rest) := scan inside 0 text in (replicate backslashes wide_backslash ++ c :: a, rest)
        else (replicate backslashes wide_backslash, text)
      else let '(a, rest) := scan inside 0 text in (replicate backslashes wide_backslash ++ c :: a, rest)
  end.

Lemma scan_backslashes inside n text : forall m, scan inside m (replicate n wide_backslash ++ text) = scan inside (n + m) text.
Proof.
  induction n as [|n IH]; intros m; [done|]. cbn [replicate app scan]. rewrite decide_True by done.
  rewrite IH. f_equal. lia.
Qed.

Lemma scan_word word text : wide_blank ∉ word -> wide_quote ∉ word -> forall n,
  scan false n word = (replicate n wide_backslash ++ word, []) /\
  scan false n (word ++ wide_blank :: text) = (replicate n wide_backslash ++ word, text).
Proof.
  induction word as [|c word IH]; intros Hb Hq n; [by rewrite app_nil_r|].
  apply not_elem_of_cons in Hb as [Hcb Hb]. apply not_elem_of_cons in Hq as [Hcq Hq]. cbn [app scan].
  destruct (decide (c = wide_backslash)) as [->|].
  - destruct (IH Hb Hq (S n)) as [-> ->]. by rewrite replicate_S_end, <- app_assoc.
  - rewrite !decide_False by done. by destruct (IH Hb Hq 0%nat) as [-> ->].
Qed.

#[export] Instance scan_splitter : Splitter (fun inside => scan inside 0).
Proof.
  assert (wide_quote <> wide_backslash) as Hq by done.
  assert (forall n, Nat.even (n * 2 + 0) = true /\ Nat.div2 (n * 2 + 0) = n) as Heven.
  { intros n. split; [apply Nat.even_spec; exists n; lia|]. rewrite Nat.add_0_r, Nat.mul_comm. apply Nat.div2_double. }
  assert (forall n, Nat.even (n * 2 + 1 + 0) = false /\ Nat.div2 (n * 2 + 1 + 0) = n) as Hodd.
  { intros n. replace (n * 2 + 1 + 0)%nat with (S (2 * n)) by lia. split; [|apply Nat.div2_succ_double].
    rewrite Nat.even_succ. apply Nat.odd_even with (n := n) || (rewrite <- Nat.negb_even, Nat.even_mul; done). }
  split.
  - intros text. cbn [scan]. rewrite decide_False, decide_True by done. cbn. by destruct (scan true 0 text).
  - intros n. rewrite scan_backslashes. cbn [scan]. rewrite decide_False, decide_True by done.
    destruct (Heven n) as [-> ->]. cbn. by rewrite app_nil_r.
  - intros n text. rewrite scan_backslashes. cbn [scan]. rewrite decide_False, decide_True by done.
    destruct (Heven n) as [-> ->]. cbn [negb replicate app]. rewrite !decide_False, decide_True by done. by rewrite app_nil_r.
  - intros n text. rewrite scan_backslashes. cbn [scan]. rewrite decide_False, decide_True by done.
    destruct (Hodd n) as [-> ->]. by destruct (scan true 0 text).
  - intros n c text H1 H2. rewrite scan_backslashes, Nat.add_0_r. cbn [scan]. rewrite !decide_False by done.
    destruct (decide (c = wide_blank)); by destruct (scan true 0 text).
  - intros word text _ Hb _ Hw. by apply (scan_word word text Hb Hw 0).
Qed.

(** Texts of single characters, of which each is one unit. *)
#[export] Instance single_wide : WideText (map unit_of) (Forall single).
Proof.
  assert (forall x, widen (map unit_of) x = unit_of <$> x) as Hw by by intros [].
  split; intros *; rewrite ?Hw.
  - constructor.
  - intros Hc. rewrite Forall_app, Forall_cons. tauto.
  - intros _ _ _. by rewrite fmap_app.
  - intros _ _ (c' & Hc & Hin)%list_elem_of_fmap. unfold unit_of in Hc. apply N2Z.inj in Hc.
    apply (f_equal Ascii.ascii_of_N) in Hc. rewrite !Ascii.ascii_N_embedding in Hc. by subst.
  - intros _ Hx. by destruct x.
  - intros Hx. assert (Ascii.zero ∉ x) as Hz by (intros H; rewrite Forall_forall in Hx; by destruct (Hx _ H)).
    split; [done|]. intros (c & Hc & Hin)%list_elem_of_fmap. apply Hz.
    replace Ascii.zero with c; [done|]. unfold unit_of in Hc. change 0 with (Z.of_N 0) in Hc. apply N2Z.inj in Hc.
    apply (f_equal Ascii.ascii_of_N) in Hc. by rewrite Ascii.ascii_N_embedding in Hc.
Qed.

Definition text_of (s : string) : Text := String.list_ascii_of_string s.

Definition sample_options : ProcessOptions :=
  mkProcessOptions (text_of "C:\bf\worker") [text_of "--state"; text_of "C:\my dir\"; [quote; backslash; quote]; []] [] true true [].

Lemma command_line_roundtrip_witness :
  match command_of (map unit_of) Windows sample_options with
  | OneLine line => split_line (fun inside => scan inside 0) (length line) line =
      widen (map unit_of) <$> po_executable sample_options :: po_arguments sample_options
  | Vector _ => False
  end.
Proof.
  assert (Forall (Forall single) (po_executable sample_options :: po_arguments sample_options)) as Hv
    by (repeat constructor; discriminate).
  assert (forall c, bool_decide (c ∈ po_executable sample_options) = false -> c ∉ po_executable sample_options) as Hout
    by (intros c; apply bool_decide_eq_false_1).
  destruct (command_line_roundtrip (map unit_of) (Forall single) single_wide (fun inside => scan inside 0) scan_splitter sample_options Hv)
    as [H _]. cbv iota beta zeta in *.
  destruct (command_of (map unit_of) Windows sample_options) as [line|argv]; [|done]. destruct H as (rest & _ & _ & _ & H).
  apply H; [discriminate|apply Hout; reflexivity..].
Defined.

(** * The output of a child *)

Definition kept (text : Text) : Text := filter (fun c => c <> carriage_return) text.

Lemma read_line_loop_text platform max_bytes rest text : forall line,
  newline ∉ text -> Z.of_nat (length (line ++ kept text)) < max_bytes ->
  read_line_loop platform max_bytes ((PipeChar <$> text) ++ rest) line =
  read_line_loop platform max_bytes rest (line ++ kept text).
Proof.
  induction text as [|c text IH]; intros line Hn Hl; [by rewrite app_nil_r|].
  apply not_elem_of_cons in Hn as [Hc Hn]. unfold kept in *. rewrite filter_cons in Hl |- *.
  cbn [fmap list_fmap app read_line_loop]. rewrite (decide_False (P := c = newline)) by done.
  destruct (decide (c = carriage_return)) as [->|Hcr].
  - rewrite decide_False in Hl |- * by (intros H; by apply H). rewrite IH by done.
    rewrite length_app in Hl. by destruct (Z.ltb_spec (Z.of_nat (length line)) max_bytes); [|lia].
  - rewrite decide_True in Hl |- * by done. rewrite length_app in Hl. simpl in Hl.
    destruct (Z.ltb_spec (Z.of_nat (length line)) max_bytes); [|lia].
    rewrite IH, <- app_assoc by (rewrite ?length_app; simpl; try done; lia). done.
Qed.

(** Reading a line: the characters up to the end of the line, carriage returns dropped, when
    they are fewer than the bound; what follows stays to be read. *)
Theorem read_line_exact (platform : Platform) (max_bytes : Z) (text : Text) (rest : list PipeRead) (c : ChildProcess) :
  newline ∉ text -> Z.of_nat (length (kept text)) < max_bytes ->
  ch_output c = Some ((PipeChar <$> text) ++ PipeChar newline :: rest) ->
  read_line platform max_bytes c = (Good (kept text), c <| ch_output := Some rest |>).
Proof.
  intros Hn Hl Hout. unfold read_line. rewrite Hout, read_line_loop_text by done. cbn [app read_line_loop].
  rewrite decide_True by done. by destruct (Z.ltb_spec (Z.of_nat (length (kept text))) max_bytes); [|lia].
Qed.

(** Without a line to end it, what was read is the last line, or there was none. *)
Theorem read_line_at_end (platform : Platform) (max_bytes : Z) (text : Text) (c : ChildProcess) :
  newline ∉ text -> Z.of_nat (length (kept text)) < max_bytes -> ch_output c = Some (PipeChar <$> text) ->
  read_line platform max_bytes c =
    (match kept text with [] => fail ErrorCode.NotFound "end of child output" | line => Good line end,
     c <| ch_output := Some [] |>).
Proof.
  intros Hn Hl Hout. unfold read_line. rewrite Hout, <- (app_nil_r (PipeChar <$> text)), read_line_loop_text by done.
  cbn [app read_line_loop]. destruct (Z.ltb_spec (Z.of_nat (length (kept text))) max_bytes); [|lia]. by destruct (kept text).
Qed.

(** A line of exactly the bound is refused, though it fits. *)
Example full_line_is_refused : forall platform,
  result_code (fst (read_line platform 2 (default_ChildProcess <| ch_output := Some (PipeChar <$> [slash; slash; newline]) |>)))
    = ErrorCode.OversizedMessage.
Proof. by intros []. Qed.

(** On Windows a read from a pipe that nobody writes to any more fails, and what was read of
    an unfinished line is lost. *)
Example broken_pipe_loses_line :
  result_code (fst (read_line Windows 8 (default_ChildProcess <| ch_output := Some [PipeChar slash; PipeError] |>)))
    = ErrorCode.PersistenceError.
Proof. reflexivity. Qed.

(** * The end of a child *)

(** What a child ended with does not change any more: waiting and terminating answer, and
    leave the child as it is. *)
Theorem ended_child_stays (platform : Platform) (c : ChildProcess) : child_valid c = true -> ch_exited c = true ->
  wait platform c = (Good (ch_exit_code c), c) /\ terminate platform c = (Good tt, c) /\ child_running c = false.
Proof. intros Hv He. unfold wait, terminate, child_running. by rewrite Hv, He. Qed.

Theorem wait_ends (platform : Platform) (c c' : ChildProcess) (code : Z) :
  wait platform c = (Good code, c') -> child_valid c' = true /\ ch_exited c' = true /\ ch_exit_code c' = code.
Proof.
  unfold wait. destruct (child_valid c) eqn:Hv; [|done]. cbn [negb]. destruct (ch_exited c) eqn:He.
  { by intros [= <- <-]. }
  unfold next_wait. destruct (ch_waits c) as [|[| |k|] waits]; intros [= <- <-]; done.
Qed.

(** A child that was killed is later reported to have ended with 0. *)
Example killed_child_reports_success : forall platform,
  let c := default_ChildProcess <| ch_process := true |> <| ch_waits := [Signalled] |> in
  fst (wait platform (snd (terminate platform c))) = Good 0.
Proof. by intros []. Qed.

(** The name of the program is not quoted: a blank in it ends the name. *)
Example blank_in_executable_splits :
  match command_of (map unit_of) Windows (mkProcessOptions (text_of "my dir\worker") [] [] true true []) with
  | OneLine line => scan false 0 line = (unit_of <$> text_of "my", unit_of <$> text_of "dir\worker")
  | Vector _ => False
  end.
Proof. reflexivity. Qed.

(** A program in the root directory is said to be in no directory at all. *)
Example root_directory_is_empty : executable_directory Posix (text_of "/worker") = Good [].
Proof. reflexivity. Qed.

(** The directory and the name make up the path again. *)
Theorem directory_of_path (platform : Platform) (directory name : Text) (separator : Ascii.ascii) :
  is_separator separator = true -> Forall (fun c => is_separator c = false) name ->
  Z.of_nat (length (directory ++ separator :: name)) < kPathBuffer ->
  executable_directory platform (directory ++ separator :: name) = Good directory.
Proof.
  intros Hs Hn Hl. unfold executable_directory, executable_path.
  assert (Z.of_nat (length (directory ++ separator :: name)) <> 0) as H0 by (rewrite length_app; simpl; lia).
  assert (before_last_separator name = None) as Hname.
  { clear -Hn. induction Hn as [|c name Hc Hn IH]; [done|]. cbn. by rewrite IH, Hc. }
  assert (before_last_separator (directory ++ separator :: name) = Some directory) as Hb.
  { clear -Hs Hname. induction directory as [|c directory IH]; cbn; [by rewrite Hname, Hs|by rewrite IH]. }
  rewrite (proj2 (Z.eqb_neq _ _) H0). destruct platform.
  - rewrite (proj2 (Z.leb_gt _ _) Hl). cbn. by rewrite Hb.
  - rewrite take_ge by (unfold kPathBuffer in *; lia). cbn. by rewrite Hb.
Qed.
