(* ===== verification/Clock.v ===== *)
(** * Clocks

    [src/time.cpp] and the clocks of [time.hpp]. What the system's own clocks read is given,
    in nanoseconds; the fabric elsewhere takes the times at which its operations run as
    parameters, and these are the clocks that give them. *)

From S2P Require Import Prelude Ints.

Definition kNeverFresh : Z := 0.

(** [SteadyClock]: [origin] is what the steady clock of the system read at construction. *)
Record SteadyClock := mkSteadyClock { sc_origin : Z }.

Definition steady_clock (nanoseconds : Z) : SteadyClock := mkSteadyClock (wrap64 nanoseconds).

Definition now_ticks (c : SteadyClock) (nanoseconds : Z) : Z :=
  let ticks := wrap64 nanoseconds in
  if sc_origin c <=? ticks then sub64 ticks (sc_origin c) else 0.

(** The wall clock of the system may be before its epoch. *)
Definition wall_seconds (seconds : Z) : Z := if 0 <? seconds then wrap64 seconds else 0.

Record ManualClock := mkManualClock { mc_now : Z; mc_wall : Z }.

Definition manual_clock (start : Z) : ManualClock := mkManualClock start 1700000000.
Definition advance (delta : Z) (c : ManualClock) : ManualClock := mkManualClock (add64 (mc_now c) delta) (mc_wall c).
Definition set (value : Z) (c : ManualClock) : ManualClock := mkManualClock value (mc_wall c).
Definition set_wall (seconds : Z) (c : ManualClock) : ManualClock := mkManualClock (mc_now c) seconds.

(** ** What [IClock] asks of a clock *)

(** Readings of a steady clock never go backwards, and count the nanoseconds since it was made. *)
Theorem steady_clock_monotonic (start t1 t2 : Z) :
  is_u64 start -> is_u64 t1 -> is_u64 t2 -> start <= t1 <= t2 ->
  now_ticks (steady_clock start) t1 = t1 - start /\
  now_ticks (steady_clock start) t1 <= now_ticks (steady_clock start) t2.
Proof.
  intros Hs H1 H2 Ht. unfold now_ticks, steady_clock. cbn [sc_origin]. rewrite !wrap64_small by done.
  rewrite !(proj2 (Z.leb_le _ _)) by lia. unfold is_u64 in *. rewrite !sub64_exact by (u64_lia). split; lia.
Qed.

(** Evidence that is fresh at a reading was fresh at every reading since it was observed. *)
Theorem freshness_ends_once (c : SteadyClock) (observed ttl t1 t2 : Z) :
  is_u64 observed -> is_u64 (now_ticks c t1) -> is_u64 (now_ticks c t2) -> observed <= now_ticks c t1 <= now_ticks c t2 ->
  is_fresh (now_ticks c t2) observed ttl = true -> is_fresh (now_ticks c t1) observed ttl = true.
Proof.
  unfold is_u64. intros Ho H1 H2 Ht. unfold is_fresh. destruct (ttl =? 0); [done|].
  rewrite !(proj2 (Z.ltb_ge _ _)) by lia. rewrite !sub64_exact by u64_lia. rewrite !Z.leb_le. lia.
Qed.

(** The clock for tests can be set back, and wraps around when it is advanced too far. *)
Example manual_clock_goes_back : mc_now (advance u64_max (manual_clock 1000)) = 999.
Proof. reflexivity. Qed.
