(* ===== verification/Loops.v ===== *)
(** * Loops that end

    Two loops of the source whose bound is not their shape: the eviction of remembered
    attempts, which ends when the memory fits or its queue is empty, and the replay of a
    journal, which ends because every record moves the offset. Each is shown to end by the
    number of rounds the model gives it, whatever the state, and what it has achieved then. *)

From S2P Require Import Prelude Ints Hash Enums Status Codec Model Wire Policy Accounting Authority Persist State.

(** ** Eviction *)

Lemma evict_loop_more fuel s : (length (im_attempt_order s) <= fuel)%nat ->
  evict_loop fuel s = evict_attempts s.
Proof.
  unfold evict_attempts. remember (length (im_attempt_order s)) as n eqn:Hn. revert fuel s Hn.
  induction n as [|n IH]; intros fuel s Hn Hf.
  - destruct (im_attempt_order s) as [|i order] eqn:Ho; [|done]. destruct fuel; [done|]. simpl. rewrite Ho. by destruct (_ <? _).
  - destruct (im_attempt_order s) as [|i order] eqn:Ho; [done|]. destruct fuel as [|fuel]; [lia|]. simpl. rewrite Ho.
    destruct (_ <? _); [|done]. injection Hn as Hn. apply IH; [done|simpl in Hf; lia].
Qed.

(** The condition of the loop is false when it stops. *)
Lemma evict_stops s :
  Z.of_nat (size (im_attempts (evict_attempts s))) <= fc_attempt_memory_capacity (im_config s) \/
  im_attempt_order (evict_attempts s) = [].
Proof.
  unfold evict_attempts. remember (length (im_attempt_order s)) as n eqn:Hn. revert s Hn.
  induction n as [|n IH]; intros s Hn.
  - right. simpl. by apply nil_length_inv.
  - destruct (im_attempt_order s) as [|i order] eqn:Ho; [done|]. simpl. rewrite Ho.
    destruct (Z.ltb_spec (fc_attempt_memory_capacity (im_config s)) (Z.of_nat (size (im_attempts s)))); [|left; lia].
    injection Hn as Hn. exact (IH (s <| im_attempt_order := order |> <| im_attempts ::= delete i |>) Hn).
Qed.

(** The queue holds each remembered attempt once. *)
Record queued (s : Impl) : Prop := {
  qd_once : NoDup (im_attempt_order s);
  qd_all : forall i, i ∈ im_attempt_order s <-> is_Some (im_attempts s !! i)
}.

Lemma queued_size s : queued s -> size (im_attempts s) = length (im_attempt_order s).
Proof.
  intros [Hn Ha]. rewrite <- size_dom. rewrite <- (size_list_to_set (C := gset Z) (im_attempt_order s)) by done.
  f_equal. apply set_eq. intros i. rewrite elem_of_dom, elem_of_list_to_set. symmetry. apply Ha.
Qed.

(** What eviction keeps is the end of the queue, with what was remembered of it. *)
Lemma evict_keeps s : queued s -> exists k, let s' := evict_attempts s in
  queued s' /\ im_attempt_order s' = drop k (im_attempt_order s) /\ im_config s' = im_config s /\
  (forall i, i ∈ im_attempt_order s' -> im_attempts s' !! i = im_attempts s !! i) /\
  (Z.of_nat (length (im_attempt_order s)) - fc_attempt_memory_capacity (im_config s) <= 0 -> k = 0%nat) /\
  (0 < Z.of_nat (length (im_attempt_order s)) - fc_attempt_memory_capacity (im_config s) -> 0 <= fc_attempt_memory_capacity (im_config s) ->
   Z.of_nat k = Z.of_nat (length (im_attempt_order s)) - fc_attempt_memory_capacity (im_config s)).
Proof.
  unfold evict_attempts. remember (length (im_attempt_order s)) as n eqn:Hn. revert s Hn.
  induction n as [|n IH]; intros s Hn Hq.
  - exists 0%nat. simpl. repeat (split; [done|]); lia.
  - destruct (im_attempt_order s) as [|i order] eqn:Ho; [done|]. injection Hn as Hn. simpl. rewrite Ho.
    pose proof (queued_size s Hq) as Hsize. rewrite Ho in Hsize. simpl in Hsize.
    destruct (Z.ltb_spec (fc_attempt_memory_capacity (im_config s)) (Z.of_nat (size (im_attempts s)))) as [Hlt|Hge].
    2:{ exists 0%nat. rewrite Ho. repeat (split; [done|]); lia. }
    destruct Hq as [Hnd Hall]. rewrite Ho in Hnd, Hall. apply NoDup_cons in Hnd as [Hni Hnd].
    set (s1 := s <| im_attempt_order := order |> <| im_attempts ::= delete i |>).
    assert (queued s1) as Hq1.
    { split; [done|]. intros j. cbn. rewrite lookup_delete_is_Some, <- Hall, elem_of_cons. split; [|by intros [? [->|?]]].
      intros Hj. split; [by intros ->|by right]. }
    destruct (IH s1 Hn Hq1) as (k & Hqk & Hdrop & Hcfg & Hlook & H0 & Hpos). exists (S k).
    split; [exact Hqk|]. split; [exact Hdrop|]. split; [exact Hcfg|]. split; [|split; [lia|]].
    + intros j Hj. transitivity (im_attempts s1 !! j); [exact (Hlook j Hj)|]. apply lookup_delete_ne. intros ->. apply Hni.
      change (j ∈ im_attempt_order (evict_loop n s1)) in Hj. rewrite Hdrop in Hj. exact (subseteq_drop _ _ _ Hj).
    + intros Hc Hc0. cbn [im_config s1] in H0, Hpos.
      destruct (decide (0 < Z.of_nat n - fc_attempt_memory_capacity (im_config s))) as [Hd|Hd].
      * specialize (Hpos Hd Hc0). cbn in Hpos. lia.
      * rewrite (H0 ltac:(cbn; lia)). lia.
Qed.

(** The state as [record_attempt] leaves it before eviction. *)
Definition remembered (a : AttemptRecord) (s : Impl) : Impl :=
  match im_attempts s !! at_id a with
  | None => s <| im_attempt_order ::= fun o => o ++ [at_id a] |>
  | Some _ => s
  end <| im_attempts ::= <[at_id a := a]> |>.

Lemma remembered_queued a s : queued s -> queued (remembered a s).
Proof.
  intros [Hn Ha]. unfold remembered. destruct (im_attempts s !! at_id a) as [b|] eqn:E.
  - split; [done|]. intros i. cbn. rewrite Ha. destruct (decide (i = at_id a)) as [->|].
    + rewrite lookup_insert_eq, E. done.
    + by rewrite lookup_insert_ne.
  - assert (at_id a ∉ im_attempt_order s) as Hni by (rewrite Ha, E; by intros [? ?]). split.
    + cbn. apply NoDup_app. split; [done|]. split; [|apply NoDup_singleton]. intros i Hi ->%list_elem_of_singleton. done.
    + intros i. cbn. rewrite elem_of_app, list_elem_of_singleton, Ha. destruct (decide (i = at_id a)) as [->|].
      * rewrite lookup_insert_eq. split; [done|by right].
      * rewrite lookup_insert_ne by done. split; [by intros [?|?]|by left].
Qed.

Lemma record_attempt_run a s : 0 < fc_attempt_memory_capacity (im_config s) ->
  record_attempt a s = (Good tt, evict_attempts (remembered a s)).
Proof. intros H. unfold record_attempt, modify, sm_modify. by rewrite (proj2 (Z.eqb_neq _ _)) by lia. Qed.

(** A new attempt is in the memory once it is recorded. *)
Lemma attempt_recorded a s : queued s -> 0 < fc_attempt_memory_capacity (im_config s) -> im_attempts s !! at_id a = None ->
  exists s', record_attempt a s = (Good tt, s') /\ im_attempts s' !! at_id a = Some a.
Proof.
  intros Hq Hc Hn. exists (evict_attempts (remembered a s)). split; [by apply record_attempt_run|].
  destruct (evict_keeps _ (remembered_queued a s Hq)) as (k & _ & Hdrop & _ & Hlook & H0 & Hpos).
  assert (im_attempt_order (remembered a s) = im_attempt_order s ++ [at_id a]) as Ho by (unfold remembered; by rewrite Hn).
  assert (im_config (remembered a s) = im_config s) as Hcfg by (unfold remembered; by rewrite Hn).
  rewrite Hlook; [unfold remembered; rewrite Hn; cbn; by rewrite lookup_insert_eq|].
  rewrite Hcfg, Ho, length_app in H0, Hpos. simpl in H0, Hpos. rewrite Hdrop, Ho, drop_app_le.
  - apply elem_of_app. right. by apply list_elem_of_singleton.
  - destruct (decide (0 < Z.of_nat (length (im_attempt_order s) + 1) - fc_attempt_memory_capacity (im_config s))) as [Hd|Hd];
      [specialize (Hpos Hd)|rewrite H0]; lia.
Qed.

(** ** Replay *)

Lemma read_next_advances file offset payload next : read_next file offset = Good (Some (payload, next)) ->
  (offset < next <= length file)%nat.
Proof.
  unfold read_next. destruct (Z.leb_spec (Z.of_nat (length file)) (Z.of_nat offset)); [done|].
  change kFrameHeaderBytes with 16. rewrite length_drop. destruct (Z.ltb_spec (Z.of_nat (length file - offset)) 16); [done|].
  destruct (fst _) as [[[[magic version] payload_bytes] crc]|]; [|done].
  destruct (negb _); [done|]. destruct (negb _); [done|]. destruct (_ <? payload_bytes); [done|].
  destruct (Z.ltb_spec (Z.of_nat (length file)) (Z.of_nat offset + 16 + payload_bytes)); [done|].
  destruct (negb _); [done|]. intros [= _ <-]. lia.
Qed.

(** What is read is the frame of a record, whole. *)
Lemma read_next_sound file offset payload next : is_bytes file -> read_next file offset = Good (Some (payload, next)) ->
  journal_payload payload /\ (exists rest, drop offset file = frame_of payload ++ rest) /\
  next = (offset + length (frame_of payload))%nat.
Proof.
  intros Hb Hr.
  assert (is_bytes (drop offset file)) as Hbd by by apply Forall_drop.
  assert (exists n, decode_frame (drop offset file) kJournalFrameMagic kJournalFormatVersion kMaxJournalRecordBytes = Good (payload, n) /\
    Z.of_nat next = Z.of_nat offset + n) as (n & Hdec & Hn).
  { unfold read_next in Hr. unfold decode_frame. change kFrameHeaderBytes with 16 in *.
    destruct (Z.leb_spec (Z.of_nat (length file)) (Z.of_nat offset)); [done|]. pose proof (length_drop file offset) as Hlen.
    destruct (Z.ltb_spec (Z.of_nat (length (drop offset file))) 16); [done|].
    destruct (split_words (take 16 (drop offset file))) as (magic & version & size & crc & Hm & Hv & Hs & Hc & Hw);
      [by apply Forall_take|rewrite length_take; lia|]. change (Z.to_nat 16) with 16%nat in *.
    rewrite Hw, get_frame_header_words in Hr |- * by done.
    destruct (negb (magic =? _)); [done|]. destruct (negb (version =? _)); [done|]. destruct (kMaxJournalRecordBytes <? size); [done|].
    destruct (Z.ltb_spec (Z.of_nat (length file)) (Z.of_nat offset + 16 + size)); [done|].
    exists (16 + size). destruct (Z.ltb_spec (Z.of_nat (length (drop offset file)) - 16) size); [lia|].
    destruct (negb _); [done|]. injection Hr as <- <-. split; [done|]. u64_lia. }
  apply decode_frame_sound in Hdec; [|done|by vm_compute]. destruct Hdec as (Hl & -> & rest & Hrest). fold (frame_of payload) in *.
  split; [split; [|done]|split; [by exists rest|lia]].
  rewrite Hrest in Hbd. apply Forall_app in Hbd as [Hbd _]. unfold frame_of in Hbd. rewrite encode_frame_eq in Hbd.
  by apply Forall_app in Hbd as [_ Hbd].
Qed.

Section Replay.
Context {T : Type} (visit : list Z -> Z -> T -> Result unit * T) (file : list Z).

Lemma replay_loop_enough fuel : forall fuel' offset ordinal (s : T),
  (length file < fuel + offset)%nat -> (length file < fuel' + offset)%nat -> (offset <= length file)%nat ->
  replay_loop visit file fuel offset ordinal s = replay_loop visit file fuel' offset ordinal s.
Proof.
  induction fuel as [|fuel IH]; intros fuel' offset ordinal s H H' Ho; [lia|]. destruct fuel' as [|fuel']; [lia|].
  rewrite !replay_loop_S. destruct (read_next file offset) as [[[payload next]|]|e] eqn:E; [|done|done].
  pose proof (read_next_advances _ _ _ _ E). destruct (visit payload ordinal s) as [[u|e] s1]; [|done]. apply IH; lia.
Qed.

(** What a loop that ended has done since it stood at [offset]: it has read the frames of [rs],
    one after the other, handed each to the visitor in order, and stopped for the reason given. *)
Definition replayed_from (offset : nat) (ordinal : Z) (s : T) (rs : list (list Z)) (replay : Replay) (s' : T) : Prop :=
  Forall journal_payload rs /\ rp_offset replay = (offset + length (frames_of rs))%nat /\
  take (length (frames_of rs)) (drop offset file) = frames_of rs /\
  match rp_stop replay with
  | ReplayEof => rp_offset replay = length file /\ rp_applied replay = ordinal + Z.of_nat (length rs) /\
      visit_all visit rs ordinal s = (Good tt, s')
  | ReplayDamaged e => read_next file (rp_offset replay) = Bad e /\ rp_applied replay = ordinal + Z.of_nat (length rs) /\
      visit_all visit rs ordinal s = (Good tt, s')
  | ReplayRefused e => exists before p s1, rs = before ++ [p] /\ rp_applied replay = ordinal + Z.of_nat (length before) /\
      visit_all visit before ordinal s = (Good tt, s1) /\ visit p (rp_applied replay) s1 = (Bad e, s')
  end.

Lemma replayed_more offset ordinal s payload s1 rs replay s' u :
  journal_payload payload -> visit payload ordinal s = (Good u, s1) ->
  (exists rest, drop offset file = frame_of payload ++ rest) ->
  replayed_from (offset + length (frame_of payload)) (ordinal + 1) s1 rs replay s' ->
  replayed_from offset ordinal s (payload :: rs) replay s'.
Proof.
  intros Hp Hv [rest Hrest] (Hrs & Ho & Ht & Hstop).
  assert (frames_of (payload :: rs) = frame_of payload ++ frames_of rs) as Hfr by done.
  split; [by constructor|]. split; [rewrite Ho, Hfr, length_app; lia|]. split.
  { rewrite Hfr, length_app, <- take_take_drop, drop_drop, Ht, Hrest. by rewrite take_app_length. }
  destruct (rp_stop replay) as [|e|e].
  - destruct Hstop as (? & ? & Hall). cbn [length visit_all]. rewrite Hv. split_and!; [done|lia|done].
  - destruct Hstop as (? & ? & Hall). cbn [length visit_all]. rewrite Hv. split_and!; [done|lia|done].
  - destruct Hstop as (before & p & s2 & -> & Ha & Hall & Hbad). exists (payload :: before), p, s2.
    cbn [length visit_all]. rewrite Hv. split_and!; [done|lia|done|done].
Qed.

Lemma replay_loop_replayed fuel : is_bytes file -> forall offset ordinal (s : T) replay s',
  (length file < fuel + offset)%nat -> (offset <= length file)%nat ->
  replay_loop visit file fuel offset ordinal s = (replay, s') ->
  exists rs, replayed_from offset ordinal s rs replay s'.
Proof.
  intros Hb. induction fuel as [|fuel IH]; intros offset ordinal s replay s' H Ho; [lia|].
  rewrite replay_loop_S. destruct (read_next file offset) as [[[payload next]|]|e] eqn:E.
  - pose proof (read_next_advances _ _ _ _ E) as Hadv. destruct (read_next_sound _ _ _ _ Hb E) as (Hp & Hrest & ->).
    destruct (visit payload ordinal s) as [[u|e] s1] eqn:Hv.
    + intros Hr. destruct (IH (offset + length (frame_of payload))%nat (ordinal + 1) s1 replay s' ltac:(lia) ltac:(lia) Hr) as (rs & Hrs).
      exists (payload :: rs). by eapply replayed_more.
    + intros [= <- <-]. exists [payload]. destruct Hrest as [rest Hrest]. split; [by apply Forall_singleton|].
      unfold frames_of. cbn. rewrite app_nil_r. split; [done|]. split; [by rewrite Hrest, take_app_length|].
      exists [], payload, s. rewrite Z.add_0_r. by split_and!.
  - intros [= <- <-]. exists []. split; [done|]. cbn. rewrite Nat.add_0_r, Z.add_0_r. split_and!; try done.
    unfold read_next in E. destruct (Z.leb_spec (Z.of_nat (length file)) (Z.of_nat offset)); [lia|].
    repeat (case_match; try done).
  - intros [= <- <-]. exists []. split; [done|]. cbn. by rewrite Nat.add_0_r, Z.add_0_r.
Qed.
End Replay.

(** * What the loops achieve *)

(** C34. Remembering an attempt terminates within bounds: with a memory of [capacity] attempts, the
    eviction loop ends within the length of its queue (more rounds change nothing), and then
    the memory holds at most [capacity] attempts, exactly the newest entries of the queue, each
    with the record it had; the attempt just recorded is among them when it is new or when
    the memory was within its bound, so that an immediate retry of it is a replay. *)
Theorem attempt_memory_bounded (a : AttemptRecord) (s : Impl) :
  queued s -> 0 < fc_attempt_memory_capacity (im_config s) ->
  exists s', record_attempt a s = (Good tt, s') /\ queued s' /\
    Z.of_nat (size (im_attempts s')) <= fc_attempt_memory_capacity (im_config s) /\
    (exists k, im_attempt_order s' = drop k (im_attempt_order (remembered a s)) /\
       Z.of_nat k = Z.max 0 (Z.of_nat (length (im_attempt_order (remembered a s))) - fc_attempt_memory_capacity (im_config s))) /\
    (forall i, i ∈ im_attempt_order s' -> im_attempts s' !! i = if decide (i = at_id a) then Some a else im_attempts s !! i) /\
    (im_attempts s !! at_id a = None \/ Z.of_nat (size (im_attempts s)) <= fc_attempt_memory_capacity (im_config s) ->
     im_attempts s' !! at_id a = Some a) /\
    forall rounds, (length (im_attempt_order (remembered a s)) <= rounds)%nat -> evict_loop rounds (remembered a s) = s'.
Proof.
  intros Hq Hc. pose proof (remembered_queued a s Hq) as Hr. set (s1 := remembered a s) in *.
  assert (im_config s1 = im_config s) as Hcfg by (unfold s1, remembered; by destruct (im_attempts s !! at_id a)).
  destruct (evict_keeps s1 Hr) as (k & Hq' & Hdrop & _ & Hlook & H0 & Hpos). rewrite Hcfg in H0, Hpos.
  set (cap := fc_attempt_memory_capacity (im_config s)) in *. set (n := Z.of_nat (length (im_attempt_order s1))) in *.
  assert (Z.of_nat k = Z.max 0 (n - cap)) as Hk by (destruct (decide (0 < n - cap)); [rewrite Hpos by lia; lia|rewrite H0 by lia; lia]).
  exists (evict_attempts s1). split; [by apply record_attempt_run|]. split; [exact Hq'|]. split; [|split; [by exists k|]].
  { rewrite (queued_size _ Hq'), Hdrop, length_drop. lia. }
  assert (forall i, im_attempts s1 !! i = if decide (i = at_id a) then Some a else im_attempts s !! i) as Hs1.
  { intros i. unfold s1, remembered. destruct (decide (i = at_id a)) as [->|]; destruct (im_attempts s !! at_id a); cbn;
      rewrite ?lookup_insert_eq, ?lookup_insert_ne by done; done. }
  split; [intros i Hi; by rewrite (Hlook i Hi), Hs1|]. split.
  - intros Hnew. assert (at_id a ∈ im_attempt_order (evict_attempts s1)) as Hin.
    { rewrite Hdrop. destruct (im_attempts s !! at_id a) as [b|] eqn:E.
      - destruct Hnew as [?|Hfit]; [done|]. replace k with 0%nat; [apply (qd_all _ Hr); rewrite Hs1; by rewrite decide_True by done|].
        assert (im_attempt_order s1 = im_attempt_order s) as Hsame by (unfold s1, remembered; by rewrite E).
        unfold n in Hk. rewrite Hsame, <- (queued_size _ Hq) in Hk. lia.
      - assert (im_attempt_order s1 = im_attempt_order s ++ [at_id a]) as Hsame by (unfold s1, remembered; by rewrite E).
        unfold n in Hk. rewrite Hsame, length_app in Hk. simpl in Hk. rewrite Hsame, drop_app_le by lia. apply elem_of_app. right. by apply list_elem_of_singleton. }
    rewrite (Hlook _ Hin), Hs1. by rewrite decide_True by done.
  - intros rounds Hrounds. by apply evict_loop_more.
Qed.

(** C35. Replaying a journal terminates and leaves nothing out: whatever bytes the file holds
    and whatever is done with each record, the loop ends within as many rounds as the file has
    bytes and one (more rounds change nothing), and the bytes before the place where it stops
    are exactly the frames of a list of records. When it reports the end of the file, that
    place is the end of the file and every record was handed to the visitor and taken, each
    once, in order and with its ordinal; when it reports damage, the same holds of the records
    before the damage, and no record can be read where it stopped; when a record was refused,
    it is the last of them and those before it were taken. *)
Theorem replay_terminates {T : Type} (visit : list Z -> Z -> T -> Result unit * T) (file : list Z) (s s' : T) (replay : Replay) :
  is_bytes file -> replay_journal visit file s = (replay, s') ->
  (forall rounds, (length file < rounds)%nat -> replay_loop visit file rounds 0 0 s = (replay, s')) /\
  (rp_offset replay <= length file)%nat /\
  exists rs, Forall journal_payload rs /\ take (rp_offset replay) file = frames_of rs /\
    match rp_stop replay with
    | ReplayEof => rp_offset replay = length file /\ rp_applied replay = Z.of_nat (length rs) /\
        visit_all visit rs 0 s = (Good tt, s')
    | ReplayDamaged e => read_next file (rp_offset replay) = Bad e /\ rp_applied replay = Z.of_nat (length rs) /\
        visit_all visit rs 0 s = (Good tt, s')
    | ReplayRefused e => exists before p s1, rs = before ++ [p] /\ rp_applied replay = Z.of_nat (length before) /\
        visit_all visit before 0 s = (Good tt, s1) /\ visit p (rp_applied replay) s1 = (Bad e, s')
    end.
Proof.
  intros Hb Hr. split; [intros rounds Hn; rewrite <- Hr; apply replay_loop_enough; lia|].
  destruct (replay_loop_replayed visit file (S (length file)) Hb 0 0 s replay s' ltac:(lia) ltac:(lia) Hr) as (rs & Hrs & Ho & Ht & Hstop).
  rewrite drop_0 in Ht. assert (length (frames_of rs) <= length file)%nat as Hle.
  { pose proof (f_equal length Ht) as Hlen. rewrite length_take in Hlen. lia. }
  simpl in Ho. split; [lia|]. exists rs. rewrite Ho at 1. split_and!; done.
Qed.

(** Two records and the beginning of a third: the two are taken. *)
Lemma replay_terminates_witness :
  exists replay l rs, replay_journal keep_payload (frames_of [[1; 2]; [3]] ++ take 5 (frame_of [4])) [] = (replay, l) /\
    l = [[1; 2]; [3]] /\ Forall journal_payload rs /\
    take (rp_offset replay) (frames_of [[1; 2]; [3]] ++ take 5 (frame_of [4])) = frames_of rs /\
    rp_applied replay = Z.of_nat (length rs).
Proof.
  set (file := frames_of [[1; 2]; [3]] ++ take 5 (frame_of [4])).
  assert (is_bytes file) as Hb by decide_closed.
  destruct (replay_journal keep_payload file []) as [replay l] eqn:Hr.
  destruct (replay_terminates keep_payload file [] l replay Hb Hr) as (_ & _ & rs & Hrs & Ht & Hstop).
  assert (l = [[1; 2]; [3]] /\ exists e, rp_stop replay = ReplayDamaged e) as [Hl [e He]].
  { vm_compute in Hr. injection Hr as <- <-. split; [reflexivity|by eexists]. }
  rewrite He in Hstop. destruct Hstop as (_ & Ha & _). exists replay, l, rs. by split_and!.
Defined.

(** A memory of two attempts that takes a third. *)
Definition sample_attempt (id : Z) : AttemptRecord := default_AttemptRecord <| at_id := id |>.
Definition sample_memory : Impl := default_Impl <| im_config ::= fun c => c <| fc_attempt_memory_capacity := 2 |> |>
  <| im_attempt_order := [4; 9] |> <| im_attempts := <[4 := sample_attempt 4]> (<[9 := sample_attempt 9]> ∅) |>.

Lemma attempt_memory_bounded_witness : exists s', record_attempt (sample_attempt 1) sample_memory = (Good tt, s') /\
  Z.of_nat (size (im_attempts s')) <= 2 /\ im_attempts s' !! 1 = Some (sample_attempt 1) /\ im_attempt_order s' = [9; 1].
Proof.
  assert (queued sample_memory) as Hq.
  { split; [apply (bool_decide_unpack _); vm_compute; exact I|]. intros i. cbn. rewrite !elem_of_cons. 
    destruct (decide (i = 4)) as [->|]; [rewrite lookup_insert_eq; split; [by eexists|by left]|].
    rewrite lookup_insert_ne by done. destruct (decide (i = 9)) as [->|]; [rewrite lookup_insert_eq; split; [by eexists|by right; left]|].
    rewrite lookup_insert_ne by done. rewrite lookup_empty. split; [intros [?|[?|H]]; [done|done|by apply not_elem_of_nil in H]|by intros [? ?]]. }
  destruct (attempt_memory_bounded (sample_attempt 1) sample_memory Hq) as (s' & H & _ & Hsize & (k & Hk & Hn) & _ & Hlast & _); [reflexivity|].
  exists s'. split; [exact H|]. split; [exact Hsize|]. split; [apply Hlast; left; reflexivity|].
  assert (Z.of_nat k = 1) as Hn1 by exact Hn. assert (k = 1%nat) as -> by lia. rewrite Hk. reflexivity.
Defined.
