(* ===== verification/Idempotence.v ===== *)
(** * Retried allocations

    The promise behind attempt ids: an allocation request that was decided, granted or
    refused, is answered from memory when it is sent again, without another decision, and
    its attempt id is closed to any other request. This file shows it from a state whose
    queue of remembered attempts agrees with its table of them; [Memory] shows that every
    reachable state is one. *)

From S2P Require Import Prelude Ints Hash Enums Status Codec Model Wire Policy Accounting Authority Persist State Grant Alloc Lifecycle Books Triples Layout Safety AllocSafety LifeSafety Topology Revoke Resize TopoSafety Query QuerySafety History Loops.

(** ** The memory of attempts *)

Definition same_memory (s s' : Impl) : Prop :=
  im_attempts s' = im_attempts s /\ im_attempt_order s' = im_attempt_order s /\ im_config s' = im_config s.

#[export] Instance same_memory_preorder : PreOrder same_memory.
Proof. split; unfold same_memory; [done|]. intros s1 s2 s3 (? & ? & ?) (? & ? & ?). split_and!; congruence. Qed.

#[export] Instance memory_logged {A} (m : M A) : Within logged m -> Within same_memory m | 10.
Proof. intros Hm s. eapply wp_mono; [apply Hm| |]; by intros ? s' (d & mt & ->). Qed.

Lemma memory_modify f : (forall s, same_memory s (f s)) -> Within same_memory (modify f).
Proof. intros Hf s. apply Hf. Qed.

#[export] Hint Extern 5 (Within same_memory (modify _)) =>
  (apply memory_modify; intros ?; split_and!; reflexivity) : typeclass_instances.
#[export] Instance memory_pool p f : Within same_memory (update_pool p f).
Proof. by apply memory_modify. Qed.
#[export] Instance memory_runtime p g : Within same_memory (update_runtime p g).
Proof. apply memory_pool. Qed.
#[export] Instance memory_decision d : Within same_memory (record_decision d).
Proof. intros s. by hnf. Qed.
#[export] Instance memory_sequence : Within same_memory next_sequence.
Proof. intros s. by hnf. Qed.
#[export] Instance memory_event kind outcome detail pool queue allocation units sequence :
  Within same_memory (push_event kind outcome detail pool queue allocation units sequence).
Proof. intros s. unfold wp, push_event, modify, sm_modify. by case_match. Qed.
#[export] Instance memory_checked_add a b message : Within same_memory (checked_add a b message).
Proof. unfold checked_add. walk. Qed.
#[export] Instance memory_lineage cx id grant pool queue : Within same_memory (build_lineage cx id grant pool queue).
Proof. unfold build_lineage. walk. Qed.
#[export] Instance memory_record cx g grant : Within same_memory (build_record cx g grant).
Proof. unfold build_record. walk. Qed.
#[export] Instance memory_commit_units pool units borrow lender :
  Within same_memory (apply_commit_units pool units borrow lender).
Proof. unfold apply_commit_units. walk. Qed.
#[export] Instance memory_grant cx r next : Within same_memory (apply_grant cx r next).
Proof. unfold apply_grant. walk. Qed.
#[export] Instance memory_count cx grant : Within same_memory (count_grant cx grant).
Proof. unfold count_grant. walk. Qed.
#[export] Instance memory_closure id report :
  (forall e, Within same_memory (report e)) -> Within same_memory (verify_closure id report).
Proof.
  intros Hr. unfold verify_closure. apply within_bind; [apply _..|]. intros e. apply within_bind; [apply _..|]. intros s.
  destruct (check_closure s e); walk.
Qed.

(** ** An attempt is remembered with its decision *)

(** The attempt can be remembered: it is new, and the memory holds something. *)
Record unused (attempt : Z) (s : Impl) : Prop := {
  un_queued : queued s;
  un_capacity : 0 < fc_attempt_memory_capacity (im_config s);
  un_new : im_attempts s !! attempt = None
}.

Lemma unused_same attempt s s' : same_memory s s' -> unused attempt s -> unused attempt s'.
Proof.
  intros (HA & HO & HC) [[Hn Ha] Hc Hu]. split; [split|..]; [by rewrite HO|intros i; by rewrite HO, HA|by rewrite HC|by rewrite HA].
Qed.

(** The memory answers for the decision [d]. *)
Definition noted (attempt : Z) (digest : Digest) (d : Decision) (s : Impl) : Prop :=
  exists a, im_attempts s !! attempt = Some a /\ at_request_digest a = digest /\ at_outcome a = dc_status d /\
    at_granted_units a = dc_granted_units d /\ at_allocation a = dc_allocation d.

Lemma noted_same attempt digest d s s' : same_memory s s' -> noted attempt digest d s -> noted attempt digest d s'.
Proof. intros (HA & _). unfold noted. by rewrite HA. Qed.

(** [m] remembers the decision it answers with. *)
Class Notes (attempt : Z) (digest : Digest) (m : M Decision) : Prop :=
  notes : forall s, unused attempt s -> wp m s (noted attempt digest) (fun _ _ => True).

Lemma notes_after {A} attempt digest (m : M A) (k : A -> M Decision) :
  Within same_memory m -> (forall a, Notes attempt digest (k a)) -> Notes attempt digest (sm_bind m k).
Proof.
  intros Hm Hk s Hs. apply wp_bind. eapply wp_mono; [apply Hm| |done]. intros a s' Hss. by apply Hk, (unused_same _ s).
Qed.

Lemma notes_if attempt digest (b : bool) m1 m2 :
  Notes attempt digest m1 -> Notes attempt digest m2 -> Notes attempt digest (if b then m1 else m2).
Proof. by destruct b. Qed.

Lemma notes_raise attempt digest code message : Notes attempt digest (raise code message).
Proof. by intros s _. Qed.

(** What follows the note keeps it. *)
Lemma noted_then {A} attempt digest d (m : M A) (k : A -> M Decision) s :
  Within same_memory m -> noted attempt digest d s ->
  (forall a s', noted attempt digest d s' -> wp (k a) s' (noted attempt digest) (fun _ _ => True)) ->
  wp (sm_bind m k) s (noted attempt digest) (fun _ _ => True).
Proof.
  intros Hm Hn Hk. apply wp_bind. eapply wp_mono; [apply Hm| |done]. intros a s' Hs. by apply Hk, (noted_same _ _ _ s).
Qed.

Lemma remember_notes attempt kind digest outcome allocation granted sequence stamp s :
  unused attempt s -> exists s', remember attempt kind digest outcome allocation granted sequence stamp s = (Good tt, s') /\
    im_attempts s' !! attempt = Some (mkAttemptRecord attempt kind digest outcome allocation granted sequence stamp false).
Proof.
  intros [Hq Hc Hu]. destruct (attempt_recorded (mkAttemptRecord attempt kind digest outcome allocation granted sequence stamp false) s Hq Hc Hu)
    as (s' & Hr & Ha). by exists s'.
Qed.

#[export] Instance finish_notes cx kind code reason granted allocation binding intent lender :
  Notes (aq_attempt (cx_request cx)) (cx_digest cx) (finish_decision cx kind code reason granted allocation binding intent lender).
Proof.
  unfold finish_decision. cbv zeta. do 5 (apply notes_after; [walk|intros ?]).
  intros s Hs. apply wp_bind. unfold wp at 1.
  edestruct remember_notes as (s1 & -> & Ha); [exact Hs|].
  lazymatch type of Ha with context [dc_sequence ?d] =>
    assert (noted (aq_attempt (cx_request cx)) (cx_digest cx) d s1) as Hn by (by eexists)
  end.
  clear Ha. do 3 (eapply noted_then; [walk|exact Hn|clear Hn; intros _ ? Hn]). exact Hn.
Qed.

#[export] Instance refuse_notes cx e binding :
  Notes (aq_attempt (cx_request cx)) (cx_digest cx) (refuse_capacity cx e binding).
Proof. unfold refuse_capacity. apply notes_if; apply _. Qed.

#[export] Instance complete_notes cx r binding :
  Notes (aq_attempt (cx_request cx)) (cx_digest cx) (complete_grant cx r binding).
Proof.
  intros s Hs. unfold complete_grant. cbv zeta. apply wp_bind. eapply wp_mono; [by apply finish_notes| |done].
  intros d s1 Hn. do 2 (eapply noted_then; [walk|exact Hn|clear Hn; intros ? ? Hn]).
  by destruct (rp_enabled _ && _).
Qed.

#[export] Instance grant_notes cx : Notes (aq_attempt (cx_request cx)) (cx_digest cx) (grant_or_refuse cx).
Proof.
  unfold grant_or_refuse. apply notes_after; [walk|intros e]. apply notes_after; [walk|intros s]. cbv zeta.
  destruct (grant_units _ _) as [grant binding]. apply notes_if; [apply _|]. apply notes_after; [walk|intros rn].
  apply notes_if; [apply notes_raise|]. do 3 (apply notes_after; [walk|intros _]). apply _.
Qed.

#[export] Instance decide_notes cx : Notes (aq_attempt (cx_request cx)) (cx_digest cx) (decide_allocation cx).
Proof.
  unfold decide_allocation. apply notes_after; [walk|intros e].
  destruct (refusal_gate cx e) as [[[[[kind code] reason] binding] intent]|]; apply _.
Qed.

(** ** What a decided request resolved to *)

(** The checks on a request that precede the memory. *)
Record admissible (rq : AllocateRequest) (s : Impl) : Prop := {
  ad_open : im_open s = true;
  ad_running : im_shutting_down s && fc_refuse_work_after_shutdown (im_config s) = false;
  ad_attempt : valid (aq_attempt rq) = true;
  ad_units : aq_requested_units rq <> 0 /\ aq_requested_units rq <= kMaxUnitsPerPool;
  ad_room : Z.of_nat (size (im_allocations s)) < kMaxAllocationCount
}.

(** What its pool, queue and policy resolve to. *)
Definition resolves (rq : AllocateRequest) (s : Impl) : Prop :=
  valid (aq_pool rq) = true /\ valid (aq_queue rq) = true /\
  exists e q p, im_pools s !! aq_pool rq = Some e /\ im_queues s !! aq_queue rq = Some q /\
    im_policies s !! pd_policy (en_descriptor e) = Some p.

Lemma reject_succeeds (c : bool) code message s a s' : reject_when c code message s = (Good a, s') -> c = false /\ s' = s.
Proof. destruct c; [done|]. by intros [= _ ->]. Qed.

Lemma require_succeeds {A} (o : option A) code message s a s' : require o code message s = (Good a, s') -> o = Some a /\ s' = s.
Proof. destruct o; [|done]. by intros [= -> ->]. Qed.

Lemma require_pool_succeeds id s e s' : require_pool id s = (Good e, s') -> valid id = true /\ im_pools s !! id = Some e /\ s' = s.
Proof. unfold require_pool. destruct (valid id); [|done]. simpl. destruct (im_pools s !! id); [|done]. by intros [= -> ->]. Qed.

Lemma require_queue_succeeds id s q s' :
  require_queue id s = (Good q, s') -> valid id = true /\ im_queues s !! id = Some q /\ s' = s.
Proof. unfold require_queue. destruct (valid id); [|done]. simpl. destruct (im_queues s !! id); [|done]. by intros [= -> ->]. Qed.

Lemma lookup_attempt_succeeds id digest s o s' : lookup_attempt id digest s = (Good o, s') ->
  s' = s /\ o = im_attempts s !! id /\ forall a, o = Some a -> at_request_digest a = digest.
Proof.
  unfold lookup_attempt. destruct (negb (valid id)); [done|]. destruct (im_attempts s !! id) as [a|].
  - case_decide; [|done]. intros [= <- <-]. split_and!; [done..|]. by intros ? [= <-].
  - by intros [= <- <-].
Qed.

(** Take apart a run that succeeded, one step at a time. *)
Ltac succeeds H :=
  let a := fresh "a" in let s := fresh "s" in let H1 := fresh "H" in
  apply sm_bind_good in H as (a & s & H1 & H);
  lazymatch type of H1 with
  | reject_when _ _ _ _ = _ => apply reject_succeeds in H1 as [? ->]
  | require _ _ _ _ = _ => apply require_succeeds in H1 as [? ->]
  | require_pool _ _ = _ => apply require_pool_succeeds in H1 as (? & ? & ->)
  | require_queue _ _ = _ => apply require_queue_succeeds in H1 as (? & ? & ->)
  | lookup_attempt _ _ _ = _ => apply lookup_attempt_succeeds in H1 as (-> & ? & ?)
  | sm_get _ = _ => injection H1 as <- <-
  end.

Lemma check_request_succeeds rq s a s' : check_request rq s = (Good a, s') -> s' = s /\ admissible rq s.
Proof.
  unfold check_request, ensure_alloc_capacity. intros H. do 6 succeeds H. apply reject_succeeds in H as [? ->].
  split; [done|]. split; [by apply negb_false_iff|done|by apply negb_false_iff|split; [by apply Z.eqb_neq|by apply Z.ltb_ge]|by apply Z.leb_gt].
Qed.

Lemma check_request_passes rq s : admissible rq s -> check_request rq s = (Good tt, s).
Proof.
  intros [Ho Hr Ha [Hu1 Hu2] Hroom].
  unfold check_request, ensure_alloc_capacity, sm_bind, sm_get, reject_when, sm_lift, reject_if.
  by rewrite Ho, Hr, Ha, (proj2 (Z.eqb_neq _ _) Hu1), (proj2 (Z.ltb_ge _ _) Hu2), (proj2 (Z.leb_gt _ _) Hroom).
Qed.

Lemma allocate_locked_asked rq s d s' : allocate_locked rq s = (Good d, s') -> admissible rq s /\ resolves rq s.
Proof.
  unfold allocate_locked. intros H. apply sm_bind_good in H as (a & s1 & H1 & H). cbv zeta in H.
  apply check_request_succeeds in H1 as (-> & ?). do 5 succeeds H.
  split; [done|]. split_and!; try done. by do 3 eexists.
Qed.

(** Remembered requests are answered from memory, and only the counter of replays moves. *)
Lemma allocate_locked_replays rq s a :
  admissible rq s -> resolves rq s -> im_attempts s !! aq_attempt rq = Some a -> at_request_digest a = allocate_digest rq ->
  exists e q, allocate_locked rq s =
    (Good (replay_decision s a e (qd_id q) (aq_requested_units rq) (aq_attempt rq) (at_allocation a) (resolve_evidence s e)),
     s <| im_metrics ::= fun m => m <| mt_idempotent_replays ::= plus 1 |> |>).
Proof.
  intros Had (Hvp & Hvq & e & q & p & He & Hq & Hp) Hat Hd. exists e, q.
  unfold allocate_locked, sm_bind at 1. rewrite (check_request_passes _ _ Had). cbv zeta.
  unfold lookup_attempt, require_pool, require_queue, require, sm_bind. rewrite (ad_attempt _ _ Had), Hat, decide_True by done.
  rewrite Hvp. cbn. rewrite He, Hvq. cbn. rewrite Hq. cbn. by rewrite Hp.
Qed.

(** An attempt id that was used for another request is refused before anything is looked at. *)
Lemma allocate_locked_conflicts rq s a :
  admissible rq s -> im_attempts s !! aq_attempt rq = Some a -> at_request_digest a <> allocate_digest rq ->
  exists status, allocate_locked rq s = (Bad status, s) /\ st_code status = ErrorCode.AttemptConflict.
Proof.
  intros Had Hat Hd. eexists.
  unfold allocate_locked, sm_bind at 1. rewrite (check_request_passes _ _ Had). cbv zeta.
  unfold lookup_attempt, sm_bind. by rewrite (ad_attempt _ _ Had), Hat, decide_False by done.
Qed.

(** ** After the decision *)

(** What a decision leaves as it was. *)
Record undisturbed (s s' : Impl) : Prop := {
  ud_gates : im_open s' = im_open s /\ im_shutting_down s' = im_shutting_down s /\ im_config s' = im_config s;
  ud_queues : im_queues s' = im_queues s;
  ud_policies : im_policies s' = im_policies s;
  ud_pools : forall p e, im_pools s !! p = Some e -> exists e', im_pools s' !! p = Some e' /\ en_descriptor e' = en_descriptor e
}.

Lemma undisturbed_trans s1 s2 s3 : undisturbed s1 s2 -> undisturbed s2 s3 -> undisturbed s1 s3.
Proof.
  intros [(A1 & A2 & A3) B C D] [(A1' & A2' & A3') B' C' D']. split; [split_and!|..]; try congruence.
  intros p e (e' & He' & Hd)%D. destruct (D' _ _ He') as (e'' & He'' & Hd'). exists e''. split; congruence.
Qed.

Lemma quiet_undisturbed s s' : quiet s s' -> undisturbed s s'.
Proof.
  intros Hq. split; [split_and!; symmetry| symmetry; by apply quiet_queues|symmetry; by apply quiet_policies|].
  - exact (f_equal im_open Hq).
  - by apply quiet_shutdown.
  - exact (f_equal im_config Hq).
  - intros p e He. destruct (strip_lookup _ _ _ _ (quiet_pools _ _ Hq) He) as (e' & He' & Hs). exists e'. split; [done|].
    exact (eq_sym (f_equal en_descriptor Hs)).
Qed.

Lemma granted_undisturbed s r next s' : granted s r next s' -> undisturbed s s'.
Proof.
  intros (s0 & pools & (d & m & ->) & -> & Hpools). split; [done..|]. intros p e He. exists (add_at r p e). cbn.
  rewrite Hpools, He. split; [done|]. apply add_at_frame.
Qed.

Lemma decided_undisturbed s cx e d s' : decided s cx e d s' -> undisturbed s s'.
Proof.
  intros [(_ & _ & Hq)|(r & next & s1 & _ & HG & Hq)]; [by apply quiet_undisturbed|].
  eapply undisturbed_trans; [by eapply granted_undisturbed|by apply quiet_undisturbed].
Qed.

Lemma resolves_undisturbed rq s s' : undisturbed s s' -> resolves rq s -> resolves rq s'.
Proof.
  intros [_ HQ HP Hpools] (? & ? & e & q & p & He & Hq & Hp). split_and!; [done..|].
  destruct (Hpools _ _ He) as (e' & He' & Hd). exists e', q, p. by rewrite HQ, HP, Hd.
Qed.

(** A decided request, and what was decided, from the state it left. *)
Lemma allocate_locked_notes rq s d s' :
  Inv s -> unused (aq_attempt rq) s -> 0 <= aq_requested_units rq -> allocate_locked rq s = (Good d, s') ->
  admissible rq s /\ resolves rq s' /\ undisturbed s s' /\ noted (aq_attempt rq) (allocate_digest rq) d s'.
Proof.
  intros HI Hun Hu Hrun. destruct (allocate_locked_asked _ _ _ _ Hrun) as [Had Hres].
  pose proof (wp_run _ _ _ _ _ _ (allocate_locked_outcome rq s HI Hu) Hrun) as [(a & Ha & _)|(_ & e & cx & Hcx & Hdec)];
    [by rewrite (un_new _ _ Hun) in Ha|].
  pose proof (decided_undisturbed _ _ _ _ _ Hdec) as Hud. split; [done|]. split; [by apply (resolves_undisturbed _ s)|]. split; [done|].
  revert Hrun. unfold allocate_locked. intros H. apply sm_bind_good in H as (a & s1 & H1 & H). cbv zeta in H.
  apply check_request_succeeds in H1 as (-> & _). do 5 succeeds H.
  match goal with E : ?o = im_attempts s !! _ |- _ => rewrite (un_new _ _ Hun) in E; subst o end.
  assert (Notes (aq_attempt rq) (allocate_digest rq) (check_expectations rq a1 a2 a3 ;;;
    decide_allocation (mkAllocContext rq a2 a3 (resolve_evidence s a1) (allocate_digest rq) (im_tick s)))) as Hnotes.
  { apply notes_after; [unfold check_expectations; walk|intros _].
    exact (decide_notes (mkAllocContext rq a2 a3 (resolve_evidence s a1) (allocate_digest rq) (im_tick s))). }
  exact (wp_run _ _ _ _ _ _ (Hnotes s Hun) H).
Qed.

(** The state in which an operation that starts at [now] runs. *)
Definition at_time (now : Z) (s : Impl) : Impl := s <| im_tick := now |> <| im_events := [] |>.

Lemma admissible_later rq s s' now other :
  undisturbed s s' -> admissible rq s -> Z.of_nat (size (im_allocations s')) < kMaxAllocationCount ->
  aq_attempt other = aq_attempt rq -> aq_requested_units other <> 0 -> aq_requested_units other <= kMaxUnitsPerPool ->
  admissible other (at_time now s').
Proof.
  intros [(HO & HS & HC) _ _ _] [? ? ? _ _] Hroom Hat H1 H2. split; cbn; [congruence| |congruence|done|done]. by rewrite HS, HC.
Qed.

(** * The promise of an attempt id *)

(** What a retry of a decided request finds. *)
Lemma retry_outcome (rq : AllocateRequest) (s : Impl) (d : Decision) (s' : Impl) (now : Z) :
  Inv s -> queued s -> 0 < fc_attempt_memory_capacity (im_config s) ->
  im_attempts s !! aq_attempt rq = None -> 0 <= aq_requested_units rq ->
  allocate_locked rq s = (Good d, s') -> Z.of_nat (size (im_allocations s')) < kMaxAllocationCount ->
  (exists d', operation now (allocate_locked rq) s' =
      (Good d', at_time now s' <| im_metrics ::= fun m => m <| mt_idempotent_replays ::= plus 1 |> |>) /\
    reports d' DecisionKind.IdempotentReplay (dc_status d) (dc_granted_units d) (dc_allocation d)) /\
  (forall other, aq_attempt other = aq_attempt rq -> allocate_digest other <> allocate_digest rq ->
     aq_requested_units other <> 0 -> aq_requested_units other <= kMaxUnitsPerPool ->
   exists status, operation now (allocate_locked other) s' = (Bad status, at_time now s') /\
     st_code status = ErrorCode.AttemptConflict).
Proof.
  intros HI Hq Hc Hn Hu Hrun Hroom.
  destruct (allocate_locked_notes rq s d s' HI ltac:(by split) Hu Hrun) as (Had & Hres & Hud & a & Ha & Hdig & Hout & Hgr & Hal).
  assert (im_attempts (at_time now s') !! aq_attempt rq = Some a) as Ha' by exact Ha. split.
  - destruct (ad_units _ _ Had) as [Hu1 Hu2].
    destruct (allocate_locked_replays rq (at_time now s') a) as (e & q & Hr); [by eapply admissible_later|exact Hres|done|done|].
    eexists. split; [exact Hr|]. by split_and!.
  - intros other Hat Hdiff Hu1 Hu2. rewrite <- Hat in Ha'.
    destruct (allocate_locked_conflicts other (at_time now s') a) as (status & Hr & Hcode); [by eapply admissible_later|done|congruence|].
    by exists status.
Qed.

Lemma queued_empty s : im_attempt_order s = [] -> im_attempts s = ∅ -> queued s.
Proof.
  intros Ho Ha. split; rewrite Ho; [constructor|]. intros i. rewrite Ha, lookup_empty. split; [by intros ?%not_elem_of_nil|by intros [? ?]].
Qed.
