(* ===== verification/Memory.v ===== *)
(** * The memory of attempts along every run

    Whatever is asked of a fabric, its queue of remembered attempts stays in step with its
    table of them, and the memory always has room for one attempt at least. So the promise
    about retried requests holds in every state that a fabric can reach. *)

From S2P Require Import Prelude Ints Hash Enums Status Codec Model Wire Policy Accounting Authority Persist State Grant Alloc Lifecycle Books Triples Layout Safety AllocSafety LifeSafety Topology Revoke Resize TopoSafety Query QuerySafety Ledger History Recovery System Loops Idempotence.

(** ** What operations do to the memory *)

Record orderly (s : Impl) : Prop := {
  od_queued : queued s;
  od_capacity : 0 < fc_attempt_memory_capacity (im_config s)
}.

Definition mindful (s s' : Impl) : Prop := orderly s -> orderly s'.

#[export] Instance mindful_preorder : PreOrder mindful.
Proof. split; [by intros s H|]. intros s1 s2 s3 H12 H23 H. apply H23, H12, H. Qed.

Lemma same_memory_mindful s s' : same_memory s s' -> mindful s s'.
Proof.
  intros (HA & HO & HC) [[Hn Ha] Hc]. split; [split|]; [by rewrite HO|intros i; by rewrite HO, HA|by rewrite HC].
Qed.

Lemma mindful_same {A} (m : M A) : Within same_memory m -> Within mindful m.
Proof. intros Hm s. eapply wp_mono; [apply Hm| |]; intros ? s'; apply same_memory_mindful. Qed.

(** Only for the leaves: a sequence or a choice is taken apart first. *)
#[export] Hint Extern 30 (Within mindful ?m) =>
  (lazymatch m with sm_bind _ _ => fail | (if _ then _ else _) => fail | _ => apply mindful_same end) : typeclass_instances.

#[export] Instance mindful_attempt a : Within mindful (record_attempt a).
Proof.
  intros s. unfold wp. destruct (fc_attempt_memory_capacity (im_config s) =? 0) eqn:Hz.
  - unfold record_attempt, modify, sm_modify. rewrite Hz. reflexivity.
  - destruct (record_attempt a s) as [[u|e] s'] eqn:Hr.
    + intros [Hq Hc]. rewrite record_attempt_run in Hr by done. injection Hr as _ <-.
      destruct (evict_keeps _ (remembered_queued a s Hq)) as (k & Hq' & _ & Hcfg & _). split; [exact Hq'|]. rewrite Hcfg.
      unfold remembered. by destruct (im_attempts s !! at_id a).
    + by injection Hr.
Qed.
#[export] Instance mindful_remember attempt kind digest outcome allocation granted sequence stamp :
  Within mindful (remember attempt kind digest outcome allocation granted sequence stamp).
Proof. apply mindful_attempt. Qed.

Lemma mindful_modify f : (forall s, same_memory s (f s)) -> Within mindful (modify f).
Proof. intros Hf. apply mindful_same, memory_modify, Hf. Qed.

#[export] Hint Extern 5 (Within mindful (modify _)) =>
  (apply mindful_modify; intros ?; split_and!; reflexivity) : typeclass_instances.
#[export] Hint Extern 5 (Within mindful (update_pool _ _)) =>
  (apply mindful_modify; intros ?; split_and!; reflexivity) : typeclass_instances.

#[export] Instance mindful_journal op payload : Within mindful (journal op payload) | 0.
Proof. apply mindful_same, memory_logged, within_journal. Qed.

#[export] Instance mindful_claim next f requested message :
  (forall n s, same_memory s (f n s)) -> Within mindful (claim_id next f requested message).
Proof. intros Hf. unfold claim_id. pose proof (fun n => mindful_modify (f n) (Hf n)). unfold checked_add. apply _. Qed.

#[export] Instance mindful_closure id report :
  (forall e, Within mindful (report e)) -> Within mindful (verify_closure id report).
Proof.
  intros Hr. unfold verify_closure. apply within_bind; [apply _..|]. intros e. apply within_bind; [apply _..|]. intros s.
  destruct (check_closure s e); apply _.
Qed.
#[export] Instance mindful_release id r : Within mindful (apply_release_units id r).
Proof. unfold apply_release_units, release_state_units, release_class_units, release_lender_units. apply _. Qed.
#[export] Instance mindful_allocation k f : Within mindful (update_allocation k f).
Proof. by apply mindful_modify. Qed.
#[export] Instance mindful_count_fence new_state pool : Within mindful (count_fence new_state pool).
Proof. unfold count_fence. destruct new_state; apply _. Qed.
#[export] Instance mindful_fence key new_state reason : Within mindful (fence_allocation_locked key new_state reason).
Proof. unfold fence_allocation_locked. apply _. Qed.
#[export] Instance mindful_sum_raw keep message entries acc : Within mindful (sum_raw keep message entries acc).
Proof. revert acc. induction entries as [|e entries IH]; intros acc; cbn [sum_raw]; apply _. Qed.

(** ** Loops *)

#[export] Instance mindful_fence_all victims : Within mindful (fence_all victims).
Proof. induction victims as [|v victims IH]; cbn [fence_all]; apply _. Qed.
#[export] Instance mindful_fence_victims everything pool allowance victims result :
  Within mindful (fence_victims everything pool allowance victims result).
Proof. revert result. induction victims as [|v victims IH]; intros result; cbn [fence_victims]; apply _. Qed.
#[export] Instance mindful_fence_borrowers pool allowance candidates result :
  Within mindful (fence_borrowers pool allowance candidates result).
Proof. revert result. induction candidates as [|v candidates IH]; intros result; cbn [fence_borrowers]; apply _. Qed.
#[export] Instance mindful_reclaim_victims victims result : Within mindful (reclaim_victims victims result).
Proof. revert result. induction victims as [|v victims IH]; intros result; cbn [reclaim_victims]; apply _. Qed.
#[export] Instance mindful_sweep select new_state reason pool members count units :
  Within mindful (sweep select new_state reason pool members count units).
Proof. revert count units. induction members as [|v members IH]; intros count units; cbn [sweep]; apply _. Qed.
#[export] Instance mindful_fence_policy policy generation pools : Within mindful (fence_policy policy generation pools).
Proof. induction pools as [|p pools IH]; cbn [fence_policy]; apply _. Qed.

(** ** Operations *)

#[export] Instance mindful_gate : Within mindful require_open.
Proof. unfold require_open. apply _. Qed.
#[export] Instance mindful_shutdown_gate : Within mindful refuse_after_shutdown.
Proof. unfold refuse_after_shutdown. apply _. Qed.
#[export] Instance mindful_next_generation g message : Within mindful (next_generation g message).
Proof. unfold next_generation. destruct (add_overflow g 1). apply _. Qed.
#[export] Instance mindful_partition resource others raw missing exceeded :
  Within mindful (check_partition resource others raw missing exceeded).
Proof. unfold check_partition, partitioned. apply _. Qed.
#[export] Instance mindful_update_queue k f : Within mindful (update_queue k f).
Proof. unfold update_queue. apply _. Qed.
#[export] Instance mindful_queue_at queue expected : Within mindful (require_queue_at queue expected).
Proof. unfold require_queue_at. apply _. Qed.
#[export] Instance mindful_pool_scope pool : Within mindful (pool_scope pool).
Proof. unfold pool_scope. apply _. Qed.

#[export] Instance mindful_fence_stale pool : Within mindful (fence_stale_locked pool).
Proof.
  unfold fence_stale_locked. apply within_bind; [apply _..|]. intros [[[e policy] ev] stamp].
  apply within_bind; [apply _..|]. intros [fenced units]. apply _.
Qed.
#[export] Instance mindful_expire pool : Within mindful (expire_reservations_locked pool).
Proof.
  unfold expire_reservations_locked. apply within_bind; [apply _..|]. intros [[[e policy] ev] stamp].
  apply within_bind; [apply _..|]. intros [fenced units]. apply _.
Qed.

Section Operations.
#[local] Hint Extern 4 (forall n s, same_memory s _) => (intros ? ?; split_and!; reflexivity) : typeclass_instances.

#[export] Instance mindful_capacity_publish resource backend expected_raw expected a :
  Within mindful (capacity_publish resource backend expected_raw expected a).
Proof. unfold capacity_publish. walk. Qed.

#[export] Instance mindful_set_capacity attached resource backend expected_raw expected :
  Within mindful (set_capacity attached resource backend expected_raw expected).
Proof.
  unfold set_capacity. apply within_bind; [apply _| |].
  { unfold capacity_backend. apply _. }
  intros b. apply within_bind; [apply _| |].
  { unfold capacity_query. apply _. }
  intros a. apply within_bind; [apply _| |].
  { pose proof (capacity_program_logged b resource a). apply _. }
  intros []. apply _.
Qed.

#[export] Instance mindful_policy_revision policy : Within mindful (policy_revision policy).
Proof. unfold policy_revision. cbv zeta. apply _. Qed.
#[export] Instance mindful_store_policy p : Within mindful (store_policy p).
Proof. apply mindful_same. intros s. by split_and!. Qed.
#[export] Instance mindful_store_pool d e : Within mindful (store_pool d e).
Proof. apply mindful_same. intros s. by split_and!. Qed.
#[export] Instance mindful_store_queue q : Within mindful (store_queue q).
Proof. apply mindful_same. intros s. by split_and!. Qed.
#[export] Instance mindful_drop_pool pool name : Within mindful (drop_pool pool name).
Proof. apply mindful_same. intros s. by split_and!. Qed.

#[export] Instance mindful_publish_policy request : Within mindful (publish_policy request).
Proof. unfold publish_policy. walk. Qed.
#[export] Instance mindful_register_pool g : Within mindful (register_pool g).
Proof. unfold register_pool, check_parent. walk. Qed.
#[export] Instance mindful_remove_pool pool expected : Within mindful (remove_pool pool expected).
Proof. unfold remove_pool. walk. Qed.
#[export] Instance mindful_register_queue g : Within mindful (register_queue g).
Proof. unfold register_queue. walk. Qed.
#[export] Instance mindful_update_queue_demand queue demand expected : Within mindful (update_queue_demand queue demand expected).
Proof. unfold update_queue_demand. walk. Qed.
#[export] Instance mindful_fence_queue queue : Within mindful (fence_queue queue).
Proof. unfold fence_queue. walk. Qed.
#[export] Instance mindful_retire_queue queue expected : Within mindful (retire_queue queue expected).
Proof. unfold retire_queue. walk. Qed.
#[export] Instance mindful_retarget_queue queue pool expected : Within mindful (retarget_queue queue pool expected).
Proof. unfold retarget_queue. walk. Qed.
#[export] Instance mindful_observe_pressure x : Within mindful (observe_pressure x).
Proof. unfold observe_pressure, reject_pressure. walk. Qed.
#[export] Instance mindful_resize_pool pool raw protected expected : Within mindful (resize_pool pool raw protected expected).
Proof. unfold resize_pool, check_resize, enforce_capacity. walk. Qed.
End Operations.

(** ** Requests on allocations *)

#[export] Instance mindful_target kind attempt digest allocation : Within mindful (lookup_target kind attempt digest allocation).
Proof. unfold lookup_target. walk. Qed.
#[export] Instance mindful_answer t kind code reason requested granted binding intent :
  Within mindful (answer t kind code reason requested granted binding intent).
Proof. unfold answer, decide_on. walk. Qed.
#[export] Instance mindful_settle t reason requested granted : Within mindful (settle t reason requested granted).
Proof. unfold settle. walk. Qed.

Lemma mindful_on_target kind attempt digest allocation expected body :
  (forall t, Within mindful (body t)) -> Within mindful (on_target kind attempt digest allocation expected body).
Proof.
  intros Hb. unfold on_target. apply within_bind; [apply _..|]. intros [t [a|]]; cbn [fst snd]; [walk|].
  apply within_bind; [apply _..|]. intros epoch. apply within_bind; [apply _..|]. intros _. apply Hb.
Qed.

#[export] Instance mindful_commit rq : Within mindful (commit_locked rq).
Proof. apply mindful_on_target. intros t. unfold commit_target, allocation_event. walk. Qed.
#[export] Instance mindful_amount rq r : Within mindful (release_amount rq r).
Proof. unfold release_amount. walk. Qed.
#[export] Instance mindful_count_release amount : Within mindful (count_release amount).
Proof. unfold count_release. walk. Qed.
#[export] Instance mindful_release_locked rq : Within mindful (release_locked rq).
Proof. apply mindful_on_target. intros t. unfold release_target, allocation_event. walk. Qed.
#[export] Instance mindful_revalidate rq : Within mindful (revalidate_locked rq).
Proof. apply mindful_on_target. intros t. unfold revalidate_target, allocation_event. walk. Qed.

#[export] Instance mindful_finish cx kind code reason granted allocation binding intent lender :
  Within mindful (finish_decision cx kind code reason granted allocation binding intent lender).
Proof. unfold finish_decision. walk. Qed.
#[export] Instance mindful_build_record cx g grant : Within mindful (build_record cx g grant) | 0.
Proof. apply mindful_same, memory_record. Qed.
#[export] Instance mindful_apply_grant cx r next : Within mindful (apply_grant cx r next) | 0.
Proof. apply mindful_same, memory_grant. Qed.
#[export] Instance mindful_count_grant cx grant : Within mindful (count_grant cx grant) | 0.
Proof. apply mindful_same, memory_count. Qed.
#[export] Instance mindful_grant cx : Within mindful (grant_or_refuse cx).
Proof.
  unfold grant_or_refuse, refuse_capacity, complete_grant. apply within_bind; [apply _..|]. intros e.
  apply within_bind; [apply _..|]. intros s. cbv zeta. destruct (grant_units _ _) as [grant binding]. walk.
Qed.
#[export] Instance mindful_decide cx : Within mindful (decide_allocation cx).
Proof.
  unfold decide_allocation. apply within_bind; [apply _..|]. intros e.
  destruct (refusal_gate cx e) as [[[[[kind code] reason] binding] intent]|]; walk.
Qed.
#[export] Instance mindful_allocate rq : Within mindful (allocate_locked rq).
Proof. unfold allocate_locked, check_request, ensure_alloc_capacity, check_expectations. walk. Qed.

Lemma mindful_scratch {A} (m : M A) : Within mindful m -> Within mindful (with_scratch_events m).
Proof.
  intros Hm s. specialize (Hm (s <| im_events := [] |>)). unfold wp, with_scratch_events in *.
  assert (forall s l, mindful s (s <| im_events := l |>)) as He by (intros s1 l; by apply same_memory_mindful).
  destruct (m _) as [[a|e] s']; (transitivity (s <| im_events := [] |>); [apply He|]; transitivity s'; [exact Hm|apply He]).
Qed.

#[export] Instance mindful_plan rq : Within mindful (with_scratch_events (plan_reclaim_locked rq)).
Proof. apply mindful_scratch. unfold plan_reclaim_locked. walk. Qed.
#[export] Instance mindful_apply_reclaim rq : Within mindful (apply_reclaim_locked rq).
Proof. unfold apply_reclaim_locked. walk. Qed.
#[export] Instance mindful_evaluate rq : Within mindful (evaluate rq).
Proof. unfold evaluate. walk. Qed.

#[export] Instance mindful_close_store : Within mindful (modify close_store).
Proof. apply mindful_modify. by intros ?. Qed.
#[export] Instance mindful_close : Within mindful close.
Proof. unfold close. walk. Qed.
#[export] Instance mindful_shutdown : Within mindful begin_shutdown.
Proof. unfold begin_shutdown. walk. Qed.
#[export] Instance mindful_attach id kind generation ready : Within mindful (attach_backend id kind generation ready).
Proof. unfold attach_backend. walk. Qed.
#[export] Instance mindful_checkpoint : Within mindful checkpoint.
Proof. unfold checkpoint, write_full_snapshot. walk. Qed.

Lemma mindful_on_failure {A} (m : M A) f :
  Within mindful m -> (forall s, same_memory s (f s)) -> Within mindful (on_failure m f).
Proof. intros Hm Hf. apply within_on_failure; [apply _|done|]. intros s. apply same_memory_mindful, Hf. Qed.

(** The configuration is checked before it takes effect. *)
Lemma open_mindful c boot s :
  pc_mode (fc_persistence c) = DurabilityMode.None -> 0 <= fc_attempt_memory_capacity c ->
  wp (open c boot) s (fun _ => mindful s) (fun _ => mindful s).
Proof.
  intros Hm Hc. unfold open, check_config. rewrite Hm. cbv zeta. simpl (negb _). cbv iota.
  destruct (add_overflow 0 1) as [o n].
  do 2 wp_step. wp_step. wp_step; [reflexivity|]. wp_step. wp_step. wp_step; [reflexivity|]. wp_step. wp_step; [reflexivity|].
  match goal with H : (fc_attempt_memory_capacity c =? 0) || _ = false |- _ =>
    apply orb_false_iff in H as [Hz%Z.eqb_neq _] end.
  wp_step. wp_step; [reflexivity|]. wp_step; [reflexivity|]. wp_step. apply wp_modify.
  set (s1 := s <| im_config := c |>). assert (mindful s s1) as Hs1 by (intros [[] _]; split; [by split|cbn; lia]).
  match goal with |- wp ?m s1 _ _ => assert (Within mindful m) as Hrest end.
  { apply within_bind; [apply _..|]. intros d. apply within_bind; [apply _| |intros _; walk].
    apply mindful_on_failure; [apply _|]. by intros ?. }
  eapply wp_mono; [apply Hrest| |]; intros ? s' Hs2; by transitivity s1.
Qed.

Lemma mindful_ignore {A} (m : M A) : Within mindful m -> Within mindful (ignore m).
Proof. intros Hm. unfold ignore. apply _. Qed.

Lemma perform_mindful op s : admitted op s -> wp (perform op) s (fun _ => mindful s) (fun _ => mindful s).
Proof.
  assert (forall A (m : M A), Within mindful m -> wp (ignore m) s (fun _ => mindful s) (fun _ => mindful s)) as Hi.
  { intros A m Hm. by apply mindful_ignore. }
  destruct op; simpl; intros Hop; try (apply Hi, _).
  - apply mindful_remove_pool.
  - apply mindful_retire_queue.
  - apply mindful_retarget_queue.
  - apply mindful_observe_pressure.
  - apply mindful_checkpoint.
  - apply mindful_shutdown.
  - destruct Hop. by apply open_mindful.
  - apply mindful_close.
  - apply mindful_attach.
Qed.

(** ** Every state of every run *)

Lemma orderly_locked s now : orderly s -> orderly (s <| im_tick := now |> <| im_events := [] |>).
Proof. by apply same_memory_mindful. Qed.

Lemma step_orderly s s' : orderly s -> step s s' -> orderly s'.
Proof.
  intros Ho [now op Hop ->]. pose proof (perform_mindful op _ (admitted_locked op s now Hop)) as H.
  unfold operation, sm_bind, modify, sm_modify. unfold wp in H. pose proof (orderly_locked s now Ho) as Hl.
  destruct (perform op _) as [[a|e] s']; exact (H Hl).
Qed.

Lemma reachable_orderly s s' : orderly s -> reachable s s' -> orderly s'.
Proof. induction 2; [done|]. by eapply step_orderly. Qed.

Lemma constructed_orderly : orderly default_Impl.
Proof. split; [by apply queued_empty|done]. Qed.

(** ** Property *)

(** C9. A retried request is answered from memory. In any state that a run of [admitted] operations
    (so without a journal) reaches from construction, let an allocation request of a new attempt
    be decided with [d], granted or refused, and leave the table of allocations below its limit.
    When the same request is sent again, at any time but before any other operation, it returns
    the kind IdempotentReplay with the status, the granted units and the allocation of [d], and
    changes nothing but the counter of replays: no second decision, no second allocation. A
    request of another digest under the same attempt id, for at least one unit and at most the
    largest pool, is refused with AttemptConflict and changes nothing. *)
Theorem retry_is_replay (rq : AllocateRequest) (s : Impl) (d : Decision) (s' : Impl) (decided now : Z) :
  reachable default_Impl s -> im_attempts s !! aq_attempt rq = None -> 0 <= aq_requested_units rq ->
  operation decided (allocate_locked rq) s = (Good d, s') -> Z.of_nat (size (im_allocations s')) < kMaxAllocationCount ->
  (exists d', operation now (allocate_locked rq) s' =
      (Good d', at_time now s' <| im_metrics ::= fun m => m <| mt_idempotent_replays ::= plus 1 |> |>) /\
    reports d' DecisionKind.IdempotentReplay (dc_status d) (dc_granted_units d) (dc_allocation d)) /\
  (forall other, aq_attempt other = aq_attempt rq -> allocate_digest other <> allocate_digest rq ->
     aq_requested_units other <> 0 -> aq_requested_units other <= kMaxUnitsPerPool ->
   exists status, operation now (allocate_locked other) s' = (Bad status, at_time now s') /\
     st_code status = ErrorCode.AttemptConflict).
Proof.
  intros Hr Hn Hu Hrun Hroom. pose proof (reachable_inv _ _ constructed_inv Hr) as HI.
  destruct (orderly_locked s decided (reachable_orderly _ _ constructed_orderly Hr)) as [Hq Hc].
  exact (retry_outcome rq (at_time decided s) d s' now (Inv_locked s decided HI) Hq Hc Hn Hu Hrun Hroom).
Qed.

Definition sample_retry : AllocateRequest :=
  default_AllocateRequest <| aq_attempt := 5 |> <| aq_pool := 2 |> <| aq_queue := 1 |> <| aq_requested_units := 10 |>.

(** The whole run of [System], asked twice for 10 units under one attempt, then for 7. *)
Lemma retry_is_replay_witness :
  let s' := snd (operation 10 (allocate_locked sample_retry) sample_running) in
  (exists d, operation 20 (allocate_locked sample_retry) s' = (Good d, at_time 20 s' <| im_metrics ::=
     fun m => m <| mt_idempotent_replays ::= plus 1 |> |>) /\ dc_kind d = DecisionKind.IdempotentReplay) /\
  exists status, operation 20 (allocate_locked (sample_retry <| aq_requested_units := 7 |>)) s' = (Bad status, at_time 20 s').
Proof.
  assert (result_ok (fst (operation 10 (allocate_locked sample_retry) sample_running)) = true) as Hok by (vm_compute; reflexivity).
  assert (Z.of_nat (size (im_allocations (snd (operation 10 (allocate_locked sample_retry) sample_running)))) < kMaxAllocationCount)
    as Hroom by (vm_compute; reflexivity).
  assert (allocate_digest (sample_retry <| aq_requested_units := 7 |>) <> allocate_digest sample_retry) as Hd by (vm_compute; discriminate).
  assert (im_attempts sample_running !! 5 = None) as Hn by (vm_compute; reflexivity).
  assert (reachable default_Impl sample_running) as Hreach by exact (run_reachable sample_start default_Impl start_admitted).
  cbv zeta. set (s := sample_running) in *. clearbody s.
  destruct (operation 10 (allocate_locked sample_retry) s) as [[d|e] s'] eqn:Hrun; cbn [fst snd] in *; [|done].
  destruct (retry_is_replay sample_retry s d s' 10 20 Hreach Hn ltac:(done) Hrun Hroom) as [(d' & Hr & Hk & _) Ho].
  split; [by exists d'|].
  destruct (Ho (sample_retry <| aq_requested_units := 7 |>) ltac:(done) Hd ltac:(done) ltac:(done)) as (status & Hst & _). by exists status.
Defined.
