(* ===== verification/Observation.v ===== *)
(** * Event sinks

    [src/observation.cpp] and [publish]: the events that an operation collected are handed,
    after the lock is released, to the fabric's own bounded ring and to the sink that the
    embedder attached. The ring is shown to refine a plain list that remembers the last
    [capacity] events. *)

From S2P Require Import Prelude Ints Hash Enums Status Codec Model Wire Policy Accounting Authority Persist State.

Record RingEventSink := mkRingEventSink {
  rs_events : list FabricEvent; rs_next : nat; rs_capacity : nat; rs_emitted : Z; rs_dropped : Z
}.

#[export] Instance settable_RingEventSink : Settable RingEventSink := fun s =>
  mkRingEventSink (rs_events s) (rs_next s) (rs_capacity s) (rs_emitted s) (rs_dropped s).

Definition ring_sink (capacity : nat) : RingEventSink :=
  mkRingEventSink [] 0 (if (capacity =? 0)%nat then 1 else capacity) 0 0.

Definition on_event (event : FabricEvent) (s : RingEventSink) : RingEventSink :=
  let s := s <| rs_emitted ::= fun n => add64 n 1 |> in
  if (length (rs_events s) <? rs_capacity s)%nat then s <| rs_events ::= fun l => l ++ [event] |>
  else s <| rs_events ::= <[rs_next s := event]> |> <| rs_next := ((rs_next s + 1) mod rs_capacity s)%nat |>
         <| rs_dropped ::= fun n => add64 n 1 |>.

Definition retained (s : RingEventSink) : Z := Z.of_nat (length (rs_events s)).

(** [events_[(next_ + i) % events_.size()]] for each [i] in order. *)
Definition snapshot (s : RingEventSink) : list FabricEvent :=
  let n := length (rs_events s) in
  if (n <? rs_capacity s)%nat || (rs_next s =? 0)%nat then rs_events s
  else omap (fun i => rs_events s !! ((rs_next s + i) mod n)%nat) (seq 0 n).

Definition clear (s : RingEventSink) : RingEventSink := s <| rs_events := [] |> <| rs_next := 0%nat |>.

(** [publish]: the ring takes the events in order; so does the sink attached, if there is one. *)
Definition publish {Sink : Type} (sink_event : FabricEvent -> Sink -> Sink) (events : list FabricEvent)
    (local : RingEventSink) (sink : option Sink) : RingEventSink * option Sink :=
  (fold_left (fun s e => on_event e s) events local, option_map (fun s => fold_left (fun s e => sink_event e s) events s) sink).

(** ** The ring as a list *)

(** The last [n] of a list. *)
Definition last_of {A} (n : nat) (l : list A) : list A := drop (length l - n) l.

(** [s] holds what is left of [es], the events since it was made or cleared. *)
Record holds (es : list FabricEvent) (s : RingEventSink) : Prop := {
  hd_room : (0 < rs_capacity s)%nat;
  hd_next : (rs_next s < rs_capacity s)%nat;
  hd_length : length (rs_events s) = (length es `min` rs_capacity s)%nat;
  hd_young : (length es < rs_capacity s)%nat -> rs_next s = 0%nat;
  hd_last : last_of (rs_capacity s) es = drop (rs_next s) (rs_events s) ++ take (rs_next s) (rs_events s)
}.

Lemma last_of_snoc {A} n (l : list A) a : (0 < n)%nat ->
  last_of n (l ++ [a]) = (if (length l <? n)%nat then l else drop 1 (last_of n l)) ++ [a].
Proof.
  intros Hn. unfold last_of. rewrite length_app. simpl. destruct (Nat.ltb_spec (length l) n).
  - by replace (length l + 1 - n)%nat with 0%nat by lia.
  - rewrite drop_app_le by lia. rewrite drop_drop. do 2 f_equal. lia.
Qed.

Lemma last_of_length {A} n (l : list A) : length (last_of n l) = (length l `min` n)%nat.
Proof. unfold last_of. rewrite length_drop. lia. Qed.

Lemma holds_empty s : (0 < rs_capacity s)%nat -> holds [] (clear s).
Proof. by intros H; split. Qed.

Lemma split_at {A} n (l : list A) : (n < length l)%nat -> exists a x b, l = a ++ x :: b /\ length a = n.
Proof.
  intros H. destruct (lookup_lt_is_Some_2 l n H) as [x Hx]. exists (take n l), x, (drop (S n) l).
  split; [by rewrite take_drop_middle|]. rewrite length_take. lia.
Qed.

Lemma on_event_holds es e s : holds es s -> holds (es ++ [e]) (on_event e s).
Proof.
  intros [Hc Hn Hl Hy Hlast]. unfold on_event. cbn [rs_events rs_capacity rs_next].
  change (rs_events (s <| rs_emitted ::= fun n => add64 n 1 |>)) with (rs_events s).
  change (rs_capacity (s <| rs_emitted ::= fun n => add64 n 1 |>)) with (rs_capacity s).
  destruct (Nat.ltb_spec (length (rs_events s)) (rs_capacity s)) as [Hlt|Hge].
  - assert (rs_next s = 0%nat) as H0 by (apply Hy; lia).
    split; cbn; [done|done| | |].
    + rewrite !length_app. simpl. lia.
    + intros _. exact H0.
    + rewrite last_of_snoc by done. rewrite H0 in *. simpl in Hlast. rewrite app_nil_r in Hlast |- *. rewrite drop_0 in Hlast |- *.
      destruct (Nat.ltb_spec (length es) (rs_capacity s)); [|lia]. f_equal. rewrite <- Hlast. unfold last_of.
      by replace (length es - rs_capacity s)%nat with 0%nat by lia.
  - destruct (split_at (rs_next s) (rs_events s)) as (a & x & b & Hsp & Ha); [lia|].
    assert (length a + S (length b) = rs_capacity s)%nat as Hab by (rewrite Hsp, length_app in Hl, Hge; simpl in *; lia).
    assert (rs_capacity s <= length es)%nat as Hes by lia.
    split; cbn; [done|apply Nat.mod_upper_bound; lia| | |].
    + rewrite length_insert, length_app. simpl. lia.
    + rewrite length_app. simpl. lia.
    + rewrite last_of_snoc by done. destruct (Nat.ltb_spec (length es) (rs_capacity s)); [lia|].
      rewrite Hlast, Hsp. rewrite <- Ha at 1 2. rewrite drop_app_length, take_app_length. simpl. rewrite drop_0.
      rewrite <- Ha, insert_app_r_alt by lia. rewrite Nat.sub_diag. simpl.
      destruct b as [|y b].
      * replace (length a + 1)%nat with (rs_capacity s) by (simpl in Hab; lia). rewrite Nat.Div0.mod_same. simpl. by rewrite app_nil_r.
      * rewrite Nat.mod_small by (simpl in Hab; lia).
        replace (a ++ e :: y :: b) with ((a ++ [e]) ++ y :: b) by (by rewrite <- app_assoc).
        replace (length a + 1)%nat with (length (a ++ [e])) by (rewrite length_app; done).
        rewrite drop_app_length, take_app_length. by rewrite <- app_assoc.
Qed.

Lemma ring_at {A} (l : list A) n i : (n < length l)%nat -> (i < length l)%nat ->
  l !! ((n + i) mod length l)%nat = (drop n l ++ take n l) !! i.
Proof.
  intros Hn Hi. destruct (decide (n + i < length l)%nat).
  - rewrite Nat.mod_small, lookup_app_l by (rewrite ?length_drop; lia). by rewrite lookup_drop.
  - rewrite lookup_app_r by (rewrite length_drop; lia). rewrite length_drop.
    replace ((n + i) mod length l)%nat with (n + i - length l)%nat.
    + rewrite lookup_take_lt by lia. f_equal. lia.
    + symmetry. replace (n + i)%nat with ((n + i - length l) + 1 * length l)%nat at 1 by lia.
      rewrite Nat.Div0.mod_add. apply Nat.mod_small. lia.
Qed.

Lemma omap_lookup_seq {A} (l : list A) (f : nat -> option A) k :
  (forall i, (i < length l)%nat -> f (k + i)%nat = l !! i) -> omap f (seq k (length l)) = l.
Proof.
  revert k. induction l as [|a l IH]; intros k H; [done|]. cbn [length seq omap list_omap].
  pose proof (H 0%nat ltac:(simpl; lia)) as H0. rewrite Nat.add_0_r in H0. rewrite H0. simpl. f_equal.
  apply IH. intros i Hi. rewrite Nat.add_succ_comm. apply H. simpl. lia.
Qed.

Lemma snapshot_holds es s : holds es s -> snapshot s = last_of (rs_capacity s) es.
Proof.
  intros [Hc Hn Hl Hy Hlast]. unfold snapshot. rewrite Hlast. destruct (Nat.ltb_spec (length (rs_events s)) (rs_capacity s)).
  - rewrite Hy by lia. simpl. by rewrite drop_0, app_nil_r.
  - destruct (Nat.eqb_spec (rs_next s) 0) as [->|]; [simpl; by rewrite drop_0, app_nil_r|]. simpl.
    assert (length (drop (rs_next s) (rs_events s) ++ take (rs_next s) (rs_events s)) = length (rs_events s)) as Hlen
      by (rewrite length_app, length_drop, length_take; lia).
    rewrite <- (omap_lookup_seq (drop (rs_next s) (rs_events s) ++ take (rs_next s) (rs_events s))
      (fun i => rs_events s !! ((rs_next s + i) mod length (rs_events s))%nat) 0); [by rewrite Hlen|].
    rewrite Hlen. intros i Hi. apply ring_at; lia.
Qed.

(** ** Batches *)

Definition publish_all {Sink : Type} (sink_event : FabricEvent -> Sink -> Sink) (batches : list (list FabricEvent))
    (st : RingEventSink * option Sink) : RingEventSink * option Sink :=
  fold_left (fun st events => publish sink_event events (fst st) (snd st)) batches st.

Lemma events_hold events : forall es s, holds es s -> holds (es ++ events) (fold_left (fun s e => on_event e s) events s).
Proof.
  induction events as [|e events IH]; intros es s H; [by rewrite app_nil_r|].
  simpl. replace (es ++ e :: events) with ((es ++ [e]) ++ events) by (by rewrite <- app_assoc). by apply IH, on_event_holds.
Qed.

Lemma events_capacity events : forall s, rs_capacity (fold_left (fun s e => on_event e s) events s) = rs_capacity s.
Proof. induction events as [|e events IH]; intros s; [done|]. simpl. rewrite IH. unfold on_event. by case_match. Qed.

Lemma events_counted events : forall es s, holds es s -> rs_emitted s = wrap64 (Z.of_nat (length es)) ->
  rs_dropped s = wrap64 (Z.of_nat (length es - rs_capacity s)) ->
  let s' := fold_left (fun s e => on_event e s) events s in
  rs_emitted s' = wrap64 (Z.of_nat (length (es ++ events))) /\
  rs_dropped s' = wrap64 (Z.of_nat (length (es ++ events) - rs_capacity s)).
Proof.
  induction events as [|e events IH]; intros es s H He Hd; [by rewrite app_nil_r|].
  assert (rs_capacity (on_event e s) = rs_capacity s) as Hcap by (unfold on_event; by case_match).
  simpl. rewrite <- Hcap. replace (es ++ e :: events) with ((es ++ [e]) ++ events) by (by rewrite <- app_assoc).
  assert (forall n, add64 (wrap64 n) 1 = wrap64 (n + 1)) as Hadd by (intros n; unfold add64, wrap64; apply Zplus_mod_idemp_l).
  apply IH; [by apply on_event_holds| |]; rewrite length_app; [|rewrite Hcap]; unfold on_event;
    pose proof (hd_length _ _ H) as Hl;
    change (rs_events (s <| rs_emitted ::= fun n => add64 n 1 |>)) with (rs_events s);
    change (rs_capacity (s <| rs_emitted ::= fun n => add64 n 1 |>)) with (rs_capacity s).
  - destruct (_ <? _)%nat; cbn -[add64]; rewrite He, Hadd; f_equal; simpl; lia.
  - destruct (Nat.ltb_spec (length (rs_events s)) (rs_capacity s)); cbn -[add64]; rewrite Hd, ?Hadd; f_equal; simpl; lia.
Qed.

Lemma publish_all_concat {Sink} (sink_event : FabricEvent -> Sink -> Sink) batches : forall local sink,
  publish_all sink_event batches (local, sink) = publish sink_event (concat batches) local sink.
Proof.
  induction batches as [|events batches IH]; intros local sink; [by destruct sink|].
  cbn [concat]. change (publish_all sink_event (events :: batches) (local, sink)) with
    (publish_all sink_event batches (publish sink_event events local sink)).
  unfold publish at 1. rewrite IH. unfold publish. rewrite !fold_left_app. by destruct sink; simpl; rewrite ?fold_left_app.
Qed.

(** * What sinks promise *)

(** C40. The ring refines a list. After any operations have published their events, the fabric's own
    ring shows exactly the last [capacity] of all of them in the order they were emitted, one
    at least whatever capacity was asked for, and counts how many were emitted and how many
    fell out; a sink that the embedder attached has been given every one of them, in order. *)
Theorem ring_keeps_last {Sink : Type} (sink_event : FabricEvent -> Sink -> Sink) (capacity : nat)
    (batches : list (list FabricEvent)) (sink : option Sink) :
  let all := concat batches in
  let '(ring, attached) := publish_all sink_event batches (ring_sink capacity, sink) in
  snapshot ring = last_of (Nat.max 1 capacity) all /\
  retained ring = Z.of_nat (length all `min` Nat.max 1 capacity) /\
  rs_emitted ring = wrap64 (Z.of_nat (length all)) /\
  rs_dropped ring = wrap64 (Z.of_nat (length all - Nat.max 1 capacity)) /\
  attached = option_map (fun s => fold_left (fun s e => sink_event e s) all s) sink.
Proof.
  intros all. rewrite publish_all_concat. fold all. unfold publish.
  assert (rs_capacity (ring_sink capacity) = Nat.max 1 capacity) as Hcap by (unfold ring_sink; simpl; by destruct (Nat.eqb_spec capacity 0); lia).
  assert (holds [] (ring_sink capacity)) as H0 by (apply (holds_empty (ring_sink capacity)); lia).
  pose proof (events_hold all [] _ H0) as Hh. pose proof (events_capacity all (ring_sink capacity)) as Hc. simpl in Hh.
  destruct (events_counted all [] _ H0) as [He Hd]; [done|done|].
  rewrite (snapshot_holds _ _ Hh), Hc, Hcap. split; [done|]. unfold retained. rewrite (hd_length _ _ Hh), Hc, Hcap.
  split; [done|]. split; [exact He|]. split; [by rewrite Hd, Hcap|done].
Qed.
