(* ===== verification/Protocol.v ===== *)
(** * The coordinator's wire protocol

    [src/protocol.cpp] and the message framing of [src/transport.cpp]: the bodies of requests
    and responses, the message inside a transport frame, and the round trips between each
    encoder and its decoder. The sockets that move the bytes are in [Transport]. *)

From S2P Require Import Prelude Ints Hash Enums Status Codec Model Wire.

(** ** Messages *)

Definition kTransportMagic : Z := 0x42465431.
Definition kWireFormatVersion : Z := 1.
Definition kProtocolVersion : Z := 1.

(** The opcode is a byte: a decoder casts it without a check. *)
Record Message := mkMessage { mg_op : Z; mg_request : Z; mg_epoch : Z; mg_body : list Z }.

#[export] Instance settable_Message : Settable Message :=
  fun m => mkMessage (mg_op m) (mg_request m) (mg_epoch m) (mg_body m).

Definition default_Message : Message := mkMessage (MessageOp.code MessageOp.Ping) 0 0 [].

Definition put_message (m : Message) : Put :=
  put_u8 (mg_op m) >+> put_u64 (mg_request m) >+> put_u64 (mg_epoch m) >+>
  put_u32 (wrap32 (Z.of_nat (length (mg_body m)))) >+> put_bytes (mg_body m).

Definition encode_message (m : Message) : list Z :=
  encode_frame (wr_buffer (put_message m writer_empty)) kTransportMagic kWireFormatVersion.

Definition get_message_header : Reader (Z * Z * Z) :=
  request ← get_u64; epoch ← get_u64; body_bytes ← get_u32; mret (request, epoch, body_bytes).

(** A read that fails ends the decoding with [code]; the reader goes on from where it was. *)
Definition read_or {A B} (g : Reader A) (r : ByteReader) (code : ErrorCode) (message : string)
    (k : A -> ByteReader -> Result B) : Result B :=
  match g r with
  | (Some a, r) => k a r
  | (None, _) => fail code message
  end.

(** [decode_message_body], also the whole of [decode_message_payload]. *)
Definition decode_message_payload (data : list Z) (max_body_bytes : Z) : Result Message :=
  read_or get_u8 (reader_of data) ErrorCode.ProtocolViolation "message has no opcode" (fun raw_op r =>
  read_or get_message_header r ErrorCode.ProtocolViolation "message header is not decodable" (fun '(request, epoch, body_bytes) r =>
  if max_body_bytes <? body_bytes then fail ErrorCode.OversizedMessage "message body exceeds the bound"
  else read_or (get_bytes body_bytes) r ErrorCode.TruncatedMessage "message body is truncated" (fun body r =>
    if negb (reader_empty r) then fail ErrorCode.ProtocolViolation "message has trailing bytes"
    else Good (mkMessage raw_op request epoch body)))).

(** The message and the number of bytes consumed. *)
Definition decode_message (data : list Z) (max_body_bytes : Z) : Result (Message * Z) :=
  match decode_frame data kTransportMagic kWireFormatVersion (add64 max_body_bytes 32) with
  | Bad e => Bad e
  | Good (payload, used) =>
      match decode_message_payload payload max_body_bytes with
      | Bad e => Bad e
      | Good m => Good (m, used)
      end
  end.

(** ** Bodies *)

Record HelloRequest := mkHelloRequest { hq_protocol_version : Z; hq_claimed_epoch : Z; hq_client_boot : BootIncarnation }.

Record HelloResponse := mkHelloResponse {
  hs_protocol_version : Z; hs_coordinator_epoch : Z; hs_coordinator_boot : BootIncarnation;
  hs_pool_count : Z; hs_queue_count : Z
}.

Definition encode_hello_request (m : HelloRequest) : Put :=
  put_u32 (hq_protocol_version m) >+> put_id (hq_claimed_epoch m) >+>
  put_u64 (bi_hi (hq_client_boot m)) >+> put_u64 (bi_lo (hq_client_boot m)).

Definition decode_hello_request : Reader HelloRequest :=
  protocol_version ← get_u32; claimed_epoch ← get_id; hi ← get_u64; lo ← get_u64;
  mret (mkHelloRequest protocol_version claimed_epoch (mkBootIncarnation hi lo)).

Definition encode_hello_response (m : HelloResponse) : Put :=
  put_u32 (hs_protocol_version m) >+> put_id (hs_coordinator_epoch m) >+>
  put_u64 (bi_hi (hs_coordinator_boot m)) >+> put_u64 (bi_lo (hs_coordinator_boot m)) >+>
  put_u64 (hs_pool_count m) >+> put_u64 (hs_queue_count m).

Definition decode_hello_response : Reader HelloResponse :=
  protocol_version ← get_u32; epoch ← get_id; hi ← get_u64; lo ← get_u64;
  pool_count ← get_u64; queue_count ← get_u64;
  mret (mkHelloResponse protocol_version epoch (mkBootIncarnation hi lo) pool_count queue_count).

(** [parent_allocation] is not sent. *)
Definition encode_allocate (rq : AllocateRequest) : Put :=
  put_id (aq_attempt rq) >+> put_id (aq_pool rq) >+> put_id (aq_queue rq) >+>
  put_u64 (aq_requested_units rq) >+> put_enum (aq_reclaim_class rq) >+>
  put_u64 (aq_reclaim_priority rq) >+> put_u64 (aq_ttl_ticks rq) >+>
  put_bool (aq_commit_immediately rq) >+> put_id (aq_provenance rq) >+>
  put_id (aq_expected_pool_generation rq) >+> put_id (aq_expected_policy_generation rq) >+>
  put_id (aq_expected_queue_generation rq) >+> put_id (aq_expected_capacity_generation rq) >+>
  put_id (aq_expected_epoch rq).

Definition decode_allocate : Reader AllocateRequest :=
  attempt ← get_id; pool ← get_id; queue ← get_id; requested_units ← get_u64;
  klass ← get_enum ReclaimClass; reclaim_priority ← get_u64; ttl_ticks ← get_u64;
  commit_immediately ← get_bool; provenance ← get_id;
  pool_generation ← get_id; policy_generation ← get_id; queue_generation ← get_id;
  capacity_generation ← get_id; epoch ← get_id;
  mret (mkAllocateRequest attempt pool queue requested_units klass reclaim_priority ttl_ticks
    commit_immediately 0 provenance pool_generation policy_generation queue_generation
    capacity_generation epoch).

Definition encode_release (rq : ReleaseRequest) : Put :=
  put_id (rq_attempt rq) >+> put_id (rq_allocation rq) >+> put_bool (rq_release_all rq) >+>
  put_u64 (rq_units rq) >+> put_id (rq_expected_pool_generation rq) >+> put_id (rq_expected_epoch rq).

Definition decode_release : Reader ReleaseRequest :=
  attempt ← get_id; allocation ← get_id; release_all ← get_bool; units ← get_u64;
  pool_generation ← get_id; epoch ← get_id;
  mret (mkReleaseRequest attempt allocation units release_all pool_generation epoch).

Definition encode_evaluate (rq : EvaluateRequest) : Put :=
  put_id (eq_pool rq) >+> put_id (eq_queue rq) >+> put_u64 (eq_requested_units rq) >+>
  put_enum (eq_reclaim_class rq) >+> put_id (eq_expected_epoch rq).

Definition decode_evaluate : Reader EvaluateRequest :=
  pool ← get_id; queue ← get_id; requested_units ← get_u64; klass ← get_enum ReclaimClass; epoch ← get_id;
  mret (mkEvaluateRequest pool queue requested_units klass epoch).

(** Its id, generation, epoch, boot and digest are the coordinator's to set. *)
Definition encode_pressure (x : PressureSnapshot) : Put :=
  put_id (ps_pool x) >+> put_u64 (ps_observed_at x) >+> put_u64 (ps_ttl_ticks x) >+>
  put_u64 (ps_demand_units x) >+> put_u64 (ps_committed_units x) >+> put_u64 (ps_reclaimable_units x) >+>
  put_id (ps_provenance x) >+> put_bool (ps_assert_committed x).

Definition decode_pressure : Reader PressureSnapshot :=
  pool ← get_id; observed_at ← get_u64; ttl_ticks ← get_u64; demand ← get_u64; committed ← get_u64;
  reclaimable ← get_u64; provenance ← get_id; assert_committed ← get_bool;
  mret (default_PressureSnapshot <| ps_pool := pool |> <| ps_observed_at := observed_at |>
    <| ps_ttl_ticks := ttl_ticks |> <| ps_demand_units := demand |> <| ps_committed_units := committed |>
    <| ps_reclaimable_units := reclaimable |> <| ps_provenance := provenance |>
    <| ps_assert_committed := assert_committed |>).

Definition encode_accounting (a : PoolAccounting) : Put :=
  put_id (pa_pool a) >+> put_id (pa_pool_generation a) >+> put_u64 (pa_raw a) >+>
  put_u64 (pa_protected_units a) >+> put_u64 (pa_usable a) >+> put_u64 (pa_allocated a) >+>
  put_u64 (pa_reserved a) >+> put_u64 (pa_committed a) >+> put_u64 (pa_pinned a) >+>
  put_u64 (pa_reclaimable a) >+> put_u64 (pa_borrowed_in a) >+> put_u64 (pa_lent_out a) >+>
  put_u64 (pa_overcommit_used a) >+> put_u64 (pa_overcommit_limit a) >+> put_u64 (pa_free a).

Definition decode_accounting : Reader PoolAccounting :=
  pool ← get_id; generation ← get_id; raw ← get_u64; protected_units ← get_u64; usable ← get_u64;
  allocated ← get_u64; reserved ← get_u64; committed ← get_u64; pinned ← get_u64; reclaimable ← get_u64;
  borrowed_in ← get_u64; lent_out ← get_u64; overcommit_used ← get_u64; overcommit_limit ← get_u64;
  free ← get_u64;
  mret (mkPoolAccounting pool generation raw protected_units usable allocated reserved committed pinned
    reclaimable borrowed_in lent_out overcommit_used overcommit_limit free).

(** [binding] and [pressure] are bytes on both sides. *)
Record DecisionSummary := mkDecisionSummary {
  sy_kind : DecisionKind; sy_status : ErrorCode; sy_binding : Z; sy_pressure : Z; sy_utilization_bp : Z;
  sy_sequence : Z; sy_requested_units : Z; sy_granted_units : Z; sy_pool : Z; sy_queue : Z; sy_allocation : Z;
  sy_accounting : PoolAccounting
}.

Definition encode_decision_summary (m : DecisionSummary) : Put :=
  put_enum (sy_kind m) >+> put_u16 (ErrorCode.code (sy_status m)) >+> put_u8 (sy_binding m) >+>
  put_u8 (sy_pressure m) >+> put_u32 (sy_utilization_bp m) >+> put_u64 (sy_sequence m) >+>
  put_u64 (sy_requested_units m) >+> put_u64 (sy_granted_units m) >+> put_id (sy_pool m) >+>
  put_id (sy_queue m) >+> put_id (sy_allocation m) >+> encode_accounting (sy_accounting m).

(** A byte no larger than [last]. *)
Definition get_u8_upto (last : Z) : Reader Z := v ← get_u8; if last <? v then reject else mret v.

Definition decode_decision_summary : Reader DecisionSummary :=
  kind ← get_enum DecisionKind; status ← get_outcome;
  binding ← get_u8_upto (enum_code BindingConstraint.Shutdown);
  pressure ← get_u8_upto (enum_code PressureState.Stale);
  utilization_bp ← get_u32; sequence ← get_u64; requested_units ← get_u64; granted_units ← get_u64;
  pool ← get_id; queue ← get_id; allocation ← get_id; accounting ← decode_accounting;
  mret (mkDecisionSummary kind status binding pressure utilization_bp sequence requested_units
    granted_units pool queue allocation accounting).

(** ** Responses *)

Definition kMaxResponseText : Z := 4096.

(** A message longer than the bound is cut; no payload and an empty one are sent alike. *)
Definition encode_response (status : ErrorCode) (message : string) (payload : option (list Z)) : Put :=
  let length := if kMaxResponseText <? Z.of_nat (String.length message) then kMaxResponseText
                else Z.of_nat (String.length message) in
  put_u16 (ErrorCode.code status) >+> put_u16 length >+>
  put_bytes (take (Z.to_nat length) (string_bytes message)) >+>
  match payload with
  | Some bytes => put_u32 (wrap32 (Z.of_nat (List.length bytes))) >+> put_bytes bytes
  | None => put_u32 0
  end.

Definition get_upto (g : Reader Z) (bound : Z) : Reader (list Z) :=
  n ← g; if bound <? n then reject else get_bytes n.

Definition decode_response : Reader (ErrorCode * string * list Z) :=
  status ← get_outcome; message ← get_upto get_u16 kMaxResponseText; payload ← get_upto get_u32 kMaxFrameBytes;
  mret (status, bytes_string message, payload).

(** ** Bodies on the wire *)

Definition sent (p : Put) : list Z := wr_buffer (p writer_empty).

(** A body is taken when it decodes and nothing is left. *)
Definition received {A} (g : Reader A) (body : list Z) : option A :=
  match g (reader_of body) with
  | (Some a, r) => if reader_empty r then Some a else None
  | (None, _) => None
  end.

(** ** Round trips *)

Definition wf_boot (b : BootIncarnation) : Prop := is_u64 (bi_hi b) /\ is_u64 (bi_lo b).

Definition wf_hello_request (m : HelloRequest) : Prop :=
  is_u32 (hq_protocol_version m) /\ is_u64 (hq_claimed_epoch m) /\ is_u64 (bi_hi (hq_client_boot m)) /\
  is_u64 (bi_lo (hq_client_boot m)).

Definition wf_hello_response (m : HelloResponse) : Prop :=
  is_u32 (hs_protocol_version m) /\ is_u64 (hs_coordinator_epoch m) /\ is_u64 (bi_hi (hs_coordinator_boot m)) /\
  is_u64 (bi_lo (hs_coordinator_boot m)) /\ is_u64 (hs_pool_count m) /\ is_u64 (hs_queue_count m).

Definition wf_allocate (rq : AllocateRequest) : Prop :=
  is_u64 (aq_attempt rq) /\ is_u64 (aq_pool rq) /\ is_u64 (aq_queue rq) /\ is_u64 (aq_requested_units rq) /\
  is_u64 (aq_reclaim_priority rq) /\ is_u64 (aq_ttl_ticks rq) /\ is_u64 (aq_provenance rq) /\
  is_u64 (aq_expected_pool_generation rq) /\ is_u64 (aq_expected_policy_generation rq) /\
  is_u64 (aq_expected_queue_generation rq) /\ is_u64 (aq_expected_capacity_generation rq) /\
  is_u64 (aq_expected_epoch rq).

Definition wf_release (rq : ReleaseRequest) : Prop :=
  is_u64 (rq_attempt rq) /\ is_u64 (rq_allocation rq) /\ is_u64 (rq_units rq) /\
  is_u64 (rq_expected_pool_generation rq) /\ is_u64 (rq_expected_epoch rq).

Definition wf_evaluate (rq : EvaluateRequest) : Prop :=
  is_u64 (eq_pool rq) /\ is_u64 (eq_queue rq) /\ is_u64 (eq_requested_units rq) /\ is_u64 (eq_expected_epoch rq).

Definition wf_pressure (x : PressureSnapshot) : Prop :=
  is_u64 (ps_pool x) /\ is_u64 (ps_observed_at x) /\ is_u64 (ps_ttl_ticks x) /\ is_u64 (ps_demand_units x) /\
  is_u64 (ps_committed_units x) /\ is_u64 (ps_reclaimable_units x) /\ is_u64 (ps_provenance x).

Definition wf_accounting (a : PoolAccounting) : Prop :=
  is_u64 (pa_pool a) /\ is_u64 (pa_pool_generation a) /\ is_u64 (pa_raw a) /\ is_u64 (pa_protected_units a) /\
  is_u64 (pa_usable a) /\ is_u64 (pa_allocated a) /\ is_u64 (pa_reserved a) /\ is_u64 (pa_committed a) /\
  is_u64 (pa_pinned a) /\ is_u64 (pa_reclaimable a) /\ is_u64 (pa_borrowed_in a) /\ is_u64 (pa_lent_out a) /\
  is_u64 (pa_overcommit_used a) /\ is_u64 (pa_overcommit_limit a) /\ is_u64 (pa_free a).

Definition wf_summary (m : DecisionSummary) : Prop :=
  wf_outcome (sy_status m) /\ 0 <= sy_binding m <= enum_code BindingConstraint.Shutdown /\
  0 <= sy_pressure m <= enum_code PressureState.Stale /\ is_u32 (sy_utilization_bp m) /\ is_u64 (sy_sequence m) /\
  is_u64 (sy_requested_units m) /\ is_u64 (sy_granted_units m) /\ is_u64 (sy_pool m) /\ is_u64 (sy_queue m) /\
  is_u64 (sy_allocation m) /\ wf_accounting (sy_accounting m).

Lemma roundtrips_hello_request m : wf_hello_request m -> roundtrips (encode_hello_request m) decode_hello_request m.
Proof. intros Hm. red in Hm. destruct_and?. unfold encode_hello_request, decode_hello_request. solve_roundtrip m. Qed.

Lemma roundtrips_hello_response m : wf_hello_response m -> roundtrips (encode_hello_response m) decode_hello_response m.
Proof. intros Hm. red in Hm. destruct_and?. unfold encode_hello_response, decode_hello_response. solve_roundtrip m. Qed.

(** What the request becomes on the other side: it loses its parent. *)
Lemma roundtrips_allocate rq :
  wf_allocate rq -> roundtrips (encode_allocate rq) decode_allocate (rq <| aq_parent_allocation := 0 |>).
Proof. intros Hm. red in Hm. destruct_and?. unfold encode_allocate, decode_allocate. solve_roundtrip rq. Qed.

Lemma roundtrips_release rq : wf_release rq -> roundtrips (encode_release rq) decode_release rq.
Proof. intros Hm. red in Hm. destruct_and?. unfold encode_release, decode_release. solve_roundtrip rq. Qed.

Lemma roundtrips_evaluate rq : wf_evaluate rq -> roundtrips (encode_evaluate rq) decode_evaluate rq.
Proof. intros Hm. red in Hm. destruct_and?. unfold encode_evaluate, decode_evaluate. solve_roundtrip rq. Qed.

(** The fields of an observation that travel. *)
Definition sent_pressure (x : PressureSnapshot) : PressureSnapshot :=
  x <| ps_id := 0 |> <| ps_pool_generation := 0 |> <| ps_epoch := 0 |> <| ps_boot := ps_boot default_PressureSnapshot |>
    <| ps_evidence_digest := ps_evidence_digest default_PressureSnapshot |>.

Lemma roundtrips_pressure x : wf_pressure x -> roundtrips (encode_pressure x) decode_pressure (sent_pressure x).
Proof. intros Hm. red in Hm. destruct_and?. unfold encode_pressure, decode_pressure. solve_roundtrip x. Qed.

Lemma roundtrips_accounting a : wf_accounting a -> roundtrips (encode_accounting a) decode_accounting a.
Proof. intros Hm. red in Hm. destruct_and?. unfold encode_accounting, decode_accounting. solve_roundtrip a. Qed.
#[export] Hint Resolve roundtrips_accounting : wire.

Lemma roundtrips_u8_upto last v : last <= u8_max -> 0 <= v <= last -> roundtrips (put_u8 v) (get_u8_upto last) v.
Proof.
  intros Hl Hv. eapply roundtrips_last; [apply roundtrips_u8; unfold is_u8; lia|]. cbv beta.
  by destruct (Z.ltb_spec last v); [lia|].
Qed.

Lemma roundtrips_summary m : wf_summary m -> roundtrips (encode_decision_summary m) decode_decision_summary m.
Proof.
  intros Hm. red in Hm. destruct_and?. unfold encode_decision_summary, decode_decision_summary.
  assert (roundtrips (put_u8 (sy_binding m)) (get_u8_upto (enum_code BindingConstraint.Shutdown)) (sy_binding m)) as Hb
    by (apply roundtrips_u8_upto; [by vm_compute|done]).
  assert (roundtrips (put_u8 (sy_pressure m)) (get_u8_upto (enum_code PressureState.Stale)) (sy_pressure m)) as Hp
    by (apply roundtrips_u8_upto; [by vm_compute|done]).
  solve_roundtrip m.
Qed.

(** A counted block written by its length and read back under a bound. *)
Lemma roundtrips_counted (p : Put) (g : Reader Z) bound (bs : list Z) :
  is_bytes bs -> Z.of_nat (length bs) <= bound -> roundtrips p g (Z.of_nat (length bs)) ->
  roundtrips (p >+> put_bytes bs) (get_upto g bound) bs.
Proof.
  intros Hbs Hb (hs & Hh & Hp & Hg). exists (hs ++ bs). split; [by apply Forall_app|]. split.
  - intros w Hw. unfold seq_put. rewrite Hp by done. unfold put_bytes. simpl. by rewrite app_assoc.
  - unfold get_upto. eapply reads_bind; [exact Hg|]. destruct (Z.ltb_spec bound (Z.of_nat (length bs))); [lia|].
    unfold get_bytes. rewrite Nat2Z.id. apply reads_bytes.
Qed.

Definition response_text (message : string) : list Z := take (Z.to_nat kMaxResponseText) (string_bytes message).

Lemma roundtrips_response status message (payload : option (list Z)) :
  wf_outcome status -> is_bytes (default [] payload) -> Z.of_nat (length (default [] payload)) <= kMaxFrameBytes ->
  roundtrips (encode_response status message payload) decode_response
    (status, bytes_string (response_text message), default [] payload).
Proof.
  intros Hs Hb Hl. unfold encode_response, decode_response.
  set (n := if kMaxResponseText <? _ then _ else _).
  assert (0 <= n <= kMaxResponseText /\ take (Z.to_nat n) (string_bytes message) = response_text message /\
    n = Z.of_nat (length (response_text message))) as (Hn & Ht & Hnl).
  { pose proof (string_bytes_length message) as Hlen. unfold n, response_text.
    destruct (Z.ltb_spec kMaxResponseText (Z.of_nat (String.length message))) as [H|H].
    - rewrite length_take, Hlen. unfold kMaxResponseText in *. split; [lia|]. split; [done|lia].
    - rewrite !take_ge by (rewrite Hlen; unfold kMaxResponseText in *; lia). split; [unfold kMaxResponseText in *; lia|]. split; [done|lia]. }
  rewrite Ht, Hnl in *. clearbody n.
  eapply roundtrips_bind; [by apply roundtrips_outcome|].
  assert (is_bytes (response_text message)) as Htb by (apply Forall_take, string_bytes_is_bytes).
  assert (forall p q r : Put, p >+> (q >+> r) = ((p >+> q) >+> r)) as Hassoc by done. rewrite Hassoc.
  eapply roundtrips_bind; [apply roundtrips_counted; [done|lia|]|].
  { apply roundtrips_u16. unfold is_u16, kMaxResponseText in *. u64_lia. }
  assert (match payload with Some bytes => put_u32 (wrap32 (Z.of_nat (length bytes))) >+> put_bytes bytes | None => put_u32 0 end =
    match payload with Some bytes => put_u32 (Z.of_nat (length bytes)) >+> put_bytes bytes | None => put_u32 0 end) as ->.
  { destruct payload as [bytes|]; [|done]. simpl in Hl. unfold wrap32. rewrite Z.mod_small; [done|].
    unfold kMaxFrameBytes in Hl. change (Z.shiftl 1 20) with 1048576 in Hl. u64_lia. }
  assert (is_u32 (Z.of_nat (length (default [] payload)))) as H32.
  { unfold kMaxFrameBytes in Hl. change (Z.shiftl 1 20) with 1048576 in Hl. unfold is_u32. u64_lia. }
  destruct payload as [bytes|]; simpl in *.
  - eapply roundtrips_last; [by apply roundtrips_counted, roundtrips_u32|done].
  - eapply roundtrips_last; [|done].
    destruct (roundtrips_counted (put_u32 0) get_u32 kMaxFrameBytes []) as (bs & H1 & H2 & H3); [done|done|by apply (roundtrips_u32 0)|].
    exists bs. split; [done|]. split; [|done]. intros w Hw. specialize (H2 w Hw). unfold seq_put, put_bytes in H2.
    rewrite <- H2. rewrite put_u32_le by done. cbn. by rewrite app_nil_r.
Qed.

(** ** Readers that accept one encoding only *)

(** On success [g] has read exactly [E a], whatever came before and after it. *)
Definition exacts {A} (g : Reader A) (E : A -> list Z) (P : A -> Prop) : Prop := forall pre tail a r,
  is_bytes tail -> g (mkReader (pre ++ tail) (length pre) false) = (Some a, r) ->
  P a /\ exists rest, tail = E a ++ rest /\ r = mkReader (pre ++ tail) (length pre + length (E a)) false.

Lemma exacts_bytes n : 0 <= n -> exacts (get_bytes n) (fun l => l) (fun l => is_bytes l /\ Z.of_nat (length l) = n).
Proof.
  intros Hn pre tail l r Ht. unfold get_bytes, require, mbind, reader_bind, take_bytes, rd_size. cbn [rd_failed rd_data rd_offset].
  rewrite length_app. destruct (Z.ltb_spec (Z.of_nat (length pre + length tail) - Z.of_nat (length pre)) n) as [|H]; [done|].
  cbn. rewrite drop_app_length. intros [= <- <-]. rewrite length_take.
  split; [split; [by apply Forall_take|lia]|]. exists (drop (Z.to_nat n) tail). rewrite take_drop. split; [done|]. cbn. f_equal. lia.
Qed.

Lemma exacts_le n :
  exacts (require (Z.of_nat n) ≫= fun _ => take_bytes n ≫= fun l => mret (le_value l)) (le_bytes n) (fun v => 0 <= v < 2 ^ (8 * Z.of_nat n)).
Proof.
  intros pre tail v r Ht H.
  assert (exists l, get_bytes (Z.of_nat n) (mkReader (pre ++ tail) (length pre) false) = (Some l, r) /\ v = le_value l) as (l & Hl & ->).
  { unfold get_bytes, mbind, reader_bind in *. rewrite Nat2Z.id. destruct (require _ _) as [[[]|] r']; [|done].
    unfold take_bytes, mret, reader_ret in *. injection H as <- <-. by eexists. }
  destruct (exacts_bytes (Z.of_nat n) ltac:(lia) _ _ _ _ Ht Hl) as ([Hb Hn] & rest & Hr & ->).
  assert (length l = n) as <- by lia. split; [by apply le_value_bound|]. exists rest. by rewrite !le_bytes_le_value by done.
Qed.

(** ** Readers of well-typed values

    [yields g P]: on bytes, whatever [g] decodes satisfies [P]. *)

Definition yields {A} (g : Reader A) (P : A -> Prop) : Prop := forall r, is_bytes (rd_data r) ->
  match g r with (Some a, r') => is_bytes (rd_data r') /\ P a | _ => True end.

Lemma yields_ret {A} (a : A) (P : A -> Prop) : P a -> yields (mret a) P.
Proof. by intros H r Hr. Qed.

Lemma yields_reject {A} (P : A -> Prop) : yields reject P.
Proof. by intros r Hr. Qed.

Lemma yields_fail {A} (P : A -> Prop) : yields reader_fail P.
Proof. by intros r Hr. Qed.

Lemma yields_bind {A B} (g : Reader A) (k : A -> Reader B) P Q :
  yields g P -> (forall a, P a -> yields (k a) Q) -> yields (g ≫= k) Q.
Proof.
  intros Hg Hk r Hr. specialize (Hg r Hr). unfold mbind, reader_bind. destruct (g r) as [[a|] r']; [|done].
  destruct Hg as [Hr' Ha]. exact (Hk a Ha r' Hr').
Qed.

Lemma yields_le n : yields (require (Z.of_nat n) ≫= fun _ => take_bytes n ≫= fun l => mret (le_value l)) (fun v => 0 <= v < 2 ^ (8 * Z.of_nat n)).
Proof.
  intros r Hr. unfold mbind, reader_bind, require. destruct (rd_failed r); [done|].
  destruct (_ <? Z.of_nat n); [done|]. unfold take_bytes, mret, reader_ret. split; [done|].
  set (l := take n _). assert (is_bytes l) as Hl by (apply Forall_take, Forall_drop, Hr).
  pose proof (le_value_bound l Hl) as Hb. assert (length l <= n)%nat by (unfold l; rewrite length_take; lia).
  pose proof (Z.pow_le_mono_r 2 (8 * Z.of_nat (length l)) (8 * Z.of_nat n) ltac:(lia) ltac:(lia)). lia.
Qed.

Lemma yields_u64 : yields get_u64 is_u64.
Proof.
  assert (yields get_u64 (fun v => 0 <= v < 2 ^ 64)) as H by exact (yields_le 8).
  intros r Hr. specialize (H r Hr). destruct (get_u64 r) as [[v|] r']; [|done]. destruct H. split; [done|u64_lia].
Qed.

Lemma yields_bool : yields get_bool (fun _ => True).
Proof.
  unfold get_bool. eapply yields_bind; [exact (yields_le 1)|]. intros v Hv. destruct (1 <? v); [apply yields_fail|by apply yields_ret].
Qed.

Lemma yields_enum E `{Enum E} : yields (get_enum E) (fun _ => True).
Proof.
  unfold get_enum. eapply yields_bind; [exact (yields_le 1)|]. intros v Hv. unfold check_enum.
  destruct (enum_cast v); [by apply yields_ret|apply yields_reject].
Qed.

(** Through a decoder, field by field. *)
Ltac yield :=
  repeat (eapply yields_bind; [first [exact yields_u64|exact yields_bool|apply yields_enum]|intros ? ?]);
  apply yields_ret; cbn; repeat (split; [assumption|]); assumption.

Lemma yields_allocate : yields decode_allocate wf_allocate.
Proof. unfold decode_allocate, wf_allocate. yield. Qed.
Lemma yields_release : yields decode_release wf_release.
Proof. unfold decode_release, wf_release. yield. Qed.
Lemma yields_evaluate : yields decode_evaluate wf_evaluate.
Proof. unfold decode_evaluate, wf_evaluate. yield. Qed.
Lemma yields_pressure : yields decode_pressure wf_pressure.
Proof. unfold decode_pressure, wf_pressure. yield. Qed.

Lemma received_yields {A} (g : Reader A) P body a : yields g P -> is_bytes body -> received g body = Some a -> P a.
Proof.
  intros Hg Hb. unfold received. specialize (Hg (reader_of body) Hb). destruct (g _) as [[a'|] r]; [|done].
  destruct (reader_empty r); [|done]. intros [= <-]. apply Hg.
Qed.

(** ** Messages *)

Record wf_message (m : Message) (max_body_bytes : Z) : Prop := {
  wm_op : is_u8 (mg_op m);
  wm_request : is_u64 (mg_request m);
  wm_epoch : is_u64 (mg_epoch m);
  wm_body : is_bytes (mg_body m);
  wm_bound : Z.of_nat (length (mg_body m)) <= max_body_bytes
}.

Definition message_bytes (m : Message) : list Z :=
  le_bytes 1 (mg_op m) ++ (le_bytes 8 (mg_request m) ++ le_bytes 8 (mg_epoch m) ++
  le_bytes 4 (Z.of_nat (length (mg_body m))) ++ []) ++ mg_body m.

Lemma message_payload m max : max <= u32_max -> wf_message m max -> wr_buffer (put_message m writer_empty) = message_bytes m.
Proof.
  intros Hm [Ho _ _ _ Hl]. unfold put_message, message_bytes.
  assert (wrap32 (Z.of_nat (length (mg_body m))) = Z.of_nat (length (mg_body m))) as -> by (unfold wrap32; apply Z.mod_small; u64_lia).
  assert (appends (put_u8 (mg_op m)) (le_bytes 1 (mg_op m))) as H1.
  { rewrite le_bytes_S. simpl. unfold put_u8. rewrite Z.mod_small by u64_lia. apply appends_push. }
  assert (forall v, appends (put_u64 v) (le_bytes 8 v)) as H8 by (intros v; exact (appends_le v (seqZ 0 8))).
  assert (forall v, appends (put_u32 v) (le_bytes 4 v)) as H4 by (intros v; exact (appends_le v (seqZ 0 4))).
  unfold seq_put. rewrite H1, H8, H8, H4 by done. cbn [wr_buffer writer_empty put_bytes]. rewrite app_nil_l, app_nil_r. by rewrite <- !app_assoc.
Qed.

Lemma reads_message_header a b c :
  is_u64 a -> is_u64 b -> is_u32 c -> reads get_message_header (le_bytes 8 a ++ le_bytes 8 b ++ le_bytes 4 c ++ []) (a, b, c).
Proof.
  intros. unfold get_message_header. eapply reads_bind; [apply (reads_le 8); u64_lia|].
  eapply reads_bind; [apply (reads_le 8); u64_lia|]. eapply reads_bind; [apply (reads_le 4); u64_lia|]. apply reads_ret.
Qed.

Lemma exacts_message_header :
  exacts get_message_header (fun '(a, b, c) => le_bytes 8 a ++ le_bytes 8 b ++ le_bytes 4 c ++ [])
    (fun '(a, b, c) => is_u64 a /\ is_u64 b /\ is_u32 c).
Proof.
  intros pre tail [[a b] c] r Ht H. unfold get_message_header, mbind, reader_bind in H.
  destruct (get_u64 _) as [[a'|] r1] eqn:H1; [|done]. destruct (exacts_le 8 _ _ _ _ Ht H1) as (Ha & t1 & -> & ->).
  apply Forall_app in Ht as [Hb1 Ht1]. rewrite app_assoc, <- length_app in H.
  destruct (get_u64 (mkReader _ _ _)) as [[b'|] r2] eqn:H2; [|done]. destruct (exacts_le 8 _ _ _ _ Ht1 H2) as (Hb & t2 & -> & ->).
  apply Forall_app in Ht1 as [Hb2 Ht2]. rewrite app_assoc, <- length_app in H.
  destruct (get_u32 _) as [[c'|] r3] eqn:H3; [|done]. destruct (exacts_le 4 _ _ _ _ Ht2 H3) as (Hc & t3 & -> & ->).
  unfold mret, reader_ret in H. injection H as <- <- <- <-. split; [split_and!; u64_lia|]. exists t3.
  rewrite !length_app, !le_bytes_length. cbn [length]. rewrite <- !app_assoc. split; [done|]. f_equal. lia.
Qed.

Lemma read_or_good {A B} (g : Reader A) data n r code message (k : A -> ByteReader -> Result B) a :
  g (mkReader data n false) = (Some a, r) -> read_or g (mkReader data n false) code message k = k a r.
Proof. intros H. unfold read_or. by rewrite H. Qed.

Lemma decode_message_payload_bytes m max :
  max <= u32_max -> wf_message m max -> decode_message_payload (message_bytes m) max = Good m.
Proof.
  intros Hm [Ho Hr He Hb Hl]. unfold decode_message_payload, reader_of.
  set (body := mg_body m). set (n := Z.of_nat (length body)).
  set (head := le_bytes 8 (mg_request m) ++ le_bytes 8 (mg_epoch m) ++ le_bytes 4 n ++ []).
  assert (message_bytes m = le_bytes 1 (mg_op m) ++ head ++ body) as -> by done.
  pose proof (reads_le 1 (mg_op m) ltac:(u64_lia) [] (head ++ body)) as H1. cbn [length app Nat.add] in H1.
  rewrite (read_or_good _ _ _ _ _ _ _ _ H1).
  pose proof (reads_message_header (mg_request m) (mg_epoch m) n Hr He ltac:(unfold n, body; u64_lia) (le_bytes 1 (mg_op m)) body) as H2.
  rewrite (read_or_good _ _ _ _ _ _ _ _ H2). fold head.
  destruct (Z.ltb_spec max n); [unfold n, body in *; lia|].
  pose proof (reads_bytes body (le_bytes 1 (mg_op m) ++ head) []) as H3. rewrite app_nil_r, length_app, <- app_assoc in H3.
  unfold get_bytes, n. rewrite Nat2Z.id. rewrite (read_or_good _ _ _ _ _ _ _ _ H3).
  unfold reader_empty, rd_size. cbn [rd_failed rd_data rd_offset negb andb]. rewrite !length_app.
  destruct (Z.eqb_spec (Z.of_nat (length (le_bytes 1 (mg_op m)) + length head + length body))
    (Z.of_nat (length (le_bytes 1 (mg_op m)) + (length head + length body)))); [|lia]. cbn. by destruct m.
Qed.

Lemma decode_message_payload_sound data m max :
  is_bytes data -> decode_message_payload data max = Good m -> wf_message m max /\ data = message_bytes m.
Proof.
  intros Hd H. unfold decode_message_payload, read_or, reader_of in H.
  destruct (get_u8 _) as [[op|] r1] eqn:H1; [|done]. destruct (exacts_le 1 [] data op r1 Hd H1) as (Ho & t1 & -> & ->).
  apply Forall_app in Hd as [Hb1 Ht1]. cbn [length app Nat.add] in H.
  destruct (get_message_header _) as [[[[a b] c]|] r2] eqn:H2; [|done].
  destruct (exacts_message_header _ _ (a, b, c) _ Ht1 H2) as ((Ha & Hb & Hc) & t2 & -> & ->).
  destruct (Z.ltb_spec max c) as [|Hmax]; [done|]. apply Forall_app in Ht1 as [Hb2 Ht2].
  rewrite app_assoc, <- length_app in H.
  destruct (get_bytes c _) as [[body|] r3] eqn:H3; [|done].
  destruct (exacts_bytes c ltac:(u64_lia) _ _ _ _ Ht2 H3) as ((Hbody & Hlen) & t3 & -> & ->).
  destruct (reader_empty _) eqn:Hempty; [|done]. cbn [negb] in H. injection H as <-.
  unfold reader_empty, rd_size in Hempty. cbn [rd_failed rd_data rd_offset negb andb] in Hempty.
  apply Z.eqb_eq in Hempty. rewrite !length_app in Hempty.
  assert (t3 = []) as -> by (apply length_zero_iff_nil; lia). split.
  - split; cbn; try done; [u64_lia|lia].
  - unfold message_bytes. cbn [mg_op mg_request mg_epoch mg_body]. rewrite Hlen. rewrite (app_nil_r body). by rewrite <- !app_assoc.
Qed.

Lemma message_bytes_bytes m max : max <= u32_max -> wf_message m max ->
  is_bytes (message_bytes m) /\ Z.of_nat (length (message_bytes m)) = 21 + Z.of_nat (length (mg_body m)).
Proof.
  intros Hm [Ho Hr He Hb Hl]. unfold message_bytes. rewrite !length_app, !le_bytes_length. cbn [length]. split; [|lia].
  repeat apply Forall_app_2; try apply le_bytes_is_bytes; [constructor|done].
Qed.

(** ** Properties *)

(** C37. Message framing is exact. For a bound on the body of at most 2^32 - 33 bytes,
    [decode_message] accepts a byte string precisely when it starts with the canonical encoding
    of a message whose fields fit their widths and whose body fits the bound; it then returns
    that message and the length of that encoding, and does not look at what follows. So byte
    strings that carry the same message start with the same encoding, no message can be read
    from bytes that no encoder wrote, and the opcode is not restricted to the listed
    operations. *)
Theorem decode_message_exact (data : list Z) (max_body_bytes : Z) (m : Message) (n : Z) :
  is_bytes data -> 0 <= max_body_bytes -> max_body_bytes + 32 <= u32_max ->
  decode_message data max_body_bytes = Good (m, n) <->
  wf_message m max_body_bytes /\ n = Z.of_nat (length (encode_message m)) /\ exists rest, data = encode_message m ++ rest.
Proof.
  intros Hd H0 Hm. unfold decode_message, encode_message. rewrite add64_exact by u64_lia.
  assert (is_u32 kTransportMagic /\ is_u32 kWireFormatVersion) as [Hma Hv] by (by vm_compute). split.
  - destruct (decode_frame _ _ _ _) as [[payload used]|e] eqn:Hf; [|done].
    destruct (decode_message_payload payload _) as [m'|e] eqn:Hp; [|done]. intros [= <- <-].
    eapply decode_frame_sound in Hf; [|done..]. destruct Hf as (Hl & -> & rest & ->).
    rewrite encode_frame_eq in Hd. apply Forall_app in Hd as [Hd _]. apply Forall_app in Hd as [_ Hd].
    destruct (decode_message_payload_sound payload m' _ Hd Hp) as (Hw & ->).
    rewrite (message_payload m' max_body_bytes) by (done || lia). split; [done|]. split; [done|by exists rest].
  - intros (Hw & -> & rest & ->). rewrite (message_payload m max_body_bytes) by (done || lia).
    destruct (message_bytes_bytes m max_body_bytes) as [Hb Hlen]; [lia|done|]. pose proof (wm_bound _ _ Hw).
    rewrite decode_encode_frame by (done || lia). rewrite decode_message_payload_bytes by (done || lia).
    by rewrite encode_frame_eq, length_app, frame_header_length, Nat2Z.inj_add.
Qed.

Lemma received_sent {A} (p : Put) (g : Reader A) a : roundtrips p g a -> received g (sent p) = Some a.
Proof.
  intros (bs & _ & Hp & Hg). unfold received, sent, reader_of. rewrite (Hp writer_empty eq_refl). cbn [wr_buffer writer_empty].
  specialize (Hg [] []). rewrite !app_nil_r in Hg. rewrite app_nil_l in *. cbn [length Nat.add] in Hg. rewrite Hg.
  unfold reader_empty, rd_size. cbn [rd_failed rd_offset rd_data negb andb]. by rewrite Z.eqb_refl.
Qed.

(** C38. The eight bodies that have an encoder and a decoder survive the wire: the two of the
    greeting, the requests to allocate, release and evaluate, an observation of pressure, the
    summary of a decision with its accounting, and the response that carries every answer, the
    texts of explain, summary, ledger and metrics included, as its payload. When the fields fit
    their widths, enumerations are in range and a payload is of bytes and not longer than a
    frame may be, what a peer decodes, insisting that the body ends where the fields end, is
    what was encoded. Two bodies are sent reduced: an allocation request loses its parent
    allocation, an observation keeps only the fields a client may state. A response loses only
    what exceeds the 4096 bytes of its text, and an absent payload arrives as an empty one. *)
Theorem protocol_bodies_roundtrip (hello : HelloRequest) (ack : HelloResponse) (alloc : AllocateRequest)
    (rel : ReleaseRequest) (ev : EvaluateRequest) (seen : PressureSnapshot) (sum : DecisionSummary)
    (status : ErrorCode) (text : string) (payload : option (list Z)) :
  wf_hello_request hello -> wf_hello_response ack -> wf_allocate alloc -> wf_release rel -> wf_evaluate ev ->
  wf_pressure seen -> wf_summary sum -> wf_outcome status -> is_bytes (default [] payload) ->
  Z.of_nat (length (default [] payload)) <= kMaxFrameBytes ->
  received decode_hello_request (sent (encode_hello_request hello)) = Some hello /\
  received decode_hello_response (sent (encode_hello_response ack)) = Some ack /\
  received decode_allocate (sent (encode_allocate alloc)) = Some (alloc <| aq_parent_allocation := 0 |>) /\
  received decode_release (sent (encode_release rel)) = Some rel /\
  received decode_evaluate (sent (encode_evaluate ev)) = Some ev /\
  received decode_pressure (sent (encode_pressure seen)) = Some (sent_pressure seen) /\
  received decode_decision_summary (sent (encode_decision_summary sum)) = Some sum /\
  received decode_response (sent (encode_response status text payload)) =
    Some (status, bytes_string (response_text text), default [] payload).
Proof.
  intros. split_and!; apply received_sent.
  - by apply roundtrips_hello_request.
  - by apply roundtrips_hello_response.
  - by apply roundtrips_allocate.
  - by apply roundtrips_release.
  - by apply roundtrips_evaluate.
  - by apply roundtrips_pressure.
  - by apply roundtrips_summary.
  - by apply roundtrips_response.
Qed.

(** ** Concrete exchanges *)

Definition sample_message : Message := mkMessage (MessageOp.code MessageOp.Ping) 7 3 [1; 2; 3].

Lemma decode_message_exact_witness : decode_message (encode_message sample_message ++ [9]) 100 = Good (sample_message, 40).
Proof.
  assert (is_bytes (encode_message sample_message ++ [9])) as H by (apply (bool_decide_unpack _); vm_compute; reflexivity).
  apply (decode_message_exact _ 100 sample_message 40 H); [lia|vm_compute; discriminate|].
  split; [split; cbn; try done; apply (bool_decide_unpack _); vm_compute; reflexivity|].
  split; [vm_compute; reflexivity|by exists [9]].
Defined.

Definition sample_summary : DecisionSummary :=
  mkDecisionSummary DecisionKind.Grant ErrorCode.Ok 0 1 2500 4 60 60 1 1 9 default_PoolAccounting.

Lemma protocol_bodies_roundtrip_witness :
  received decode_allocate (sent (encode_allocate (default_AllocateRequest <| aq_attempt := 5 |> <| aq_parent_allocation := 8 |>))) =
    Some (default_AllocateRequest <| aq_attempt := 5 |>) /\
  received decode_response (sent (encode_response ErrorCode.Ok "ok" (Some [1; 2]))) = Some (ErrorCode.Ok, "ok"%string, [1; 2]).
Proof.
  destruct (protocol_bodies_roundtrip (mkHelloRequest 1 0 (mkBootIncarnation 0 0))
    (mkHelloResponse 1 1 (mkBootIncarnation 3 4) 1 1) (default_AllocateRequest <| aq_attempt := 5 |> <| aq_parent_allocation := 8 |>)
    default_ReleaseRequest default_EvaluateRequest default_PressureSnapshot sample_summary ErrorCode.Ok "ok" (Some [1; 2]))
    as (_ & _ & H1 & _ & _ & _ & _ & H2).
  - vm_compute. intuition congruence.
  - vm_compute. intuition congruence.
  - vm_compute. intuition congruence.
  - vm_compute. intuition congruence.
  - vm_compute. intuition congruence.
  - vm_compute. intuition congruence.
  - vm_compute. intuition congruence.
  - vm_compute. intuition congruence.
  - apply (bool_decide_unpack _). vm_compute. reflexivity.
  - vm_compute. intuition congruence.
  - split; [exact H1|exact H2].
Defined.
