(* ===== verification/Json.v ===== *)
(** * The JSON writer

    [src/json.cpp]: a writer with a byte budget that latches into a truncated state. Its
    output never exceeds the budget, and a value that fits is written exactly. *)

From Stdlib Require Import Ascii.
From stdpp Require Import pretty.
From S2P Require Import Prelude Ints Status.

Definition str_len (s : string) : Z := Z.of_nat (String.length s).

(** The double quote and the backslash. *)
Definition quote : string := String.String "034"%char "".
Definition backslash : string := String.String "092"%char "".

Definition hex_char (d : Z) : Ascii.ascii := Ascii.ascii_of_N (Z.to_N (if d <? 10 then 48 + d else 87 + d)).

(** [\u%04x] of a byte. *)
Definition escape_byte (n : Z) : string :=
  (backslash ++ "u00" ++ String.String (hex_char (n / 16)) (String.String (hex_char (n mod 16)) ""))%string.

Definition escape_char (c : Ascii.ascii) : string :=
  let n := Z.of_N (Ascii.N_of_ascii c) in
  if n =? 34 then (backslash ++ quote)%string
  else if n =? 92 then (backslash ++ backslash)%string
  else if n =? 10 then (backslash ++ "n")%string
  else if n =? 13 then (backslash ++ "r")%string
  else if n =? 9 then (backslash ++ "t")%string
  else if n <? 0x20 then escape_byte n
  else String.String c "".

Fixpoint escape_body (text : string) : string :=
  match text with
  | EmptyString => ""
  | String.String c text => escape_char c ++ escape_body text
  end.

(** [append_escaped] on an empty string. *)
Definition escaped (text : string) : string := (quote ++ escape_body text ++ quote)%string.

(** ** The writer *)

Record JsonWriter := mkJsonWriter {
  jw_out : string; jw_budget : Z; jw_truncated : bool; jw_need_comma : bool; jw_in_object : list bool
}.

#[export] Instance settable_JsonWriter : Settable JsonWriter := fun w =>
  mkJsonWriter (jw_out w) (jw_budget w) (jw_truncated w) (jw_need_comma w) (jw_in_object w).

Definition json_writer (budget : Z) : JsonWriter := mkJsonWriter "" budget false false [].

Definition Json := JsonWriter -> JsonWriter.

Definition and_then (f g : Json) : Json := fun w => g (f w).
Infix "▷" := and_then (at level 62, right associativity) : fabric_scope.

Definition kMarker : string := (quote ++ "__truncated__" ++ quote ++ ":true")%string.

(** The marker's own separator is a push in the truncated state: nothing, but it clears
    [need_comma_]. *)
Definition push (text : string) : Json := fun w =>
  if jw_truncated w then w
  else if jw_budget w <? str_len (jw_out w) + str_len text then
    let w := w <| jw_truncated := true |> in
    if str_len (jw_out w) + str_len kMarker <=? jw_budget w
    then w <| jw_need_comma := false |> <| jw_out ::= fun o => (o ++ kMarker)%string |>
    else w
  else w <| jw_out ::= fun o => (o ++ text)%string |>.

Definition need_comma (b : bool) : Json := fun w => w <| jw_need_comma := b |>.

Definition comma : Json := fun w =>
  need_comma false (if jw_need_comma w then push "," w else w).

Definition enter (object : bool) : Json := fun w => w <| jw_in_object ::= fun l => l ++ [object] |>.
Definition leave : Json := fun w => w <| jw_in_object ::= fun l => removelast l |>.

Definition begin_object : Json := comma ▷ push "{" ▷ enter true ▷ need_comma false.
Definition end_object : Json := push "}" ▷ leave ▷ need_comma true.
Definition begin_array : Json := comma ▷ push "[" ▷ enter false ▷ need_comma false.
Definition end_array : Json := push "]" ▷ leave ▷ need_comma true.

Definition key (name : string) : Json := comma ▷ push (escaped name) ▷ push ":".

(** Every value: its separator, its text, and the next one needs a separator. *)
Definition value (text : string) : Json := comma ▷ push text ▷ need_comma true.

Definition value_string (text : string) : Json := value (escaped text).
Definition value_u64 (v : Z) : Json := value (snprintf 32 (pretty v)).
Definition value_i64 (v : Z) : Json := value (snprintf 32 (pretty v)).
Definition value_bool (b : bool) : Json := value (if b then "true" else "false").
Definition value_null : Json := value "null".
Definition raw (text : string) : Json := value text.

(** [writer.key(name); writer.value_...(v);]. *)
Definition member (name : string) (v : Json) : Json := key name ▷ v.

(** A loop over [l]. *)
Definition for_each {A} (f : A -> Json) (l : list A) : Json := fun w => fold_left (fun w a => f a w) l w.

(** ** Values and their text *)

Set Warnings "-register-all".

Inductive JsonValue :=
| JText (text : string)
| JArray (l : list JsonValue)
| JObject (l : list (string * JsonValue)).

Fixpoint join (l : list string) : string :=
  match l with
  | [] => ""
  | [x] => x
  | x :: l => x ++ "," ++ join l
  end.

Fixpoint render (v : JsonValue) : string :=
  match v with
  | JText text => text
  | JArray l => "[" ++ join (map render l) ++ "]"
  | JObject l => "{" ++ join (map (fun nv => (escaped (fst nv) ++ ":" ++ render (snd nv))%string) l) ++ "}"
  end.

Definition JString (text : string) : JsonValue := JText (escaped text).
Definition JNumber (v : Z) : JsonValue := JText (snprintf 32 (pretty v)).
Definition JBool (b : bool) : JsonValue := JText (if b then "true" else "false").

(** ** The budget *)

Definition bounded (w : JsonWriter) : Prop := str_len (jw_out w) <= jw_budget w.

(** The output grows, within the budget, and not at all once truncated. *)
Record grows (w w' : JsonWriter) : Prop := {
  gr_budget : jw_budget w' = jw_budget w;
  gr_bounded : bounded w -> bounded w';
  gr_truncated : jw_truncated w = true -> jw_truncated w' = true /\ jw_out w' = jw_out w;
  gr_prefix : exists more, jw_out w' = (jw_out w ++ more)%string
}.

Lemma string_app_nil (s : string) : (s ++ "")%string = s.
Proof. induction s as [|c s IH]; [done|]. exact (f_equal (String.String c) IH). Qed.

Lemma string_app_assoc (s t u : string) : (s ++ (t ++ u))%string = ((s ++ t) ++ u)%string.
Proof. induction s as [|c s IH]; [done|]. exact (f_equal (String.String c) IH). Qed.

Lemma str_len_app s t : str_len (s ++ t) = str_len s + str_len t.
Proof. unfold str_len. induction s as [|c s IH]; [done|]. simpl. lia. Qed.

Lemma str_len_nonneg s : 0 <= str_len s.
Proof. unfold str_len. lia. Qed.

#[export] Instance grows_refl : Reflexive grows.
Proof. intros w. split; [done..|by exists ""%string; rewrite string_app_nil]. Qed.

#[export] Instance grows_trans : Transitive grows.
Proof.
  intros a b c [H1 H2 H3 [m Hm]] [K1 K2 K3 [n Hn]]. split; [congruence|auto| |].
  - intros Ht. destruct (H3 Ht) as [Ht' He]. destruct (K3 Ht') as [? ->]. by split.
  - exists (m ++ n)%string. by rewrite Hn, Hm, string_app_assoc.
Qed.

Class Grows (f : Json) : Prop := grows_by : forall w, grows w (f w).

#[export] Instance Grows_then f g : Grows f -> Grows g -> Grows (f ▷ g).
Proof. intros Hf Hg w. etransitivity; [apply Hf|apply Hg]. Qed.

#[export] Instance Grows_push text : Grows (push text).
Proof.
  intros w. unfold push. destruct (jw_truncated w) eqn:Ht; [reflexivity|].
  destruct (Z.ltb_spec (jw_budget w) (str_len (jw_out w) + str_len text)).
  - cbn. destruct (Z.leb_spec (str_len (jw_out w) + str_len kMarker) (jw_budget w)); split; cbn; try done; try congruence.
    + intros _. unfold bounded. cbn. rewrite str_len_app. lia.
    + by eexists.
    + exists ""%string. by rewrite string_app_nil.
  - split; cbn; try done; [|congruence|by eexists]. unfold bounded. cbn. rewrite str_len_app. lia.
Qed.

(** What only sets a flag. *)
Lemma Grows_flag (f : Json) :
  (forall w, jw_budget (f w) = jw_budget w /\ jw_truncated (f w) = jw_truncated w /\ jw_out (f w) = jw_out w) -> Grows f.
Proof.
  intros H w. destruct (H w) as (H1 & H2 & H3). split; [done| | |].
  - unfold bounded. by rewrite H1, H3.
  - by rewrite H2, H3.
  - exists ""%string. by rewrite H3, string_app_nil.
Qed.

#[export] Instance Grows_need_comma b : Grows (need_comma b).
Proof. by apply Grows_flag. Qed.
#[export] Instance Grows_enter b : Grows (enter b).
Proof. by apply Grows_flag. Qed.
#[export] Instance Grows_leave : Grows leave.
Proof. by apply Grows_flag. Qed.

#[export] Instance Grows_comma : Grows comma.
Proof.
  intros w. unfold comma. destruct (jw_need_comma w).
  - etransitivity; [apply Grows_push|apply Grows_need_comma].
  - apply Grows_need_comma.
Qed.

#[export] Instance Grows_for_each {A} (f : A -> Json) l : (forall a, Grows (f a)) -> Grows (for_each f l).
Proof.
  intros Hf. unfold for_each. induction l as [|a l IH]; intros w; simpl; [reflexivity|].
  etransitivity; [apply Hf|apply IH].
Qed.

#[export] Instance Grows_begin_object : Grows begin_object.
Proof. unfold begin_object. apply _. Qed.
#[export] Instance Grows_end_object : Grows end_object.
Proof. unfold end_object. apply _. Qed.
#[export] Instance Grows_begin_array : Grows begin_array.
Proof. unfold begin_array. apply _. Qed.
#[export] Instance Grows_end_array : Grows end_array.
Proof. unfold end_array. apply _. Qed.
#[export] Instance Grows_value text : Grows (value text).
Proof. unfold value. apply _. Qed.
#[export] Instance Grows_key name : Grows (key name).
Proof. unfold key. apply _. Qed.
#[export] Instance Grows_member name f : Grows f -> Grows (member name f).
Proof. unfold member. apply _. Qed.

(** A document written from the start stays within its budget. *)
Lemma Grows_document f budget : Grows f -> 0 <= budget -> str_len (jw_out (f (json_writer budget))) <= budget.
Proof. intros Hf Hb. pose proof (Hf (json_writer budget)) as H. rewrite <- (gr_budget _ _ H) at 2. apply (gr_bounded _ _ H), Hb. Qed.

(** ** Exactness *)

(** [w] with [text] written after its output. *)
Definition wrote (w : JsonWriter) (text : string) (more : bool) (nesting : list bool) : JsonWriter :=
  mkJsonWriter (jw_out w ++ text) (jw_budget w) false more nesting.

Definition separator (w : JsonWriter) : string := if jw_need_comma w then "," else "".

Definition room (w : JsonWriter) (text : string) : Prop :=
  jw_truncated w = false /\ str_len (jw_out w) + str_len text <= jw_budget w.

(** [f] writes [text], separated from what came before. *)
Definition emits (f : Json) (text : string) (more : bool) : Prop := forall w,
  room w (separator w ++ text) -> f w = wrote w (separator w ++ text) more (jw_in_object w).

(** [f] writes the rest of an object or array whose remaining items are [items]. *)
Fixpoint items_text (first : bool) (items : list string) : string :=
  match items with
  | [] => ""
  | x :: items => (if first then "" else ",") ++ x ++ items_text false items
  end.

Definition finishes_with (close : string) (f : Json) (items : list string) : Prop := forall w,
  room w (items_text (negb (jw_need_comma w)) items ++ close) ->
  f w = wrote w (items_text (negb (jw_need_comma w)) items ++ close) true (removelast (jw_in_object w)).

Lemma room_app w s t : room w (s ++ t) -> room w s /\ room (wrote w s true (jw_in_object w)) t.
Proof.
  intros [Ht Hl]. rewrite str_len_app in Hl. pose proof (str_len_nonneg t). split; [split; [done|lia]|].
  split; [done|]. cbn. rewrite str_len_app. lia.
Qed.

Lemma push_room w text : room w text -> push text w = wrote w text (jw_need_comma w) (jw_in_object w).
Proof.
  intros [Ht Hl]. unfold push. rewrite Ht. destruct (Z.ltb_spec (jw_budget w) (str_len (jw_out w) + str_len text)); [lia|].
  unfold wrote. rewrite <- Ht. by destruct w.
Qed.

Lemma comma_room w : room w (separator w) -> comma w = wrote w (separator w) false (jw_in_object w).
Proof.
  intros H. unfold comma, separator in *. destruct (jw_need_comma w).
  - rewrite push_room by done. done.
  - unfold wrote, need_comma. rewrite string_app_nil. destruct H as [<- _]. by destruct w.
Qed.

Lemma wrote_wrote w s t a b m n : wrote (wrote w s a m) t b n = wrote w (s ++ t) b n.
Proof. unfold wrote. cbn. by rewrite string_app_assoc. Qed.

(** A separator, then [text]. *)
Lemma comma_push w text : room w (separator w ++ text) ->
  push text (comma w) = wrote w (separator w ++ text) false (jw_in_object w).
Proof.
  intros H. pose proof (room_app _ _ _ H) as [H1 [_ H2]]. rewrite comma_room by done. rewrite push_room; [|by split].
  by rewrite wrote_wrote.
Qed.

Lemma separator_false w t n : separator (wrote w t false n) = ""%string.
Proof. done. Qed.

Lemma emits_value text : emits (value text) text true.
Proof. intros w H. unfold value, and_then. by rewrite comma_push. Qed.

Lemma emits_key name f text : emits f text true -> emits (member name f) (escaped name ++ ":" ++ text) true.
Proof.
  intros Hf w H. unfold member, key, and_then. rewrite !string_app_assoc in H.
  pose proof (room_app _ _ _ H) as [H1 _]. pose proof (room_app _ _ _ H1) as [H2 _]. rewrite comma_push by done.
  rewrite push_room.
  2: { destruct H1 as [_ H1]. split; [done|]. cbn in *. rewrite !str_len_app in *. lia. }
  rewrite wrote_wrote, (Hf (wrote w _ _ _)).
  - unfold separator at 1. cbn [jw_need_comma wrote jw_in_object]. rewrite wrote_wrote. by rewrite !string_app_assoc, string_app_nil.
  - destruct H as [_ H]. split; [done|]. 
    rewrite separator_false. cbn [jw_out wrote jw_budget]. rewrite ?str_len_app in *. change (str_len "") with 0. lia.
Qed.

Lemma finishes_close close f : (f = end_object /\ close = "}"%string) \/ (f = end_array /\ close = "]"%string) -> finishes_with close f [].
Proof.
  intros Hf w H. cbn [items_text] in *.
  destruct Hf as [[-> ->]|[-> ->]]; unfold end_object, end_array, and_then; rewrite push_room by done; done.
Qed.

Lemma items_text_cons w x items close :
  (items_text (negb (jw_need_comma w)) (x :: items) ++ close)%string =
  ((separator w ++ x) ++ (items_text false items ++ close))%string.
Proof. unfold separator. cbn [items_text]. rewrite <- !string_app_assoc. by destruct (jw_need_comma w). Qed.

Lemma finishes_item close f g text items :
  emits f text true -> finishes_with close g items -> finishes_with close (f ▷ g) (text :: items).
Proof.
  intros Hf Hg w H. rewrite items_text_cons in *. apply room_app in H as [H1 H2]. unfold and_then. rewrite Hf by done.
  rewrite Hg by done. by rewrite wrote_wrote.
Qed.

Lemma finishes_list {A} close (put : A -> Json) (r : A -> string) l g items :
  (forall a, emits (put a) (r a) true) -> finishes_with close g items ->
  finishes_with close (for_each put l ▷ g) (map r l ++ items).
Proof.
  intros Hp Hg. induction l as [|a l IH]; [exact Hg|]. exact (finishes_item close (put a) (for_each put l ▷ g) (r a) _ (Hp a) IH).
Qed.

Lemma items_text_join items : items_text true items = join items.
Proof.
  destruct items as [|x items]; [done|]. cbn [items_text]. revert x. induction items as [|y items IH]; intros x.
  - cbn. by rewrite string_app_nil.
  - cbn [items_text join] in *. change ("" ++ ?s)%string with s in *. f_equal. rewrite <- IH. done.
Qed.

Lemma emits_open open close object f items :
  finishes_with close f items -> (forall w, removelast (jw_in_object w ++ [object]) = jw_in_object w) ->
  emits (comma ▷ push open ▷ enter object ▷ need_comma false ▷ f) (open ++ join items ++ close) true.
Proof.
  intros Hf Hn w H. unfold and_then. rewrite string_app_assoc in H. pose proof (room_app _ _ _ H) as [H1 H2].
  rewrite comma_push by done. unfold enter, need_comma.
  rewrite Hf; cbn [jw_need_comma negb]; rewrite items_text_join.
  - rewrite <- string_app_assoc in H. rewrite !string_app_assoc. unfold wrote. cbn. rewrite Hn. by rewrite !string_app_assoc.
  - destruct H2 as [_ H2]. split; [done|exact H2].
Qed.

Lemma emits_object f (items : list (string * JsonValue)) :
  finishes_with "}" f (map (fun nv => (escaped (fst nv) ++ ":" ++ render (snd nv))%string) items) ->
  emits (begin_object ▷ f) (render (JObject items)) true.
Proof. intros Hf. apply (emits_open "{" "}" true f _ Hf). intros w. apply removelast_last. Qed.

Lemma emits_array f (items : list JsonValue) :
  finishes_with "]" f (map render items) -> emits (begin_array ▷ f) (render (JArray items)) true.
Proof. intros Hf. apply (emits_open "[" "]" false f _ Hf). intros w. apply removelast_last. Qed.

(** A whole document in a fresh writer. *)
Lemma emits_document f text budget :
  emits f text true -> str_len text <= budget -> jw_out (f (json_writer budget)) = text /\ jw_truncated (f (json_writer budget)) = false.
Proof. intros Hf Hl. rewrite Hf; [done|]. split; [done|exact Hl]. Qed.

(** ** Writing any value *)

(** A value through the writer's calls. *)
Fixpoint write_value (v : JsonValue) : Json :=
  match v with
  | JText text => value text
  | JArray l => begin_array ▷ for_each (fun f => f) (map write_value l) ▷ end_array
  | JObject l => begin_object ▷ for_each (fun f => f) (map (fun nv => member (fst nv) (write_value (snd nv))) l) ▷ end_object
  end.

Section JsonInd.
Context (P : JsonValue -> Prop) (Htext : forall t, P (JText t)) (Harray : forall l, Forall P l -> P (JArray l))
  (Hobject : forall l, Forall (fun nv => P (snd nv)) l -> P (JObject l)).

Fixpoint json_value_ind (v : JsonValue) : P v :=
  match v with
  | JText t => Htext t
  | JArray l => Harray l ((fix go (l : list JsonValue) : Forall P l :=
      match l with [] => List.Forall_nil P | v :: l => List.Forall_cons P v l (json_value_ind v) (go l) end) l)
  | JObject l => Hobject l ((fix go (l : list (string * JsonValue)) : Forall (fun nv => P (snd nv)) l :=
      match l with [] => List.Forall_nil _ | nv :: l => List.Forall_cons _ nv l (json_value_ind (snd nv)) (go l) end) l)
  end.
End JsonInd.

Lemma finishes_each close (fs : list Json) texts g :
  Forall2 (fun f t => emits f t true) fs texts -> finishes_with close g [] ->
  finishes_with close (for_each (fun f => f) fs ▷ g) texts.
Proof.
  intros H Hg. induction H as [|f t fs texts Hf _ IH]; [exact Hg|].
  exact (finishes_item close f (for_each (fun f => f) fs ▷ g) t _ Hf IH).
Qed.

Lemma emits_each {A} (put : A -> Json) (r : A -> string) (l : list A) :
  Forall (fun a => emits (put a) (r a) true) l -> Forall2 (fun f t => emits f t true) (map put l) (map r l).
Proof. induction 1; constructor; auto. Qed.

Lemma emits_write v : emits (write_value v) (render v) true.
Proof.
  induction v as [t|l IH|l IH] using json_value_ind.
  - apply emits_value.
  - apply emits_array. apply finishes_each; [|apply finishes_close; by right]. by apply emits_each.
  - apply emits_object. apply finishes_each; [|apply finishes_close; by left].
    apply (emits_each (fun nv => member (fst nv) (write_value (snd nv)))).
    eapply Forall_impl; [exact IH|]. intros nv Hv. by apply emits_key.
Qed.

(** ** Calls *)

Inductive JsonCall :=
| CallBeginObject | CallEndObject | CallBeginArray | CallEndArray | CallKey (name : string)
| CallString (text : string) | CallU64 (v : Z) | CallI64 (v : Z) | CallBool (b : bool) | CallNull | CallRaw (text : string).

Definition perform_call (c : JsonCall) : Json :=
  match c with
  | CallBeginObject => begin_object
  | CallEndObject => end_object
  | CallBeginArray => begin_array
  | CallEndArray => end_array
  | CallKey name => key name
  | CallString text => value_string text
  | CallU64 v => value_u64 v
  | CallI64 v => value_i64 v
  | CallBool b => value_bool b
  | CallNull => value_null
  | CallRaw text => raw text
  end.

(** ** What the calls say *)

(** The text of a call without any budget, and whether the next value needs a separator;
    [more] is whether this one does. *)
Definition call_text (c : JsonCall) (more : bool) : string * bool :=
  let separated text := ((if more then "," else "") ++ text)%string in
  match c with
  | CallBeginObject => (separated "{", false)
  | CallEndObject => ("}"%string, true)
  | CallBeginArray => (separated "[", false)
  | CallEndArray => ("]"%string, true)
  | CallKey name => (separated (escaped name ++ ":")%string, false)
  | CallString text => (separated (escaped text), true)
  | CallU64 v | CallI64 v => (separated (snprintf 32 (pretty v)), true)
  | CallBool b => (separated (if b then "true" else "false"), true)
  | CallNull => (separated "null", true)
  | CallRaw text => (separated text, true)
  end.

Fixpoint calls_text (calls : list JsonCall) (more : bool) : string :=
  match calls with
  | [] => ""
  | c :: calls => (fst (call_text c more) ++ calls_text calls (snd (call_text c more)))%string
  end.

(** What is left of a document that was cut after [kept]. *)
Definition cut_output (budget : Z) (kept : string) : string :=
  if str_len kept + str_len kMarker <=? budget then (kept ++ kMarker)%string else kept.

(** The writer after calls that say [text]. *)
Definition follows (budget : Z) (w : JsonWriter) (text : string) (more : bool) : Prop :=
  jw_budget w = budget /\
  if jw_truncated w
  then budget < str_len text /\ exists kept rest, text = (kept ++ rest)%string /\ str_len kept <= budget /\ jw_out w = cut_output budget kept
  else jw_out w = text /\ jw_need_comma w = more /\ str_len text <= budget.

Lemma follows_push budget w text more t : follows budget w text more -> follows budget (push t w) (text ++ t) more.
Proof.
  intros [Hb Hw]. unfold push, follows. pose proof (str_len_nonneg t). destruct (jw_truncated w) eqn:Ht.
  - rewrite Ht. destruct Hw as (Hl & kept & rest & -> & Hk & Ho). rewrite str_len_app. split_and!; [done|lia|].
    exists kept, (rest ++ t)%string. by rewrite string_app_assoc.
  - destruct Hw as (Ho & Hm & Hl). rewrite Hb, Ho. destruct (Z.ltb_spec budget (str_len text + str_len t)); cbn.
    + assert (budget < str_len (text ++ t)) as Hover by (rewrite str_len_app; lia). rewrite Hb, Ho.
      assert (forall o, o = cut_output budget text -> exists kept rest,
        (text ++ t)%string = (kept ++ rest)%string /\ str_len kept <= budget /\ o = cut_output budget kept) as Hcut.
      { intros o ->. by exists text, t. }
      unfold cut_output in Hcut at 1.
      destruct (str_len text + str_len kMarker <=? budget); cbn; (split; [done|split; [done|by apply Hcut]]).
    + rewrite Ht, Ho, str_len_app. split_and!; [done|done|done|lia].
Qed.

(** In a cut document flags no longer matter. *)
Lemma follows_flag (f : Json) budget w text more more' :
  jw_budget (f w) = jw_budget w -> jw_truncated (f w) = jw_truncated w -> jw_out (f w) = jw_out w ->
  (jw_truncated w = false -> jw_need_comma w = more -> jw_need_comma (f w) = more') ->
  follows budget w text more -> follows budget (f w) text more'.
Proof.
  intros Hb Ht Ho Hm [H H']. unfold follows. rewrite Hb, Ht, Ho. split; [done|].
  destruct (jw_truncated w); [done|]. destruct H' as (? & ? & ?). split_and!; auto.
Qed.

Lemma follows_comma budget w text more :
  follows budget w text more -> follows budget (comma w) (text ++ (if more then "," else "")) false.
Proof.
  intros Hw. unfold comma. destruct (jw_truncated w) eqn:Ht.
  - assert ((if jw_need_comma w then push "," w else w) = w) as -> by (unfold push; rewrite Ht; by destruct (jw_need_comma w)).
    apply (follows_flag (need_comma false) budget w _ more); try done.
    pose proof (follows_push budget w text more (if more then "," else "") Hw) as H. unfold push in H. by rewrite Ht in H.
  - pose proof Hw as [_ Hw']. rewrite Ht in Hw'. destruct Hw' as (_ & -> & _).
    apply (follows_flag (need_comma false) budget _ _ more); try done.
    destruct more; [by apply follows_push|by rewrite string_app_nil].
Qed.

Lemma follows_call budget c w text more : follows budget w text more ->
  follows budget (perform_call c w) (text ++ fst (call_text c more)) (snd (call_text c more)).
Proof.
  intros Hw. pose proof (follows_comma _ _ _ _ Hw) as Hc.
  destruct c; cbn [perform_call call_text fst snd]; rewrite ?string_app_assoc;
    unfold begin_object, end_object, begin_array, end_array, key, value_string, value_u64, value_i64, value_bool, value_null, raw, value, and_then;
    first [ apply follows_push, follows_push, Hc
          | apply (follows_flag (fun w => need_comma true w) budget _ _ false); try done; apply follows_push, Hc
          | apply (follows_flag (fun w => need_comma true (leave w)) budget _ _ more); try done; apply follows_push, Hw
          | apply (follows_flag (fun w => need_comma false (enter true w)) budget _ _ false); try done; apply follows_push, Hc
          | apply (follows_flag (fun w => need_comma false (enter false w)) budget _ _ false); try done; apply follows_push, Hc ].
Qed.

Lemma follows_calls budget calls : forall w text more, follows budget w text more ->
  exists more', follows budget (for_each perform_call calls w) (text ++ calls_text calls more) more'.
Proof.
  induction calls as [|c calls IH]; intros w text more Hw; cbn [calls_text]; [exists more; by rewrite string_app_nil|].
  destruct (IH _ _ _ (follows_call budget c w text more Hw)) as [more' H]. exists more'. by rewrite string_app_assoc.
Qed.

#[export] Instance Grows_call c : Grows (perform_call c).
Proof. destruct c; cbn [perform_call]; unfold value_string, value_u64, value_i64, value_bool, value_null, raw; apply _. Qed.

(** ** Strings *)

Definition unhex (c : Ascii.ascii) : Z :=
  let n := Z.of_N (Ascii.N_of_ascii c) in if n <? 58 then n - 48 else n - 87.

(** What a reader of JSON makes of the text between the quotes. *)
Fixpoint unescape (text : string) : option string :=
  match text with
  | EmptyString => Some EmptyString
  | String.String c rest =>
      let n := Z.of_N (Ascii.N_of_ascii c) in
      if n =? 34 then None
      else if n <? 0x20 then None
      else if negb (n =? 92) then String.String c <$> unescape rest
      else match rest with
        | EmptyString => None
        | String.String e rest' =>
            let m := Z.of_N (Ascii.N_of_ascii e) in
            if (m =? 34) || (m =? 92) then String.String e <$> unescape rest'
            else if m =? 110 then String.String "010"%char <$> unescape rest'
            else if m =? 114 then String.String "013"%char <$> unescape rest'
            else if m =? 116 then String.String "009"%char <$> unescape rest'
            else if m =? 117 then
              match rest' with
              | String.String _ (String.String _ (String.String h (String.String l rest''))) =>
                  String.String (Ascii.ascii_of_N (Z.to_N (16 * unhex h + unhex l))) <$> unescape rest''
              | _ => None
              end
            else None
        end
  end.

Lemma unescape_char c rest : unescape (escape_char c ++ rest) = String.String c <$> unescape rest.
Proof. destruct c as [[] [] [] [] [] [] [] []]; reflexivity. Qed.

Lemma unescape_escape text : unescape (escape_body text) = Some text.
Proof. induction text as [|c text IH]; [done|]. cbn [escape_body]. by rewrite unescape_char, IH. Qed.

(** ** Properties *)

(** C36. The writer writes what its calls say until the budget is reached, and then nothing more.
    Whatever calls are made, in whatever order (even ones that do not nest), with [text] what
    they say without a budget: the output stays within the budget; the writer is truncated
    exactly when [text] exceeds the budget; if it is not, the output is [text]; if it is, the
    output is a part that [text] starts with, and after it the marker, if that still fits. Every
    output is a prefix of the later ones, and once truncated no call writes anything. *)
Theorem json_writer_bounded (budget : Z) (before after : list JsonCall) :
  0 <= budget ->
  let text := calls_text before false in
  let w := for_each perform_call before (json_writer budget) in
  let w' := for_each perform_call after w in
  str_len (jw_out w) <= budget /\ jw_truncated w = bool_decide (budget < str_len text) /\
  (if jw_truncated w
   then exists kept rest, text = (kept ++ rest)%string /\ str_len kept <= budget /\ jw_out w = cut_output budget kept
   else jw_out w = text) /\
  str_len (jw_out w') <= budget /\ (exists more, jw_out w' = (jw_out w ++ more)%string) /\
  (jw_truncated w = true -> jw_truncated w' = true /\ jw_out w' = jw_out w).
Proof.
  intros Hb text w w'. assert (grows (json_writer budget) w) as H1 by (apply Grows_for_each; apply _).
  assert (grows w w') as H2 by (apply Grows_for_each; apply _).
  assert (bounded (json_writer budget)) as H0 by exact Hb. pose proof (gr_bounded _ _ H1 H0) as Hw.
  pose proof (gr_bounded _ _ H2 Hw) as Hw'. unfold bounded in *. rewrite (gr_budget _ _ H2), (gr_budget _ _ H1) in Hw'.
  rewrite (gr_budget _ _ H1) in Hw. assert (follows budget (json_writer budget) "" false) as Hf by done.
  destruct (follows_calls budget before _ _ _ Hf) as (more & _ & Hfw). cbn [String.append] in Hfw. fold text w in Hfw.
  split; [exact Hw|]. split.
  { destruct (jw_truncated w); symmetry; [apply bool_decide_eq_true|apply bool_decide_eq_false]; [by destruct Hfw|].
    destruct Hfw as (_ & _ & Hle). by apply Z.le_ngt. }
  split; [by destruct (jw_truncated w); destruct Hfw|].
  split; [exact Hw'|split; [apply (gr_prefix _ _ H2)|apply (gr_truncated _ _ H2)]].
Qed.

(** A value that fits is written exactly. Writing any tree of objects, arrays and scalars
    through the writer's calls gives its JSON text, with separators and quotes in place, when
    that text fits the budget, and is reported as not truncated; and the text of a string
    reads back as that string, whatever bytes it holds. *)
Theorem json_value_exact (v : JsonValue) (budget : Z) (text : string) :
  str_len (render v) <= budget ->
  jw_out (write_value v (json_writer budget)) = render v /\
  jw_truncated (write_value v (json_writer budget)) = false /\
  escaped text = (quote ++ escape_body text ++ quote)%string /\ unescape (escape_body text) = Some text.
Proof.
  intros Hl. destruct (emits_document _ _ budget (emits_write v) Hl) as [H1 H2]. split; [done|]. split; [done|].
  split; [done|apply unescape_escape].
Qed.

Lemma json_writer_bounded_witness :
  let w := for_each perform_call [CallBeginObject; CallKey "units"; CallU64 1234567] (json_writer 12) in
  str_len (jw_out w) <= 12 /\ jw_truncated w = true.
Proof.
  assert (0 <= 12) as Hb by (vm_compute; discriminate).
  destruct (json_writer_bounded 12 [CallBeginObject; CallKey "units"; CallU64 1234567] [] Hb) as (Hl & Ht & _).
  split; [exact Hl|]. etransitivity; [exact Ht|reflexivity].
Defined.

Definition sample_value : JsonValue :=
  JObject [("pool"%string, JNumber 2); ("free"%string, JArray [JBool true; JString ("a" ++ quote)])].

Lemma json_value_exact_witness :
  jw_out (write_value sample_value (json_writer 100)) = render sample_value /\ str_len (render sample_value) = 30.
Proof.
  destruct (json_value_exact sample_value 100 "x") as (H & _); [vm_compute; discriminate|].
  split; [exact H|vm_compute; reflexivity].
Defined.

(** A document that is cut is not JSON: the marker is written, the closing bracket is not. *)
Example cut_document_stays_open :
  jw_out (for_each perform_call [CallBeginObject; CallKey "a"; CallU64 1; CallKey "bcdefghijklmnopqrstuvwxyz"; CallU64 2; CallEndObject]
    (json_writer 31)) = ("{" ++ quote ++ "a" ++ quote ++ ":1," ++ kMarker)%string.
Proof. vm_compute. reflexivity. Qed.
