(* ===== verification/Explain.v ===== *)
(** * What the fabric prints

    [src/explain.cpp] and the other renderings of a state: [describe], [to_hex],
    [format_pool_accounting], [accounting_text], and the JSON of explanations, summaries,
    recovery reports and capabilities. [snprintf] cuts where its buffer ends. *)

From Stdlib Require Import Ascii.
From stdpp Require Import pretty.
From S2P Require Import Prelude Ints Hash Enums Status Codec Model Wire Policy Accounting Authority Persist State Grant Alloc Lifecycle Books Triples Layout Safety AllocSafety Topology Query Json.

(** ** Text *)

(** [%016llx]. *)
Definition hex16 (v : Z) : string :=
  fold_right (fun i s => String.String (hex_char (Z.land (Z.shiftr v (4 * i)) 15)) s) ""
    [15; 14; 13; 12; 11; 10; 9; 8; 7; 6; 5; 4; 3; 2; 1; 0].

Definition to_hex (d : Digest) : string := snprintf 33 (hex16 (dg_hi d) ++ hex16 (dg_lo d)).

Definition describe_entry (e : AuthorityEntry) : string :=
  snprintf 96 (AuthorityKind.to_string (ae_kind e) ++ "=" ++ pretty (ae_value e) ++ "@" ++ pretty (ae_generation e)).

(** [AuthorityVector::describe]. *)
Definition describe (v : AuthorityVector) : string :=
  fold_left (fun out e =>
    let out := if String.eqb out "" then out else (out ++ ";")%string in (out ++ describe_entry e)%string)
    (av_entries v) ""%string.

Definition append_u64 (label : string) (v : Z) (out : string) : string :=
  ((if String.eqb out "" then out else out ++ " ") ++ snprintf 64 (label ++ "=" ++ pretty v))%string.

Definition append_text (text : string) (out : string) : string := (out ++ text)%string.

(** [out] through one append after another. *)
Definition append_all (fs : list (string -> string)) (out : string) : string := fold_left (fun s f => f s) fs out.

Definition format_pool_accounting (a : PoolAccounting) : string :=
  snprintf 512 ("pool=" ++ pretty (pa_pool a) ++ " gen=" ++ pretty (pa_pool_generation a) ++ " raw=" ++ pretty (pa_raw a) ++
    " protected=" ++ pretty (pa_protected_units a) ++ " usable=" ++ pretty (pa_usable a) ++
    " allocated=" ++ pretty (pa_allocated a) ++ " reserved=" ++ pretty (pa_reserved a) ++
    " committed=" ++ pretty (pa_committed a) ++ " pinned=" ++ pretty (pa_pinned a) ++
    " reclaimable=" ++ pretty (pa_reclaimable a) ++ " free=" ++ pretty (pa_free a) ++
    " borrowed_in=" ++ pretty (pa_borrowed_in a) ++ " lent_out=" ++ pretty (pa_lent_out a) ++
    " overcommit=" ++ pretty (pa_overcommit_used a) ++ " limit=" ++ pretty (pa_overcommit_limit a)).

Definition newline : string := String.String "010"%char "".

(** One line per pool in the order of their ids, and the verdict of a full audit. *)
Definition accounting_text : M string := gets (fun s =>
  let ids := merge_sort Z.le (map fst (map_to_list (im_pools s))) in
  let out := fold_left (fun out id => match im_pools s !! id with
      | Some e => (out ++ format_pool_accounting (accounting_of s e) ++ newline)%string
      | None => out
      end) ids ""%string in
  let report := deep_verify s in
  (out ++ "closure=" ++ (if rep_closed report then "closed" else "VIOLATED") ++ " pools=" ++
    pretty (rep_pools_checked report) ++ newline)%string).

(** [Explanation::to_text]. *)
Definition to_text (x : Explanation) : string :=
  let i := ex_intent x in
  append_all ([
    append_text (snprintf 160 ("pool=" ++ pretty (ex_pool x) ++ " gen=" ++ pretty (ex_pool_generation x) ++ " epoch=" ++ pretty (ex_epoch x)));
    append_u64 "raw" (ex_raw_units x);
    append_u64 "protected" (ex_protected_headroom_units x);
    append_u64 "usable" (ex_usable_units x);
    append_u64 "allocated" (ex_allocated_units x);
    append_u64 "reserved" (ex_reserved_units x);
    append_u64 "committed" (ex_committed_units x);
    append_u64 "pinned" (ex_pinned_units x);
    append_u64 "reclaimable" (ex_reclaimable_units x);
    append_u64 "free" (ex_free_units x);
    append_u64 "borrowed_in" (ex_borrowed_in_units x);
    append_u64 "lent_out" (ex_lent_out_units x);
    append_u64 "overcommit_used" (ex_overcommit_used_units x);
    append_u64 "overcommit_limit" (ex_overcommit_limit_units x);
    append_u64 "utilization_bp" (ex_utilization_bp x);
    append_u64 "binding_bp" (ex_binding_bp x);
    append_text " pressure=";
    append_text (PressureState.to_string (ex_pressure x));
    append_text " binding=";
    append_text (BindingConstraint.to_string (ex_binding x));
    append_u64 "queues" (Z.of_nat (length (ex_queues x)));
    append_text " closure=";
    append_text (if rep_closed (ex_accounting x) then "closed" else "VIOLATED")%string;
    append_text " authority=";
    append_text (describe (ex_authority x));
    append_text " digest=";
    append_text (to_hex (ex_digest x))] ++
    (if intent_any i then
       [append_text " intent="] ++
       (if ci_reduce_required i then [append_u64 "reduce_to" (ci_reduce_to_units i)] else []) ++
       (if ci_fence_required i then [append_text " fence"] else []) ++
       (if ci_revalidate_required i then [append_text " revalidate"] else []) ++
       (if negb (ci_reclaim_target_units i =? 0) then [append_u64 "reclaim_target" (ci_reclaim_target_units i)] else [])
     else [])) ""%string.

(** ** JSON *)

Definition json_capacity (x : Explanation) : Json :=
  begin_object ▷
  member "raw" (value_u64 (ex_raw_units x)) ▷
  member "protected_headroom" (value_u64 (ex_protected_headroom_units x)) ▷
  member "usable" (value_u64 (ex_usable_units x)) ▷
  member "allocated" (value_u64 (ex_allocated_units x)) ▷
  member "reserved" (value_u64 (ex_reserved_units x)) ▷
  member "committed" (value_u64 (ex_committed_units x)) ▷
  member "pinned" (value_u64 (ex_pinned_units x)) ▷
  member "reclaimable" (value_u64 (ex_reclaimable_units x)) ▷
  member "free" (value_u64 (ex_free_units x)) ▷
  member "borrowed_in" (value_u64 (ex_borrowed_in_units x)) ▷
  member "lent_out" (value_u64 (ex_lent_out_units x)) ▷
  member "overcommit_used" (value_u64 (ex_overcommit_used_units x)) ▷
  member "overcommit_limit" (value_u64 (ex_overcommit_limit_units x)) ▷
  end_object.

Definition json_thresholds (t : Thresholds) : Json :=
  begin_object ▷
  member "elevated_bp" (value_u64 (th_elevated_bp t)) ▷
  member "high_bp" (value_u64 (th_high_bp t)) ▷
  member "critical_bp" (value_u64 (th_critical_bp t)) ▷
  end_object.

Definition json_evidence (ev : PressureEvidence) : Json :=
  begin_object ▷
  member "snapshot" (value_u64 (pe_snapshot ev)) ▷
  member "fresh" (value_bool (pe_fresh ev)) ▷
  member "epoch_match" (value_bool (pe_epoch_match ev)) ▷
  member "generation_match" (value_bool (pe_generation_match ev)) ▷
  member "age_ticks" (value_u64 (pe_age_ticks ev)) ▷
  member "reason" (value_string (ErrorCode.to_string (pe_reason ev))) ▷
  member "detail" (value_string (pe_detail ev)) ▷
  end_object.

Definition json_pressure (x : Explanation) : Json :=
  begin_object ▷
  member "state" (value_string (PressureState.to_string (ex_pressure x))) ▷
  member "utilization_bp" (value_u64 (ex_utilization_bp x)) ▷
  member "binding_bp" (value_u64 (ex_binding_bp x)) ▷
  member "thresholds" (json_thresholds (ex_thresholds x)) ▷
  member "evidence" (json_evidence (ex_evidence x)) ▷
  end_object.

Definition json_intent (i : CorrectiveIntent) : Json :=
  begin_object ▷
  member "reduce_required" (value_bool (ci_reduce_required i)) ▷
  member "reduce_to" (value_u64 (ci_reduce_to_units i)) ▷
  member "fence_required" (value_bool (ci_fence_required i)) ▷
  member "revalidate_required" (value_bool (ci_revalidate_required i)) ▷
  member "reclaim_target" (value_u64 (ci_reclaim_target_units i)) ▷
  end_object.

Definition json_entry (e : AuthorityEntry) : Json :=
  begin_object ▷
  member "kind" (value_string (AuthorityKind.to_string (ae_kind e))) ▷
  member "value" (value_u64 (ae_value e)) ▷
  member "generation" (value_u64 (ae_generation e)) ▷
  end_object.

Definition json_authority (v : AuthorityVector) : Json :=
  begin_object ▷
  member "digest" (value_string (to_hex (av_digest v))) ▷
  member "entries" (begin_array ▷ for_each json_entry (av_entries v) ▷ end_array) ▷
  end_object.

Definition json_usage (u : QueueUsage) : Json :=
  begin_object ▷
  member "queue" (value_u64 (qu_queue u)) ▷
  member "generation" (value_u64 (qu_queue_generation u)) ▷
  member "committed" (value_u64 (qu_committed_units u)) ▷
  member "reserved" (value_u64 (qu_reserved_units u)) ▷
  member "allocations" (value_u64 (qu_allocation_count u)) ▷
  end_object.

(** [Explanation::write_json]. *)
Definition write_json (x : Explanation) : Json :=
  begin_object ▷
  member "pool" (value_u64 (ex_pool x)) ▷
  member "pool_generation" (value_u64 (ex_pool_generation x)) ▷
  member "epoch" (value_u64 (ex_epoch x)) ▷
  member "boot_hi" (value_u64 (bi_hi (ex_boot x))) ▷
  member "boot_lo" (value_u64 (bi_lo (ex_boot x))) ▷
  member "sequence" (value_u64 (ex_sequence x)) ▷
  member "generated_at" (value_u64 (ex_generated_at x)) ▷
  member "capacity" (json_capacity x) ▷
  member "pressure" (json_pressure x) ▷
  member "binding_constraint" (value_string (BindingConstraint.to_string (ex_binding x))) ▷
  member "corrective_intent" (json_intent (ex_intent x)) ▷
  member "authority" (json_authority (ex_authority x)) ▷
  member "accounting_closed" (value_bool (rep_closed (ex_accounting x))) ▷
  member "accounting_violations" (value_u64 (Z.of_nat (length (rep_violations (ex_accounting x))))) ▷
  member "queues" (begin_array ▷ for_each json_usage (ex_queues x) ▷ end_array) ▷
  member "digest" (value_string (to_hex (ex_digest x))) ▷
  end_object.

(** [Explanation::to_json]. *)
Definition explanation_json (x : Explanation) : string := jw_out (write_json x (json_writer 16384)).

Definition write_summary (s : FabricSummary) : Json :=
  begin_object ▷
  member "epoch" (value_u64 (fs_epoch s)) ▷
  member "boot_hi" (value_u64 (bi_hi (fs_boot s))) ▷
  member "boot_lo" (value_u64 (bi_lo (fs_boot s))) ▷
  member "pool_count" (value_u64 (fs_pool_count s)) ▷
  member "queue_count" (value_u64 (fs_queue_count s)) ▷
  member "allocation_count" (value_u64 (fs_allocation_count s)) ▷
  member "live_allocations" (value_u64 (fs_live_allocations s)) ▷
  member "raw_total" (value_u64 (fs_raw_total s)) ▷
  member "protected_total" (value_u64 (fs_protected_total s)) ▷
  member "allocated_total" (value_u64 (fs_allocated_total s)) ▷
  member "free_total" (value_u64 (fs_free_total s)) ▷
  member "overcommit_total" (value_u64 (fs_overcommit_total s)) ▷
  member "borrowed_total" (value_u64 (fs_borrowed_total s)) ▷
  member "lent_total" (value_u64 (fs_lent_total s)) ▷
  member "accounting_closed" (value_bool (rep_closed (fs_accounting s))) ▷
  member "accounting_pools_checked" (value_u64 (rep_pools_checked (fs_accounting s))) ▷
  member "accounting_violations" (value_u64 (Z.of_nat (length (rep_violations (fs_accounting s))))) ▷
  end_object.

(** [FabricSummary::to_json]. *)
Definition summary_json (s : FabricSummary) : string := jw_out (write_summary s (json_writer 4096)).

Definition json_unfinished (a : UnfinishedAttempt) : Json :=
  begin_object ▷
  member "attempt" (value_u64 (ua_attempt a)) ▷
  member "kind" (value_string (AttemptKind.to_string (ua_kind a))) ▷
  member "allocation" (value_u64 (ua_allocation a)) ▷
  member "units" (value_u64 (ua_units a)) ▷
  end_object.

Definition write_recovery (r : RecoveryReport) : Json :=
  begin_object ▷
  member "outcome" (value_string (RecoveryOutcome.to_string (rr_outcome r))) ▷
  member "durable_state_present" (value_bool (rr_durable_state_present r)) ▷
  member "snapshot_loaded" (value_bool (rr_snapshot_loaded r)) ▷
  member "snapshot_integrity_verified" (value_bool (rr_snapshot_integrity_verified r)) ▷
  member "journal_loaded" (value_bool (rr_journal_loaded r)) ▷
  member "snapshot_format_version" (value_u64 (rr_snapshot_format_version r)) ▷
  member "journal_format_version" (value_u64 (rr_journal_format_version r)) ▷
  member "snapshot_payload_bytes" (value_u64 (rr_snapshot_payload_bytes r)) ▷
  member "journal_records_read" (value_u64 (rr_journal_records_read r)) ▷
  member "journal_records_applied" (value_u64 (rr_journal_records_applied r)) ▷
  member "journal_records_rejected" (value_u64 (rr_journal_records_rejected r)) ▷
  member "journal_bytes_discarded" (value_u64 (rr_journal_bytes_discarded r)) ▷
  member "journal_records_discarded" (value_u64 (rr_journal_records_discarded r)) ▷
  member "durable_epoch" (value_u64 (rr_durable_epoch r)) ▷
  member "new_epoch" (value_u64 (rr_new_epoch r)) ▷
  member "boot_hi" (value_u64 (bi_hi (rr_boot r))) ▷
  member "boot_lo" (value_u64 (bi_lo (rr_boot r))) ▷
  member "previous_boot_hi" (value_u64 (bi_hi (rr_previous_boot r))) ▷
  member "previous_boot_lo" (value_u64 (bi_lo (rr_previous_boot r))) ▷
  member "pools_restored" (value_u64 (rr_pools_restored r)) ▷
  member "policies_restored" (value_u64 (rr_policies_restored r)) ▷
  member "queues_restored" (value_u64 (rr_queues_restored r)) ▷
  member "allocations_restored" (value_u64 (rr_allocations_restored r)) ▷
  member "allocations_restored_as_uncommitted" (value_u64 (rr_allocations_restored_as_uncommitted r)) ▷
  member "pressure_snapshots_invalidated" (value_u64 (rr_pressure_snapshots_invalidated r)) ▷
  member "fences_restored" (value_u64 (rr_fences_restored r)) ▷
  member "unfinished_attempts" (begin_array ▷ for_each json_unfinished (rr_unfinished_attempts r) ▷ end_array) ▷
  member "warnings" (begin_array ▷ for_each value_string (rr_warnings r) ▷ end_array) ▷
  end_object.

(** [RecoveryReport::to_json]. *)
Definition recovery_json (r : RecoveryReport) : string := jw_out (write_recovery r (json_writer 4096)).

(** What the build declares; the build type, the compiler and the sanitizer are the
    preprocessor's. *)
Record Capabilities := mkCapabilities {
  cb_durability : bool; cb_multiprocess_transport : bool; cb_address_sanitizer : bool;
  cb_physical_device_backend : bool; cb_distributed_consensus : bool; cb_build_type : string; cb_compiler : string
}.

Definition build_id : string := "1.0.0".

Definition capabilities (address_sanitizer : bool) (compiler build_type : string) : Capabilities :=
  mkCapabilities true true address_sanitizer false false build_type compiler.

Definition write_capabilities (c : Capabilities) : Json :=
  begin_object ▷
  member "durability" (value_bool (cb_durability c)) ▷
  member "multiprocess_transport" (value_bool (cb_multiprocess_transport c)) ▷
  member "address_sanitizer" (value_bool (cb_address_sanitizer c)) ▷
  member "physical_device_backend" (value_bool (cb_physical_device_backend c)) ▷
  member "distributed_consensus" (value_bool (cb_distributed_consensus c)) ▷
  member "build_type" (value_string (cb_build_type c)) ▷
  member "compiler" (value_string (cb_compiler c)) ▷
  member "version" (value_string build_id) ▷
  end_object.

(** [Capabilities::to_json]. *)
Definition capabilities_json (c : Capabilities) : string := jw_out (write_capabilities c (json_writer 1024)).

(** ** The documents as values *)

Definition summary_value (s : FabricSummary) : JsonValue := JObject [
  ("epoch"%string, JNumber (fs_epoch s));
  ("boot_hi"%string, JNumber (bi_hi (fs_boot s)));
  ("boot_lo"%string, JNumber (bi_lo (fs_boot s)));
  ("pool_count"%string, JNumber (fs_pool_count s));
  ("queue_count"%string, JNumber (fs_queue_count s));
  ("allocation_count"%string, JNumber (fs_allocation_count s));
  ("live_allocations"%string, JNumber (fs_live_allocations s));
  ("raw_total"%string, JNumber (fs_raw_total s));
  ("protected_total"%string, JNumber (fs_protected_total s));
  ("allocated_total"%string, JNumber (fs_allocated_total s));
  ("free_total"%string, JNumber (fs_free_total s));
  ("overcommit_total"%string, JNumber (fs_overcommit_total s));
  ("borrowed_total"%string, JNumber (fs_borrowed_total s));
  ("lent_total"%string, JNumber (fs_lent_total s));
  ("accounting_closed"%string, JBool (rep_closed (fs_accounting s)));
  ("accounting_pools_checked"%string, JNumber (rep_pools_checked (fs_accounting s)));
  ("accounting_violations"%string, JNumber (Z.of_nat (length (rep_violations (fs_accounting s)))))].

Definition entry_value (e : AuthorityEntry) : JsonValue := JObject [
  ("kind"%string, JString (AuthorityKind.to_string (ae_kind e)));
  ("value"%string, JNumber (ae_value e));
  ("generation"%string, JNumber (ae_generation e))].

Definition usage_value (u : QueueUsage) : JsonValue := JObject [
  ("queue"%string, JNumber (qu_queue u));
  ("generation"%string, JNumber (qu_queue_generation u));
  ("committed"%string, JNumber (qu_committed_units u));
  ("reserved"%string, JNumber (qu_reserved_units u));
  ("allocations"%string, JNumber (qu_allocation_count u))].

Definition capacity_value (x : Explanation) : JsonValue := JObject [
  ("raw"%string, JNumber (ex_raw_units x));
  ("protected_headroom"%string, JNumber (ex_protected_headroom_units x));
  ("usable"%string, JNumber (ex_usable_units x));
  ("allocated"%string, JNumber (ex_allocated_units x));
  ("reserved"%string, JNumber (ex_reserved_units x));
  ("committed"%string, JNumber (ex_committed_units x));
  ("pinned"%string, JNumber (ex_pinned_units x));
  ("reclaimable"%string, JNumber (ex_reclaimable_units x));
  ("free"%string, JNumber (ex_free_units x));
  ("borrowed_in"%string, JNumber (ex_borrowed_in_units x));
  ("lent_out"%string, JNumber (ex_lent_out_units x));
  ("overcommit_used"%string, JNumber (ex_overcommit_used_units x));
  ("overcommit_limit"%string, JNumber (ex_overcommit_limit_units x))].

Definition pressure_value (x : Explanation) : JsonValue := JObject [
  ("state"%string, JString (PressureState.to_string (ex_pressure x)));
  ("utilization_bp"%string, JNumber (ex_utilization_bp x));
  ("binding_bp"%string, JNumber (ex_binding_bp x));
  ("thresholds"%string, JObject [
    ("elevated_bp"%string, JNumber (th_elevated_bp (ex_thresholds x)));
    ("high_bp"%string, JNumber (th_high_bp (ex_thresholds x)));
    ("critical_bp"%string, JNumber (th_critical_bp (ex_thresholds x)))]);
  ("evidence"%string, JObject [
    ("snapshot"%string, JNumber (pe_snapshot (ex_evidence x)));
    ("fresh"%string, JBool (pe_fresh (ex_evidence x)));
    ("epoch_match"%string, JBool (pe_epoch_match (ex_evidence x)));
    ("generation_match"%string, JBool (pe_generation_match (ex_evidence x)));
    ("age_ticks"%string, JNumber (pe_age_ticks (ex_evidence x)));
    ("reason"%string, JString (ErrorCode.to_string (pe_reason (ex_evidence x))));
    ("detail"%string, JString (pe_detail (ex_evidence x)))])].

Definition explanation_value (x : Explanation) : JsonValue := JObject [
  ("pool"%string, JNumber (ex_pool x));
  ("pool_generation"%string, JNumber (ex_pool_generation x));
  ("epoch"%string, JNumber (ex_epoch x));
  ("boot_hi"%string, JNumber (bi_hi (ex_boot x)));
  ("boot_lo"%string, JNumber (bi_lo (ex_boot x)));
  ("sequence"%string, JNumber (ex_sequence x));
  ("generated_at"%string, JNumber (ex_generated_at x));
  ("capacity"%string, capacity_value x);
  ("pressure"%string, pressure_value x);
  ("binding_constraint"%string, JString (BindingConstraint.to_string (ex_binding x)));
  ("corrective_intent"%string, JObject [
    ("reduce_required"%string, JBool (ci_reduce_required (ex_intent x)));
    ("reduce_to"%string, JNumber (ci_reduce_to_units (ex_intent x)));
    ("fence_required"%string, JBool (ci_fence_required (ex_intent x)));
    ("revalidate_required"%string, JBool (ci_revalidate_required (ex_intent x)));
    ("reclaim_target"%string, JNumber (ci_reclaim_target_units (ex_intent x)))]);
  ("authority"%string, JObject [
    ("digest"%string, JString (to_hex (av_digest (ex_authority x))));
    ("entries"%string, JArray (map entry_value (av_entries (ex_authority x))))]);
  ("accounting_closed"%string, JBool (rep_closed (ex_accounting x)));
  ("accounting_violations"%string, JNumber (Z.of_nat (length (rep_violations (ex_accounting x)))));
  ("queues"%string, JArray (map usage_value (ex_queues x)));
  ("digest"%string, JString (to_hex (ex_digest x)))].

(** ** The writers write those values *)

Lemma emits_scalar text : emits (value text) (render (JText text)) true.
Proof. apply emits_value. Qed.

Lemma finishes_member name f v g items :
  emits f (render v) true ->
  finishes_with "}" g (map (fun nv => (escaped (fst nv) ++ ":" ++ render (snd nv))%string) items) ->
  finishes_with "}" (member name f ▷ g) (map (fun nv => (escaped (fst nv) ++ ":" ++ render (snd nv))%string) ((name, v) :: items)).
Proof. intros Hf Hg. apply finishes_item; [by apply emits_key|exact Hg]. Qed.

Lemma document_end : finishes_with "}" end_object (map (fun nv => (escaped (fst nv) ++ ":" ++ render (snd nv))%string) []).
Proof. apply finishes_close. by left. Qed.

Lemma emits_list {A} (put : A -> Json) (r : A -> JsonValue) l :
  (forall a, emits (put a) (render (r a)) true) ->
  emits (begin_array ▷ for_each put l ▷ end_array) (render (JArray (map r l))) true.
Proof.
  intros H. apply emits_array. rewrite map_map, <- (app_nil_r (map _ l)).
  apply (finishes_list "]" put (fun a => render (r a))); [exact H|]. apply finishes_close. by right.
Qed.

Ltac emit_tree :=
  repeat first [apply finishes_member | apply document_end | apply emits_scalar | apply emits_object | apply emits_list; intros ?].

Lemma emits_summary s : emits (write_summary s) (render (summary_value s)) true.
Proof. unfold write_summary, summary_value. emit_tree. Qed.

Lemma emits_explanation x : emits (write_json x) (render (explanation_value x)) true.
Proof.
  unfold write_json, explanation_value, capacity_value, pressure_value, json_capacity, json_pressure, json_intent, json_authority,
    json_thresholds, json_evidence, json_entry, json_usage. emit_tree.
Qed.

Ltac grow :=
  repeat first [apply Grows_begin_object | apply Grows_end_object | apply Grows_begin_array | apply Grows_end_array
    | apply Grows_value | apply Grows_member | apply Grows_for_each; intros ? | apply Grows_then].

#[export] Instance Grows_write_json x : Grows (write_json x).
Proof.
  unfold write_json, json_capacity, json_pressure, json_intent, json_authority, json_thresholds, json_evidence, json_entry,
    json_usage, value_string, value_u64, value_bool. grow.
Qed.

#[export] Instance Grows_write_summary s : Grows (write_summary s).
Proof. unfold write_summary, value_u64, value_bool. grow. Qed.

(** ** Properties *)

(** The JSON of an explanation and of a summary is exact: when the rendering of the
    documented tree of members fits the writer's budget (16384 and 4096 bytes), the output is
    that rendering, character for character; when it does not, the output is still no longer
    than the budget. *)
Theorem documents_exact (x : Explanation) (s : FabricSummary) :
  (str_len (render (explanation_value x)) <= 16384 -> explanation_json x = render (explanation_value x)) /\
  (str_len (render (summary_value s)) <= 4096 -> summary_json s = render (summary_value s)) /\
  str_len (explanation_json x) <= 16384 /\ str_len (summary_json s) <= 4096.
Proof.
  split; [intros H; exact (proj1 (emits_document _ _ _ (emits_explanation x) H))|].
  split; [intros H; exact (proj1 (emits_document _ _ _ (emits_summary s) H))|].
  split; [apply (Grows_document (write_json x) 16384); [apply Grows_write_json|done]
         |apply (Grows_document (write_summary s) 4096); [apply Grows_write_summary|done]].
Qed.

Lemma documents_exact_witness : exists x,
  fst (explain 2 sample_granted) = Good x /\ explanation_json x = render (explanation_value x) /\
  summary_json (summary_of sample_granted) = render (summary_value (summary_of sample_granted)).
Proof.
  eexists. split; [vm_compute; reflexivity|].
  match goal with |- explanation_json ?x = _ /\ _ => destruct (documents_exact x (summary_of sample_granted)) as (H1 & H2 & _ & _) end.
  split; [apply H1; vm_compute; discriminate|apply H2; vm_compute; discriminate].
Defined.
