(* ===== verification/Backend.v ===== *)
(** * Capacity backends

    [src/backend.cpp]: the two backends that ship, as implementations of the interface that
    [set_capacity] consults. The effect counters are relaxed atomics: each call adds to them
    in some order, and the sums are what [effects] reports. *)

From S2P Require Import Prelude Ints Hash Enums Status Codec Model Wire Policy Accounting Authority Persist State Grant Alloc Lifecycle Books Triples Layout Safety AllocSafety Topology.

(** ** Kinds *)

Module BackendKind.

Inductive BackendKind : Set := Null | Synthetic | Device.

Definition code (x : BackendKind) : Z := match x with Null => 0 | Synthetic => 1 | Device => 2 end.

Definition to_string (x : BackendKind) : string :=
  match x with Null => "null" | Synthetic => "synthetic" | Device => "device" end.

End BackendKind.
Abbreviation BackendKind := BackendKind.BackendKind.

(** ** The backends *)

(** [IBackend]'s own [program_reservation] and [program_release]. *)
Definition unsupported_program : Result unit :=
  fail ErrorCode.Unsupported "this backend does not program physical device memory".

Definition null_query_capacity (resource : Z) : Result CapacityAuthority :=
  fail ErrorCode.Unsupported "no backend is attached; capacity authority is UNKNOWN".

Definition NullBackend : IBackend := mkIBackend false null_query_capacity (fun _ _ _ => unsupported_program).

Record ResourceEntry := mkResourceEntry { re_raw_units : Z; re_generation : Z; re_ready : bool }.

Record EffectLog := mkEffectLog {
  el_reservation_calls : Z; el_release_calls : Z; el_reservation_units : Z; el_release_units : Z;
  el_stale_generation_rejections : Z; el_unsupported_calls : Z
}.

#[export] Instance settable_EffectLog : Settable EffectLog := fun l =>
  mkEffectLog (el_reservation_calls l) (el_release_calls l) (el_reservation_units l) (el_release_units l)
    (el_stale_generation_rejections l) (el_unsupported_calls l).

Definition empty_log : EffectLog := mkEffectLog 0 0 0 0 0 0.

Record SyntheticBackend := mkSyntheticBackend {
  sb_id : Z; sb_generation : Z; sb_name : string; sb_ready : bool; sb_resources : gmap Z ResourceEntry;
  sb_effects : EffectLog
}.

#[export] Instance settable_SyntheticBackend : Settable SyntheticBackend := fun b =>
  mkSyntheticBackend (sb_id b) (sb_generation b) (sb_name b) (sb_ready b) (sb_resources b) (sb_effects b).

Definition synthetic_backend (id generation : Z) (name : string) : SyntheticBackend :=
  mkSyntheticBackend id generation name true ∅ empty_log.

Definition set_resource (resource raw_units generation : Z) (b : SyntheticBackend) : SyntheticBackend :=
  b <| sb_resources ::= <[resource := mkResourceEntry raw_units generation true]> |>.

Definition remove_resource (resource : Z) (b : SyntheticBackend) : SyntheticBackend :=
  b <| sb_resources ::= delete resource |>.

Definition set_ready (ready : bool) (b : SyntheticBackend) : SyntheticBackend := b <| sb_ready := ready |>.
Definition set_generation (generation : Z) (b : SyntheticBackend) : SyntheticBackend := b <| sb_generation := generation |>.

Definition query_capacity (b : SyntheticBackend) (resource : Z) : Result CapacityAuthority :=
  if negb (sb_ready b) then fail ErrorCode.BackendNotReady "synthetic backend is not ready"
  else if negb (valid resource) then fail ErrorCode.InvalidArgument "resource id must be non-zero"
  else match sb_resources b !! resource with
  | None => fail ErrorCode.UnknownResource "synthetic backend has no such resource"
  | Some e => Good (mkCapacityAuthority resource (sb_id b) (re_generation e) (re_raw_units e) 0
                      (re_ready e && valid (re_generation e)))
  end.

Definition program_reservation (resource units expected_backend_generation : Z) : StateR SyntheticBackend unit :=
  let count f := sm_modify (fun b => b <| sb_effects ::= f |>) in
  count (fun l => l <| el_reservation_calls ::= fun n => add64 n 1 |> <| el_reservation_units ::= fun n => add64 n units |>) ;;;
  let* b := sm_get in
  if stale expected_backend_generation (sb_generation b) then
    count (fun l => l <| el_stale_generation_rejections ::= fun n => add64 n 1 |>) ;;;
    sm_fail ErrorCode.StaleGeneration "synthetic backend was asked to program against a stale generation"
  else
    count (fun l => l <| el_unsupported_calls ::= fun n => add64 n 1 |>) ;;;
    sm_fail ErrorCode.Unsupported "synthetic backend applies no physical device effect".

Definition program_release (resource units : Z) : StateR SyntheticBackend unit :=
  sm_modify (fun b => b <| sb_effects ::= fun l =>
    l <| el_release_calls ::= fun n => add64 n 1 |> <| el_release_units ::= fun n => add64 n units |>
      <| el_unsupported_calls ::= fun n => add64 n 1 |> |>) ;;;
  sm_fail ErrorCode.Unsupported "synthetic backend applies no physical device effect".

Definition effects (b : SyntheticBackend) : EffectLog := sb_effects b.
Definition clear_effects (b : SyntheticBackend) : SyntheticBackend := b <| sb_effects := empty_log |>.

(** What [set_capacity] sees of a synthetic backend. *)
Definition as_backend (b : SyntheticBackend) : IBackend :=
  mkIBackend (sb_ready b) (query_capacity b) (fun resource units generation => fst (program_reservation resource units generation b)).

(** ** What the fabric learns from them *)

(** An answer of a synthetic backend is usable exactly for a declared resource with a
    generation, on a ready backend, and it is the declaration. *)
Lemma query_capacity_usable b resource a :
  query_capacity b resource = Good a /\ ca_usable a = true <->
  sb_ready b = true /\ valid resource = true /\ exists e, sb_resources b !! resource = Some e /\ re_ready e = true /\
    valid (re_generation e) = true /\ a = mkCapacityAuthority resource (sb_id b) (re_generation e) (re_raw_units e) 0 true.
Proof.
  unfold query_capacity, ca_usable. split.
  - intros [H Hu]. destruct (sb_ready b); [|done]. destruct (valid resource) eqn:Hv; [|done]. cbn [negb] in H.
    destruct (sb_resources b !! resource) as [e|]; [|done]. injection H as <-. cbn in Hu. rewrite Hv in Hu.
    split; [done|]. split; [done|]. exists e. destruct (re_ready e), (valid (re_generation e)); try done.
  - intros (-> & Hv & e & -> & Hr & Hg & ->). rewrite Hv. cbn. by rewrite Hr, Hg, Hv.
Qed.

(** Neither shipped backend ever claims to have programmed a device. *)
Lemma no_device_effect b resource units generation :
  result_ok (ib_program_reservation NullBackend resource units generation) = false /\
  result_ok (fst (program_reservation resource units generation b)) = false /\
  result_ok (fst (program_release resource units b)) = false.
Proof.
  split; [done|]. split; [|done]. unfold program_reservation, sm_bind, sm_modify, sm_get. by destruct (stale _ _).
Qed.

(** [set_capacity] hands the backend the generation of the resource, which the backend compares
    with its own: with effects enabled, a capacity whose resource was declared anew cannot be
    published. *)
Example resource_generation_is_not_the_backend's :
  let b := set_resource 3 2000 2 (synthetic_backend 1 1 "synthetic") in
  let s := default_Impl <| im_open := true |> <| im_backends := {[1 := mkBackendEntry 1 1 true]} |>
    <| im_config ::= fun c => c <| fc_program_backend_effects := true |> |> in
  result_code (fst (set_capacity (fun _ => Some (as_backend b)) 3 1 0 0 s)) = ErrorCode.StaleGeneration.
Proof. vm_compute. reflexivity. Qed.
