(* ===== verification/Coordinator.v ===== *)
(** * The coordinator

    [src/coordinator.cpp]: a fabric served to many clients. A session decodes messages,
    refuses those that do not present the current epoch, and turns the others into calls of
    the fabric. Sessions run concurrently and the fabric's lock is held only inside each call,
    so that between any two calls of one session the fabric may have been changed by the
    others: [others n] is what they did before the [n]-th call, [clock n] is the time at which
    that call samples the clock. Threads are not modelled and sockets are in [Transport]: a
    session is given the frames it receives and how each of its sends ends. *)

From stdpp Require Import pretty.
From S2P Require Import Prelude Ints Hash Enums Status Codec Model Wire Policy Accounting Authority Persist State Grant Alloc Lifecycle Books Triples Layout Safety AllocSafety LifeSafety Topology Revoke Resize TopoSafety Query QuerySafety Ledger History Recovery System Json Explain Backend Protocol.

(** ** State *)

Record CoordinatorConfig := mkCoordinatorConfig {
  cc_bind_address : string; cc_port : Z; cc_state_directory : string; cc_durability : DurabilityMode; cc_max_clients : Z;
  cc_max_frame_bytes : Z; cc_decision_history_capacity : Z; cc_bootstrap_topology : bool; cc_bootstrap_backend_id : Z;
  cc_bootstrap_resource_id : Z; cc_bootstrap_pool_id : Z; cc_bootstrap_queue_id : Z; cc_bootstrap_policy_id : Z;
  cc_bootstrap_resource_units : Z; cc_bootstrap_pool_units : Z; cc_bootstrap_protected_units : Z;
  cc_bootstrap_queue_demand_units : Z; cc_evidence_ttl_ticks : Z
}.

Definition default_CoordinatorConfig : CoordinatorConfig :=
  mkCoordinatorConfig "127.0.0.1" 0 "" DurabilityMode.JournalSync 32 kMaxFrameBytes 4096 true 1 1 1 1 1
    (Z.shiftl 1 20) (Z.shiftl 1 19) (Z.shiftl 1 12) (Z.shiftl 1 17) 3600000000000.

(** [co_calls] counts the calls made on the fabric, [co_clients] the sockets accepted. *)
Record Coordinator := mkCoordinator {
  co_config : CoordinatorConfig; co_fabric : Impl; co_backend : SyntheticBackend; co_listening : option Z;
  co_shutdown_requested : bool; co_started : bool; co_served : Z; co_rejected : Z; co_clients : Z; co_calls : nat
}.

#[export] Instance settable_Coordinator : Settable Coordinator := fun c =>
  mkCoordinator (co_config c) (co_fabric c) (co_backend c) (co_listening c) (co_shutdown_requested c) (co_started c)
    (co_served c) (co_rejected c) (co_clients c) (co_calls c).

Definition default_Coordinator : Coordinator :=
  mkCoordinator default_CoordinatorConfig default_Impl (synthetic_backend 1 1 "coordinator") None false false 0 0 0 0.

Definition serve_one (c : Coordinator) : Coordinator := c <| co_served ::= fun n => add64 n 1 |>.
Definition reject_one (c : Coordinator) : Coordinator := c <| co_rejected ::= fun n => add64 n 1 |>.

Section Coordinator.
Context (clock : nat -> Z) (others : nat -> Impl -> Impl).

Definition C (A : Type) : Type := StateR Coordinator A.

(** The fabric after the other sessions have had their turn and [m] has run under the lock. *)
Definition locked_call {A} (n : nat) (m : M A) (s : Impl) : Result A * Impl := operation (clock n) m (others n s).

(** A call of the fabric: its answer, good or bad, is a value to the session. *)
Definition call {A} (m : M A) : C (Result A) := fun c =>
  let '(r, s) := locked_call (co_calls c) m (co_fabric c) in
  (Good r, c <| co_fabric := s |> <| co_calls ::= S |>).

(** [if (!r.ok()) return r.status();]. *)
Definition check {A} (m : M A) : C A := let* r := call m in sm_lift r.

Definition current_epoch : C Z := check (gets im_epoch).
Definition current_boot : C BootIncarnation := check (gets im_boot).

(** ** Starting *)

(** Capacity, then the policy. *)
Definition bootstrap_capacity : C unit :=
  let* c := sm_get in
  let cfg := co_config c in
  sm_modify (fun c => c <| co_backend ::= set_resource (cc_bootstrap_resource_id cfg) (cc_bootstrap_resource_units cfg) 1 |>) ;;;
  let* c := sm_get in
  let backend := co_backend c in
  check (attach_backend (sb_id backend) (BackendKind.code BackendKind.Synthetic) (sb_generation backend) (sb_ready backend)) ;;;
  let* _ := check (set_capacity (fun id => if id =? sb_id backend then Some (as_backend backend) else None)
    (cc_bootstrap_resource_id cfg) (sb_id backend) (cc_bootstrap_resource_units cfg) 0) in
  sm_ret tt.

Definition bootstrap_policy (cfg : CoordinatorConfig) : PoolPolicy :=
  default_PoolPolicy <| pol_id := cc_bootstrap_policy_id cfg |> <| pol_name := "bootstrap" |>
    <| pol_overcommit ::= fun o => o <| oc_mode := OvercommitMode.Forbid |> |>
    <| pol_borrow ::= fun b => b <| bw_mode := BorrowMode.Forbid |> |>
    <| pol_pressure ::= fun p => p <| pp_evidence_ttl_ticks := cc_evidence_ttl_ticks cfg |>
         <| pp_thresholds := pp_thresholds default_PressurePolicy |> |>
    <| pol_reclaim ::= fun r => r <| rp_enabled := true |> |>.

(** A pool that is already there is left as it is. *)
Definition bootstrap_pool (cfg : CoordinatorConfig) : C unit :=
  let* existing := call (pool_view (cc_bootstrap_pool_id cfg)) in
  match existing with
  | Good _ => sm_ret tt
  | Bad e =>
      if negb (bool_decide (st_code e = ErrorCode.UnknownPool)) then sm_lift (Bad e)
      else
        let* c := sm_get in
        let* _ := check (register_pool (mkPoolRegistration (cc_bootstrap_pool_id cfg) "bootstrap-pool"
          (cc_bootstrap_resource_id cfg) (sb_id (co_backend c)) (cc_bootstrap_pool_units cfg)
          (cc_bootstrap_protected_units cfg) 0 (cc_bootstrap_policy_id cfg) 0 0)) in
        sm_ret tt
  end.

Definition bootstrap_queue (cfg : CoordinatorConfig) : C unit :=
  let* created := call (register_queue (default_QueueRegistration <| qg_id := cc_bootstrap_queue_id cfg |>
    <| qg_name := "bootstrap-queue" |> <| qg_pool := cc_bootstrap_pool_id cfg |>
    <| qg_demand_units := cc_bootstrap_queue_demand_units cfg |>)) in
  match created with
  | Good _ => sm_ret tt
  | Bad e => if bool_decide (st_code e = ErrorCode.DuplicateQueue) || bool_decide (st_code e = ErrorCode.DuplicateName)
             then sm_ret tt else sm_lift (Bad e)
  end.

(** The first evidence; a refusal of it is not fatal. *)
Definition bootstrap_evidence (cfg : CoordinatorConfig) : C unit :=
  let* status := check (pool_generation_status (cc_bootstrap_pool_id cfg)) in
  let* epoch := current_epoch in
  let* boot := current_boot in
  let* _ := call (observe_pressure (default_PressureSnapshot <| ps_pool := cc_bootstrap_pool_id cfg |>
    <| ps_pool_generation := gs_pool_generation status |> <| ps_observed_at := 0 |>
    <| ps_demand_units := cc_bootstrap_queue_demand_units cfg |> <| ps_committed_units := 0 |>
    <| ps_assert_committed := false |> <| ps_epoch := epoch |> <| ps_boot := boot |>
    <| ps_ttl_ticks := cc_evidence_ttl_ticks cfg |>)) in
  sm_ret tt.

Definition bootstrap_topology : C unit :=
  let* c := sm_get in
  let cfg := co_config c in
  bootstrap_capacity ;;;
  let* _ := check (publish_policy (bootstrap_policy cfg)) in
  bootstrap_pool cfg ;;;
  bootstrap_queue cfg ;;;
  bootstrap_evidence cfg.

Definition fabric_config (cfg : CoordinatorConfig) : FabricConfig :=
  let f := default_FabricConfig <| fc_decision_history_capacity := cc_decision_history_capacity cfg |> in
  if String.eqb (cc_state_directory cfg) "" then f
  else f <| fc_persistence ::= fun p => p <| pc_directory := cc_state_directory cfg |> <| pc_mode := cc_durability cfg |> |>.

(** After a failure the fabric is closed, whatever closing it answers. *)
Definition close_on_failure (m : C unit) : C unit := fun c =>
  match m c with
  | (Bad e, c) => (Bad e, snd (call close c))
  | good => good
  end.

(** [sockets] is how the socket layer initialises, [bound] the port that listening gives. *)
Definition start (config : CoordinatorConfig) (boot : BootIncarnation) (sockets : Result unit) (bound : Result Z) : C unit :=
  let* c := sm_get in
  sm_lift (reject_if (co_started c) ErrorCode.LifecycleViolation "coordinator is already started") ;;;
  sm_modify (fun c => c <| co_config := config |>) ;;;
  sm_lift sockets ;;;
  check (open (fabric_config config) boot) ;;;
  when (cc_bootstrap_topology config) do (close_on_failure bootstrap_topology) ;;;
  let* port := fun c => match bound with Good p => (Good p, c) | Bad e => (Bad e, snd (call close c)) end in
  sm_modify (fun c => c <| co_listening := Some port |> <| co_shutdown_requested := false |> <| co_started := true |>).

Definition request_shutdown (c : Coordinator) : Coordinator :=
  c <| co_shutdown_requested := true |> <| co_listening := None |>.

(** Every session has ended when the fabric is closed. *)
Definition stop : C unit :=
  let* c := sm_get in
  if negb (co_started c) then sm_ret tt
  else
    sm_modify request_shutdown ;;;
    sm_modify (fun c => c <| co_clients := 0 |> <| co_started := false |>) ;;;
    check close.

Definition port (c : Coordinator) : Result Z :=
  match co_listening c with
  | None => fail ErrorCode.LifecycleViolation "coordinator is not listening"
  | Some p => Good p
  end.

(** ** Requests *)

Definition respond (reply : Message) (code : ErrorCode) (message : string) (payload : option (list Z)) : Message :=
  reply <| mg_body := sent (encode_response code message payload) |>.

(** An answer that is also counted as a rejection. *)
Definition refuse (reply : Message) (code : ErrorCode) (message : string) : C Message :=
  sm_modify reject_one ;;; sm_ret (respond reply code message None).

Definition malformed (reply : Message) (message : string) : C Message := refuse reply ErrorCode.ProtocolViolation message.

Definition forward (reply : Message) (e : Status) : C Message := sm_ret (respond reply (st_code e) (st_message e) None).

Definition summary_of_decision (d : Decision) (allocation : Z) (a : PoolAccounting) : DecisionSummary :=
  mkDecisionSummary (dc_kind d) (dc_status d) (enum_code (dc_binding d)) (enum_code (dc_pressure d))
    (dc_utilization_bp d) (dc_sequence d) (dc_requested_units d) (dc_granted_units d) (dc_pool d) (dc_queue d)
    allocation a.

Definition answer (reply : Message) (text : string) (m : DecisionSummary) : C Message :=
  sm_modify serve_one ;;; sm_ret (respond reply ErrorCode.Ok text (Some (sent (encode_decision_summary m)))).

Definition handle_allocate (body : list Z) (reply : Message) : C Message :=
  match received decode_allocate body with
  | None => malformed reply "malformed allocate request"
  | Some rq =>
      let* outcome := call (allocate_locked rq) in
      match outcome with
      | Bad e => forward reply e
      | Good d => answer reply "allocate accepted" (summary_of_decision d (dc_allocation d) (dc_accounting d))
      end
  end.

Definition handle_release (body : list Z) (reply : Message) : C Message :=
  match received decode_release body with
  | None => malformed reply "malformed release request"
  | Some rq =>
      let* outcome := call (release_locked rq) in
      match outcome with
      | Bad e => forward reply e
      | Good d => answer reply "release accepted" (summary_of_decision d (dc_allocation d) (dc_accounting d))
      end
  end.

Definition handle_evaluate (body : list Z) (reply : Message) : C Message :=
  match received decode_evaluate body with
  | None => malformed reply "malformed evaluate request"
  | Some rq =>
      let* outcome := call (evaluate rq) in
      match outcome with
      | Bad e => forward reply e
      | Good r => answer reply "evaluation complete" (summary_of_decision (er_decision r) 0 (er_accounting r))
      end
  end.

(** What the coordinator fills in: its epoch and boot, a lifetime, and the time 1 where the
    client gave none. *)
Definition observed_now (cfg : CoordinatorConfig) (epoch : Z) (boot : BootIncarnation) (x : PressureSnapshot) : PressureSnapshot :=
  let x := x <| ps_epoch := epoch |> <| ps_boot := boot |> in
  let x := if ps_ttl_ticks x =? 0 then x <| ps_ttl_ticks := cc_evidence_ttl_ticks cfg |> else x in
  if ps_observed_at x =? 0 then x <| ps_observed_at := 1 |> else x.

Definition handle_pressure (body : list Z) (reply : Message) : C Message :=
  match received decode_pressure body with
  | None => malformed reply "malformed pressure request"
  | Some x =>
      let* c := sm_get in
      let* epoch := current_epoch in
      let* boot := current_boot in
      let x := observed_now (co_config c) epoch boot x in
      let* status := call (pool_generation_status (ps_pool x)) in
      match status with
      | Bad e => forward reply e
      | Good status =>
          let* outcome := call (observe_pressure (x <| ps_pool_generation := gs_pool_generation status |>)) in
          sm_modify serve_one ;;;
          match outcome with
          | Bad e => forward reply e
          | Good _ => sm_ret (respond reply ErrorCode.Ok "pressure observed" None)
          end
      end
  end.

Definition write_metrics (m : FabricMetrics) : Json :=
  begin_object ▷
  member "decisions" (value_u64 (mt_decisions m)) ▷
  member "grants" (value_u64 (mt_grants m)) ▷
  member "refusals" (value_u64 (mt_refusals m)) ▷
  member "live_allocations" (value_u64 (mt_live_allocations m)) ▷
  member "live_committed_units" (value_u64 (mt_live_committed_units m)) ▷
  end_object.

Definition write_row (a : PoolAccounting) : Json :=
  begin_object ▷
  member "pool" (value_u64 (pa_pool a)) ▷
  member "raw" (value_u64 (pa_raw a)) ▷
  member "protected" (value_u64 (pa_protected_units a)) ▷
  member "allocated" (value_u64 (pa_allocated a)) ▷
  member "free" (value_u64 (pa_free a)) ▷
  end_object.

Definition write_ledger (rows : list PoolAccounting) : Json := begin_array ▷ for_each write_row rows ▷ end_array.

(** A text that no frame could hold is cut. *)
Definition text_payload (text : string) : list Z :=
  let text := if kMaxFrameBytes - 64 <? Z.of_nat (String.length text)
              then truncate_to text (Z.to_nat (kMaxFrameBytes - 64)) else text in
  sent (put_u32 (wrap32 (Z.of_nat (String.length text))) >+> put_bytes (string_bytes text)).

Definition answer_text (reply : Message) (text : string) : C Message :=
  sm_modify serve_one ;;; sm_ret (respond reply ErrorCode.Ok "ok" (Some (text_payload text))).

Definition handle_explain (body : list Z) (reply : Message) : C Message :=
  match received get_u64 body with
  | None => malformed reply "malformed explain request"
  | Some pool =>
      let* explanation := call (explain pool) in
      match explanation with
      | Bad e => forward reply e
      | Good x => answer_text reply (to_text x)
      end
  end.

Definition handle_hello (body : list Z) (reply : Message) : C (Message * bool) :=
  match received decode_hello_request body with
  | None => let* r := malformed reply "malformed hello" in sm_ret (r, true)
  | Some hello =>
      if negb (hq_protocol_version hello =? kProtocolVersion) then
        let* r := refuse reply ErrorCode.ProtocolVersionMismatch
          ("wire protocol version " ++ pretty (hq_protocol_version hello) ++ " is not supported")%string in
        sm_ret (r, true)
      else
        let* current := current_epoch in
        if valid (hq_claimed_epoch hello) && negb (hq_claimed_epoch hello =? current) then
          let* r := refuse reply ErrorCode.StaleEpoch
            ("claimed epoch " ++ pretty (hq_claimed_epoch hello) ++ " is not the current epoch " ++ pretty current)%string in
          sm_ret (r, true)
        else
          let* s := check summary in
          let* boot := current_boot in
          let ack := mkHelloResponse kProtocolVersion current boot (fs_pool_count s) (fs_queue_count s) in
          sm_ret (respond (reply <| mg_op := enum_code MessageOp.HelloAck |>) ErrorCode.Ok "hello accepted"
                    (Some (sent (encode_hello_response ack))), false)
  end.

(** The operations past the gate. *)
Definition handle (op : option MessageOp) (body : list Z) (reply : Message) : C (Message * bool) :=
  let keep (m : C Message) : C (Message * bool) := let* r := m in sm_ret (r, false) in
  match op with
  | Some MessageOp.Allocate => keep (handle_allocate body reply)
  | Some MessageOp.Release => keep (handle_release body reply)
  | Some MessageOp.Evaluate => keep (handle_evaluate body reply)
  | Some MessageOp.ObservePressure => keep (handle_pressure body reply)
  | Some MessageOp.Summary => keep (let* s := check summary in answer_text reply (summary_json s))
  | Some MessageOp.Metrics => keep (let* m := check metrics in answer_text reply (jw_out (write_metrics m (json_writer 1024))))
  | Some MessageOp.Ledger => keep (let* rows := check ledger in answer_text reply (jw_out (write_ledger rows (json_writer 8192))))
  | Some MessageOp.Explain => keep (handle_explain body reply)
  | Some MessageOp.Shutdown =>
      sm_modify serve_one ;;;
      sm_modify request_shutdown ;;;
      sm_ret (respond reply ErrorCode.Ok "shutdown requested" None, true)
  | _ => keep (refuse reply ErrorCode.ProtocolViolation "unsupported operation")
  end.

(** [dispatch]: the reply, and whether the session then ends. The caller's reply is there. *)
Definition dispatch (request : Message) : C (Message * bool) :=
  let op := enum_cast (E := MessageOp) (mg_op request) in
  let* epoch := current_epoch in
  let reply := mkMessage (mg_op request) (mg_request request) epoch [] in
  match op with
  | Some MessageOp.Hello => handle_hello (mg_body request) reply
  | Some MessageOp.Ping => sm_ret (respond reply ErrorCode.Ok "pong" None, false)
  | _ =>
      let* gate := (if valid (mg_epoch request) then let* now := current_epoch in sm_ret (mg_epoch request =? now) else sm_ret false) in
      if negb gate then
        let* r := refuse reply ErrorCode.StaleEpoch "request epoch is not the current fabric epoch" in
        sm_ret (r, true)
      else handle op (mg_body request) reply
  end.

(** ** Sessions *)

(** One frame of a session: what it answers, and whether it goes on. *)
Definition serve_frame (frame : list Z) : C (list Z * bool) :=
  let* c := sm_get in
  match decode_message_payload frame (cc_max_frame_bytes (co_config c)) with
  | Bad e =>
      let* epoch := current_epoch in
      sm_modify reject_one ;;;
      sm_ret (encode_message (mkMessage (enum_code MessageOp.Pong) 0 epoch (sent (encode_response (st_code e) (st_message e) None))), false)
  | Good request =>
      let* rc := dispatch request in
      sm_ret (encode_message (fst rc), negb (snd rc))
  end.

(** Each frame received, with whether sending the answer to it succeeds; the session ends with
    the last one, where receiving fails. The shutdown flag is read before each frame. *)
Fixpoint serve (frames : list (list Z * bool)) (c : Coordinator) : list (list Z) * Coordinator :=
  match frames with
  | [] => ([], c)
  | (frame, sends) :: frames =>
      if co_shutdown_requested c then ([], c)
      else
        match serve_frame frame c with
        | (Good (answer, goes_on), c) =>
            if goes_on && sends then let '(answers, c) := serve frames c in (answer :: answers, c) else ([answer], c)
        | (Bad _, c) => ([], c)
        end
  end.

(** A connection: served, or told that there is no room. [clients_] only ever grows. *)
Definition accept_peer (c : Coordinator) : option (list Z) * Coordinator :=
  if cc_max_clients (co_config c) <=? co_clients c then
    (Some (encode_message (default_Message <| mg_op := enum_code MessageOp.HelloAck |>
      <| mg_body := sent (encode_response ErrorCode.BoundedResourceExhausted "coordinator client capacity reached" None) |>)),
     reject_one c)
  else (None, c <| co_clients ::= fun n => n + 1 |>).

(** [accept_loop]: before each accept ends, shutdown may be requested; what ended it may be a
    peer or a failure. The answer to each peer: served, or told that there is no room. *)
Fixpoint accept_loop (arrivals : list (bool * bool)) (c : Coordinator) : list (option (list Z)) * Coordinator :=
  if co_shutdown_requested c then ([], c)
  else match arrivals with
  | [] => ([], c)
  | (stopping, arrived) :: arrivals =>
      let c := if stopping then c <| co_shutdown_requested := true |> else c in
      if arrived then
        let '(answer, c) := accept_peer c in
        let '(answers, c) := accept_loop arrivals c in
        (answer :: answers, c)
      else accept_loop arrivals c
  end.
End Coordinator.
