(* ===== verification/CoordinatorSafety.v ===== *)
(** * Properties of the coordinator

    Whatever a client sends, the fabric sees at most the one operation that its opcode names,
    decoded from its body, and none at all when the epoch it presents is not current; so that
    sessions keep the invariant of the fabric. *)

From S2P Require Import Prelude Ints Hash Enums Status Codec Model Wire Policy Accounting Authority Persist State Grant Alloc Lifecycle Books Triples Layout Safety AllocSafety LifeSafety Topology Revoke Resize TopoSafety Query QuerySafety Ledger History Recovery System Json Explain Backend Protocol Coordinator.

(** ** What a session did to the fabric *)

Section Trace.
Context (clock : nat -> Z) (others : nat -> Impl -> Impl).

(** A call that only reads, or one that performs an operation. *)
Definition act (n : nat) (a : option Op) (s : Impl) : Impl :=
  snd (locked_call clock others n (match a with Some op => perform op | None => ret tt end) s).

Fixpoint replay (n : nat) (acts : list (option Op)) (s : Impl) : Impl :=
  match acts with
  | [] => s
  | a :: acts => replay (S n) acts (act n a s)
  end.

Lemma replay_app n l l' s : replay n (l ++ l') s = replay (n + length l) l' (replay n l s).
Proof.
  revert n s. induction l as [|a l IH]; intros n s; simpl; [by rewrite Nat.add_0_r|]. by rewrite IH, Nat.add_succ_r.
Qed.

(** [c'] is [c] after calls of the fabric whose trace is [acts]. *)
Record drove (acts : list (option Op)) (c c' : Coordinator) : Prop := {
  dv_fabric : co_fabric c' = replay (co_calls c) acts (co_fabric c);
  dv_calls : co_calls c' = (co_calls c + length acts)%nat;
  dv_config : co_config c' = co_config c;
  dv_clients : co_clients c' = co_clients c
}.

Lemma drove_refl c : drove [] c c.
Proof. split; [done|simpl; lia|done|done]. Qed.

Lemma drove_trans l l' a b c : drove l a b -> drove l' b c -> drove (l ++ l') a c.
Proof.
  intros [H1 H2 H3 H4] [K1 K2 K3 K4]. split; [|rewrite length_app; lia|congruence|congruence].
  by rewrite K1, H1, H2, replay_app.
Qed.

(** The operations of a trace. *)
Definition ops_of (acts : list (option Op)) : list Op := omap (fun a => a) acts.

Lemma ops_of_app l l' : ops_of (l ++ l') = ops_of l ++ ops_of l'.
Proof. unfold ops_of. by rewrite omap_app. Qed.

(** [m] only reads the fabric; [m] performs on it at most one operation, which is one of [P]. *)
Class Reads {A} (m : C A) : Prop := reads_only : forall c, exists acts, drove acts c (snd (m c)) /\ ops_of acts = [].

Class Performs (P : Op -> Prop) {A} (m : C A) : Prop := performs : forall c, exists acts,
  drove acts c (snd (m c)) /\ (length (ops_of acts) <= 1)%nat /\ Forall P (ops_of acts).

#[global] Instance Reads_Performs P {A} (m : C A) : Reads m -> Performs P m | 10.
Proof. intros H c. destruct (H c) as (acts & Hd & He). exists acts. rewrite He. split; [done|]. split; [simpl; lia|constructor]. Qed.

#[global] Instance Reads_ret {A} (a : A) : Reads (sm_ret a).
Proof. intros c. exists []. split; [apply drove_refl|done]. Qed.

#[global] Instance Reads_get : Reads (sm_get (T := Coordinator)).
Proof. intros c. exists []. split; [apply drove_refl|done]. Qed.

#[global] Instance Reads_lift {A} (r : Result A) : Reads (sm_lift r).
Proof. intros c. exists []. split; [apply drove_refl|done]. Qed.

#[global] Instance Reads_serve_one : Reads (sm_modify serve_one).
Proof. intros c. exists []. split; [split; simpl; [done|lia|done|done]|done]. Qed.
#[global] Instance Reads_reject_one : Reads (sm_modify reject_one).
Proof. intros c. exists []. split; [split; simpl; [done|lia|done|done]|done]. Qed.
#[global] Instance Reads_request_shutdown : Reads (sm_modify request_shutdown).
Proof. intros c. exists []. split; [split; simpl; [done|lia|done|done]|done]. Qed.

#[global] Instance Reads_bind {A B} (m : C A) (k : A -> C B) : Reads m -> (forall a, Reads (k a)) -> Reads (sm_bind m k).
Proof.
  intros Hm Hk c. destruct (Hm c) as (l & Hl & He). unfold sm_bind. destruct (m c) as [[a|e] c1]; simpl in Hl; [|by exists l].
  destruct (Hk a c1) as (l' & Hl' & He'). exists (l ++ l'). split; [by eapply drove_trans|]. by rewrite ops_of_app, He, He'.
Qed.

Lemma Performs_then P {A B} (m : C A) (k : A -> C B) : Reads m -> (forall a, Performs P (k a)) -> Performs P (sm_bind m k).
Proof.
  intros Hm Hk c. destruct (Hm c) as (l & Hl & He). unfold sm_bind. destruct (m c) as [[a|e] c1]; simpl in Hl.
  - destruct (Hk a c1) as (l' & Hl' & H1 & H2). exists (l ++ l'). rewrite ops_of_app, He. split; [by eapply drove_trans|done].
  - exists l. rewrite He. split; [done|]. split; [simpl; lia|constructor].
Qed.

Lemma Performs_before P {A B} (m : C A) (k : A -> C B) : Performs P m -> (forall a, Reads (k a)) -> Performs P (sm_bind m k).
Proof.
  intros Hm Hk c. destruct (Hm c) as (l & Hl & H1 & H2). unfold sm_bind. destruct (m c) as [[a|e] c1]; simpl in Hl; [|by exists l].
  destruct (Hk a c1) as (l' & Hl' & He). exists (l ++ l'). rewrite ops_of_app, He, app_nil_r. split; [by eapply drove_trans|done].
Qed.

(** A call that leaves the tables alone, and one that is an operation. *)
Lemma Reads_call {A} (m : M A) : (forall s, snd (m s) = s) -> Reads (call clock others m).
Proof.
  intros Hm c. exists [None]. split; [|done]. unfold call, locked_call, operation, sm_bind, modify, sm_modify.
  destruct (m _) as [r s] eqn:E. pose proof (f_equal snd E) as Hs. rewrite Hm in Hs. simpl in Hs. subst s.
  split; simpl; [|lia|done|done]. unfold act, locked_call, operation, sm_bind, modify, sm_modify. done.
Qed.

Lemma Performs_call (P : Op -> Prop) {A} (m : M A) op : (forall s, snd (m s) = snd (perform op s)) -> P op -> Performs P (call clock others m).
Proof.
  intros Hm HP c. exists [Some op]. split; [|split; [simpl; lia|by constructor]].
  unfold call, locked_call, operation, sm_bind, modify, sm_modify.
  destruct (m _) as [r s] eqn:E. pose proof (f_equal snd E) as Hs. rewrite Hm in Hs. simpl in Hs. subst s.
  split; simpl; [|lia|done|done]. unfold act, locked_call, operation, sm_bind, modify, sm_modify. done.
Qed.

#[global] Instance Reads_gets {A} (f : Impl -> A) : Reads (call clock others (gets f)).
Proof. by apply Reads_call. Qed.

#[global] Instance Reads_check {A} (m : M A) : Reads (call clock others m) -> Reads (check clock others m).
Proof. intros H. unfold check. apply _. Qed.

#[global] Instance Reads_epoch : Reads (current_epoch clock others).
Proof. unfold current_epoch. apply _. Qed.
#[global] Instance Reads_boot : Reads (current_boot clock others).
Proof. unfold current_boot. apply _. Qed.

Lemma snd_ignore {A} (m : M A) s : snd (ignore m s) = snd (m s).
Proof. unfold ignore, sm_bind. by destruct (m s) as [[a|e] s']. Qed.
End Trace.

(** ** What a request may do *)

(** The fields of an observation that are the client's. *)
Definition observed_as (x y : PressureSnapshot) : Prop :=
  ps_pool y = ps_pool x /\ ps_demand_units y = ps_demand_units x /\ ps_committed_units y = ps_committed_units x /\
  ps_reclaimable_units y = ps_reclaimable_units x /\ ps_provenance y = ps_provenance x /\
  ps_assert_committed y = ps_assert_committed x /\
  (ps_observed_at x <> 0 -> ps_observed_at y = ps_observed_at x) /\ (ps_ttl_ticks x <> 0 -> ps_ttl_ticks y = ps_ttl_ticks x).

(** The operation that the opcode names, with the arguments that the body holds. *)
Definition asks (request : Message) (op : Op) : Prop :=
  match enum_cast (E := MessageOp) (mg_op request) with
  | Some MessageOp.Allocate => exists rq, received decode_allocate (mg_body request) = Some rq /\ op = OpAllocate rq
  | Some MessageOp.Release => exists rq, received decode_release (mg_body request) = Some rq /\ op = OpRelease rq
  | Some MessageOp.Evaluate => exists rq, received decode_evaluate (mg_body request) = Some rq /\ op = OpEvaluate rq
  | Some MessageOp.ObservePressure => exists x y, received decode_pressure (mg_body request) = Some x /\
      op = OpObservePressure y /\ observed_as x y
  | _ => False
  end.

Definition pings (request : Message) : Prop :=
  mg_op request = enum_code MessageOp.Hello \/ mg_op request = enum_code MessageOp.Ping.

Lemma observed_now_as cfg epoch boot x g : observed_as x (observed_now cfg epoch boot x <| ps_pool_generation := g |>).
Proof.
  unfold observed_now. cbn. destruct (Z.eqb_spec (ps_ttl_ticks x) 0); cbn; destruct (Z.eqb_spec (ps_observed_at x) 0); by split_and!.
Qed.

Lemma pool_generation_status_reads pool s : snd (pool_generation_status pool s) = s.
Proof. unfold pool_generation_status, sm_bind, sm_get, require, raise. by destruct (im_pools s !! pool). Qed.

Lemma explain_reads pool s : snd (explain pool s) = s.
Proof.
  unfold explain, sm_bind, sm_get, require_pool, require, raise, ret. destruct (valid pool); [|done]. cbn [negb].
  destruct (im_pools s !! pool) as [e|]; [|done]. by destruct (im_policies s !! _).
Qed.

(** Reading through a handler, one call at a time. *)
Ltac reads :=
  lazymatch goal with
  | |- Reads _ _ (sm_bind _ _) => apply Reads_bind; [reads | intros ?; cbv zeta; reads]
  | |- Reads _ _ (sm_ret _) => apply Reads_ret
  | |- Reads _ _ (sm_lift _) => apply Reads_lift
  | |- Reads _ _ sm_get => apply Reads_get
  | |- Reads _ _ (sm_modify serve_one) => apply Reads_serve_one
  | |- Reads _ _ (sm_modify reject_one) => apply Reads_reject_one
  | |- Reads _ _ (sm_modify request_shutdown) => apply Reads_request_shutdown
  | |- Reads _ _ (check _ _ _) => apply Reads_check; reads
  | |- Reads _ _ (call _ _ (gets _)) => apply Reads_gets
  | |- Reads _ _ (call _ _ (pool_generation_status _)) => apply Reads_call, pool_generation_status_reads
  | |- Reads _ _ (call _ _ (explain _)) => apply Reads_call, explain_reads
  | |- Reads _ _ (call _ _ ?m) => unfold m; reads
  | |- Reads _ _ (if ?b then _ else _) => destruct b; reads
  | |- Reads _ _ (match ?r with Good _ => _ | Bad _ => _ end) => destruct r; reads
  | |- Reads _ _ (match ?r with Some _ => _ | None => _ end) => destruct r; reads
  | |- Reads _ _ (current_epoch _ _) => apply Reads_epoch
  | |- Reads _ _ (current_boot _ _) => apply Reads_boot
  | |- Reads _ _ (refuse _ _ _) => unfold refuse; reads
  | |- Reads _ _ (malformed _ _) => unfold malformed; reads
  | |- Reads _ _ (forward _ _) => unfold forward; reads
  | |- Reads _ _ (answer _ _ _) => unfold answer; reads
  | |- Reads _ _ (answer_text _ _) => unfold answer_text; reads
  | |- Reads _ _ (handle_explain _ _ _ _) => unfold handle_explain; reads
  | |- Reads _ _ (handle_hello _ _ _ _) => unfold handle_hello; reads
  | |- Performs _ _ _ _ => apply Reads_Performs; reads
  end.

Section Dispatch.
Context (clock : nat -> Z) (others : nat -> Impl -> Impl).

Lemma Performs_request (P : Op -> Prop) {A} (m : M A) op (k : Result A -> C Message) :
  (forall s, snd (m s) = snd (perform op s)) -> P op -> (forall r, Reads clock others (k r)) ->
  Performs clock others P (sm_bind (call clock others m) k).
Proof. intros Hm HP Hk. apply Performs_before; [by apply (Performs_call clock others P m op)|exact Hk]. Qed.

Lemma performs_allocate P body reply :
  (forall rq, received decode_allocate body = Some rq -> P (OpAllocate rq)) ->
  Performs clock others P (handle_allocate clock others body reply).
Proof.
  intros HP. unfold handle_allocate. destruct (received _ _) as [rq|]; [|reads].
  apply (Performs_request P _ (OpAllocate rq)); [intros s; symmetry; apply snd_ignore|by apply HP|]. intros [d|e]; reads.
Qed.

Lemma performs_release P body reply :
  (forall rq, received decode_release body = Some rq -> P (OpRelease rq)) ->
  Performs clock others P (handle_release clock others body reply).
Proof.
  intros HP. unfold handle_release. destruct (received _ _) as [rq|]; [|reads].
  apply (Performs_request P _ (OpRelease rq)); [intros s; symmetry; apply snd_ignore|by apply HP|]. intros [d|e]; reads.
Qed.

Lemma performs_evaluate P body reply :
  (forall rq, received decode_evaluate body = Some rq -> P (OpEvaluate rq)) ->
  Performs clock others P (handle_evaluate clock others body reply).
Proof.
  intros HP. unfold handle_evaluate. destruct (received _ _) as [rq|]; [|reads].
  apply (Performs_request P _ (OpEvaluate rq)); [intros s; symmetry; apply snd_ignore|by apply HP|]. intros [d|e]; reads.
Qed.

Lemma performs_pressure P body reply :
  (forall x y, received decode_pressure body = Some x -> observed_as x y -> P (OpObservePressure y)) ->
  Performs clock others P (handle_pressure clock others body reply).
Proof.
  intros HP. unfold handle_pressure. destruct (received _ _) as [x|]; [|reads].
  apply Performs_then; [reads|intros c]. apply Performs_then; [reads|intros epoch]. apply Performs_then; [reads|intros boot].
  cbv zeta. apply Performs_then; [reads|intros [status|e]]; [|reads].
  eapply (Performs_request P _ (OpObservePressure _)); [reflexivity|apply (HP x); [done|apply observed_now_as]|].
  intros [u|e]; reads.
Qed.

Lemma handle_performs request reply :
  Performs clock others (asks request) (handle clock others (enum_cast (mg_op request)) (mg_body request) reply).
Proof.
  assert (forall m : C Message, Performs clock others (asks request) m ->
    Performs clock others (asks request) (let* r := m in sm_ret (r, false))) as Hkeep.
  { intros m Hm. apply Performs_before; [exact Hm|]. intros r. reads. }
  unfold handle, asks. destruct (enum_cast (mg_op request)) as [op|] eqn:Hop; [|reads].
  unfold asks in Hkeep. rewrite Hop in Hkeep.
  destruct op; try (reads).
  - apply Hkeep, performs_allocate. intros rq H. by exists rq.
  - apply Hkeep, performs_release. intros rq H. by exists rq.
  - apply Hkeep, performs_evaluate. intros rq H. by exists rq.
  - apply Hkeep, performs_pressure. intros x y H1 H2. by exists x, y.
Qed.

Lemma dispatch_performs request : Performs clock others (asks request) (dispatch clock others request).
Proof.
  unfold dispatch. apply Performs_then; [reads|intros epoch].
  assert (forall reply, Performs clock others (asks request)
    (let* gate := (if valid (mg_epoch request) then let* now := current_epoch clock others in sm_ret (mg_epoch request =? now) else sm_ret false) in
     if negb gate then let* r := refuse reply ErrorCode.StaleEpoch "request epoch is not the current fabric epoch" in sm_ret (r, true)
     else handle clock others (enum_cast (mg_op request)) (mg_body request) reply)) as Hgate.
  { intros reply. apply Performs_then; [destruct (valid _); reads|]. intros [|]; cbn [negb]; [apply handle_performs|reads]. }
  destruct (enum_cast (mg_op request)) as [op|]; [|apply Hgate].
  destruct op; try apply Hgate; reads.
Qed.
End Dispatch.

(** ** Sessions *)

(** The operations of a session, in order: at most one for each frame, which its message asks for. *)
Inductive asked (limit : Z) : list (list Z) -> list Op -> Prop :=
| asked_nil : asked limit [] []
| asked_none frame frames ops : asked limit frames ops -> asked limit (frame :: frames) ops
| asked_one frame request frames op ops :
    decode_message_payload frame limit = Good request -> asks request op -> asked limit frames ops ->
    asked limit (frame :: frames) (op :: ops).

Lemma asked_nothing limit frames : asked limit frames [].
Proof. induction frames; by constructor. Qed.

Section Session.
Context (clock : nat -> Z) (others : nat -> Impl -> Impl).

Lemma serve_frame_performs limit frame c : cc_max_frame_bytes (co_config c) = limit ->
  exists acts, drove clock others acts c (snd (serve_frame clock others frame c)) /\
  forall frames ops, asked limit frames ops -> asked limit (frame :: frames) (ops_of acts ++ ops).
Proof.
  intros Hlimit. unfold serve_frame, sm_bind at 1, sm_get. rewrite Hlimit. destruct (decode_message_payload frame limit) as [request|e] eqn:Hd.
  - assert (Performs clock others (asks request)
      (let* rc := dispatch clock others request in sm_ret (encode_message (fst rc), negb (snd rc)))) as H.
    { apply Performs_before; [apply dispatch_performs|intros ?; reads]. }
    destruct (H c) as (acts & Hdrove & Hlen & Hall). exists acts. split; [exact Hdrove|]. intros frames ops Hops.
    destruct (ops_of acts) as [|op [|]]; [by constructor| |simpl in Hlen; lia].
    apply Forall_cons in Hall as [Hop _]. by eapply asked_one.
  - assert (forall m : C (list Z * bool), Reads clock others m -> exists acts, drove clock others acts c (snd (m c)) /\
      forall frames ops, asked limit frames ops -> asked limit (frame :: frames) (ops_of acts ++ ops)) as H.
    { intros m Hm. destruct (Hm c) as (acts & Hdrove & He). exists acts. rewrite He. split; [exact Hdrove|]. by constructor. }
    apply H. reads.
Qed.

Lemma serve_performs frames c : exists acts,
  drove clock others acts c (snd (serve clock others frames c)) /\
  asked (cc_max_frame_bytes (co_config c)) (fst <$> frames) (ops_of acts).
Proof.
  revert c. induction frames as [|[frame sends] frames IH]; intros c; [exists []; split; [apply drove_refl|constructor]|].
  cbn [serve]. destruct (co_shutdown_requested c); [exists []; split; [apply drove_refl|apply asked_nothing]|].
  destruct (serve_frame_performs _ frame c eq_refl) as (acts & Hdrove & Hasked).
  destruct (serve_frame clock others frame c) as [[[answer goes_on]|e] c1]; cbn [snd] in Hdrove.
  - destruct (goes_on && sends).
    + destruct (IH c1) as (acts' & Hdrove' & Hasked'). destruct (serve clock others frames c1) as [answers c2].
      exists (acts ++ acts'). split; [by eapply drove_trans|]. rewrite ops_of_app, fmap_cons. apply Hasked.
      by rewrite <- (dv_config _ _ _ _ _ Hdrove).
    + exists acts. split; [done|]. rewrite <- (app_nil_r (ops_of acts)). apply Hasked, asked_nothing.
  - exists acts. split; [done|]. rewrite <- (app_nil_r (ops_of acts)). apply Hasked, asked_nothing.
Qed.

Lemma current_epoch_run c : current_epoch clock others c =
  (Good (im_epoch (others (co_calls c) (co_fabric c))),
   c <| co_fabric := act clock others (co_calls c) None (co_fabric c) |> <| co_calls := S (co_calls c) |>).
Proof. reflexivity. Qed.

Lemma bind_good {A B} (m : C A) (k : A -> C B) c a c' : m c = (Good a, c') -> sm_bind m k c = k a c'.
Proof. intros H. unfold sm_bind. by rewrite H. Qed.

(** What a refusal leaves of the fabric: its tables are those that the other sessions left. *)
Lemma dispatch_stale request c :
  ~ pings request ->
  (valid (mg_epoch request) = false \/
   mg_epoch request <> im_epoch (others (S (co_calls c)) (act clock others (co_calls c) None (co_fabric c)))) ->
  exists c', dispatch clock others request c =
      (Good (respond (mkMessage (mg_op request) (mg_request request) (im_epoch (others (co_calls c) (co_fabric c))) [])
         ErrorCode.StaleEpoch "request epoch is not the current fabric epoch" None, true), c') /\
    co_rejected c' = add64 (co_rejected c) 1 /\ co_served c' = co_served c /\
    exists acts, drove clock others acts c c' /\ ops_of acts = [].
Proof.
  intros Hping Hstale.
  assert (forall op, enum_cast (mg_op request) = Some op -> op <> MessageOp.Hello /\ op <> MessageOp.Ping) as Hop.
  { intros op Hc%enum_code_cast. split; intros ->; apply Hping; [left|right]; done. }
  set (n := co_calls c) in *. set (c1 := c <| co_fabric := act clock others n None (co_fabric c) |> <| co_calls := S n |>).
  set (c2 := c1 <| co_fabric := act clock others (S n) None (co_fabric c1) |> <| co_calls := S (S n) |>).
  set (reply := mkMessage (mg_op request) (mg_request request) (im_epoch (others n (co_fabric c))) []).
  set (text := "request epoch is not the current fabric epoch") in *.
  assert (dispatch clock others request c =
    (Good (respond reply ErrorCode.StaleEpoch text None, true), reject_one (if valid (mg_epoch request) then c2 else c1))) as ->.
  { unfold dispatch. rewrite (bind_good _ _ c _ c1 (current_epoch_run c)). fold reply text.
    transitivity (sm_bind (if valid (mg_epoch request) then let* now := current_epoch clock others in sm_ret (mg_epoch request =? now) else sm_ret false)
      (fun gate : bool => if negb gate then let* r := refuse reply ErrorCode.StaleEpoch text in sm_ret (r, true)
      else handle clock others (enum_cast (mg_op request)) (mg_body request) reply) c1).
    { destruct (enum_cast (mg_op request)) as [op|]; [|done]. destruct (Hop op eq_refl). by destruct op. }
    destruct (valid (mg_epoch request)) eqn:Hv.
    - destruct Hstale as [?|Hne]; [done|]. unfold sm_bind at 1 2. rewrite (current_epoch_run c1 : _ = (_, c2)).
      cbn [sm_ret]. replace (mg_epoch request =? _) with false by (symmetry; by apply Z.eqb_neq). done.
    - done. }
  eexists. split; [done|].
  destruct (valid _); (split; [done|]; split; [done|]).
  - exists [None; None]. split; [|done]. split; simpl; [done|lia|done|done].
  - exists [None]. split; [|done]. split; simpl; [done|lia|done|done].
Qed.
End Session.

(** A coordinator that is full stays full: the end of a session does not make room. *)
Lemma full_stays_full clock others frames c :
  cc_max_clients (co_config c) <= co_clients c -> fst (accept_peer (snd (serve clock others frames c))) <> None.
Proof.
  intros H. destruct (serve_performs clock others frames c) as (acts & [_ _ H3 H4] & _).
  unfold accept_peer. rewrite H3, H4. by destruct (Z.leb_spec (cc_max_clients (co_config c)) (co_clients c)); [|lia].
Qed.

Definition turned_away (answer : option (list Z)) : bool := match answer with Some _ => true | None => false end.

(** The accept loop never serves more peers than the configuration allows, and counts every
    peer it turns away. *)
Theorem accept_loop_bounded arrivals c :
  let '(answers, c') := accept_loop arrivals c in
  co_clients c' = co_clients c + Z.of_nat (length (filter (fun a => turned_away a = false) answers)) /\
  (co_clients c' <= Z.max (co_clients c) (cc_max_clients (co_config c))) /\
  co_rejected c' = Nat.iter (length (filter (fun a => turned_away a = true) answers)) (fun n => add64 n 1) (co_rejected c).
Proof.
  revert c. induction arrivals as [|[stopping arrived] arrivals IH]; intros c; cbn [accept_loop].
  { destruct (co_shutdown_requested c); (split_and!; [simpl; lia|lia|done]). }
  destruct (co_shutdown_requested c); [split_and!; [simpl; lia|lia|done]|].
  set (c1 := if stopping then _ else c). assert (co_clients c1 = co_clients c /\ co_config c1 = co_config c /\ co_rejected c1 = co_rejected c)
    as (H1 & H2 & H3) by by (subst c1; destruct stopping).
  clearbody c1. rewrite <- H1, <- H2, <- H3. destruct arrived; [|apply IH]. unfold accept_peer.
  destruct (Z.leb_spec (cc_max_clients (co_config c1)) (co_clients c1)) as [Hfull|Hroom].
  - specialize (IH (reject_one c1)). destruct (accept_loop arrivals (reject_one c1)) as [answers c'].
    destruct IH as (I1 & I2 & I3). rewrite !filter_cons_False, filter_cons_True by done. split_and!; [exact I1|exact I2|].
    rewrite I3. cbn [length]. by rewrite Nat.iter_succ_r.
  - specialize (IH (c1 <| co_clients ::= fun n => n + 1 |>)).
    destruct (accept_loop arrivals (c1 <| co_clients ::= fun n => n + 1 |>)) as [answers c'].
    destruct IH as (I1 & I2 & I3). rewrite filter_cons_True, filter_cons_False by done. cbn in I1, I2, I3 |- *.
    split_and!; [lia|lia|exact I3].
Qed.

(** ** What reaches the fabric *)

(** The operations of a session, with arguments that fit their types. *)
Definition well_typed (op : Op) : Prop :=
  match op with
  | OpAllocate rq => wf_allocate rq
  | OpRelease rq => wf_release rq
  | OpEvaluate rq => wf_evaluate rq
  | OpObservePressure y => is_u64 (ps_pool y) /\ is_u64 (ps_demand_units y) /\ is_u64 (ps_committed_units y) /\
      is_u64 (ps_reclaimable_units y) /\ is_u64 (ps_provenance y)
  | _ => False
  end.

Lemma asks_typed request op : is_bytes (mg_body request) -> asks request op -> well_typed op.
Proof.
  intros Hb. unfold asks. destruct (enum_cast _) as [[]|]; try done.
  - intros (rq & H & ->). exact (received_yields _ _ _ _ yields_allocate Hb H).
  - intros (rq & H & ->). exact (received_yields _ _ _ _ yields_release Hb H).
  - intros (rq & H & ->). exact (received_yields _ _ _ _ yields_evaluate Hb H).
  - intros (x & y & H & -> & Hp & Hd & Hc & Hr & Hpr & _). apply (received_yields _ _ _ _ yields_pressure Hb) in H.
    destruct H as (? & _ & _ & ? & ? & ? & ?). cbn. rewrite Hp, Hd, Hc, Hr, Hpr. by split_and!.
Qed.

Lemma asked_typed limit frames ops : Forall is_bytes frames -> asked limit frames ops -> Forall well_typed ops.
Proof.
  intros Hb H. revert Hb. induction H as [|frame frames ops H IH|frame request frames op ops Hd Ha H IH]; intros Hb; [done| |].
  - apply Forall_cons in Hb as [_ Hb]. by apply IH.
  - apply Forall_cons in Hb as [Hf Hb]. constructor; [|by apply IH].
    destruct (decode_message_payload_sound _ _ _ Hf Hd) as [Hm _]. eapply asks_typed; [apply Hm|done].
Qed.

(** The releases of a trace run where a release is known to keep the books. *)
Fixpoint releases_admitted (clock : nat -> Z) (others : nat -> Impl -> Impl) (n : nat) (acts : list (option Op)) (s : Impl) : Prop :=
  match acts with
  | [] => True
  | a :: acts =>
      match a with Some (OpRelease rq) => admitted (OpRelease rq) (others n s) | _ => True end /\
      releases_admitted clock others (S n) acts (act clock others n a s)
  end.

Section Books.
Context (clock : nat -> Z) (others : nat -> Impl -> Impl).
Hypothesis Hothers : forall n s, Inv s -> Inv (others n s).

Lemma act_keeps n a s : match a with Some op => admitted op (others n s) | None => True end -> Inv s -> Inv (act clock others n a s).
Proof.
  intros Ha HI%(Hothers n). unfold act, locked_call. pose proof (Inv_locked _ (clock n) HI) as HL.
  destruct a as [op|]; [|exact HL]. exact (keeps_run _ _ (perform_keeps _ HL op (admitted_locked op _ (clock n) Ha))).
Qed.

Lemma replay_keeps acts : forall n s, Forall well_typed (ops_of acts) -> releases_admitted clock others n acts s -> Inv s ->
  Inv (replay clock others n acts s).
Proof.
  induction acts as [|a acts IH]; intros n s Ht Hr HI; [done|]. cbn [replay]. destruct Hr as [Ha Hr].
  assert (Forall well_typed (ops_of acts)) as Hrest by (destruct a; [by apply Forall_cons in Ht as [_ Ht]|exact Ht]).
  apply IH; [done|done|]. apply act_keeps; [|done]. destruct a as [op|]; [|done].
  apply Forall_cons in Ht as [Hop _]. destruct op; try done. cbn in Hop |- *. unfold wf_allocate in Hop. u64_lia.
Qed.
End Books.

(** * The coordinator's promises *)

(** C14. Whatever frames a client sends, and whatever the other sessions do meanwhile, a session
    changes the fabric only through its operations: the fabric after the session is the one
    reached by the other sessions' changes and, between them, the session's calls, and the
    calls that are operations are, in order, at most one for each frame, each the allocate,
    release, evaluate or observe that the frame's opcode names, with the arguments decoded from
    its body. The session never touches the configuration or the count of clients. *)
Theorem session_mediated (clock : nat -> Z) (others : nat -> Impl -> Impl) (frames : list (list Z * bool)) (c : Coordinator) :
  exists acts,
    co_fabric (snd (serve clock others frames c)) = replay clock others (co_calls c) acts (co_fabric c) /\
    co_calls (snd (serve clock others frames c)) = (co_calls c + length acts)%nat /\
    asked (cc_max_frame_bytes (co_config c)) (fst <$> frames) (ops_of acts) /\
    co_config (snd (serve clock others frames c)) = co_config c /\
    co_clients (snd (serve clock others frames c)) = co_clients c.
Proof. destruct (serve_performs clock others frames c) as (acts & [H1 H2 H3 H4] & Ha). exists acts. by split_and!. Qed.

(** C13. Sessions keep the books. If what the other sessions do keeps the fabric's invariant, then so
    does a session, from any bytes its client sends: after it, the invariant holds if each of
    its releases ran where a release keeps the books (see [admitted]); its allocations,
    evaluations and observations, refused and failed ones included, need no such condition. *)
Theorem session_keeps_books (clock : nat -> Z) (others : nat -> Impl -> Impl) (frames : list (list Z * bool)) (c : Coordinator) :
  (forall n s, Inv s -> Inv (others n s)) ->
  Forall is_bytes (fst <$> frames) -> Inv (co_fabric c) ->
  exists acts,
    co_fabric (snd (serve clock others frames c)) = replay clock others (co_calls c) acts (co_fabric c) /\
    asked (cc_max_frame_bytes (co_config c)) (fst <$> frames) (ops_of acts) /\
    (releases_admitted clock others (co_calls c) acts (co_fabric c) -> Inv (co_fabric (snd (serve clock others frames c)))).
Proof.
  intros Ho Hb HI. destruct (serve_performs clock others frames c) as (acts & [H1 _ _ _] & Ha). exists acts.
  split; [done|]. split; [done|]. intros Hr. rewrite H1. apply replay_keeps; try done. by eapply asked_typed.
Qed.

(** C30. A request that does not present the epoch that is current at its gate (none, an old one, one
    made up) is answered [StaleEpoch] and ends the session, whatever operation it names and
    whatever its body, malformed ones included: it performs no operation on the fabric, it is
    counted as rejected and not as served, and the reply carries its opcode and request id. Only
    the greeting and the ping pass without an epoch. *)
Theorem stale_request_refused (clock : nat -> Z) (others : nat -> Impl -> Impl) (request : Message) (c : Coordinator) :
  ~ pings request ->
  (valid (mg_epoch request) = false \/
   mg_epoch request <> im_epoch (others (S (co_calls c)) (act clock others (co_calls c) None (co_fabric c)))) ->
  exists reply c', dispatch clock others request c = (Good (reply, true), c') /\
    mg_op reply = mg_op request /\ mg_request reply = mg_request request /\
    mg_body reply = sent (encode_response ErrorCode.StaleEpoch "request epoch is not the current fabric epoch" None) /\
    co_rejected c' = add64 (co_rejected c) 1 /\ co_served c' = co_served c /\
    exists acts, drove clock others acts c c' /\ ops_of acts = [].
Proof.
  intros Hp Hs. destruct (dispatch_stale clock others request c Hp Hs) as (c' & H & Hr & Hd & Ha). by eexists _, c'.
Qed.

Definition sample_request : Message := mkMessage (enum_code MessageOp.Allocate) 5 7 [1; 2; 3].

Lemma stale_request_refused_witness :
  ~ pings sample_request /\
  exists reply c', dispatch (fun _ => 0) (fun _ s => s) sample_request default_Coordinator = (Good (reply, true), c') /\ co_rejected c' = 1.
Proof.
  assert (~ pings sample_request) as Hping by (intros [H|H]; vm_compute in H; discriminate H).
  split; [exact Hping|].
  destruct (stale_request_refused (fun _ => 0) (fun _ s => s) sample_request default_Coordinator Hping) as (reply & c' & H & _ & _ & _ & Hr & _).
  - right. vm_compute. discriminate.
  - exists reply, c'. split; [exact H|]. rewrite Hr. reflexivity.
Defined.

(** A greeting, an allocation and rubbish, to a coordinator just constructed at epoch 7. *)
Definition sample_session : list (list Z * bool) := [
  (message_bytes (mkMessage (enum_code MessageOp.Ping) 1 0 []), true);
  (message_bytes (mkMessage (enum_code MessageOp.Allocate) 2 7
     (sent (encode_allocate (default_AllocateRequest <| aq_attempt := 1 |> <| aq_pool := 2 |> <| aq_queue := 3 |> <| aq_requested_units := 4 |>)))), true);
  ([1; 2; 3], true)].

Definition sample_server : Coordinator := default_Coordinator <| co_fabric ::= fun s => s <| im_epoch := 7 |> |>.

Lemma session_keeps_books_witness : exists acts,
  co_fabric (snd (serve (fun _ => 0) (fun _ s => s) sample_session sample_server)) =
    replay (fun _ => 0) (fun _ s => s) (co_calls sample_server) acts (co_fabric sample_server) /\
  (releases_admitted (fun _ => 0) (fun _ s => s) (co_calls sample_server) acts (co_fabric sample_server) ->
   Inv (co_fabric (snd (serve (fun _ => 0) (fun _ s => s) sample_session sample_server)))).
Proof.
  destruct (session_keeps_books (fun _ => 0) (fun _ s => s) sample_session sample_server) as (acts & H1 & _ & H2).
  - intros n s H. exact H.
  - apply (bool_decide_unpack _). vm_compute. exact I.
  - destruct constructed_inv as [H1 H2 H3 H4 H5 H6]. split; assumption.
  - exists acts. split; [exact H1|exact H2].
Defined.
