(* ===== verification/Transport.v ===== *)
(** * Bytes over a socket

    [src/transport.cpp]: a TCP stream delivers bytes in pieces of any size, may be
    interrupted and may break, and the functions of [Socket] put frames together from what
    arrives. [sk_in] is what the peer has written and [sk_out] what this side has;
    [sk_arrivals] and [sk_departures] say how the coming calls of [recv] and [send] go, and
    past the end of a list every call moves all that it can. Opening and closing sockets is
    in [Sockets]. *)

From S2P Require Import Prelude Ints Hash Enums Status Codec Model Wire Protocol.

(** ** The socket *)

(** One call of the system: at most [n] bytes, an interruption by a signal, or an error. A
    [send] that returns 0 is handled as a failure with whatever error was set last, so it is
    one of the latter two. *)
Inductive Transfer := Moves (n : Z) | Interrupted | Broken (reason : string).

Record Socket := mkSocket {
  sk_open : bool; sk_in : list Z; sk_arrivals : list Transfer; sk_out : list Z; sk_departures : list Transfer
}.

#[export] Instance settable_Socket : Settable Socket := fun s =>
  mkSocket (sk_open s) (sk_in s) (sk_arrivals s) (sk_out s) (sk_departures s).

Definition socket_error (what reason : string) : Status :=
  status_of ErrorCode.TransportError (snprintf 160 (what ++ " failed: " ++ reason)%string).

(** One call moves at most 2^30 bytes. *)
Definition kMaxChunk : Z := 0x40000000.

Definition chunk (n remaining : Z) : nat := Z.to_nat (Z.max 1 (Z.min n (Z.min kMaxChunk remaining))).

Definition require_socket : StateR Socket unit := fun s =>
  (reject_if (negb (sk_open s)) ErrorCode.LifecycleViolation "socket is not open", s).

(** [send_all]'s loop: an interrupted call is made again. *)
Fixpoint send_loop (departures : list Transfer) (bytes : list Z) (out : list Z) : Result unit * list Z * list Transfer :=
  match bytes, departures with
  | [], _ => (Good tt, out, departures)
  | _, [] => (Good tt, out ++ bytes, [])
  | _, Moves n :: departures =>
      let k := chunk n (Z.of_nat (length bytes)) in send_loop departures (drop k bytes) (out ++ take k bytes)
  | _, Interrupted :: departures => send_loop departures bytes out
  | _, Broken reason :: departures => (Bad (socket_error "send" reason), out, departures)
  end.

Definition send_all (bytes : list Z) : StateR Socket unit :=
  require_socket ;;;
  fun s => let '(r, out, departures) := send_loop (sk_departures s) bytes (sk_out s) in
           (r, s <| sk_out := out |> <| sk_departures := departures |>).

(** At most [capacity] bytes; none when the peer has closed, and none after an interruption. *)
Definition receive_some (capacity : Z) : StateR Socket (list Z) :=
  require_socket ;;;
  fun s =>
    if capacity =? 0 then (Good [], s)
    else
      let got k s := (Good (take k (sk_in s)), s <| sk_in ::= drop k |>) in
      match sk_arrivals s with
      | [] => got (chunk capacity capacity) s
      | Moves n :: arrivals => got (chunk n capacity) (s <| sk_arrivals := arrivals |>)
      | Interrupted :: arrivals => (Good [], s <| sk_arrivals := arrivals |>)
      | Broken reason :: arrivals => (Bad (socket_error "recv" reason), s <| sk_arrivals := arrivals |>)
      end.

(** [receive_exact]: each turn of its loop takes a byte at least, so that [remaining] turns
    are enough. *)
Fixpoint receive_loop (turns : nat) (remaining : Z) : StateR Socket (list Z) :=
  if remaining <=? 0 then sm_ret []
  else match turns with
  | O => sm_lift (fail ErrorCode.PeerClosed "peer closed the connection")
  | S turns =>
      let* got := receive_some remaining in
      match got with
      | [] => sm_lift (fail ErrorCode.PeerClosed "peer closed the connection")
      | _ => let* more := receive_loop turns (remaining - Z.of_nat (length got)) in sm_ret (got ++ more)
      end
  end.

Definition receive_exact (size : Z) : StateR Socket (list Z) := receive_loop (Z.to_nat size) size.

Definition send_frame (payload : list Z) : StateR Socket unit :=
  sm_lift (reject_if (kMaxFrameBytes <? Z.of_nat (length payload)) ErrorCode.OversizedMessage "frame exceeds the transport bound") ;;;
  send_all (encode_frame payload kTransportMagic kWireFormatVersion).

(** The checks of [receive_frame] on a header. *)
Definition check_header (magic version payload_bytes max_payload : Z) : Result unit :=
  BF_TRY (reject_if (negb (magic =? kTransportMagic)) ErrorCode.ProtocolViolation "frame magic mismatch");
  BF_TRY (reject_if (negb (version =? kWireFormatVersion)) ErrorCode.ProtocolVersionMismatch "wire format version mismatch");
  reject_if (max_payload <? payload_bytes) ErrorCode.OversizedMessage "frame payload exceeds the transport bound".

Definition receive_frame (max_payload : Z) : StateR Socket (list Z) :=
  let* header := receive_exact kFrameHeaderBytes in
  match fst (get_frame_header (reader_of header)) with
  | None => sm_lift (fail ErrorCode.ProtocolViolation "frame header is not decodable")
  | Some (magic, version, payload_bytes, expected_crc) =>
      sm_lift (check_header magic version payload_bytes max_payload) ;;;
      let* payload := (if negb (payload_bytes =? 0) then receive_exact payload_bytes else sm_ret []) in
      sm_lift (reject_if (negb (crc32c payload 0 =? expected_crc)) ErrorCode.IntegrityFailure "frame checksum mismatch") ;;;
      sm_ret payload
  end.

(** ** What arrives *)

Definition moves (t : Transfer) : bool := match t with Moves _ => true | _ => false end.
Definition breaks (t : Transfer) : bool := match t with Broken _ => true | _ => false end.

(** An open socket whose coming reads are neither interrupted nor broken. *)
Definition steady (s : Socket) : Prop := sk_open s = true /\ Forall (fun t => moves t = true) (sk_arrivals s).

(** [s'] is [s] after [n] bytes of its stream were read. *)
Record read_from (s : Socket) (n : nat) (s' : Socket) : Prop := {
  rf_steady : steady s';
  rf_in : sk_in s' = drop n (sk_in s);
  rf_out : sk_out s' = sk_out s;
  rf_departures : sk_departures s' = sk_departures s
}.

Lemma read_from_refl s : steady s -> read_from s 0 s.
Proof. intros H. by split. Qed.

Lemma read_from_trans a n b m c : read_from a n b -> read_from b m c -> read_from a (n + m) c.
Proof. intros [] []. split; [done|rewrite rf_in1, rf_in0; apply drop_drop|congruence|congruence]. Qed.

Lemma chunk_bound n remaining : 0 < remaining -> (1 <= chunk n remaining)%nat /\ Z.of_nat (chunk n remaining) <= remaining.
Proof. intros H. unfold chunk, kMaxChunk. lia. Qed.

Lemma receive_some_steady capacity s : steady s -> 0 < capacity ->
  exists k s', receive_some capacity s = (Good (take k (sk_in s)), s') /\
    (1 <= k)%nat /\ Z.of_nat k <= capacity /\ read_from s k s'.
Proof.
  intros [Ho Ha] Hc. unfold receive_some, sm_bind, require_socket. rewrite Ho. cbn [negb reject_if].
  destruct (Z.eqb_spec capacity 0); [lia|]. destruct s as [open bytes arrivals out departures]; cbn in *. subst open.
  destruct Ha as [|t arrivals Ht Ha].
  - exists (chunk capacity capacity). eexists. split; [done|]. destruct (chunk_bound capacity capacity Hc). split_and!; [done|done|].
    by split.
  - destruct t as [m| |]; [|done|done]. exists (chunk m capacity). eexists. split; [done|].
    destruct (chunk_bound m capacity Hc). split_and!; [done|done|]. split; try done.
Qed.

Lemma receive_loop_steady turns remaining s : steady s -> 0 <= remaining <= Z.of_nat turns ->
  exists s', read_from s (Z.to_nat remaining) s' /\
  receive_loop turns remaining s =
    (if remaining <=? Z.of_nat (length (sk_in s)) then Good (take (Z.to_nat remaining) (sk_in s))
     else fail ErrorCode.PeerClosed "peer closed the connection", s').
Proof.
  revert remaining s. induction turns as [|turns IH]; intros remaining s Hs Hr.
  { assert (remaining = 0) as -> by lia. exists s. split; [by apply read_from_refl|]. cbn. by destruct (Z.leb_spec 0 (Z.of_nat (length (sk_in s)))); [|lia]. }
  cbn [receive_loop]. destruct (Z.leb_spec remaining 0).
  { assert (remaining = 0) as -> by lia. exists s. split; [by apply read_from_refl|]. by destruct (Z.leb_spec 0 (Z.of_nat (length (sk_in s)))); [|lia]. }
  destruct (receive_some_steady remaining s Hs) as (k & s1 & Hk & Hk1 & Hk2 & Hread); [lia|].
  unfold sm_bind at 1. rewrite Hk. destruct (take k (sk_in s)) as [|b got] eqn:Hgot.
  - assert (sk_in s = []) as Hnil. { destruct (sk_in s); [done|]. destruct k; [lia|done]. }
    rewrite Hnil. destruct (Z.leb_spec remaining (Z.of_nat (length (A := Z) []))); [simpl in *; lia|].
    exists s1. split; [|done]. destruct Hread. split; try done. rewrite rf_in0, Hnil. by rewrite !drop_nil.
  - rewrite <- Hgot. assert (Hlen : length (take k (sk_in s)) = (k `min` length (sk_in s))%nat) by apply length_take.
    assert (length (take k (sk_in s)) <> 0%nat) by (rewrite Hgot; done).
    destruct (IH (remaining - Z.of_nat (length (take k (sk_in s)))) s1) as (s2 & Hread2 & Hloop); [apply Hread|lia|].
    unfold sm_bind. rewrite Hloop, (rf_in _ _ _ Hread), length_drop. exists s2. split.
    + destruct (decide (k <= length (sk_in s))%nat).
      * replace (Z.to_nat remaining) with (k + Z.to_nat (remaining - Z.of_nat (length (take k (sk_in s)))))%nat by lia. by eapply read_from_trans.
      * destruct Hread, Hread2. split; [done| |congruence|congruence]. rewrite rf_in1, rf_in0, drop_drop. rewrite !drop_ge by lia. done.
    + destruct (Z.leb_spec remaining (Z.of_nat (length (sk_in s)))).
      * replace (k `min` length (sk_in s))%nat with k in Hlen by lia. rewrite Hlen.
        destruct (Z.leb_spec (remaining - Z.of_nat k) (Z.of_nat (length (sk_in s) - k))); [|lia].
        replace (Z.to_nat remaining) with (k + Z.to_nat (remaining - Z.of_nat k))%nat by lia.
        unfold sm_ret. by rewrite take_take_drop.
      * destruct (Z.leb_spec (remaining - Z.of_nat (length (take k (sk_in s)))) (Z.of_nat (length (sk_in s) - k))); [lia|done].
Qed.

(** ** Frames *)

(** [receive_frame] reports with its own codes what [decode_frame] finds. *)
Definition socket_code (code : ErrorCode) : ErrorCode :=
  match code with
  | ErrorCode.TruncatedMessage => ErrorCode.PeerClosed
  | ErrorCode.CorruptRecord => ErrorCode.ProtocolViolation
  | ErrorCode.VersionMismatch => ErrorCode.ProtocolVersionMismatch
  | code => code
  end.

Lemma receive_exact_steady size s : steady s -> 0 <= size -> exists s', read_from s (Z.to_nat size) s' /\
  receive_exact size s = (if size <=? Z.of_nat (length (sk_in s)) then Good (take (Z.to_nat size) (sk_in s))
     else fail ErrorCode.PeerClosed "peer closed the connection", s').
Proof. intros Hs Hn. apply receive_loop_steady; [done|lia]. Qed.

Lemma bind_run {T A B} (m : StateR T A) (k : A -> StateR T B) s r s' :
  m s = (r, s') -> sm_bind m k s = match r with Good a => k a s' | Bad e => (Bad e, s') end.
Proof. intros H. unfold sm_bind. by rewrite H. Qed.

Lemma receive_frame_steady max_payload s : steady s -> is_bytes (sk_in s) ->
  match decode_frame (sk_in s) kTransportMagic kWireFormatVersion max_payload with
  | Good (payload, n) => exists s', receive_frame max_payload s = (Good payload, s') /\ read_from s (Z.to_nat n) s'
  | Bad e => exists e' s', receive_frame max_payload s = (Bad e', s') /\ st_code e' = socket_code (st_code e)
  end.
Proof.
  intros Hs Hb. unfold receive_frame.
  destruct (receive_exact_steady kFrameHeaderBytes s Hs) as (s1 & Hr1 & Hx); [done|]. rewrite (bind_run _ _ _ _ _ Hx). clear Hx.
  change kFrameHeaderBytes with 16. destruct (Z.leb_spec 16 (Z.of_nat (length (sk_in s)))) as [Hlen|Hlen].
  2:{ unfold decode_frame. change kFrameHeaderBytes with 16. destruct (Z.ltb_spec (Z.of_nat (length (sk_in s))) 16); [|lia]. by eexists _, s1. }
  change (Z.to_nat kFrameHeaderBytes) with 16%nat in Hr1. change (Z.to_nat 16) with 16%nat.
  pose proof (rf_in _ _ _ Hr1) as Hin1. rewrite <- (take_drop 16 (sk_in s)) in Hb. apply Forall_app in Hb as [Hb1 Hb2].
  destruct (split_words (take 16 (sk_in s))) as (a & b & c & d & Ha & Hbb & Hc & Hd & Hw); [done|rewrite length_take; lia|].
  rewrite Hw, get_frame_header_words by done. set (rest := drop 16 (sk_in s)) in *.
  pose proof (f_equal (fun l => decode_frame (l ++ rest) kTransportMagic kWireFormatVersion max_payload) Hw) as Hdec.
  cbn beta in Hdec. unfold rest in Hdec at 1. rewrite take_drop, decode_frame_words in Hdec by done. rewrite Hdec. clear Hdec. 
  rewrite (bind_run (sm_lift _) _ s1 _ s1 eq_refl). unfold check_header, reject_if, result_bind.
  destruct (Z.eqb_spec a kTransportMagic); cbn [negb]; [|by eexists _, s1].
  destruct (Z.eqb_spec b kWireFormatVersion); cbn [negb]; [|by eexists _, s1].
  destruct (Z.ltb_spec max_payload c); [by eexists _, s1|].
  assert (exists s2, read_from s1 (Z.to_nat c) s2 /\ (if negb (c =? 0) then receive_exact c else sm_ret []) s1 =
    (if c <=? Z.of_nat (length rest) then Good (take (Z.to_nat c) rest) else fail ErrorCode.PeerClosed "peer closed the connection", s2))
    as (s2 & Hr2 & Hx).
  { rewrite <- Hin1. destruct (Z.eqb_spec c 0) as [->|]; cbn [negb].
    - exists s1. split; [apply read_from_refl, Hr1|]. by destruct (Z.leb_spec 0 (Z.of_nat (length (sk_in s1)))); [|lia].
    - apply receive_exact_steady; [apply Hr1|u64_lia]. }
  rewrite (bind_run _ _ _ _ _ Hx). clear Hx. destruct (Z.ltb_spec (Z.of_nat (length rest)) c); destruct (Z.leb_spec c (Z.of_nat (length rest))); [lia|by eexists _, s2| |lia].
  rewrite (bind_run (sm_lift _) _ s2 _ s2 eq_refl). unfold reject_if.
  destruct (Z.eqb_spec (crc32c (take (Z.to_nat c) rest) 0) d); cbn [negb]; [|by eexists _, s2].
  exists s2. split; [done|]. replace (Z.to_nat (16 + c)) with (16 + Z.to_nat c)%nat by u64_lia. by eapply read_from_trans.
Qed.

(** ** What is sent *)

Lemma send_loop_exact departures bytes out : Forall (fun t => breaks t = false) departures ->
  exists left, send_loop departures bytes out = (Good tt, out ++ bytes, left).
Proof.
  intros H. revert bytes out. induction H as [|t departures Ht Hd IH]; intros bytes out.
  { exists []. destruct bytes; [by rewrite app_nil_r|done]. }
  destruct bytes as [|b bytes]; [eexists; by rewrite app_nil_r|]. destruct t as [n| |]; [| |done]; cbn [send_loop].
  - set (k := chunk _ _). destruct (IH (drop k (b :: bytes)) (out ++ take k (b :: bytes))) as (left & ->).
    exists left. by rewrite <- app_assoc, take_drop.
  - apply IH.
Qed.

(** However it goes, what was put on the stream is a beginning of what was to be sent, and all
    of it when the call succeeds. *)
Lemma send_loop_prefix departures bytes out r out' left : send_loop departures bytes out = (r, out', left) ->
  exists k, (k <= length bytes)%nat /\ out' = out ++ take k bytes /\ (result_ok r = true -> k = length bytes).
Proof.
  revert bytes out. induction departures as [|t departures IH]; intros bytes out H.
  { exists (length bytes). rewrite take_ge by done. split; [done|]. destruct bytes; injection H as <- <- <-; by rewrite ?app_nil_r. }
  destruct bytes as [|b bytes]; [exists 0%nat; injection H as <- <- <-; by rewrite app_nil_r|].
  destruct t as [n| |reason]; cbn [send_loop] in H.
  - set (k := chunk _ _) in H. apply IH in H as (j & Hj & -> & Hok). rewrite length_drop in Hj, Hok.
    set (all := b :: bytes) in *. destruct (decide (k <= length all)%nat).
    + exists (k + j)%nat. split; [lia|]. rewrite <- app_assoc, take_take_drop. split; [done|]. intros Hr. specialize (Hok Hr). lia.
    + exists (length all). split; [done|]. rewrite <- app_assoc, take_take_drop, !take_ge by lia. done.
  - by apply IH.
  - injection H as <- <- <-. exists 0%nat. split; [lia|]. split; [by rewrite take_0, app_nil_r|done].
Qed.

Lemma send_all_delivers bytes s : sk_open s = true -> Forall (fun t => breaks t = false) (sk_departures s) ->
  exists s', send_all bytes s = (Good tt, s') /\ sk_out s' = sk_out s ++ bytes /\ sk_in s' = sk_in s.
Proof.
  intros Ho Hd. destruct (send_loop_exact (sk_departures s) bytes (sk_out s) Hd) as (left & Hl).
  unfold send_all. rewrite (bind_run require_socket _ s (Good tt) s) by (unfold require_socket; by rewrite Ho).
  rewrite Hl. by eexists.
Qed.

Lemma receive_message_frame m max max_frame s rest : wf_message m max -> max <= u32_max - 21 ->
  21 + Z.of_nat (length (mg_body m)) <= max_frame -> max_frame <= u32_max ->
  steady s -> is_bytes rest -> sk_in s = encode_message m ++ rest ->
  exists payload s', receive_frame max_frame s = (Good payload, s') /\ sk_in s' = rest /\ steady s' /\
    decode_message_payload payload max = Good m.
Proof.
  intros Hm Hmax Hl Hf Hs Hrest Hin. destruct (message_bytes_bytes m max ltac:(lia) Hm) as [Hb Hlen].
  assert (encode_message m = encode_frame (message_bytes m) kTransportMagic kWireFormatVersion) as He.
  { unfold encode_message. by rewrite (message_payload m max ltac:(lia) Hm). }
  assert (is_bytes (encode_message m)) as Hbe.
  { rewrite He, encode_frame_eq. apply Forall_app_2; [|done]. unfold frame_header. repeat apply Forall_app_2; apply le_bytes_is_bytes. }
  pose proof (receive_frame_steady max_frame s Hs) as H. rewrite Hin, He in H.
  rewrite (decode_encode_frame kTransportMagic kWireFormatVersion) in H; [|unfold kTransportMagic; u64_lia|unfold kWireFormatVersion; u64_lia|exact Hb|lia|exact Hf].
  destruct H as (s' & Hr & Hread); [rewrite <- He; by apply Forall_app_2|]. exists (message_bytes m), s'. split; [done|].
  split; [|split; [apply Hread|by apply decode_message_payload_bytes; [lia|]]].
  rewrite (rf_in _ _ _ Hread), Hin, He. apply drop_app_length'. rewrite encode_frame_eq, length_app, frame_header_length. lia.
Qed.

(** * What the socket layer promises *)

(** C32. Reading a frame from a socket is decoding the stream: as long as reads are neither
    interrupted nor broken, and in whatever pieces the bytes arrive, [receive_frame] answers a
    payload exactly when [decode_frame] finds that payload at the front of the stream, and then
    has consumed exactly the bytes of that frame, so that the next read begins at the next
    frame; and it fails exactly when [decode_frame] does, with the corresponding code (a stream
    that ends too early is a peer that closed). *)
Theorem receive_frame_is_decode (max_payload : Z) (s : Socket) :
  steady s -> is_bytes (sk_in s) ->
  match decode_frame (sk_in s) kTransportMagic kWireFormatVersion max_payload with
  | Good (payload, n) => exists s', receive_frame max_payload s = (Good payload, s') /\
      sk_in s' = drop (Z.to_nat n) (sk_in s) /\ steady s'
  | Bad e => exists e' s', receive_frame max_payload s = (Bad e', s') /\ st_code e' = socket_code (st_code e)
  end.
Proof.
  intros Hs Hb. pose proof (receive_frame_steady max_payload s Hs Hb) as H.
  destruct (decode_frame _ _ _ _) as [[payload n]|e]; [|exact H]. destruct H as (s' & Hr & Hread). exists s'. by destruct Hread.
Qed.

(** C33. A message crosses the wire. Let its body fit the bounds of both ends, the longest frame and
    32 bits. Sending it on an open socket terminates and puts its encoding on the stream
    however the system splits the writes and however many of them are interrupted, provided
    none breaks; and a reader of that stream that is steady, none of its reads being broken or
    interrupted by a signal (an interrupted read is taken for a closed peer), gets the message
    back in whatever pieces it arrives and whatever follows it, and stands at what follows. *)
Theorem message_crosses (m : Message) (max max_frame : Z) (a b : Socket) (rest : list Z) :
  wf_message m max -> max <= u32_max - 21 -> 21 + Z.of_nat (length (mg_body m)) <= max_frame -> max_frame <= u32_max ->
  sk_open a = true -> Forall (fun t => breaks t = false) (sk_departures a) ->
  steady b -> is_bytes rest -> sk_in b = encode_message m ++ rest ->
  exists a' payload b',
    send_all (encode_message m) a = (Good tt, a') /\ sk_out a' = sk_out a ++ encode_message m /\
    receive_frame max_frame b = (Good payload, b') /\ sk_in b' = rest /\ steady b' /\
    decode_message_payload payload max = Good m.
Proof.
  intros Hm Hmax Hl Hf Ho Hd Hs Hrest Hin.
  destruct (send_all_delivers (encode_message m) a Ho Hd) as (a' & Hsend & Hout & _).
  destruct (receive_message_frame m max max_frame b rest Hm Hmax Hl Hf Hs Hrest Hin) as (payload & b' & Hr & Hb' & Hs' & Hdec).
  by exists a', payload, b'.
Qed.

(** A sender whose writes are split and interrupted, and a reader that gets a byte, then seven,
    then the rest. *)
Definition sample_sender : Socket := mkSocket true [] [] [] [Moves 3; Interrupted; Moves 1; Interrupted; Interrupted].
Definition sample_reader : Socket := mkSocket true (encode_message sample_message ++ [9; 9]) [Moves 1; Moves 7] [] [].

Lemma sample_reader_steady : steady sample_reader.
Proof. split; [reflexivity|repeat constructor]. Defined.

Lemma receive_frame_is_decode_witness : exists s',
  receive_frame 100 sample_reader = (Good (message_bytes sample_message), s') /\ sk_in s' = [9; 9] /\ steady s'.
Proof.
  assert (is_bytes (sk_in sample_reader)) as Hb by (apply (bool_decide_unpack _); vm_compute; exact I).
  pose proof (receive_frame_is_decode 100 sample_reader sample_reader_steady Hb) as H. vm_compute in H. exact H.
Defined.

Lemma message_crosses_witness : exists a' payload b',
  send_all (encode_message sample_message) sample_sender = (Good tt, a') /\
  receive_frame 100 sample_reader = (Good payload, b') /\ sk_in b' = [9; 9] /\
  decode_message_payload payload 50 = Good sample_message.
Proof.
  assert (wf_message sample_message 50) as Hm by (split; cbn; try done; apply (bool_decide_unpack _); vm_compute; reflexivity).
  assert (is_bytes [9; 9]) as Hb by (apply (bool_decide_unpack _); vm_compute; exact I).
  assert (Forall (fun t => breaks t = false) (sk_departures sample_sender)) as Hd by (repeat constructor).
  destruct (message_crosses sample_message 50 100 sample_sender sample_reader [9; 9] Hm) as (a' & payload & b' & H1 & _ & H2 & H3 & _ & H4);
    [unfold u32_max; lia|cbn; lia|unfold u32_max; lia|reflexivity|exact Hd|exact sample_reader_steady|exact Hb|reflexivity|].
  exists a', payload, b'. split; [exact H1|]. split; [exact H2|]. split; [exact H3|exact H4].
Defined.

(** An interrupted [send] is made again, an interrupted [recv] is not: the frame is all there
    and the reader reports that its peer has closed. *)
Example interrupted_read_is_a_closed_peer :
  result_code (fst (receive_frame 100 (sample_reader <| sk_arrivals := [Moves 1; Interrupted] |>))) = ErrorCode.PeerClosed.
Proof. vm_compute. reflexivity. Qed.
