(* ===== verification/Sockets.v ===== *)
(** * Opening and closing sockets

    The rest of [src/transport.cpp]: how sockets come to be, are moved and are closed. The
    system keeps a set of open handles; each call takes its outcome from a list. A socket
    object holds one handle or none, and its destructor closes it. The theorem shows that
    handles and objects always correspond: no handle is leaked, none is closed twice and
    none is used after it was closed, on the failing paths too. *)

From S2P Require Import Prelude Ints Hash Enums Status Codec Model Wire Protocol Transport Persist Files.

(** ** The system *)

(** [nt_started] is what initialising the sockets gave, once it was done; [nt_faults] counts
    the calls on handles that are not open. *)
Record Net := mkNet {
  nt_platform : Platform; nt_started : option (Result unit); nt_open : gset nat; nt_next : nat; nt_faults : nat;
  nt_calls : list (option string)
}.

#[export] Instance settable_Net : Settable Net := fun n =>
  mkNet (nt_platform n) (nt_started n) (nt_open n) (nt_next n) (nt_faults n) (nt_calls n).

(** How the next call goes: why it fails, or nothing. *)
Definition next_call : StateR Net (option string) := fun n =>
  match nt_calls n with
  | [] => (Good None, n)
  | c :: calls => (Good c, n <| nt_calls := calls |>)
  end.

(** A handle is used, and a call made on it. *)
Definition touch (h : nat) : StateR Net unit :=
  sm_modify (fun n => if decide (h ∈ nt_open n) then n else n <| nt_faults ::= S |>).

Definition on_handle (h : nat) : StateR Net (option string) := touch h ;;; next_call.

(** [socket], and [accept] once the listener is used: a handle that is not open. *)
Definition new_handle : StateR Net (string + nat) :=
  let* failure := next_call in
  match failure with
  | Some reason => sm_ret (inl reason)
  | None => fun n => (Good (inr (nt_next n)), n <| nt_open ::= union {[nt_next n]} |> <| nt_next ::= S |>)
  end.

Definition close_handle (h : nat) (n : Net) : Net :=
  if decide (h ∈ nt_open n) then n <| nt_open ::= fun o => o ∖ {[h]} |> else n <| nt_faults ::= S |>.

(** A call on a handle whose failure is an error. *)
Definition handle_call (what : string) (h : nat) : StateR Net unit :=
  let* failure := on_handle h in
  match failure with
  | Some reason => sm_lift (Bad (socket_error what reason))
  | None => sm_ret tt
  end.

Definition set_nodelay (h : nat) : StateR Net unit := handle_call "setsockopt(TCP_NODELAY)" h.

Definition initialise_sockets_once : StateR Net (Result unit) :=
  let* n := sm_get in
  match nt_platform n with
  | Windows =>
      let* failure := next_call in
      sm_ret (match failure with Some _ => fail ErrorCode.TransportError "WSAStartup failed" | None => Good tt end)
  | Posix => sm_ret (Good tt)
  end.

(** [call_once], and then the status that it left. *)
Definition ensure_sockets_initialised : StateR Net unit :=
  let* n := sm_get in
  match nt_started n with
  | Some status => sm_lift status
  | None =>
      let* status := initialise_sockets_once in
      sm_modify (fun n => n <| nt_started := Some status |>) ;;;
      sm_lift status
  end.

(** [Socket socket(handle)] in a function that returns early: the destructor closes [h]. *)
Definition scoped {A} (h : nat) (m : StateR Net A) : StateR Net A := fun n =>
  match m n with
  | (Bad e, n') => (Bad e, close_handle h n')
  | r => r
  end.

Definition opened_handle (what : string) : StateR Net nat :=
  let* r := new_handle in
  match r with
  | inl reason => sm_lift (Bad (socket_error what reason))
  | inr h => sm_ret h
  end.

Section Addresses.
(** [inet_pton] on an IPv4 address, and the port that the system gives a socket. *)
Context (inet_pton : string -> bool) (port_of : nat -> Z).

Definition parse_address (address message : string) : StateR Net unit :=
  sm_lift (reject_if (negb (inet_pton address)) ErrorCode.InvalidArgument message).

(** What is done to the handle: no failure to reuse the address counts. *)
Definition prepare_listener (h : nat) (address : string) : StateR Net unit :=
  let* _ := on_handle h in
  parse_address address "listen address must be a dotted-quad IPv4 address" ;;;
  handle_call "bind" h ;;;
  handle_call "listen" h ;;;
  handle_call "getsockname" h.

(** [Socket::listen] with a place for the port. *)
Definition listen (address : string) : StateR Net (nat * Z) :=
  ensure_sockets_initialised ;;;
  sm_lift (reject_if (String.eqb address "") ErrorCode.InvalidArgument "listen address is empty") ;;;
  let* h := opened_handle "socket" in
  scoped h (prepare_listener h address ;;; sm_ret (h, port_of h)).

Definition prepare_connection (h : nat) (address : string) : StateR Net unit :=
  set_nodelay h ;;;
  parse_address address "connect address must be a dotted-quad IPv4 address" ;;;
  handle_call "connect" h.

Definition connect_to (address : string) (port : Z) : StateR Net nat :=
  ensure_sockets_initialised ;;;
  sm_lift (reject_if (String.eqb address "") ErrorCode.InvalidArgument "connect address is empty") ;;;
  sm_lift (reject_if (port =? 0) ErrorCode.InvalidArgument "connect port must be non-zero") ;;;
  let* h := opened_handle "socket" in
  scoped h (prepare_connection h address ;;; sm_ret h).

(** ** Socket objects *)

(** The handle of an object, if it has one. *)
Definition Held : Type := option nat.

Definition socket_valid (s : Held) : bool := match s with Some _ => true | None => false end.

Definition accept_peer (s : Held) : StateR Net nat :=
  match s with
  | None => sm_fail ErrorCode.LifecycleViolation "socket is not open"
  | Some listener =>
      touch listener ;;;
      let* peer := opened_handle "accept" in
      scoped peer (set_nodelay peer ;;; sm_ret peer)
  end.

Definition socket_close (s : Held) (n : Net) : Held * Net :=
  match s with None => (None, n) | Some h => (None, close_handle h n) end.

(** [shutdown] wakes who reads from the socket; the handle stays open. *)
Definition socket_shutdown (s : Held) (n : Net) : Net :=
  match s with None => n | Some h => snd (on_handle h n) end.

Definition local_port (s : Held) : StateR Net Z :=
  match s with
  | None => sm_ret 0
  | Some h => let* failure := on_handle h in sm_ret (match failure with Some _ => 0 | None => port_of h end)
  end.

(** The objects alive, by name: what each of them holds, a [Held]. *)
Record Sockets := mkSockets { ss_net : Net; ss_objects : gmap nat (option nat) }.

#[export] Instance settable_Sockets : Settable Sockets := fun s => mkSockets (ss_net s) (ss_objects s).

(** An object made from what a function gave, if it gave one. *)
Definition keep_result (x : nat) (r : Result nat * Net) (s : Sockets) : Sockets :=
  match r with
  | (Good h, n) => mkSockets n (<[x := Some h]> (ss_objects s))
  | (Bad _, n) => s <| ss_net := n |>
  end.

Definition listen_handle (address : string) : StateR Net nat :=
  let* bound := listen address in sm_ret (fst bound).

(** Move construction and assignment leave the source without a handle. *)
Definition socket_move (x from : nat) (s : Sockets) : Sockets :=
  s <| ss_objects ::= fun m => <[x := default None (m !! from)]> (<[from := None]> m) |>.

Definition socket_assign (x from : nat) (s : Sockets) : Sockets :=
  if decide (x = from) then s
  else
    let '(_, n) := socket_close (default None (ss_objects s !! x)) (ss_net s) in
    socket_move x from (s <| ss_net := n |>).

Definition socket_destroy (x : nat) (s : Sockets) : Sockets :=
  let '(_, n) := socket_close (default None (ss_objects s !! x)) (ss_net s) in
  mkSockets n (delete x (ss_objects s)).

Definition close_object (x : nat) (s : Sockets) : Sockets :=
  let '(held, n) := socket_close (default None (ss_objects s !! x)) (ss_net s) in
  mkSockets n (<[x := held]> (ss_objects s)).

(** One statement of a program that uses sockets: an object is made under a fresh name, and
    only objects that are alive are used. *)
Inductive socket_step (s : Sockets) : Sockets -> Prop :=
| step_default x : ss_objects s !! x = None -> socket_step s (s <| ss_objects ::= <[x := None]> |>)
| step_listen x address : ss_objects s !! x = None ->
    socket_step s (keep_result x (listen_handle address (ss_net s)) s)
| step_connect x address port : ss_objects s !! x = None ->
    socket_step s (keep_result x (connect_to address port (ss_net s)) s)
| step_accept x listener held : ss_objects s !! x = None -> ss_objects s !! listener = Some held ->
    socket_step s (keep_result x (accept_peer held (ss_net s)) s)
| step_move x from : ss_objects s !! x = None -> is_Some (ss_objects s !! from) -> socket_step s (socket_move x from s)
| step_assign x from : is_Some (ss_objects s !! x) -> is_Some (ss_objects s !! from) -> socket_step s (socket_assign x from s)
| step_close x : is_Some (ss_objects s !! x) -> socket_step s (close_object x s)
| step_shutdown x held : ss_objects s !! x = Some held -> socket_step s (s <| ss_net ::= socket_shutdown held |>)
| step_port x held : ss_objects s !! x = Some held -> socket_step s (s <| ss_net ::= fun n => snd (local_port held n) |>)
| step_destroy x : is_Some (ss_objects s !! x) -> socket_step s (socket_destroy x s).

Inductive sockets_reach (s : Sockets) : Sockets -> Prop :=
| sockets_here : sockets_reach s s
| sockets_after s1 s2 : sockets_reach s s1 -> socket_step s1 s2 -> sockets_reach s s2.

(** ** Handles come and go with the objects *)

Definition below (n : Net) : Prop := forall h, h ∈ nt_open n -> (h < nt_next n)%nat.

(** The handles are as they were; one more is open. *)
Record tidy (n n' : Net) : Prop := {
  td_open : nt_open n' = nt_open n; td_faults : nt_faults n' = nt_faults n; td_next : (nt_next n <= nt_next n')%nat
}.
Record gave (h : nat) (n n' : Net) : Prop := {
  gv_open : nt_open n' = {[h]} ∪ nt_open n; gv_new : h ∉ nt_open n; gv_below : (h < nt_next n')%nat;
  gv_faults : nt_faults n' = nt_faults n; gv_next : (nt_next n <= nt_next n')%nat
}.

#[export] Instance tidy_preorder : PreOrder tidy.
Proof. split; [by split|]. intros n1 n2 n3 [] []. split; [congruence|congruence|lia]. Qed.

(** A piece of a function that leaves the handles alone. *)
Definition tidies {A} (m : StateR Net A) (n : Net) : Prop := wp m n (fun _ => tidy n) (fun _ => tidy n).

Lemma tidies_bind {A B} (m : StateR Net A) (k : A -> StateR Net B) n :
  tidies m n -> (forall a n', tidy n n' -> tidies (k a) n') -> tidies (sm_bind m k) n.
Proof.
  intros Hm Hk. apply wp_bind. eapply wp_mono; [exact Hm| |done]. intros a n' Hn.
  eapply wp_mono; [by apply Hk| |]; intros ? n2 H2; by transitivity n'.
Qed.

Lemma tidies_next_call n : tidies next_call n.
Proof. unfold tidies, wp, next_call. by destruct (nt_calls n). Qed.

Lemma tidies_lift {A} (r : Result A) n : tidies (sm_lift r) n.
Proof. unfold tidies, wp, sm_lift. by destruct r. Qed.

Lemma tidies_touch h n : h ∈ nt_open n -> tidies (touch h) n.
Proof. intros Hh. unfold tidies, wp, touch, sm_modify. by rewrite decide_True. Qed.

Lemma tidies_on_handle h n : h ∈ nt_open n -> tidies (on_handle h) n.
Proof. intros Hh. apply tidies_bind; [by apply tidies_touch|]. intros _ n' _. apply tidies_next_call. Qed.

Lemma tidies_handle_call what h n : h ∈ nt_open n -> tidies (handle_call what h) n.
Proof.
  intros Hh. apply tidies_bind; [by apply tidies_on_handle|]. intros [reason|] n' _; [apply tidies_lift|by apply wp_ret].
Qed.

Lemma tidies_initialised n : tidies ensure_sockets_initialised n.
Proof.
  unfold ensure_sockets_initialised. apply tidies_bind; [by apply wp_get|]. intros n1 n' _.
  destruct (nt_started n1); [apply tidies_lift|]. apply tidies_bind.
  - apply tidies_bind; [by apply wp_get|]. intros n2 n3 _. destruct (nt_platform n2); [|by apply wp_ret].
    apply tidies_bind; [apply tidies_next_call|]. intros f n4 _. by apply wp_ret.
  - intros status n2 _. apply tidies_bind; [apply wp_modify; by split|]. intros _ n3 _. apply tidies_lift.
Qed.

(** What is made in a scope is given out or closed. *)
Lemma wp_scoped {A} what (prepare : nat -> StateR Net unit) (result : nat -> A) (handle : A -> nat) n :
  below n -> (forall h, handle (result h) = h) -> (forall h n1, h ∈ nt_open n1 -> tidies (prepare h) n1) ->
  wp (let* h := opened_handle what in scoped h (prepare h ;;; sm_ret (result h))) n
    (fun a => gave (handle a) n) (fun _ => tidy n).
Proof.
  intros Hb Hres Hp. unfold opened_handle, new_handle.
  do 3 apply wp_bind. eapply wp_mono; [apply tidies_next_call| |done]. intros [reason|] n1 [Ho Hf Hn]; [done|].
  unfold wp, sm_ret, scoped. match goal with |- context [sm_bind (prepare ?h) _ ?x] => set (n2 := x); set (h0 := h) end.
  assert (nt_open n2 = {[h0]} ∪ nt_open n) as Ho2 by (rewrite <- Ho; done).
  assert (h0 ∉ nt_open n) as Hout by (intros H; apply Hb in H; subst h0; lia).
  assert (nt_faults n2 = nt_faults n /\ nt_next n2 = S h0) as [Hf2 Hn2] by done.
  assert (nt_next n <= h0)%nat as Hlow by done. clearbody n2 h0.
  assert (h0 ∈ nt_open n2) as Hin by (rewrite Ho2; apply elem_of_union_l, elem_of_singleton; done).
  specialize (Hp h0 n2 Hin). unfold tidies, wp, sm_bind in *.
  destruct (prepare h0 n2) as [[[]|e] n3]; destruct Hp as [Ho3 Hf3 Hn3].
  - rewrite Hres. split; [congruence|done|lia|congruence|lia].
  - unfold close_handle. rewrite decide_True by (by rewrite Ho3). split; [|cbn; congruence|cbn; lia].
    cbn. rewrite Ho3, Ho2. apply set_eq. intros k. rewrite elem_of_difference, elem_of_union, !elem_of_singleton.
    split; [by intros [[?|?] ?]|]. intros Hk. split; [by right|]. by intros ->.
Qed.

Lemma wp_after {A} (m : StateR Net unit) (k : StateR Net A) (handle : A -> nat) n :
  below n -> tidies m n -> (forall n', below n' -> wp k n' (fun a => gave (handle a) n') (fun _ => tidy n')) ->
  wp (m ;;; k) n (fun a => gave (handle a) n) (fun _ => tidy n).
Proof.
  intros Hb Hm Hk. apply wp_bind. eapply wp_mono; [exact Hm| |done]. intros [] n' [Ho Hf Hn].
  eapply wp_mono; [apply Hk| |].
  - intros h. rewrite Ho. intros Hh. apply Hb in Hh. lia.
  - intros a n2 []. split; try congruence; try lia.
  - intros e n2 []. split; try congruence; try lia.
Qed.

Lemma tidies_address address message n : tidies (parse_address address message) n.
Proof. apply tidies_lift. Qed.

Lemma wp_listen address n : below n -> wp (listen_handle address) n (fun h => gave h n) (fun _ => tidy n).
Proof.
  intros Hb. unfold listen_handle. apply wp_bind.
  apply (wp_mono _ _ (fun bound => gave (fst bound) n) _ (fun _ => tidy n)); [|done|done]. unfold listen.
  apply (wp_after _ _ fst); [done|apply tidies_initialised|]. intros n1 Hb1. apply (wp_after _ _ fst); [done|apply tidies_lift|].
  intros n2 Hb2. apply (wp_scoped "socket" (fun h => prepare_listener h address) (fun h => (h, port_of h)) fst); [done|done|].
  intros h n3 Hh. apply tidies_bind; [by apply tidies_on_handle|]. intros _ n4 [Ho _ _].
  apply tidies_bind; [apply tidies_address|]. intros _ n5 [Ho' _ _].
  apply tidies_bind; [apply tidies_handle_call; by rewrite Ho', Ho|]. intros _ n6 [Ho6 _ _].
  apply tidies_bind; [apply tidies_handle_call; by rewrite Ho6, Ho', Ho|]. intros _ n7 [Ho7 _ _].
  apply tidies_handle_call. by rewrite Ho7, Ho6, Ho', Ho.
Qed.

Lemma wp_connect address port n : below n -> wp (connect_to address port) n (fun h => gave h n) (fun _ => tidy n).
Proof.
  intros Hb. unfold connect_to. apply (wp_after _ _ id); [done|apply tidies_initialised|]. intros n1 Hb1.
  apply (wp_after _ _ id); [done|apply tidies_lift|]. intros n2 Hb2. apply (wp_after _ _ id); [done|apply tidies_lift|].
  intros n3 Hb3. apply (wp_scoped "socket" (fun h => prepare_connection h address) id id); [done|done|].
  intros h n4 Hh. apply tidies_bind; [by apply tidies_handle_call|]. intros _ n5 [Ho _ _].
  apply tidies_bind; [apply tidies_address|]. intros _ n6 [Ho' _ _]. apply tidies_handle_call. by rewrite Ho', Ho.
Qed.

Lemma wp_accept held n : below n -> (forall h, held = Some h -> h ∈ nt_open n) ->
  wp (accept_peer held) n (fun h => gave h n) (fun _ => tidy n).
Proof.
  intros Hb Hh. destruct held as [listener|]; [|by apply wp_fail]. cbn [accept_peer].
  apply (wp_after _ _ id); [done|by apply tidies_touch, Hh|]. intros n1 Hb1.
  apply (wp_scoped "accept" set_nodelay id id); [done|done|]. intros h n2 Hin. by apply tidies_handle_call.
Qed.

(** Every open handle is held by one object, and every handle held is open. *)
Record owned (s : Sockets) : Prop := {
  ow_below : below (ss_net s);
  ow_faults : nt_faults (ss_net s) = 0%nat;
  ow_held : forall h, h ∈ nt_open (ss_net s) <-> exists x, ss_objects s !! x = Some (Some h);
  ow_once : forall x y h, ss_objects s !! x = Some (Some h) -> ss_objects s !! y = Some (Some h) -> x = y
}.

Lemma owned_tidy s n : owned s -> tidy (ss_net s) n -> owned (s <| ss_net := n |>).
Proof.
  intros [Hb Hf Hh Ho] [To Tf Tn]. split; cbn; [|congruence|by rewrite To|done].
  intros h. rewrite To. intros Hin. apply Hb in Hin. lia.
Qed.

Lemma owned_new s x h n : owned s -> ss_objects s !! x = None -> gave h (ss_net s) n ->
  owned (mkSockets n (<[x := Some h]> (ss_objects s))).
Proof.
  intros [Hb Hf Hh Ho] Hx [Go Gn Gb Gf Gm]. split; cbn.
  - intros k. rewrite Go. intros [->%elem_of_singleton|Hin]%elem_of_union; [done|]. apply Hb in Hin. lia.
  - congruence.
  - intros k. rewrite Go, elem_of_union, elem_of_singleton, Hh. split.
    + intros [->|[y Hy]]; [exists x; by rewrite lookup_insert_eq|]. exists y. rewrite lookup_insert_ne; [done|]. intros ->. by rewrite Hx in Hy.
    + intros [y Hy]. destruct (decide (y = x)) as [->|Hne]; [rewrite lookup_insert_eq in Hy; left; congruence|].
      right. exists y. by rewrite lookup_insert_ne in Hy by done.
  - assert (forall y, ss_objects s !! y = Some (Some h) -> False) as Hnew by (intros y Hy; apply Gn, Hh; by exists y).
    intros y z k. rewrite !lookup_insert. repeat case_decide; subst; intros Hy Hz; try done; simplify_eq.
    + by apply Hnew in Hz.
    + by apply Hnew in Hy.
    + by eapply Ho.
Qed.

Lemma owned_result s x r : owned s -> ss_objects s !! x = None ->
  match r with (Good h, n) => gave h (ss_net s) n | (Bad _, n) => tidy (ss_net s) n end -> owned (keep_result x r s).
Proof. intros Hs Hx. destruct r as [[h|e] n]; [by apply owned_new|by apply owned_tidy]. Qed.

(** Closing what an object holds, and forgetting that it held it. *)
Lemma owned_close s x g held n : owned s -> socket_close (default None (ss_objects s !! x)) (ss_net s) = (held, n) ->
  (forall y, y <> x -> g !! y = ss_objects s !! y) -> (forall h, g !! x <> Some (Some h)) -> owned (mkSockets n g).
Proof.
  intros [Hb Hf Hh Ho] Hc Hg Hx.
  assert (forall y h, g !! y = Some (Some h) <-> y <> x /\ ss_objects s !! y = Some (Some h)) as Hgy.
  { intros y h. split; [|intros [Hne Hy]; by rewrite Hg]. intros Hy. assert (y <> x) as Hne by (intros ->; by eapply Hx).
    by rewrite <- Hg. }
  assert (nt_faults n = 0%nat /\ nt_next n = nt_next (ss_net s) /\
    (forall k, k ∈ nt_open n <-> k ∈ nt_open (ss_net s) /\ ss_objects s !! x <> Some (Some k))) as (Hf' & Hn & Ho').
  { unfold socket_close in Hc. destruct (ss_objects s !! x) as [[h|]|] eqn:E; cbn in Hc; injection Hc as <- <-.
    - unfold close_handle. rewrite decide_True by (apply Hh; by exists x). split_and!; [done|done|]. intros k. cbn.
      rewrite elem_of_difference, elem_of_singleton. split; intros [? Hk]; (split; [done|]); congruence.
    - split_and!; [done|done|]. intros k. split; [done|by intros []].
    - split_and!; [done|done|]. intros k. split; [done|by intros []]. }
  split; cbn.
  - intros k [Hk _]%Ho'. rewrite Hn. by apply Hb.
  - done.
  - intros k. rewrite Ho', Hh. split.
    + intros [[y Hy] Hk]. exists y. apply Hgy. split; [congruence|done].
    + intros [y [Hne Hy]%Hgy]. split; [by exists y|]. intros Hk. by eapply Hne, Ho.
  - intros y z k [_ Hy]%Hgy [_ Hz]%Hgy. by eapply Ho.
Qed.

(** Moving what an object holds to one that holds nothing. *)
Lemma owned_move s x from : owned s -> x <> from -> (forall h, ss_objects s !! x <> Some (Some h)) -> owned (socket_move x from s).
Proof.
  intros [Hb Hf Hh Ho] Hne Hx. unfold socket_move. set (m := ss_objects s) in *.
  assert (forall y h, <[x := default None (m !! from)]> (<[from := None]> m) !! y = Some (Some h) <->
    y = x /\ m !! from = Some (Some h) \/ y <> x /\ y <> from /\ m !! y = Some (Some h)) as Hy.
  { intros y h. destruct (decide (y = x)) as [->|Hyx].
    - rewrite lookup_insert_eq. destruct (m !! from) as [[k|]|]; cbn; split; try done.
      + intros [= ->]. by left.
      + by intros [[_ [= ->]]|[? _]].
      + by intros [[_ ?]|[? _]].
      + by intros [[_ ?]|[? _]].
    - rewrite lookup_insert_ne by done. destruct (decide (y = from)) as [->|Hyf].
      + rewrite lookup_insert_eq. split; [done|]. by intros [[? _]|(_ & ? & _)].
      + rewrite lookup_insert_ne by done. split; [by right|]. by intros [[? _]|(_ & _ & ?)]. }
  split; cbn; [done|done| |].
  - intros h. rewrite Hh. split.
    + intros [y Hyh]. destruct (decide (y = from)) as [->|Hf'].
      * exists x. apply Hy. by left.
      * exists y. apply Hy. right. split; [|done]. intros ->. by eapply Hx.
    + intros [y [[-> H]|(_ & _ & H)]%Hy]; [by exists from|by exists y].
  - intros y z h [[-> H1]|(? & ? & H1)]%Hy [[-> H2]|(? & ? & H2)]%Hy; try done.
    + exfalso. by eapply H0, Ho.
    + exfalso. by eapply H0, Ho.
    + by eapply Ho.
Qed.

Lemma step_owned s s' : owned s -> socket_step s s' -> owned s'.
Proof.
  intros Hs Hstep. pose proof Hs as [Hb Hf Hh Ho].
  assert (forall x held, ss_objects s !! x = Some held -> forall h, held = Some h -> h ∈ nt_open (ss_net s)) as Huse.
  { intros x held Hx h ->. apply Hh. by exists x. }
  assert (forall A (m : StateR Net A), tidies m (ss_net s) -> owned (s <| ss_net ::= fun n => snd (m n) |>)) as Htidy.
  { intros A m Hm. apply (owned_tidy s (snd (m (ss_net s))) Hs). unfold tidies, wp in Hm. by destruct (m (ss_net s)) as [[]]. }
  destruct Hstep as [x Hx|x a Hx|x a port Hx|x l held Hx Hl|x from Hx Hfrom|x from Hx Hfrom|x Hx|x held Hx|x held Hx|x Hx].
  - destruct s as [n m]. apply (owned_close _ x _ None n Hs); cbn in *; [by rewrite Hx|intros y Hy; by apply lookup_insert_ne|].
    intros h. by rewrite lookup_insert_eq.
  - apply owned_result; [done|done|]. exact (wp_listen a (ss_net s) Hb).
  - apply owned_result; [done|done|]. exact (wp_connect a port (ss_net s) Hb).
  - apply owned_result; [done|done|]. exact (wp_accept held (ss_net s) Hb (Huse l held Hl)).
  - apply owned_move; [done| |by rewrite Hx]. intros ->. rewrite Hx in Hfrom. by destruct Hfrom.
  - unfold socket_assign. case_decide as Hd; [done|]. destruct (socket_close _ _) as [held n] eqn:Hc.
    assert (owned (mkSockets n (<[x := None]> (ss_objects s)))) as Hs'.
    { apply (owned_close s x _ held n Hs Hc); [intros y Hy; by apply lookup_insert_ne|]. intros h. by rewrite lookup_insert_eq. }
    pose proof (owned_move _ x from Hs' Hd) as Hm. unfold socket_move in *. cbn in *.
    rewrite (lookup_insert_ne _ x from) in Hm by done.
    rewrite (insert_insert_ne _ from x) in Hm by done. rewrite insert_insert_eq in Hm.
    apply Hm. intros h. by rewrite lookup_insert_eq.
  - unfold close_object. destruct (socket_close _ _) as [held n] eqn:Hc. apply (owned_close s x _ held n Hs Hc).
    + intros y Hy. by apply lookup_insert_ne.
    + intros h. rewrite lookup_insert_eq. destruct (default None _); injection Hc as <- _; done.
  - destruct held as [h|]; [|by apply (Htidy unit (sm_ret tt)), wp_ret].
    apply (Htidy _ (on_handle h)), tidies_on_handle. by apply (Huse x (Some h)).
  - apply Htidy. destruct held as [h|]; [|by apply wp_ret]. apply tidies_bind; [apply tidies_on_handle; by apply (Huse x (Some h))|].
    intros r n' _. by apply wp_ret.
  - unfold socket_destroy. destruct (socket_close _ _) as [held n] eqn:Hc. apply (owned_close s x _ held n Hs Hc).
    + intros y Hy. by apply lookup_delete_ne.
    + intros h. by rewrite lookup_delete_eq.
Qed.

Lemma reach_owned s s' : owned s -> sockets_reach s s' -> owned s'.
Proof. induction 2; [done|]. by eapply step_owned. Qed.

(** C17. Whatever a program does with its sockets, in any order and with any call of the system
    failing, every handle that is open is held by exactly one of the objects alive, no call
    was ever made on a handle that was not open and none was closed twice; so that when the
    last object is gone no handle is left open. *)
Theorem sockets_owned (s s' : Sockets) :
  owned s -> sockets_reach s s' ->
  nt_faults (ss_net s') = 0%nat /\
  (forall h, h ∈ nt_open (ss_net s') <-> exists x, ss_objects s' !! x = Some (Some h)) /\
  (forall x y h, ss_objects s' !! x = Some (Some h) -> ss_objects s' !! y = Some (Some h) -> x = y) /\
  (ss_objects s' = ∅ -> nt_open (ss_net s') = ∅).
Proof.
  intros Hs Hr. destruct (reach_owned s s' Hs Hr) as [_ Hf Hh Ho]. split_and!; [done..|].
  intros He. apply set_eq. intros h. split; [|by intros ?%not_elem_of_empty]. intros [x Hx]%Hh. rewrite He in Hx. exfalso. exact (lookup_empty_Some _ _ Hx).
Qed.
End Addresses.

(** A listener, a peer that it accepts after a first failure, a move, and the end. *)
Definition sample_net : Net :=
  mkNet Posix None ∅ 3 0 [None; None; None; None; None; Some "Too many open files"%string].
Definition sample_sockets : Sockets := mkSockets sample_net ∅.

Definition sample_address (address : string) : bool := String.eqb address "127.0.0.1".

Definition sample_made : Sockets := keep_result 0 (listen_handle sample_address (fun _ => 5000) "127.0.0.1" sample_net) sample_sockets.
Definition sample_refused : Sockets := keep_result 1 (accept_peer (Some 3%nat) (ss_net sample_made)) sample_made.
Definition sample_accepted : Sockets := keep_result 1 (accept_peer (Some 3%nat) (ss_net sample_refused)) sample_refused.
Definition sample_moved : Sockets := socket_move 2 1 sample_accepted.
Definition sample_ended : Sockets := socket_destroy 1 (socket_destroy 2 (socket_destroy 0 sample_moved)).

Lemma sample_sockets_owned : owned sample_sockets.
Proof.
  split; [|done| |]; cbn.
  - intros h Hh. by apply not_elem_of_empty in Hh.
  - intros h. split; [by intros ?%not_elem_of_empty|]. intros [x Hx]. exfalso. exact (lookup_empty_Some _ _ Hx).
  - intros x y h Hx. exfalso. exact (lookup_empty_Some _ _ Hx).
Qed.

Lemma sample_sockets_reach : sockets_reach sample_address (fun _ => 5000) sample_sockets sample_ended.
Proof.
  apply sockets_after with (socket_destroy 2 (socket_destroy 0 sample_moved)); [|apply step_destroy; vm_compute; by eexists].
  apply sockets_after with (socket_destroy 0 sample_moved); [|apply step_destroy; vm_compute; by eexists].
  apply sockets_after with sample_moved; [|apply step_destroy; vm_compute; by eexists].
  apply sockets_after with sample_accepted; [|apply step_move; vm_compute; [done|by eexists]].
  apply sockets_after with sample_refused; [|by apply (step_accept _ _ _ 1 0 (Some 3%nat)); vm_compute].
  apply sockets_after with sample_made; [|by apply (step_accept _ _ _ 1 0 (Some 3%nat)); vm_compute].
  apply sockets_after with sample_sockets; [constructor|]. apply (step_listen sample_address (fun _ => 5000) sample_sockets 0). reflexivity.
Qed.

Lemma sockets_owned_witness :
  ss_objects sample_moved !! 2%nat = Some (Some 4%nat) /\ nt_open (ss_net sample_ended) = ∅ /\ nt_faults (ss_net sample_ended) = 0%nat.
Proof.
  split; [vm_compute; reflexivity|].
  destruct (sockets_owned sample_address (fun _ => 5000) sample_sockets sample_ended sample_sockets_owned sample_sockets_reach)
    as (Hf & _ & _ & He).
  split; [apply He; vm_compute; reflexivity|exact Hf].
Defined.
