(* ===== verification/Worker.v ===== *)
(** * The worker

    [src/worker.cpp]: a client of the coordinator. It greets, then runs cycles of one
    allocation and, when something was granted, its release, and reports what happened. The
    other end is a parameter, [peer]: the frame written to it gives the payload of the frame
    that comes back, or the error of the socket. *)

From S2P Require Import Prelude Ints Hash Enums Status Codec Model Wire Protocol.

(** ** Configuration and report *)

Record WorkerConfig := mkWorkerConfig {
  wc_host : string; wc_port : Z; wc_pool : Z; wc_queue : Z; wc_units : Z; wc_operations : Z;
  wc_claim_epoch : Z; wc_expected_epoch : Z; wc_attempt_base : Z
}.

Definition default_WorkerConfig : WorkerConfig := mkWorkerConfig "127.0.0.1" 0 0 0 64 64 0 0 0.

Record AccountingReportLike := mkAccountingReportLike {
  al_closed : bool; al_raw_total : Z; al_protected_total : Z; al_allocated_total : Z; al_free_total : Z;
  al_borrowed_total : Z; al_lent_total : Z; al_overcommit_total : Z; al_pools_observed : Z
}.

Record WorkerReport := mkWorkerReport {
  wr_connected : bool; wr_handshake_ok : bool; wr_stale_epoch_rejected : bool; wr_protocol_error : bool;
  wr_operations_attempted : Z; wr_grants : Z; wr_partial_grants : Z; wr_refusals : Z; wr_release_ok : Z;
  wr_error_responses : Z; wr_granted_units : Z; wr_released_units : Z; wr_bytes_sent : Z; wr_bytes_received : Z;
  wr_coordinator_epoch : Z; wr_coordinator_boot : BootIncarnation; wr_accounting : AccountingReportLike
}.

#[export] Instance settable_WorkerReport : Settable WorkerReport := fun r =>
  mkWorkerReport (wr_connected r) (wr_handshake_ok r) (wr_stale_epoch_rejected r) (wr_protocol_error r)
    (wr_operations_attempted r) (wr_grants r) (wr_partial_grants r) (wr_refusals r) (wr_release_ok r)
    (wr_error_responses r) (wr_granted_units r) (wr_released_units r) (wr_bytes_sent r) (wr_bytes_received r)
    (wr_coordinator_epoch r) (wr_coordinator_boot r) (wr_accounting r).

Definition default_WorkerReport : WorkerReport :=
  mkWorkerReport false false false false 0 0 0 0 0 0 0 0 0 0 0 (mkBootIncarnation 0 0) (mkAccountingReportLike false 0 0 0 0 0 0 0 0).

Section Worker.
Context {S : Type} (peer : S -> list Z -> Result (list Z) * S).

(** The report being filled in, and the other end. *)
Definition W (A : Type) : Type := StateR (WorkerReport * S) A.

Definition report (f : WorkerReport -> WorkerReport) : W unit := fun '(r, s) => (Good tt, (f r, s)).

(** A failure that is also noted in the report. *)
Definition protocol_error {A} (code : ErrorCode) (message : string) : W A :=
  report (fun r => r <| wr_protocol_error := true |>) ;;; sm_lift (fail code message).

Definition exchange (request : Message) : W Message :=
  let frame := encode_message request in
  report (fun r => r <| wr_bytes_sent ::= fun n => add64 n (Z.of_nat (length frame)) |>) ;;;
  let* incoming := fun '(r, s) => let '(payload, s) := peer s frame in (payload, (r, s)) in
  report (fun r => r <| wr_bytes_received ::= fun n => add64 n (Z.of_nat (length incoming)) |>) ;;;
  sm_lift (decode_message_payload incoming kMaxFrameBytes).

(** A decoder that does not ask that nothing be left. *)
Definition decoded {A} (g : Reader A) (bytes : list Z) : option A := fst (g (reader_of bytes)).

Definition hello (config : WorkerConfig) : Message :=
  mkMessage (enum_code MessageOp.Hello) 1 (wc_claim_epoch config)
    (sent (encode_hello_request (mkHelloRequest kProtocolVersion (wc_claim_epoch config) (mkBootIncarnation 0 0)))).

Definition acknowledged (payload : list Z) : W bool :=
  match decoded decode_hello_response payload with
  | None => protocol_error ErrorCode.ProtocolViolation "hello acknowledgement is not decodable"
  | Some ack =>
      if negb (hs_protocol_version ack =? kProtocolVersion)
      then protocol_error ErrorCode.ProtocolVersionMismatch "coordinator protocol version differs"
      else
        report (fun r => r <| wr_coordinator_epoch := hs_coordinator_epoch ack |>
          <| wr_coordinator_boot := hs_coordinator_boot ack |> <| wr_handshake_ok := true |>) ;;;
        sm_ret true
  end.

(** Whether the worker goes on; a stale epoch ends it with a report. *)
Definition stale_epoch : W bool := report (fun r => r <| wr_stale_epoch_rejected := true |>) ;;; sm_ret false.

Definition handshake (config : WorkerConfig) : W bool :=
  let* reply := exchange (hello config) in
  match decoded decode_response (mg_body reply) with
  | None => protocol_error ErrorCode.ProtocolViolation "hello response is not decodable"
  | Some (status, message, payload) =>
      if bool_decide (status = ErrorCode.StaleEpoch) then stale_epoch
      else if negb (bool_decide (status = ErrorCode.Ok)) then protocol_error status message
      else if negb (mg_op reply =? enum_code MessageOp.HelloAck)
      then protocol_error ErrorCode.ProtocolViolation "handshake did not produce an acknowledgement"
      else acknowledged payload
  end.

(** ** A cycle *)

Definition observe_accounting (a : PoolAccounting) (r : WorkerReport) : WorkerReport :=
  r <| wr_accounting := mkAccountingReportLike true (pa_raw a) (pa_protected_units a) (pa_allocated a) (pa_free a)
         (pa_borrowed_in a) (pa_lent_out a) (pa_overcommit_used a) 1 |>.

(** A response that is an error ends the worker. *)
Definition error_response {A} (status : ErrorCode) (message : string) : W A :=
  report (fun r => r <| wr_error_responses ::= fun n => add64 n 1 |>) ;;; sm_lift (fail status message).

Definition allocate_request (config : WorkerConfig) (epoch attempt : Z) : AllocateRequest :=
  default_AllocateRequest <| aq_attempt := attempt |> <| aq_pool := wc_pool config |> <| aq_queue := wc_queue config |>
    <| aq_requested_units := wc_units config |> <| aq_expected_epoch := epoch |>.

Definition release_request (epoch attempt allocation : Z) : ReleaseRequest :=
  default_ReleaseRequest <| rq_attempt := attempt |> <| rq_allocation := allocation |> <| rq_release_all := true |>
    <| rq_expected_epoch := epoch |>.

Definition count_grant (m : DecisionSummary) (r : WorkerReport) : WorkerReport :=
  let r := if bool_decide (sy_kind m = DecisionKind.Grant) then r <| wr_grants ::= fun n => add64 n 1 |>
           else if bool_decide (sy_kind m = DecisionKind.GrantPartial) then r <| wr_partial_grants ::= fun n => add64 n 1 |> else r in
  r <| wr_granted_units ::= fun n => add64 n (sy_granted_units m) |>.

Definition count_release (m : DecisionSummary) (r : WorkerReport) : WorkerReport :=
  r <| wr_release_ok ::= fun n => add64 n 1 |> <| wr_released_units ::= fun n => add64 n (sy_granted_units m) |>.

(** The release of what was granted; the request carries the number after its attempt. *)
Definition release_cycle (epoch attempt allocation : Z) : W unit :=
  let* reply := exchange (mkMessage (enum_code MessageOp.Release) (add64 attempt 1) epoch
    (sent (encode_release (release_request epoch attempt allocation)))) in
  match decoded decode_response (mg_body reply) with
  | None => protocol_error ErrorCode.ProtocolViolation "release response is not decodable"
  | Some (status, message, payload) =>
      if negb (bool_decide (status = ErrorCode.Ok)) then error_response status message
      else match decoded decode_decision_summary payload with
      | None => protocol_error ErrorCode.ProtocolViolation "release summary is not decodable"
      | Some m => report (count_release m)
      end
  end.

(** [None] when a stale epoch ends the worker, else the next attempt. *)
Definition cycle (config : WorkerConfig) (epoch attempt : Z) : W (option Z) :=
  let* reply := exchange (mkMessage (enum_code MessageOp.Allocate) (add64 attempt 1) epoch
    (sent (encode_allocate (allocate_request config epoch attempt)))) in
  match decoded decode_response (mg_body reply) with
  | None => protocol_error ErrorCode.ProtocolViolation "allocate response is not decodable"
  | Some (status, message, payload) =>
      report (fun r => r <| wr_operations_attempted ::= fun n => add64 n 1 |>) ;;;
      if bool_decide (status = ErrorCode.StaleEpoch) then let* _ := stale_epoch in sm_ret None
      else if negb (bool_decide (status = ErrorCode.Ok)) then error_response status message
      else match decoded decode_decision_summary payload with
      | None => protocol_error ErrorCode.ProtocolViolation "decision summary is not decodable"
      | Some m =>
          report (observe_accounting (sy_accounting m)) ;;;
          if (sy_granted_units m =? 0) || negb (bool_decide (sy_status m = ErrorCode.Ok)) then
            report (fun r => r <| wr_refusals ::= fun n => add64 n 1 |>) ;;; sm_ret (Some (add64 attempt 1))
          else
            report (count_grant m) ;;;
            release_cycle epoch (add64 attempt 1) (sy_allocation m) ;;;
            sm_ret (Some (add64 attempt 2))
      end
  end.

Fixpoint cycles (config : WorkerConfig) (epoch : Z) (operations : nat) (attempt : Z) : W unit :=
  match operations with
  | O => sm_ret tt
  | Datatypes.S operations =>
      let* next := cycle config epoch attempt in
      match next with
      | None => sm_ret tt
      | Some attempt => cycles config epoch operations attempt
      end
  end.

Definition kMaxWorkerOperations : Z := Z.shiftl 1 24.

(** From the greeting on: the epoch asserted is the one configured or the one just learnt. *)
Definition converse (config : WorkerConfig) : W unit :=
  let* goes_on := handshake config in
  if negb goes_on then sm_ret tt
  else
    let* r := fun '(r, s) => (Good r, (r, s)) in
    let epoch := if valid (wc_expected_epoch config) then wc_expected_epoch config else wr_coordinator_epoch r in
    cycles config epoch (Z.to_nat (wc_operations config)) (add64 (wc_attempt_base config) 1).

(** [connected] is how initialising sockets and connecting went. *)
Definition work (config : WorkerConfig) (connected : Result unit) : W unit :=
  sm_lift (reject_if (wc_port config =? 0) ErrorCode.InvalidArgument "worker port must be non-zero") ;;;
  sm_lift (reject_if (kMaxWorkerOperations <? wc_operations config) ErrorCode.BoundedResourceExhausted "worker operation count is too large") ;;;
  sm_lift connected ;;;
  report (fun r => r <| wr_connected := true |>) ;;;
  converse config.

(** The report is only given when nothing failed. *)
Definition run_worker (config : WorkerConfig) (connected : Result unit) (s : S) : Result WorkerReport * S :=
  match work config connected (default_WorkerReport, s) with
  | (Good _, (r, s)) => (Good r, s)
  | (Bad e, (_, s)) => (Bad e, s)
  end.
End Worker.

(** ** What a report says *)

(** After [n] cycles: each was a refusal or ended with a release, [open] of them not yet. *)
Record tally (open n : Z) (r : WorkerReport) : Prop := {
  ty_connected : wr_connected r = true;
  ty_error : wr_protocol_error r = false;
  ty_responses : wr_error_responses r = 0;
  ty_grants : 0 <= wr_grants r;
  ty_partial : 0 <= wr_partial_grants r;
  ty_refusals : 0 <= wr_refusals r;
  ty_released : 0 <= wr_release_ok r;
  ty_releases : wr_grants r + wr_partial_grants r <= wr_release_ok r + open;
  ty_total : wr_refusals r + wr_release_ok r = n
}.

(** Going on after [n] cycles; or ended by a stale epoch in the greeting or in the next cycle. *)
Definition going (n : Z) (r : WorkerReport) : Prop :=
  tally 0 n r /\ wr_handshake_ok r = true /\ wr_stale_epoch_rejected r = false /\ wr_operations_attempted r = n.

(** In the cycle after those, with [open] grants to release. *)
Definition attempted (open n : Z) (r : WorkerReport) : Prop :=
  tally open n r /\ wr_handshake_ok r = true /\ wr_stale_epoch_rejected r = false /\ wr_operations_attempted r = n + 1.

Definition ended (n : Z) (r : WorkerReport) : Prop :=
  tally 0 n r /\ wr_stale_epoch_rejected r = true /\
  wr_operations_attempted r = n + (if wr_handshake_ok r then 1 else 0).

Section Reports.
Context {S : Type} (peer : S -> list Z -> Result (list Z) * S).

(** From a report with [P], [m] gives, when it succeeds, an answer and a report with [Q]. *)
Definition gives {A} (P : WorkerReport -> Prop) (m : W (S := S) A) (Q : A -> WorkerReport -> Prop) : Prop :=
  forall r s a r' s', P r -> m (r, s) = (Good a, (r', s')) -> Q a r'.

Lemma gives_bind {A B} P (m : W A) (k : A -> W B) Q R :
  gives P m Q -> (forall a, gives (Q a) (k a) R) -> gives P (sm_bind m k) R.
Proof.
  intros Hm Hk r s b r' s' Hr. unfold sm_bind. destruct (m (r, s)) as [[a|e] [r1 s1]] eqn:E; [|done].
  intros H. by eapply Hk; [eapply Hm|].
Qed.

Lemma gives_ret {A} (P : WorkerReport -> Prop) (a : A) Q : (forall r, P r -> Q a r) -> gives P (sm_ret a) Q.
Proof. intros H r s b r' s' Hr [= <- <- <-]. by apply H. Qed.

Lemma gives_report (P : WorkerReport -> Prop) f Q : (forall r, P r -> Q tt (f r)) -> gives P (report f) Q.
Proof. intros H r s b r' s' Hr [= <- <- <-]. by apply H. Qed.

Lemma gives_lift {A} (P : WorkerReport -> Prop) (x : Result A) Q : (forall a r, P r -> x = Good a -> Q a r) -> gives P (sm_lift x) Q.
Proof. intros H r s b r' s' Hr [= -> <- <-]. by apply H. Qed.

Lemma gives_fail {A} P code message (Q : A -> WorkerReport -> Prop) : gives P (sm_lift (fail code message)) Q.
Proof. by apply gives_lift. Qed.

Lemma gives_protocol_error {A} P code message (Q : A -> WorkerReport -> Prop) : gives P (protocol_error code message) Q.
Proof. unfold protocol_error. eapply (gives_bind _ _ _ (fun _ _ => True)); [by apply gives_report|intros ?; apply gives_fail]. Qed.

Lemma gives_error_response {A} P code message (Q : A -> WorkerReport -> Prop) : gives P (error_response code message) Q.
Proof. unfold error_response. eapply (gives_bind _ _ _ (fun _ _ => True)); [by apply gives_report|intros ?; apply gives_fail]. Qed.

Lemma gives_exchange P request :
  (forall r x y, P r -> P (r <| wr_bytes_sent := x |> <| wr_bytes_received := y |>)) ->
  gives P (exchange peer request) (fun _ => P).
Proof.
  intros HP r s a r' s' Hr. unfold exchange, sm_bind, report. destruct (peer s _) as [[payload|e] s1]; [|done].
  unfold sm_lift. intros [= _ <- _]. exact (HP r _ _ Hr).
Qed.

Lemma going_exchange n request : gives (going n) (exchange peer request) (fun _ => going n).
Proof. apply gives_exchange. intros r x y [[] (? & ? & ?)]. by split; [split|]. Qed.

Lemma add64_one n : 0 <= n < 2 ^ 24 -> add64 n 1 = n + 1.
Proof. intros H. apply add64_exact; u64_lia. Qed.

Lemma release_cycle_reports (P : WorkerReport -> Prop) (Q : WorkerReport -> Prop) epoch attempt allocation :
  (forall r x y, P r -> P (r <| wr_bytes_sent := x |> <| wr_bytes_received := y |>)) ->
  (forall r m, P r -> Q (count_release m r)) ->
  gives P (release_cycle peer epoch attempt allocation) (fun _ => Q).
Proof.
  intros Hb HQ. unfold release_cycle. eapply gives_bind; [by apply gives_exchange|]. intros reply. cbv beta.
  destruct (decoded _ _) as [[[status message] payload]|]; [|apply gives_protocol_error].
  destruct (negb _); [apply gives_error_response|]. destruct (decoded _ _) as [m|]; [|apply gives_protocol_error].
  apply gives_report. intros r Hr. by apply HQ.
Qed.

Lemma counted_grant n m r : 0 <= n < 2 ^ 24 -> attempted 0 n r -> attempted 1 n (count_grant m r).
Proof.
  intros Hn ([] & ? & ? & ?). unfold count_grant.
  destruct (bool_decide (sy_kind m = DecisionKind.Grant)); [|destruct (bool_decide _)]; (split; [|done]); split; cbn; try done;
    rewrite ?add64_one by lia; lia.
Qed.

Lemma cycle_reports n config epoch attempt : 0 <= n < 2 ^ 24 ->
  gives (going n) (cycle peer config epoch attempt)
    (fun next r => match next with Some _ => going (n + 1) r | None => ended n r end).
Proof.
  intros Hn. unfold cycle. eapply gives_bind; [apply going_exchange|]. intros reply. cbv beta.
  destruct (decoded _ _) as [[[status message] payload]|]; [|apply gives_protocol_error].
  eapply (gives_bind _ _ _ (fun _ r => tally 0 n r /\ wr_handshake_ok r = true /\ wr_stale_epoch_rejected r = false /\ wr_operations_attempted r = n + 1)).
  { apply gives_report. intros r ([] & ? & ? & Ha). split; [by split|]. split_and!; [done|done|]. cbn. rewrite Ha. by apply add64_one. }
  intros []. cbv beta. destruct (bool_decide _).
  { eapply (gives_bind _ _ _ (fun _ r => ended n r)); [|intros ?; by apply gives_ret]. unfold stale_epoch.
    eapply (gives_bind _ _ _ (fun _ r => ended n r)); [|intros ?; by apply gives_ret].
    apply gives_report. intros r ([] & Hh & ? & ?). split; [by split|]. split; [done|]. cbn. by rewrite Hh. }
  destruct (negb _); [apply gives_error_response|]. destruct (decoded _ _) as [m|]; [|apply gives_protocol_error].
  eapply (gives_bind _ _ _ (fun _ => attempted 0 n)); [apply gives_report; intros r [[] ?]; by split; [split|]|]. intros []. cbv beta.
  destruct (_ || _).
  - eapply (gives_bind _ _ _ (fun _ => going (n + 1))); [|intros ?; by apply gives_ret].
    apply gives_report. intros r ([] & ? & ? & ?). split; [|done]. split; cbn; try done; rewrite add64_one by lia; lia.
  - eapply (gives_bind _ _ _ (fun _ => attempted 1 n)); [apply gives_report; intros r H; by apply counted_grant|]. intros [].
    eapply (gives_bind _ _ _ (fun _ => going (n + 1))); [|intros ?; by apply gives_ret].
    apply release_cycle_reports.
    + intros r x y [[] ?]. by split; [split|].
    + intros r m' ([] & ? & ? & ?). split; [|done]. split; cbn; try done; rewrite add64_one by lia; lia.
Qed.

Lemma cycles_report operations config epoch : forall n attempt, 0 <= n -> n + Z.of_nat operations <= 2 ^ 24 ->
  gives (going n) (cycles peer config epoch operations attempt)
    (fun _ r => going (n + Z.of_nat operations) r \/ exists k, 0 <= k < n + Z.of_nat operations /\ ended k r).
Proof.
  induction operations as [|operations IH]; intros n attempt Hn Hb.
  { apply gives_ret. intros r Hr. left. by rewrite Z.add_0_r. }
  cbn [cycles]. eapply gives_bind; [apply cycle_reports; lia|]. intros [next|]; cbv beta.
  - replace (n + Z.of_nat (Datatypes.S operations)) with (n + 1 + Z.of_nat operations) by lia. apply IH; lia.
  - apply gives_ret. intros r Hr. right. exists n. split; [lia|done].
Qed.

(** The greeting leaves no cycle counted. *)
Lemma handshake_reports config :
  gives (fun r => tally 0 0 r /\ wr_handshake_ok r = false /\ wr_stale_epoch_rejected r = false /\ wr_operations_attempted r = 0)
    (handshake peer config) (fun goes_on r => if goes_on then going 0 r else ended 0 r).
Proof.
  unfold handshake. eapply gives_bind.
  { apply gives_exchange. intros r x y ([] & ? & ? & ?). by split; [split|]. }
  intros reply. cbv beta. destruct (decoded _ _) as [[[status message] payload]|]; [|apply gives_protocol_error].
  destruct (bool_decide _).
  { unfold stale_epoch. eapply (gives_bind _ _ _ (fun _ r => ended 0 r)); [|intros ?; by apply gives_ret].
    apply gives_report. intros r ([] & Hh & ? & ?). split; [by split|]. split; [done|]. cbn. by rewrite Hh. }
  destruct (negb _); [apply gives_protocol_error|]. destruct (negb _); [apply gives_protocol_error|].
  unfold acknowledged. destruct (decoded _ _) as [ack|]; [|apply gives_protocol_error].
  destruct (negb _); [apply gives_protocol_error|].
  eapply (gives_bind _ _ _ (fun _ => going 0)); [|intros ?; by apply gives_ret].
  apply gives_report. intros r ([] & ? & ? & ?). split; [by split|]. done.
Qed.

Lemma gives_check (P : WorkerReport -> Prop) (x : Result unit) : gives P (sm_lift x) (fun _ => P).
Proof. by apply gives_lift. Qed.

Lemma run_worker_reports config connected s r s' : run_worker peer config connected s = (Good r, s') ->
  going (Z.of_nat (Z.to_nat (wc_operations config))) r \/
  exists k, 0 <= k <= Z.of_nat (Z.to_nat (wc_operations config)) /\ ended k r.
Proof.
  unfold run_worker. intros H.
  set (n := Z.of_nat (Z.to_nat (wc_operations config))).
  assert (gives (eq default_WorkerReport) (work peer config connected) (fun _ r => going n r \/ exists k, 0 <= k <= n /\ ended k r)) as Hw.
  { unfold work. eapply gives_bind; [apply gives_check|]. intros []. unfold reject_if at 1.
    destruct (Z.ltb_spec kMaxWorkerOperations (wc_operations config)) as [|Hmax]; [eapply (gives_bind _ _ _ (fun _ _ => False)); [apply gives_fail|by intros ????????]|].
    eapply gives_bind; [apply gives_check|]. intros []. eapply gives_bind; [apply gives_check|]. intros [].
    eapply gives_bind; [apply (gives_report _ _ (fun _ r => tally 0 0 r /\ wr_handshake_ok r = false /\ wr_stale_epoch_rejected r = false /\ wr_operations_attempted r = 0))|].
    { intros r0 <-. by split; [split|]. }
    intros []. unfold converse. eapply gives_bind; [apply handshake_reports|]. intros [|]; cbn [negb].
    - eapply (gives_bind _ _ _ (fun _ => going 0)); [by intros r1 s1 a r2 s2 H1 [= <- <- <-]|]. intros r1.
      intros r2 s2 a r3 s3 Hr2 Hrun. change kMaxWorkerOperations with (2 ^ 24) in Hmax.
      destruct (cycles_report (Z.to_nat (wc_operations config)) _ _ 0 _ ltac:(lia) ltac:(lia) _ _ _ _ _ Hr2 Hrun) as [Hg|(k & Hk & He)]; [by left|].
      right. exists k. split; [unfold n; lia|done].
    - apply gives_ret. intros r0 H0. right. exists 0. split; [lia|done]. }
  destruct (work peer config connected (default_WorkerReport, s)) as [[[]|e] [r0 s0]] eqn:E; [|done]. injection H as <- <-. by eapply Hw; [|exact E].
Qed.
End Reports.

(** * What the worker promises *)

(** A worker's report adds up. Whatever the other end answers, when [run_worker] gives a report
    it connected, and every cycle that ran to its end was counted once, as a refusal or as a
    release; no grant is counted without its release; either the greeting succeeded, all the
    operations asked for were attempted and none met a stale epoch, or a stale epoch was met,
    in the greeting before any attempt or in the attempt after the cycles counted. A report
    never shows a protocol error or an error response, since after one there is no report. *)
Theorem worker_report_exact {S : Type} (peer : S -> list Z -> Result (list Z) * S) (config : WorkerConfig)
    (connected : Result unit) (s s' : S) (r : WorkerReport) :
  0 <= wc_operations config ->
  run_worker peer config connected s = (Good r, s') ->
  wr_connected r = true /\ wr_protocol_error r = false /\ wr_error_responses r = 0 /\
  0 <= wr_refusals r /\ 0 <= wr_grants r /\ 0 <= wr_partial_grants r /\ wr_grants r + wr_partial_grants r <= wr_release_ok r /\
  if wr_stale_epoch_rejected r
  then wr_operations_attempted r = wr_refusals r + wr_release_ok r + (if wr_handshake_ok r then 1 else 0) /\
       wr_refusals r + wr_release_ok r <= wc_operations config
  else wr_handshake_ok r = true /\ wr_operations_attempted r = wc_operations config /\
       wr_refusals r + wr_release_ok r = wc_operations config.
Proof.
  intros Hops H. destruct (run_worker_reports peer config connected s r s' H) as [([] & Hh & Hs & Ha)|(k & Hk & [] & Hs & Ha)];
    rewrite Hs; split_and!; try done; lia.
Qed.

(** A peer that greets, grants 5 units to each request and releases them. *)
Definition sample_peer (epoch : Z) (frame : list Z) : Result (list Z) * Z :=
  let answer op body := (Good (wr_buffer (put_message (mkMessage op 0 epoch body) writer_empty)), epoch) in
  let summary := Some (sent (encode_decision_summary (mkDecisionSummary DecisionKind.Grant ErrorCode.Ok 0 1 2500 4 60 5 1 1 9 default_PoolAccounting))) in
  match decode_message frame kMaxFrameBytes with
  | Bad e => (Bad e, epoch)
  | Good (m, _) =>
      if mg_op m =? enum_code MessageOp.Hello
      then answer (enum_code MessageOp.HelloAck) (sent (encode_response ErrorCode.Ok "hello accepted"
             (Some (sent (encode_hello_response (mkHelloResponse kProtocolVersion epoch (mkBootIncarnation 1 2) 1 1))))))
      else answer (mg_op m) (sent (encode_response ErrorCode.Ok "" summary))
  end.

Definition sample_worker : WorkerConfig := mkWorkerConfig "127.0.0.1" 9000 1 1 60 3 0 0 100.

Lemma worker_report_exact_witness : exists r,
  run_worker sample_peer sample_worker (Good tt) 7 = (Good r, 7) /\
  wr_operations_attempted r = 3 /\ wr_refusals r + wr_release_ok r = 3 /\ wr_granted_units r = 15 /\ wr_released_units r = 15.
Proof.
  destruct (run_worker sample_peer sample_worker (Good tt) 7) as [[r|e] s'] eqn:E.
  - assert (0 <= wc_operations sample_worker) as Hops by (simpl; lia).
    pose proof (worker_report_exact sample_peer sample_worker (Good tt) 7 s' r Hops E) as H.
    vm_compute in E. injection E as <- <-. eexists. split; [reflexivity|].
    destruct H as (_ & _ & _ & _ & _ & _ & _ & H). simpl in H. destruct H as (_ & H1 & H2).
    split; [exact H1|]. split; [exact H2|]. split; reflexivity.
  - vm_compute in E. discriminate E.
Defined.
