(* ===== verification/Cluster.v ===== *)
(** * A worker and its coordinator

    The two ends of the wire together: [coordinator_peer] is a session of the coordinator as
    the worker sees it, the bytes going both ways through [receive_frame]. The theorems follow
    a worker's request through the codecs, the gate, the fabric and back. *)

From S2P Require Import Prelude Ints Hash Enums Status Codec Model Wire Policy Accounting Authority Persist State Grant Alloc Lifecycle Books Triples Layout Safety AllocSafety LifeSafety Topology Revoke Resize TopoSafety Query QuerySafety Ledger History Recovery System Json Explain Backend Protocol Coordinator CoordinatorSafety Transport Worker.

(** ** The wire between them *)

Definition stream (bytes : list Z) : Socket := mkSocket true bytes [] [] [].

Lemma stream_steady bytes : steady (stream bytes).
Proof. split; [done|constructor]. Qed.

Definition hung_up {A} : Result A := fail ErrorCode.PeerClosed "peer closed the connection".

Section Cluster.
Context (clock : nat -> Z) (others : nat -> Impl -> Impl).

(** Whether the session is still open, and the coordinator. *)
Definition coordinator_peer (s : bool * Coordinator) (frame : list Z) : Result (list Z) * (bool * Coordinator) :=
  let '(session, c) := s in
  if negb session || co_shutdown_requested c then (hung_up, (false, c))
  else match fst (receive_frame (cc_max_frame_bytes (co_config c)) (stream frame)) with
  | Bad _ => (hung_up, (false, c))
  | Good payload =>
      match serve_frame clock others payload c with
      | (Good (answer, goes_on), c) => (fst (receive_frame kMaxFrameBytes (stream answer)), (goes_on, c))
      | (Bad _, c) => (hung_up, (false, c))
      end
  end.

Lemma frame_of_message m max max_frame : wf_message m max -> max <= u32_max - 21 ->
  21 + Z.of_nat (length (mg_body m)) <= max_frame -> max_frame <= u32_max ->
  exists payload, fst (receive_frame max_frame (stream (encode_message m))) = Good payload /\ decode_message_payload payload max = Good m.
Proof.
  intros Hm Hmax Hl Hf.
  destruct (receive_message_frame m max max_frame (stream (encode_message m)) [] Hm Hmax Hl Hf) as (payload & s' & H & _ & _ & Hd).
  - apply stream_steady.
  - constructor.
  - cbn. by rewrite app_nil_r.
  - exists payload. by rewrite H.
Qed.

(** A frame that a coordinator can take. *)
Definition fits (c : Coordinator) (request : Message) : Prop :=
  wf_message request (cc_max_frame_bytes (co_config c)) /\
  21 + Z.of_nat (length (mg_body request)) <= cc_max_frame_bytes (co_config c) <= u32_max - 21 /\
  co_shutdown_requested c = false.

(** An answer that the worker can take. *)
Definition readable (reply : Message) : Prop :=
  wf_message reply kMaxFrameBytes /\ 21 + Z.of_nat (length (mg_body reply)) <= kMaxFrameBytes.

Lemma exchange_served request c r reply closed c' :
  fits c request -> dispatch clock others request c = (Good (reply, closed), c') -> readable reply ->
  exists x y, exchange coordinator_peer request (r, (true, c)) =
    (Good reply, (r <| wr_bytes_sent := x |> <| wr_bytes_received := y |>, (negb closed, c'))).
Proof.
  intros (Hm & (Hl & Hmax) & Hs) Hd (Hr & Hrl).
  destruct (frame_of_message request _ _ Hm Hmax Hl ltac:(lia)) as (payload & Hp & Hdec).
  destruct (frame_of_message reply kMaxFrameBytes kMaxFrameBytes Hr) as (answer & Ha & Hadec);
    [by vm_compute|done|by vm_compute|].
  unfold exchange, sm_bind, report, coordinator_peer. rewrite Hs. cbn [negb orb]. rewrite Hp.
  unfold serve_frame, sm_bind, sm_get. rewrite Hdec, Hd. cbn [fst snd sm_ret]. rewrite Ha.
  unfold sm_lift. rewrite Hadec. by eexists _, _.
Qed.
End Cluster.

(** ** Answers *)

Lemma sent_roundtrips {A} (p : Put) (g : Reader A) a : roundtrips p g a -> is_bytes (sent p) /\ decoded g (sent p) = Some a.
Proof.
  intros H. pose proof (received_sent p g a H) as Hr. destruct H as (bs & Hb & Hp & Hg). split.
  - unfold sent. by rewrite Hp.
  - unfold received in Hr. unfold decoded. destruct (g _) as [[a'|] r]; [|done]. destruct (reader_empty r); [|done]. exact Hr.
Qed.

Lemma response_length status message payload :
  Z.of_nat (length (sent (encode_response status message payload))) <= 4104 + Z.of_nat (length (default [] payload)).
Proof.
  assert (forall v, appends (put_u16 v) (le_bytes 2 v)) as H2 by (intros v; exact (appends_le v (seqZ 0 2))).
  assert (forall v, appends (put_u32 v) (le_bytes 4 v)) as H4 by (intros v; exact (appends_le v (seqZ 0 4))).
  unfold sent, encode_response. set (n := if kMaxResponseText <? _ then _ else _).
  assert (n <= 4096) as Hn by (unfold n, kMaxResponseText; destruct (Z.ltb_spec 4096 (Z.of_nat (String.length message))); lia).
  unfold seq_put. rewrite H2, H2 by done. unfold put_bytes at 1.
  assert (forall w, (wr_failed w = false) -> (length (wr_buffer w) <= 4100)%nat ->
    Z.of_nat (length (wr_buffer (match payload with
      | Some bytes => put_u32 (wrap32 (Z.of_nat (length bytes))) >+> put_bytes bytes | None => put_u32 0 end w))) <=
    4104 + Z.of_nat (length (default [] payload))) as H.
  { intros w Hw Hl. destruct payload as [bytes|]; unfold seq_put; rewrite H4 by done; cbn; rewrite ?length_app, le_bytes_length; lia. }
  apply H; [done|]. cbn. rewrite !length_app, !le_bytes_length, length_take. lia.
Qed.

Lemma respond_readable reply code message payload :
  is_u8 (mg_op reply) -> is_u64 (mg_request reply) -> is_u64 (mg_epoch reply) ->
  wf_outcome code -> is_bytes (default [] payload) -> Z.of_nat (length (default [] payload)) <= 1024 ->
  readable (respond reply code message payload) /\
  decoded decode_response (mg_body (respond reply code message payload)) =
    Some (code, bytes_string (response_text message), default [] payload).
Proof.
  intros Ho Hr He Hc Hb Hl. assert (kMaxFrameBytes = 1048576) as Hmax by (by vm_compute).
  destruct (sent_roundtrips _ _ _ (roundtrips_response code message payload Hc Hb ltac:(lia))) as [Hbytes Hdec].
  pose proof (response_length code message payload) as Hlen.
  split; [|exact Hdec]. split; [split|]; cbn; try done; lia.
Qed.

(** ** The greeting *)

Section Greeting.
Context (clock : nat -> Z) (others : nat -> Impl -> Impl).

(** A session after one call that only reads; what it saw is the fabric it left. *)
Definition one_read (c : Coordinator) : Coordinator :=
  c <| co_fabric := act clock others (co_calls c) None (co_fabric c) |> <| co_calls := S (co_calls c) |>.

Lemma check_gets {A} (f : Impl -> A) c : check clock others (gets f) c = (Good (f (co_fabric (one_read c))), one_read c).
Proof. reflexivity. Qed.

Definition after (n : nat) (c : Coordinator) : Coordinator := Nat.iter n one_read c.
Definition seen (n : nat) (c : Coordinator) : Impl := co_fabric (after n c).

(** The answers to a greeting: the second call gives the epoch, the third the counts, the
    fourth the boot. *)
Definition acknowledgement (c : Coordinator) : HelloResponse :=
  mkHelloResponse kProtocolVersion (im_epoch (seen 2 c)) (im_boot (seen 4 c))
    (fs_pool_count (summary_of (seen 3 c))) (fs_queue_count (summary_of (seen 3 c))).

Lemma received_hello config : is_u64 (wc_claim_epoch config) ->
  received decode_hello_request (mg_body (hello config)) = Some (mkHelloRequest kProtocolVersion (wc_claim_epoch config) (mkBootIncarnation 0 0)).
Proof. intros H. apply received_sent, roundtrips_hello_request. unfold kProtocolVersion. split_and!; cbn; try done; u64_lia. Qed.

Definition greeted (config : WorkerConfig) (c : Coordinator) : Message :=
  mkMessage (enum_code MessageOp.Hello) 1 (im_epoch (seen 1 c)) [].

Lemma dispatch_hello_current config c : is_u64 (wc_claim_epoch config) ->
  (wc_claim_epoch config = 0 \/ wc_claim_epoch config = im_epoch (seen 2 c)) ->
  dispatch clock others (hello config) c =
    (Good (respond (greeted config c <| mg_op := enum_code MessageOp.HelloAck |>) ErrorCode.Ok "hello accepted"
       (Some (sent (encode_hello_response (acknowledgement c)))), false), after 4 c).
Proof.
  intros Hu Hclaim. unfold dispatch. cbn [hello mg_op]. rewrite enum_cast_code. unfold current_epoch at 1.
  rewrite (bind_run _ _ _ _ _ (check_gets im_epoch c)). unfold handle_hello. rewrite received_hello by done.
  cbn [hq_protocol_version hq_claimed_epoch]. rewrite Z.eqb_refl. cbn [negb]. unfold current_epoch.
  rewrite (bind_run _ _ _ _ _ (check_gets im_epoch (one_read c))).
  replace (valid (wc_claim_epoch config) && negb (wc_claim_epoch config =? im_epoch (co_fabric (one_read (one_read c))))) with false
    by (destruct Hclaim as [->| ->]; [done|by rewrite Z.eqb_refl, andb_false_r]).
  unfold summary. rewrite (bind_run _ _ _ _ _ (check_gets summary_of _)). unfold current_boot.
  rewrite (bind_run _ _ _ _ _ (check_gets im_boot _)). reflexivity.
Qed.

Lemma dispatch_hello_stale config c : is_u64 (wc_claim_epoch config) ->
  wc_claim_epoch config <> 0 -> wc_claim_epoch config <> im_epoch (seen 2 c) ->
  exists text, dispatch clock others (hello config) c =
    (Good (respond (greeted config c) ErrorCode.StaleEpoch text None, true), reject_one (after 2 c)).
Proof.
  intros Hu H0 Hne. unfold dispatch. cbn [hello mg_op]. rewrite enum_cast_code. unfold current_epoch at 1.
  rewrite (bind_run _ _ _ _ _ (check_gets im_epoch c)). unfold handle_hello. rewrite received_hello by done.
  cbn [hq_protocol_version hq_claimed_epoch]. rewrite Z.eqb_refl. cbn [negb]. unfold current_epoch.
  rewrite (bind_run _ _ _ _ _ (check_gets im_epoch (one_read c))).
  change (co_fabric (one_read (one_read c))) with (seen 2 c). unfold valid. rewrite (proj2 (Z.eqb_neq _ _) H0), (proj2 (Z.eqb_neq (wc_claim_epoch config) _) Hne). cbn [negb andb].
  by eexists.
Qed.

(** What the worker needs of the wire to greet: frames large enough and fields that fit. *)
Record can_greet (config : WorkerConfig) (c : Coordinator) : Prop := {
  cg_open : co_shutdown_requested c = false;
  cg_frames : 49 <= cc_max_frame_bytes (co_config c) <= u32_max - 21;
  cg_claim : is_u64 (wc_claim_epoch config);
  cg_epoch : is_u64 (im_epoch (seen 1 c));
  cg_ack : wf_hello_response (acknowledgement c)
}.

Lemma hello_fits config c : can_greet config c -> fits c (hello config).
Proof.
  intros [Ho Hf Hc _ _].
  assert (length (mg_body (hello config)) = 28%nat) as Hlen by reflexivity.
  assert (is_bytes (mg_body (hello config))) as Hb.
  { apply (sent_roundtrips _ decode_hello_request (mkHelloRequest kProtocolVersion (wc_claim_epoch config) (mkBootIncarnation 0 0))).
    apply roundtrips_hello_request. unfold kProtocolVersion. split_and!; cbn; try done; u64_lia. }
  split; [|split; [rewrite Hlen; lia|done]].
  split; [by vm_compute|by vm_compute|exact Hc|exact Hb|rewrite Hlen; lia].
Qed.

Lemma ok_outcome : wf_outcome ErrorCode.Ok.
Proof. split; [by vm_compute|done]. Qed.
Lemma stale_outcome : wf_outcome ErrorCode.StaleEpoch.
Proof. split; [by vm_compute|done]. Qed.

Lemma handshake_current config c r : can_greet config c ->
  (wc_claim_epoch config = 0 \/ wc_claim_epoch config = im_epoch (seen 2 c)) ->
  exists x y, handshake (coordinator_peer clock others) config (r, (true, c)) =
    (Good true, (r <| wr_bytes_sent := x |> <| wr_bytes_received := y |> <| wr_coordinator_epoch := im_epoch (seen 2 c) |>
      <| wr_coordinator_boot := im_boot (seen 4 c) |> <| wr_handshake_ok := true |>, (true, after 4 c))).
Proof.
  intros Hg Hclaim. set (ack := sent (encode_hello_response (acknowledgement c))).
  destruct (sent_roundtrips _ _ _ (roundtrips_hello_response (acknowledgement c) (cg_ack _ _ Hg))) as [Hab Had]. fold ack in Hab, Had.
  destruct (respond_readable (greeted config c <| mg_op := enum_code MessageOp.HelloAck |>) ErrorCode.Ok "hello accepted" (Some ack)) as [Hread Hdec];
    [by vm_compute|by vm_compute|apply Hg|apply ok_outcome|exact Hab|by vm_compute|].
  destruct (exchange_served clock others (hello config) c r _ _ _ (hello_fits config c Hg) (dispatch_hello_current config c (cg_claim _ _ Hg) Hclaim) Hread)
    as (x & y & Hx).
  exists x, y. unfold handshake. rewrite (bind_run _ _ _ _ _ Hx). fold ack. rewrite Hdec. cbn [default].
  rewrite bool_decide_false by done. rewrite bool_decide_true by done. cbn [negb].
  change (id ack) with ack. unfold acknowledged. rewrite Had. reflexivity.
Qed.

Lemma handshake_stale config c r : can_greet config c ->
  wc_claim_epoch config <> 0 -> wc_claim_epoch config <> im_epoch (seen 2 c) ->
  exists x y, handshake (coordinator_peer clock others) config (r, (true, c)) =
    (Good false, (r <| wr_bytes_sent := x |> <| wr_bytes_received := y |> <| wr_stale_epoch_rejected := true |>,
      (false, reject_one (after 2 c)))).
Proof.
  intros Hg H0 Hne. destruct (dispatch_hello_stale config c (cg_claim _ _ Hg) H0 Hne) as (text & Hd).
  destruct (respond_readable (greeted config c) ErrorCode.StaleEpoch text None) as [Hread Hdec];
    [by vm_compute|by vm_compute|apply Hg|apply stale_outcome|constructor|by vm_compute|].
  destruct (exchange_served clock others (hello config) c r _ _ _ (hello_fits config c Hg) Hd Hread) as (x & y & Hx).
  exists x, y. unfold handshake. rewrite (bind_run _ _ _ _ _ Hx), Hdec. by rewrite bool_decide_true by done.
Qed.
End Greeting.

(** ** Outdated workers *)

Section Outdated.
Context (clock : nat -> Z) (others : nat -> Impl -> Impl).
Hypothesis Hepoch : forall n s, im_epoch (others n s) = im_epoch s.

Lemma seen_epoch n c : im_epoch (seen clock others n c) = im_epoch (co_fabric c).
Proof.
  induction n as [|n IH]; [done|]. rewrite <- IH. unfold seen. cbn [after Nat.iter]. exact (Hepoch _ _).
Qed.

Lemma one_read_drove c : drove clock others [None] c (one_read clock others c).
Proof. split; simpl; [done|lia|done|done]. Qed.

Lemma after_drove n c : drove clock others (repeat None n) c (after clock others n c).
Proof.
  induction n as [|n IH]; [apply drove_refl|]. cbn [after Nat.iter nat_rect repeat]. rewrite repeat_cons. eapply drove_trans; [exact IH|apply one_read_drove].
Qed.

Lemma after_counts n c :
  co_rejected (after clock others n c) = co_rejected c /\ co_served (after clock others n c) = co_served c /\
  co_shutdown_requested (after clock others n c) = co_shutdown_requested c /\ co_config (after clock others n c) = co_config c.
Proof. induction n as [|n IH]; [done|]. exact IH. Qed.

Lemma ops_of_reads n : ops_of (repeat None n) = [].
Proof. induction n as [|n IH]; [done|]. exact IH. Qed.

(** A configuration whose fields fit the wire, and a coordinator whose frames hold a request. *)
Record can_ask (config : WorkerConfig) (c : Coordinator) : Prop := {
  ca_frames : 119 <= cc_max_frame_bytes (co_config c);
  ca_pool : is_u64 (wc_pool config);
  ca_queue : is_u64 (wc_queue config);
  ca_units : is_u64 (wc_units config);
  ca_expected : is_u64 (wc_expected_epoch config)
}.

Definition allocate_message (config : WorkerConfig) (epoch attempt : Z) : Message :=
  mkMessage (enum_code MessageOp.Allocate) (add64 attempt 1) epoch (sent (encode_allocate (allocate_request config epoch attempt))).

Lemma allocate_fits config epoch attempt c : can_greet clock others config c -> can_ask config c -> is_u64 epoch -> is_u64 attempt ->
  fits (after clock others 4 c) (allocate_message config epoch attempt).
Proof.
  intros Hg Ha He Hat. destruct (after_counts 4 c) as (_ & _ & Hs & Hc).
  assert (length (mg_body (allocate_message config epoch attempt)) = 98%nat) as Hlen by reflexivity.
  assert (is_bytes (mg_body (allocate_message config epoch attempt))) as Hb.
  { eapply sent_roundtrips. apply roundtrips_allocate. destruct Ha. split_and!; cbn; try done; u64_lia. }
  unfold fits. rewrite Hc, Hlen, Hs. pose proof (ca_frames _ _ Ha). pose proof (cg_frames _ _ _ _ Hg).
  split; [|split; [lia|apply Hg]]. split; [by vm_compute|apply add64_range|exact He|exact Hb|rewrite Hlen; lia].
Qed.

(** The first request of a worker that asserts an epoch other than the current one. *)
Lemma cycle_stale config epoch attempt c r : can_greet clock others config c -> can_ask config c -> is_u64 epoch -> is_u64 attempt ->
  epoch <> im_epoch (co_fabric c) ->
  exists r' c', cycle (coordinator_peer clock others) config epoch attempt (r, (true, after clock others 4 c)) = (Good None, (r', (false, c'))) /\
    wr_stale_epoch_rejected r' = true /\ wr_granted_units r' = wr_granted_units r /\
    co_rejected c' = add64 (co_rejected c) 1 /\ co_served c' = co_served c /\
    exists acts, drove clock others acts c c' /\ ops_of acts = [].
Proof.
  intros Hg Ha He Hat Hne. destruct (after_counts 4 c) as (Hrj & Hsv & _ & _).
  set (request := allocate_message config epoch attempt). set (c4 := after clock others 4 c) in *.
  assert (~ pings request) as Hp by (intros [H|H]; vm_compute in H; discriminate H).
  destruct (dispatch_stale clock others request c4 Hp) as (c' & Hd & Hr' & Hs' & acts & Hdrove & Hops).
  { right. intros Heq. apply Hne. cbn [request allocate_message mg_epoch] in Heq. rewrite Heq, Hepoch.
    transitivity (im_epoch (others (co_calls c4) (co_fabric c4))); [done|]. rewrite Hepoch. exact (seen_epoch 4 c). }
  destruct (respond_readable (mkMessage (mg_op request) (mg_request request) (im_epoch (others (co_calls c4) (co_fabric c4))) [])
    ErrorCode.StaleEpoch "request epoch is not the current fabric epoch" None) as [Hread Hdec];
    [by vm_compute|apply add64_range|cbn [mg_epoch]; rewrite Hepoch; pose proof (cg_epoch _ _ _ _ Hg) as H1; rewrite seen_epoch in H1; rewrite <- (seen_epoch 4 c) in H1; exact H1
    |apply stale_outcome|constructor|by vm_compute|].
  destruct (exchange_served clock others request c4 r _ _ _ (allocate_fits config epoch attempt c Hg Ha He Hat) Hd Hread) as (x & y & Hx).
  unfold cycle. fold (allocate_message config epoch attempt). fold request. rewrite (bind_run _ _ _ _ _ Hx), Hdec.
  rewrite bool_decide_true by done. eexists _, c'. split; [reflexivity|]. split_and!; [done|done|by rewrite Hr', Hrj|by rewrite Hs', Hsv|].
  exists (repeat None 4 ++ acts). rewrite ops_of_app, Hops, ops_of_reads. split; [|done]. eapply drove_trans; [apply after_drove|exact Hdrove].
Qed.
End Outdated.

(** * What holds end to end *)

(** Greeting settles the epoch. Whatever the other sessions do meanwhile, a worker that claims
    no epoch, or the one that is current when its claim is looked at, is acknowledged: it then
    holds that epoch, the boot that the coordinator gives and an open session, after four reads
    of the fabric and no operation. A worker that claims any other epoch learns that it is
    stale, its session is closed, and one rejection is counted. *)
Theorem greeting_settles_epoch (clock : nat -> Z) (others : nat -> Impl -> Impl) (config : WorkerConfig)
    (c : Coordinator) (r : WorkerReport) :
  can_greet clock others config c ->
  let current := im_epoch (seen clock others 2 c) in
  exists goes_on r' c',
    handshake (coordinator_peer clock others) config (r, (true, c)) = (Good goes_on, (r', (goes_on, c'))) /\
    (goes_on = true <-> wc_claim_epoch config = 0 \/ wc_claim_epoch config = current) /\
    if goes_on
    then wr_handshake_ok r' = true /\ wr_coordinator_epoch r' = current /\
         wr_coordinator_boot r' = im_boot (seen clock others 4 c) /\ c' = after clock others 4 c
    else wr_stale_epoch_rejected r' = true /\ wr_handshake_ok r' = wr_handshake_ok r /\ c' = reject_one (after clock others 2 c).
Proof.
  intros Hg current.
  assert ({wc_claim_epoch config = 0 \/ wc_claim_epoch config = current} + {~ (wc_claim_epoch config = 0 \/ wc_claim_epoch config = current)})
    as [Hc|Hc] by (destruct (Z.eq_dec (wc_claim_epoch config) 0), (Z.eq_dec (wc_claim_epoch config) current); tauto).
  - destruct (handshake_current clock others config c r Hg Hc) as (x & y & H). eexists true, _, _. split; [exact H|]. by split_and!.
  - destruct (handshake_stale clock others config c r Hg) as (x & y & H); [tauto|tauto|]. eexists false, _, _. split; [exact H|].
    by split_and!.
Qed.

Lemma work_connected {S} (peer : S -> list Z -> Result (list Z) * S) config s :
  wc_port config <> 0 -> wc_operations config <= kMaxWorkerOperations ->
  work peer config (Good tt) (default_WorkerReport, s) = converse peer config (default_WorkerReport <| wr_connected := true |>, s).
Proof. intros Hp Ho. unfold work. by rewrite (proj2 (Z.eqb_neq _ _) Hp), (proj2 (Z.ltb_ge _ _) Ho). Qed.

(** C12. An outdated worker is fenced off: while the epoch stays what it is, a run of the worker
    that claims or asserts any other one is told so at its greeting or at its first request,
    and reports it; no allocation is granted to it, its session is closed, one rejection is
    counted, no request is counted as served, and through the whole run the fabric undergoes no
    operation of this session, only reads. *)
Theorem outdated_worker_fenced (clock : nat -> Z) (others : nat -> Impl -> Impl) (config : WorkerConfig) (c : Coordinator) :
  (forall n s, im_epoch (others n s) = im_epoch s) ->
  can_greet clock others config c -> can_ask config c ->
  wc_port config <> 0 -> 0 < wc_operations config <= kMaxWorkerOperations ->
  (wc_claim_epoch config <> 0 /\ wc_claim_epoch config <> im_epoch (co_fabric c)) \/
  (wc_expected_epoch config <> 0 /\ wc_expected_epoch config <> im_epoch (co_fabric c)) ->
  exists r c',
    run_worker (coordinator_peer clock others) config (Good tt) (true, c) = (Good r, (false, c')) /\
    wr_stale_epoch_rejected r = true /\ wr_granted_units r = 0 /\
    co_rejected c' = add64 (co_rejected c) 1 /\ co_served c' = co_served c /\
    exists acts, drove clock others acts c c' /\ ops_of acts = [].
Proof.
  intros Hepoch Hg Ha Hport [Hops Hmax] Hout.
  unfold run_worker. rewrite work_connected by done. set (r0 := default_WorkerReport <| wr_connected := true |>).
  pose proof (seen_epoch clock others Hepoch 2 c) as H2. unfold converse.
  destruct (decide (wc_claim_epoch config = 0 \/ wc_claim_epoch config = im_epoch (seen clock others 2 c))) as [Hc|Hc].
  - destruct (handshake_current clock others config c r0 Hg Hc) as (x & y & H). rewrite (bind_run _ _ _ _ _ H). cbn [negb].
    destruct Hout as [[? ?]|[H0 Hne]]; [destruct Hc; congruence|].
    unfold sm_bind at 1. unfold valid. rewrite (proj2 (Z.eqb_neq _ _) H0). cbn [negb].
    destruct (Z.to_nat (wc_operations config)) as [|operations] eqn:Hn; [lia|]. cbn [cycles].
    match goal with |- context [sm_bind _ _ (?r, _)] => set (r1 := r) end.
    destruct (cycle_stale clock others Hepoch config (wc_expected_epoch config) (add64 (wc_attempt_base config) 1) c r1 Hg Ha (ca_expected _ _ Ha) (add64_range _ _) Hne)
      as (r' & c' & Hcy & Hst & Hgr & Hrest).
    rewrite (bind_run _ _ _ _ _ Hcy). exists r', c'. split; [reflexivity|]. split; [done|]. split; [by rewrite Hgr|done].
  - destruct (handshake_stale clock others config c r0 Hg) as (x & y & H); [tauto|tauto|]. rewrite (bind_run _ _ _ _ _ H).
    destruct (after_counts clock others 2 c) as (Hrj & Hsv & _ & _).
    eexists _, _. split; [reflexivity|]. split; [done|]. split; [done|]. split; [exact (f_equal (fun n => add64 n 1) Hrj)|]. split; [exact Hsv|].
    exists (repeat None 2). split; [|done]. destruct (after_drove clock others 2 c) as [D1 D2 D3 D4]. by split.
Qed.

(** A worker with an epoch of another life, and a coordinator whose fabric is at epoch 7. *)
Definition sample_coordinator : Coordinator := default_Coordinator <| co_fabric ::= fun s => s <| im_epoch := 7 |> |>.
Definition outdated_worker : WorkerConfig := mkWorkerConfig "127.0.0.1" 9000 1 1 60 3 0 6 100.

Lemma sample_can_greet : can_greet (fun _ => 0) (fun _ s => s) outdated_worker sample_coordinator.
Proof.
  split; [reflexivity|vm_compute; split; discriminate|vm_compute; split; discriminate|vm_compute; split; discriminate|].
  vm_compute. repeat split; discriminate.
Defined.

Lemma sample_can_ask : can_ask outdated_worker sample_coordinator.
Proof. split; vm_compute; [discriminate|split; discriminate..]. Defined.

Lemma greeting_settles_epoch_witness : exists r' c',
  handshake (coordinator_peer (fun _ => 0) (fun _ s => s)) outdated_worker (default_WorkerReport, (true, sample_coordinator)) =
    (Good true, (r', (true, c'))) /\ wr_coordinator_epoch r' = 7.
Proof.
  destruct (greeting_settles_epoch (fun _ => 0) (fun _ s => s) outdated_worker sample_coordinator default_WorkerReport sample_can_greet)
    as (goes_on & r' & c' & H & [_ Hon] & Hrest).
  assert (goes_on = true) as -> by (apply Hon; left; reflexivity). destruct Hrest as (_ & Hep & _).
  exists r', c'. split; [exact H|]. rewrite Hep. vm_compute. reflexivity.
Defined.

Lemma outdated_worker_fenced_witness : exists r c',
  run_worker (coordinator_peer (fun _ => 0) (fun _ s => s)) outdated_worker (Good tt) (true, sample_coordinator) = (Good r, (false, c')) /\
  wr_stale_epoch_rejected r = true /\ co_rejected c' = 1.
Proof.
  destruct (outdated_worker_fenced (fun _ => 0) (fun _ s => s) outdated_worker sample_coordinator) as (r & c' & H & Hst & _ & Hr & _).
  - reflexivity.
  - exact sample_can_greet.
  - exact sample_can_ask.
  - discriminate.
  - vm_compute. split; [reflexivity|discriminate].
  - right. split; discriminate.
  - exists r, c'. split; [exact H|]. split; [exact Hst|]. rewrite Hr. reflexivity.
Defined.
