(* ===== verification/Control.v ===== *)
(** * The operator's command line

    [src/tools/tool_args.hpp] and [src/tools/bfctl.cpp]: the words of a command line, and the
    commands that each open a fabric, do one thing to it and close it. One thread uses the
    fabric, so that nothing happens between two of its calls but the passing of time:
    [clock n] is the time of the [n]-th call. *)

From stdpp Require Import pretty.
From S2P Require Import Prelude Ints Hash Enums Status Codec Model Wire Policy Accounting Authority Persist State Grant Alloc Lifecycle Books Triples Layout Safety AllocSafety LifeSafety Topology Revoke Resize TopoSafety Query QuerySafety Ledger History Recovery System Loops Idempotence Json Explain Backend.

(** ** Words *)

Definition has (flag : string) (tokens : list string) : bool := existsb (String.eqb flag) tokens.

(** The word after the first occurrence of [flag] that has one. *)
Fixpoint value (flag fallback : string) (tokens : list string) : string :=
  match tokens with
  | token :: (next :: _) as rest => if String.eqb token flag then next else value flag fallback rest
  | _ => fallback
  end.

(** [isspace] of the C locale. *)
Definition is_space (z : Z) : bool := (z =? 32) || ((9 <=? z) && (z <=? 13)).
Definition is_digit (z : Z) : bool := (48 <=? z) && (z <=? 57).

Fixpoint skip_spaces (codes : list Z) : list Z :=
  match codes with
  | z :: rest => if is_space z then skip_spaces rest else codes
  | [] => []
  end.

(** The digits a number starts with, as a value. *)
Fixpoint digits (codes : list Z) (acc : Z) : Z :=
  match codes with
  | z :: rest => if is_digit z then digits rest (10 * acc + (z - 48)) else acc
  | [] => acc
  end.

Definition starts_with_digit (codes : list Z) : bool := match codes with z :: _ => is_digit z | [] => false end.

(** [strtoull] in base 10: nothing when no number starts there; a number too large is the
    largest there is; after a minus sign the value is negated as an unsigned number. *)
Definition strtoull (text : string) : option Z :=
  let codes := skip_spaces (map (fun c => Z.of_N (Ascii.N_of_ascii c)) (String.list_ascii_of_string text)) in
  let '(negative, codes) := match codes with
    | 45 :: rest => (true, rest)
    | 43 :: rest => (false, rest)
    | _ => (false, codes)
    end in
  if starts_with_digit codes then
    let n := digits codes 0 in
    Some (if u64_max <? n then u64_max else if negative then wrap64 (- n) else n)
  else None.

Definition number (flag : string) (fallback : Z) (tokens : list string) : Z :=
  let text := value flag "" tokens in
  if String.eqb text "" then fallback else default fallback (strtoull text).

Definition kFlags : list string := [
  "--state-dir"; "--capacity"; "--pool-units"; "--protected"; "--queue-id"; "--demand"; "--pool"; "--queue";
  "--units"; "--attempt"; "--allocation"; "--ttl"; "--address"; "--port"; "--run-seconds"; "--resource-units";
  "--ops"; "--pools"; "--queues"; "--seed"; "--host"; "--claim-epoch"; "--expected-epoch"; "--label"; "--filter";
  "--command"]%string.

Definition flag_takes_value (flag : string) : bool := existsb (String.eqb flag) kFlags.

Definition is_flag (token : string) : bool :=
  match token with
  | String.String a (String.String b _) => bool_decide (a = Ascii.ascii_of_nat 45) && bool_decide (b = Ascii.ascii_of_nat 45)
  | _ => false
  end.

(** The first word that is neither a flag nor the value of one. *)
Fixpoint first_positional_from (expect_value : bool) (tokens : list string) : string :=
  match tokens with
  | [] => ""%string
  | token :: rest =>
      if expect_value then first_positional_from false rest
      else if is_flag token then first_positional_from (flag_takes_value token) rest
      else token
  end.

Definition first_positional (tokens : list string) : string := first_positional_from false tokens.

(** ** A tool and its fabric *)

(** [tl_out] and [tl_err] are what each call of [printf] wrote, without its last newline. *)
Record Tool := mkTool {
  tl_fabric : Impl; tl_backend : SyntheticBackend; tl_calls : nat; tl_out : list string; tl_err : list string
}.

#[export] Instance settable_Tool : Settable Tool := fun t =>
  mkTool (tl_fabric t) (tl_backend t) (tl_calls t) (tl_out t) (tl_err t).

Definition kBackendId : Z := 1.
Definition kResourceId : Z := 1.
Definition kPolicyId : Z := 1.
Definition kPoolId : Z := 1.
Definition kDefaultTtl : Z := 10000000000.

Definition make_config (directory : string) (durable : bool) : FabricConfig :=
  if durable && negb (String.eqb directory "") then
    default_FabricConfig <| fc_persistence ::= fun p => p <| pc_directory := directory |>
      <| pc_mode := DurabilityMode.JournalSync |> |>
  else default_FabricConfig.

Section Tool.
Context (clock : nat -> Z).

(** A call of the fabric, whose answer is a value; and one whose failure ends the command. *)
Definition use {A} (m : M A) : StateR Tool (Result A) := fun t =>
  let '(r, s) := operation (clock (tl_calls t)) m (tl_fabric t) in
  (Good r, t <| tl_fabric := s |> <| tl_calls ::= S |>).

Definition must {A} (m : M A) : StateR Tool A := let* r := use m in sm_lift r.

Definition print (line : string) : StateR Tool unit := sm_modify (fun t => t <| tl_out ::= fun o => o ++ [line] |>).
Definition print_error (line : string) : StateR Tool unit := sm_modify (fun t => t <| tl_err ::= fun o => o ++ [line] |>).

(** ** The commands *)

(** A pool that is already there is left as it is. *)
Definition init_pool (pool_units protected_units : Z) : StateR Tool unit :=
  let* existing := use (pool_view kPoolId) in
  match existing with
  | Good _ => sm_ret tt
  | Bad _ =>
      let* t := sm_get in
      let* _ := must (register_pool (default_PoolRegistration <| pg_id := kPoolId |> <| pg_name := "bfctl-pool" |>
        <| pg_resource := kResourceId |> <| pg_backend := sb_id (tl_backend t) |> <| pg_raw_units := pool_units |>
        <| pg_protected_units := protected_units |> <| pg_policy := kPolicyId |>)) in
      sm_ret tt
  end.

Definition init_queue (queue demand : Z) : StateR Tool unit :=
  let* created := use (register_queue (default_QueueRegistration <| qg_id := queue |> <| qg_name := "bfctl-queue" |>
    <| qg_pool := kPoolId |> <| qg_demand_units := demand |>)) in
  match created with
  | Good _ => sm_ret tt
  | Bad e => if bool_decide (st_code e = ErrorCode.DuplicateQueue) || bool_decide (st_code e = ErrorCode.DuplicateName)
             then sm_ret tt else sm_lift (Bad e)
  end.

Definition command_init (arguments : list string) : StateR Tool Z :=
  let capacity := number "--capacity" (Z.shiftl 1 20) arguments in
  let pool_units := number "--pool-units" (Z.shiftl 1 19) arguments in
  let protected_units := number "--protected" (Z.shiftl 1 12) arguments in
  let queue_id := number "--queue-id" 1 arguments in
  let demand := number "--demand" (Z.shiftl 1 17) arguments in
  sm_modify (fun t => t <| tl_backend ::= set_resource kResourceId capacity 1 |>) ;;;
  let* t := sm_get in
  let backend := tl_backend t in
  let* _ := must (set_capacity (fun id => if id =? sb_id backend then Some (as_backend backend) else None)
                    kResourceId (sb_id backend) capacity 0) in
  let* _ := must (publish_policy (default_PoolPolicy <| pol_id := kPolicyId |> <| pol_name := "bfctl" |>)) in
  init_pool pool_units protected_units ;;;
  init_queue queue_id demand ;;;
  print ("initialized capacity=" ++ pretty capacity ++ " pool=" ++ pretty pool_units ++ " protected=" ++
    pretty protected_units ++ " queue=" ++ pretty queue_id)%string ;;;
  sm_ret 0.

Definition command_summary : StateR Tool Z :=
  let* x := must summary in
  print (summary_json x) ;;;
  sm_ret (if rep_closed (fs_accounting x) then 0 else 1).

Definition command_ledger : StateR Tool Z :=
  let* text := must accounting_text in
  print text ;;;
  sm_ret 0.

Fixpoint print_violations (violations : list AccountingViolation) : StateR Tool unit :=
  match violations with
  | [] => sm_ret tt
  | v :: violations =>
      print ("  fault=" ++ AccountingFault.to_string (vl_fault v) ++ " pool=" ++ pretty (vl_pool v) ++ " " ++ vl_detail v)%string ;;;
      print_violations violations
  end.

Definition command_verify : StateR Tool Z :=
  let* report := must validate_accounting in
  print ("pools=" ++ pretty (rep_pools_checked report) ++ " closure=" ++
    (if rep_closed report then "closed" else "VIOLATED"))%string ;;;
  print_violations (rep_violations report) ;;;
  sm_ret (if rep_closed report then 0 else 1).

Definition command_checkpoint : StateR Tool Z :=
  must checkpoint ;;;
  print "checkpoint written" ;;;
  sm_ret 0.

Definition command_explain (arguments : list string) : StateR Tool Z :=
  let* x := must (explain (number "--pool" kPoolId arguments)) in
  print (explanation_json x) ;;;
  sm_ret 0.

(** The evidence an operator gives: the usage that the fabric itself explains. *)
Definition operator_snapshot (arguments : list string) (pool : Z) (x : Explanation) (epoch : Z) (boot : BootIncarnation) :
    PressureSnapshot :=
  default_PressureSnapshot <| ps_pool := pool |> <| ps_pool_generation := ex_pool_generation x |> <| ps_epoch := epoch |>
    <| ps_boot := boot |> <| ps_ttl_ticks := number "--ttl" kDefaultTtl arguments |>
    <| ps_demand_units := number "--demand" 0 arguments |>
    <| ps_committed_units := add64 (sub64 (ex_allocated_units x) (ex_borrowed_in_units x)) (ex_lent_out_units x) |>
    <| ps_assert_committed := true |>.

(** The two blocks of the source that explain a pool and publish what they learned. *)
Definition observe_pool (arguments : list string) (pool : Z) : StateR Tool PressureSnapshot :=
  let* x := must (explain pool) in
  let* epoch := must (gets im_epoch) in
  let* boot := must (gets im_boot) in
  let snapshot := operator_snapshot arguments pool x epoch boot in
  must (observe_pressure snapshot) ;;;
  sm_ret snapshot.

Definition command_observe (arguments : list string) : StateR Tool Z :=
  let pool := number "--pool" kPoolId arguments in
  let* snapshot := observe_pool arguments pool in
  print ("observed pool=" ++ pretty pool ++ " committed=" ++ pretty (ps_committed_units snapshot))%string ;;;
  sm_ret 0.

Definition operator_request (arguments : list string) : AllocateRequest :=
  default_AllocateRequest <| aq_attempt := number "--attempt" 1 arguments |> <| aq_pool := number "--pool" kPoolId arguments |>
    <| aq_queue := number "--queue-id" 1 arguments |> <| aq_requested_units := number "--units" 1 arguments |>
    <| aq_commit_immediately := negb (has "--reserve" arguments) |>
    <| aq_reclaim_class := if has "--pinned" arguments then ReclaimClass.Pinned else ReclaimClass.Reclaimable |>.

Definition command_allocate (arguments : list string) : StateR Tool Z :=
  when (has "--observe-first" arguments) do
    (let* _ := observe_pool arguments (number "--pool" kPoolId arguments) in sm_ret tt) ;;;
  let request := operator_request arguments in
  let* d := must (allocate_locked request) in
  print ("kind=" ++ DecisionKind.to_string (dc_kind d) ++ " status=" ++ ErrorCode.to_string (dc_status d) ++
    " granted=" ++ pretty (dc_granted_units d) ++ " requested=" ++ pretty (aq_requested_units request) ++
    " allocation=" ++ pretty (dc_allocation d) ++ " binding=" ++ BindingConstraint.to_string (dc_binding d) ++
    " pressure=" ++ PressureState.to_string (dc_pressure d))%string ;;;
  sm_ret (if decide (dc_status d = ErrorCode.Ok) then 0 else 1).

Definition release_of (arguments : list string) : ReleaseRequest :=
  let units := number "--units" 0 arguments in
  default_ReleaseRequest <| rq_attempt := number "--attempt" 1 arguments |>
    <| rq_allocation := number "--allocation" 0 arguments |> <| rq_release_all := units =? 0 |> <| rq_units := units |>.

Definition command_release (arguments : list string) : StateR Tool Z :=
  let* d := must (release_locked (release_of arguments)) in
  print ("kind=" ++ DecisionKind.to_string (dc_kind d) ++ " released=" ++ pretty (dc_granted_units d))%string ;;;
  sm_ret 0.

Definition dispatch_command (command : string) (arguments : list string) : StateR Tool Z :=
  if String.eqb command "init" then command_init arguments
  else if String.eqb command "summary" then command_summary
  else if String.eqb command "ledger" then command_ledger
  else if String.eqb command "verify" then command_verify
  else if String.eqb command "checkpoint" then command_checkpoint
  else if String.eqb command "explain" then command_explain arguments
  else if String.eqb command "observe" then command_observe arguments
  else if String.eqb command "allocate" then command_allocate arguments
  else if String.eqb command "release" then command_release arguments
  else
    print_error ("unknown command: " ++ command)%string ;;;
    sm_ret 1.

(** [fail]: the status on the error stream, and exit code 1. *)
Definition exit_code (m : StateR Tool Z) (t : Tool) : Z * Tool :=
  match m t with
  | (Good code, t') => (code, t')
  | (Bad e, t') => (1, t' <| tl_err ::= fun o => o ++ [("error: " ++ status_to_string e)%string] |>)
  end.

Definition run_command (command : string) (arguments : list string) (t : Tool) : Z * Tool :=
  exit_code (dispatch_command command arguments) t.

(** [main] after the name of the command is known: open, attach, run, close. *)
Definition run_on_fabric (command : string) (arguments : list string) (boot : BootIncarnation) (t : Tool) : Z * Tool :=
  let state_directory := value "--state-dir" "" arguments in
  let durable := negb (has "--volatile" arguments) && negb (String.eqb state_directory "") in
  exit_code (
    must (open (make_config state_directory durable) boot) ;;;
    let* t := sm_get in
    let backend := tl_backend t in
    must (attach_backend (sb_id backend) (BackendKind.code BackendKind.Synthetic) (sb_generation backend) (sb_ready backend)) ;;;
    (fun t => let '(code, t) := run_command command arguments t in
       (let* closed := use close in
        match closed with
        | Bad e => if code =? 0 then sm_lift (Bad e) else sm_ret code
        | Good _ => sm_ret code
        end) t)) t.

Definition usage : string := String.concat newline [
  "usage: bfctl --state-dir DIR [--volatile] <command> [args]";
  "  commands:";
  "    capabilities";
  "    init --capacity N --pool-units N --protected N --queue-id N [--demand N]";
  "    summary | ledger | verify | checkpoint";
  "    explain --pool N";
  "    observe --pool N [--demand N] [--ttl TICKS]";
  "    allocate --pool N --queue-id N --units N --attempt N [--observe-first]";
  "             [--reserve] [--pinned]";
  "    release --allocation N --attempt N [--units N]"]%string.

(** [main]: [build] is what the build declares that it can do; [t] has the fabric as it is
    constructed, and the files that the state directory holds. *)
Definition main (arguments : list string) (build : Capabilities) (boot : BootIncarnation) (t : Tool) : Z * Tool :=
  let command := first_positional arguments in
  let say line t := t <| tl_out ::= fun o => o ++ [line] |> in
  match arguments with
  | [] => (1, say usage t)
  | _ =>
      if has "--help" arguments || String.eqb command "" then
        (if String.eqb command "" then 1 else 0, say usage t)
      else if String.eqb command "capabilities" then (0, say (capabilities_json build) t)
      else run_on_fabric command arguments boot (t <| tl_backend := synthetic_backend kBackendId 1 "bfctl" |>)
  end.

(** ** What the commands keep *)

(** A piece of a command under which the fabric moves along [R], whether it succeeds or not. *)
Class Along {A} (R : Impl -> Impl -> Prop) (m : StateR Tool A) : Prop :=
  along : forall t, wp m t (fun _ t' => R (tl_fabric t) (tl_fabric t')) (fun _ t' => R (tl_fabric t) (tl_fabric t')).

Section Along.
Context (R : Impl -> Impl -> Prop) {HR : PreOrder R}.
#[export] Instance along_ret {A} (a : A) : Along R (sm_ret a).
Proof. intros t. apply HR. Qed.
#[export] Instance along_get : Along R sm_get.
Proof. intros t. apply HR. Qed.
#[export] Instance along_lift {A} (r : Result A) : Along R (sm_lift r).
Proof. intros t. destruct r; apply HR. Qed.
#[export] Instance along_print line : Along R (print line).
Proof. intros t. apply HR. Qed.
#[export] Instance along_print_error line : Along R (print_error line).
Proof. intros t. apply HR. Qed.
#[export] Instance along_backend f : Along R (sm_modify (fun t => t <| tl_backend ::= f |>)).
Proof. intros t. apply HR. Qed.
#[export] Instance along_bind {A B} (m : StateR Tool A) (k : A -> StateR Tool B) :
  Along R m -> (forall a, Along R (k a)) -> Along R (sm_bind m k).
Proof.
  intros Hm Hk t. apply wp_bind. eapply wp_mono; [apply Hm| |done].
  intros a t' H. eapply wp_mono; [apply Hk| |]; intros ? t'' H'; by transitivity (tl_fabric t').
Qed.
#[export] Instance along_result {A B} (r : Result A) (f : A -> StateR Tool B) (g : Status -> StateR Tool B) :
  (forall a, Along R (f a)) -> (forall e, Along R (g e)) -> Along R (match r with Good a => f a | Bad e => g e end).
Proof. by destruct r. Qed.
#[export] Instance along_if {A} (b : bool) (m1 m2 : StateR Tool A) : Along R m1 -> Along R m2 -> Along R (if b then m1 else m2).
Proof. by destruct b. Qed.
#[export] Instance along_must {A} (m : M A) : Along R (use m) -> Along R (must m).
Proof. intros Hm. unfold must. apply _. Qed.
#[export] Instance along_violations l : Along R (print_violations l).
Proof. induction l; simpl; apply _. Qed.
End Along.

(** The tables of allocations, policies, queues, pools, capacities, names and remembered
    attempts are as they were; a pool may have counted something. *)
Definition settled (s s' : Impl) : Prop := same_tables s s' /\ layout s' = layout s /\ same_memory s s'.

(** The books stay good; and the tables stay as they are; the pressure table stays as it is. *)
Definition honest (s s' : Impl) : Prop := Inv s -> Inv s'.
Definition calm (s s' : Impl) : Prop := Inv s -> Inv s' /\ settled s s'.
Definition unpressed (s s' : Impl) : Prop := im_pressure s' = im_pressure s.

#[export] Instance same_tables_preorder : PreOrder same_tables.
Proof. split; unfold same_tables; [done|]. intros s1 s2 s3 (? & ? & ? & ? & ?) (? & ? & ? & ? & ?). split_and!; congruence. Qed.
#[export] Instance settled_preorder : PreOrder settled.
Proof.
  split; unfold settled; [by intros s|]. intros s1 s2 s3 (? & ? & ?) (? & ? & ?). split_and!; [by transitivity s2|congruence|by transitivity s2].
Qed.
#[export] Instance unpressed_preorder : PreOrder unpressed.
Proof. split; unfold unpressed; [by intros s|congruence]. Qed.
#[export] Instance honest_preorder : PreOrder honest.
Proof. split; [by intros s HI|]. intros s1 s2 s3 H12 H23 HI. apply H23, H12, HI. Qed.
#[export] Instance calm_preorder : PreOrder calm.
Proof.
  split; unfold calm; [by intros s HI; split|]. intros s1 s2 s3 H12 H23 HI. destruct (H12 HI) as [HI2 T12].
  destruct (H23 HI2) as [HI3 T23]. split; [done|]. by transitivity s2.
Qed.

Lemma use_run {A} (m : M A) t (r : Result A) s' :
  m (tl_fabric t <| im_tick := clock (tl_calls t) |> <| im_events := [] |>) = (r, s') ->
  use m t = (Good r, t <| tl_fabric := s' |> <| tl_calls ::= S |>).
Proof. intros H. unfold use, operation, sm_bind, modify, sm_modify. by rewrite H. Qed.

Lemma honest_use {A} (m : M A) : (forall s, Inv s -> Keeps m s) -> Along honest (use m).
Proof.
  intros Hm t. unfold wp. destruct (m (tl_fabric t <| im_tick := clock (tl_calls t) |> <| im_events := [] |>)) as [r s'] eqn:H.
  rewrite (use_run m t r s' H). intros HI. pose proof (keeps_run m _ (Hm _ (Inv_locked _ (clock (tl_calls t)) HI))) as HI'. by rewrite H in HI'.
Qed.

Lemma calm_use {A} (m : M A) :
  (forall s, Inv s -> wp m s (fun _ s' => Inv s' /\ settled s s') (fun _ s' => Inv s' /\ settled s s')) -> Along calm (use m).
Proof.
  intros Hm t. unfold wp. destruct (m (tl_fabric t <| im_tick := clock (tl_calls t) |> <| im_events := [] |>)) as [r s'] eqn:H.
  rewrite (use_run m t r s' H). intros HI. pose proof (wp_run _ _ _ _ _ _ (Hm _ (Inv_locked _ _ HI)) H) as HI'.
  by destruct r; destruct HI' as [? T].
Qed.

#[export] Instance calm_hushed {A} (m : M A) : Hushed m -> Within same_memory m -> Along calm (use m).
Proof.
  intros Hm Hmem. apply calm_use. intros s HI. eapply wp_mono; [apply wp_conj; [apply Hm|apply Hmem]| |];
    intros ? s' [Hq Hs]; (split; [by rewrite <- Hq|split; [by apply quiet_same_tables|split; [by rewrite Hq|done]]]).
Qed.

#[export] Instance unpressed_hushed {A} (m : M A) : Hushed m -> Along unpressed (use m).
Proof.
  intros Hm t. unfold wp. destruct (m (tl_fabric t <| im_tick := clock (tl_calls t) |> <| im_events := [] |>)) as [r s'] eqn:H.
  rewrite (use_run m t r s' H). pose proof (wp_run _ _ _ _ _ _ (Hm _) H) as Hq.
  assert (quiet (tl_fabric t <| im_tick := clock (tl_calls t) |> <| im_events := [] |>) s') as Hq' by (by destruct r).
  exact (eq_sym (f_equal im_pressure Hq')).
Qed.

#[export] Instance memory_observe_pressure x : Within same_memory (observe_pressure x).
Proof.
  assert (forall next f requested message, (forall n s, same_memory s (f n s)) -> Within same_memory (claim_id next f requested message)) as Hclaim.
  { intros next f requested message Hf. unfold claim_id. pose proof (fun n => memory_modify (f n) (Hf n)). walk. }
  unfold observe_pressure, reject_pressure. cbv zeta. 
  apply within_bind; [apply _..|]. intros []. apply within_bind; [apply _..|]. intros []. apply within_bind; [apply _..|]. intros e.
  apply within_bind; [apply _|by apply Hclaim|]. intros id. walk.
Qed.

#[export] Instance calm_observe x : Along calm (use (observe_pressure x)).
Proof.
  apply calm_use. intros s HI. eapply wp_mono; [apply wp_conj; [by apply observe_pressure_outcome|apply (within (R := same_memory))]| |].
  - intros ? s' [[[] ? ? _ _] ?]; done.
  - intros ? s' [([] & ? & ?) ?]; done.
Qed.

Lemma calm_honest {A} (m : StateR Tool A) : Along calm m -> Along honest m.
Proof. intros Hm t. eapply wp_mono; [apply Hm| |]; intros ? t' H HI; by destruct (H HI). Qed.

Lemma digits_nonneg codes acc : 0 <= acc -> 0 <= digits codes acc.
Proof.
  revert acc. induction codes as [|z codes IH]; intros acc Hacc; simpl; [done|].
  destruct (is_digit z) eqn:Hz; [|done]. apply IH. unfold is_digit in Hz. lia.
Qed.

(** Whatever the word, a number of the command line is one of 64 bits. *)
Lemma number_u64 flag fallback tokens : is_u64 fallback -> is_u64 (number flag fallback tokens).
Proof.
  intros Hf. unfold number. destruct (String.eqb _ ""); [done|]. unfold strtoull.
  destruct (match skip_spaces _ with 45 :: _ => _ | _ => _ end) as [negative codes].
  destruct (starts_with_digit codes); [|done]. simpl. pose proof (digits_nonneg codes 0).
  destruct (Z.ltb_spec u64_max (digits codes 0)); [split; unfold u64_max; lia|].
  destruct negative; [apply wrap64_range|split; lia].
Qed.

#[export] Instance hushed_explain pool : Hushed (explain pool).
Proof. unfold explain. apply _. Qed.
#[export] Instance hushed_pool_view pool : Hushed (pool_view pool).
Proof. unfold pool_view. apply _. Qed.
#[local] Existing Instance hushed_checkpoint.
#[export] Instance memory_explain pool : Within same_memory (explain pool).
Proof. unfold explain. walk. Qed.
#[export] Instance memory_pool_view pool : Within same_memory (pool_view pool).
Proof. unfold pool_view. walk. Qed.
#[export] Instance memory_checkpoint : Within same_memory checkpoint.
Proof. unfold checkpoint, write_full_snapshot. walk. Qed.
#[local] Hint Extern 30 (Along honest (use _)) => (apply calm_honest) : typeclass_instances.

#[export] Instance calm_observe_pool arguments pool : Along calm (observe_pool arguments pool).
Proof. unfold observe_pool. apply _. Qed.

#[export] Instance honest_init_pool pool_units protected_units :
  is_u64 pool_units -> is_u64 protected_units -> Along honest (init_pool pool_units protected_units).
Proof.
  intros Hr Hp. unfold init_pool. apply along_bind; [apply _..|]. intros [view|e]; [apply _|].
  apply along_bind; [apply _..|]. intros t. apply along_bind; [apply _| |intros ?; apply _].
  apply along_must; [apply _|]. apply honest_use. intros s HI. by apply register_pool_keeps.
Qed.

#[export] Instance honest_init_queue queue demand : Along honest (init_queue queue demand).
Proof.
  unfold init_queue. apply along_bind; [apply _| |intros [id|e]; apply _].
  apply honest_use. intros s HI. by apply register_queue_keeps.
Qed.

Lemma honest_init arguments : Along honest (command_init arguments).
Proof.
  unfold command_init. apply along_bind; [apply _..|]. intros []. apply along_bind; [apply _..|]. intros t.
  apply along_bind; [apply _| |intros g1].
  { apply along_must; [apply _|]. apply honest_use. intros s HI. by apply set_capacity_keeps. }
  apply along_bind; [apply _| |intros g2].
  { apply along_must; [apply _|]. apply honest_use. intros s HI. apply publish_policy_keeps; [done|]. repeat split; done. }
  apply along_bind; [apply _| |intros []; apply _].
  apply honest_init_pool; apply number_u64; split; vm_compute; discriminate.
Qed.

Lemma honest_allocate arguments : Along honest (command_allocate arguments).
Proof.
  unfold command_allocate. apply along_bind; [apply _| |intros []].
  { apply along_if; [apply calm_honest|]; apply _. }
  apply along_bind; [apply _| |intros d; apply _]. apply along_must; [apply _|]. apply honest_use. intros s HI.
  apply allocate_keeps_inv; [done|]. apply (number_u64 "--units" 1 arguments). split; vm_compute; discriminate.
Qed.

Definition release_fits (arguments : list string) (s : Impl) : Prop :=
  forall r, im_allocations s !! number "--allocation" 0 arguments = Some r -> effective_borrow r * ar_units r <= u64_max.

Lemma release_run arguments t res t' :
  Inv (tl_fabric t) -> release_fits arguments (tl_fabric t) -> command_release arguments t = (res, t') ->
  (durable (tl_fabric t) = false \/ result_ok res = true) -> Inv (tl_fabric t').
Proof.
  intros HI Hfit Hrun Hok. set (s := tl_fabric t <| im_tick := clock (tl_calls t) |> <| im_events := [] |>).
  assert (Inv s) as HIs by by apply Inv_locked.
  pose proof (release_locked_outcome (release_of arguments) s HIs (proj1 (number_u64 "--units" 0 arguments ltac:(done))) Hfit) as Hout.
  unfold command_release, must in Hrun. unfold wp in Hout. destruct (release_locked (release_of arguments) s) as [r s'] eqn:Hrel.
  unfold sm_bind at 1 2 in Hrun. rewrite (use_run _ _ _ _ Hrel) in Hrun. unfold sm_lift in Hrun.
  destruct r as [d|e]; simpl in Hrun; inversion Hrun; subst; simpl.
  - destruct Hout as [H|(r & _ & [[_ H]|(amount & rest & _ & _ & _ & _ & _ & _ & _ & _ & [H _])])]; [|by rewrite <- H|done].
    by destruct (replayed_sound _ _ _ _ _ HIs H).
  - destruct Hok as [Hd|Hok]; [|done]. exact (kept_without_journal s e _ Hd Hout).
Qed.

(** The commands that write the tables. *)
Definition writing : list string := ["init"; "allocate"; "release"]%string.

Lemma calm_dispatch command arguments : command ∉ writing -> Along calm (dispatch_command command arguments).
Proof.
  intros Hw. unfold dispatch_command.
  repeat match goal with |- Along _ (if String.eqb ?c ?n then _ else _) => destruct (String.eqb_spec c n) as [->|_] end;
    try (exfalso; apply Hw; unfold writing; set_solver); unfold command_summary, command_ledger, command_verify,
    command_checkpoint, command_explain, command_observe; apply _.
Qed.

Lemma unpressed_dispatch command arguments :
  command ∉ "observe"%string :: writing -> Along unpressed (dispatch_command command arguments).
Proof.
  intros Hw. unfold dispatch_command.
  repeat match goal with |- Along _ (if String.eqb ?c ?n then _ else _) => destruct (String.eqb_spec c n) as [->|_] end;
    try (exfalso; apply Hw; unfold writing; set_solver); unfold command_summary, command_ledger, command_verify,
    command_checkpoint, command_explain; apply _.
Qed.

Lemma honest_dispatch command arguments : command <> "release"%string -> Along honest (dispatch_command command arguments).
Proof.
  intros Hr. destruct (decide (command ∈ writing)) as [Hw|Hw]; [|by apply calm_honest, calm_dispatch].
  unfold writing in Hw. rewrite !elem_of_cons, elem_of_nil in Hw. destruct Hw as [->|[->|[->|[]]]]; [|..|done].
  - apply honest_init.
  - apply honest_allocate.
Qed.

Lemma exit_code_run m t code t' :
  exit_code m t = (code, t') -> exists res t1, m t = (res, t1) /\ tl_fabric t' = tl_fabric t1 /\
    code = match res with Good c => c | Bad _ => 1 end.
Proof. unfold exit_code. destruct (m t) as [[c|e] t1]; intros [= <- <-]; by eexists _, t1. Qed.

Lemma must_good {A} (m : M A) t a t' :
  must m t = (Good a, t') ->
  exists s', m (tl_fabric t <| im_tick := clock (tl_calls t) |> <| im_events := [] |>) = (Good a, s') /\
    t' = t <| tl_fabric := s' |> <| tl_calls ::= S |>.
Proof.
  unfold must. intros (r & t1 & Huse & Hr)%sm_bind_good.
  destruct (m (tl_fabric t <| im_tick := clock (tl_calls t) |> <| im_events := [] |>)) as [r' s'] eqn:Hm.
  rewrite (use_run m t r' s' Hm) in Huse. injection Huse as <- <-. injection Hr as -> <-. by exists s'.
Qed.

(** What the fabric explains of a pool is what it keeps of it. *)
Lemma explain_usage pool s :
  Inv s -> wp (explain pool) s (fun x s' => s' = s /\ exists e, im_pools s !! pool = Some e /\
    ex_pool_generation x = pd_generation (en_descriptor e) /\
    add64 (sub64 (ex_allocated_units x) (ex_borrowed_in_units x)) (ex_lent_out_units x) = en_own_usage e) (fun _ _ => True).
Proof.
  intros HI. unfold explain. wp_step. apply wp_require_pool; [done|]. intros e He. do 4 wp_step; [done|]. wp_step.
  split; [done|]. exists e. split; [done|]. split; [done|]. simpl.
  pose proof (inv_books s HI) as HB. pose proof (counter_identities HB pool e He) as [_ H2].
  pose proof (lent_le_own HB pool e He) as H3.
  pose proof (counter_bound HB FReserved pool e He) as HR. pose proof (counter_bound HB FCommitted pool e He) as HC.
  pose proof (counter_bound HB FLent pool e He) as HL. pose proof (counter_bound HB FOwn pool e He) as HO.
  pose proof (counter_bound HB FBorrowed pool e He) as HW.
  unfold kMaxOwnUsage in *. simpl in *. unfold en_allocated. rewrite (add64_exact (en_reserved_units e)) by u64_lia. rewrite sub64_exact by u64_lia.
  rewrite add64_exact by u64_lia. lia.
Qed.

(** The evidence that an observation of the present usage leaves. *)
Lemma observed_current request s s' e now :
  Inv s -> pressure_observed request s s' -> im_pools s !! ps_pool request = Some e ->
  ps_observed_at request = 0 -> ps_ttl_ticks request <> 0 -> ps_committed_units request = en_own_usage e ->
  is_fresh now (im_tick s) (ps_ttl_ticks request) = true ->
  exists e', im_pools s' !! ps_pool request = Some e' /\ strip e = strip e' /\ evidence_current (s' <| im_tick := now |>) e'.
Proof.
  intros HI [_ (_ & _ & _ & Hpools & _) _ Hep (e0 & x & p & He0 & Hp & Hepx & Hgen & _ & _ & Hcx & _ & Hat & Httl & Hpr & Hl & Hx & _)]
    He Hz Hz' Hc Hf.
  destruct (strip_lookup _ _ _ _ (eq_sym Hpools) He) as (e' & He' & Hs). exists e'. split; [done|]. split; [done|]. split. exists p.
  assert (en_descriptor e' = en_descriptor e) as Hd by exact (eq_sym (f_equal en_descriptor Hs)).
  assert (en_own_usage e' = en_own_usage e) as Ho by exact (eq_sym (f_equal en_own_usage Hs)).
  rewrite He in He0. injection He0 as <-.
  pose proof (do_id _ _ (eo_descriptor _ _ _ (bk_entry _ _ (inv_books s HI) _ _ He))) as Hid.
  simpl. rewrite Hd, Hid, Hpr, lookup_insert_eq, Hx, Ho, Hat, Hz, (Httl Hz'). simpl. split_and!; congruence.
Qed.

(** A snapshot of another epoch. *)
Lemma stale_epoch s e :
  (exists p, im_pressure s !! pd_id (en_descriptor e) = Some p /\ pr_has_latest p = true /\ ps_epoch (pr_latest p) <> im_epoch s) ->
  pe_state (resolve_evidence s e) = PressureState.Stale /\ pe_reason (resolve_evidence s e) = ErrorCode.StaleEpoch.
Proof.
  intros (p & Hp & Hl & Hne). unfold resolve_evidence. destruct (observed_evidence s e) as [ev o]. rewrite Hp, Hl.
  unfold evidence_of_snapshot. simpl. by rewrite (proj2 (Z.eqb_neq _ _) Hne).
Qed.

(** What an operator observes is the usage of the pool as the fabric keeps it. *)
Lemma observe_pool_run arguments pool t x t' :
  Inv (tl_fabric t) -> number "--ttl" kDefaultTtl arguments <> 0 -> observe_pool arguments pool t = (Good x, t') ->
  exists e, im_pools (tl_fabric t') !! pool = Some e /\ ps_committed_units x = en_own_usage e /\
    forall now, is_fresh now (clock (3 + tl_calls t)) (number "--ttl" kDefaultTtl arguments) = true ->
      evidence_current (tl_fabric t' <| im_tick := now |>) e.
Proof.
  intros HI Httl Hrun. unfold observe_pool in Hrun.
  apply sm_bind_good in Hrun as (ex & t1 & (s1 & Hex & ->)%must_good & Hrun).
  pose proof (Inv_locked _ (clock (tl_calls t)) HI) as HI1.
  apply (wp_run _ _ _ _ _ _ (explain_usage pool _ HI1)) in Hex as (-> & e & He & Hgen & Huse). simpl in He.
  apply sm_bind_good in Hrun as (epoch & t2 & (s2 & [= <- <-] & ->)%must_good & Hrun).
  apply sm_bind_good in Hrun as (boot & t3 & (s3 & [= <- <-] & ->)%must_good & Hrun).
  apply sm_bind_good in Hrun as ([] & t4 & (s4 & Hobs & ->)%must_good & Hrun). injection Hrun as <- <-.
  match type of Hobs with observe_pressure ?q ?s = _ => set (request := q) in *; set (s0 := s) in * end.
  assert (Inv s0) as HI0 by by destruct HI; split.
  apply (wp_run _ _ _ _ _ _ (observe_pressure_outcome request s0 HI0)) in Hobs.
  assert (ps_committed_units request = en_own_usage e) as Hc by exact Huse.
  assert (forall now, is_fresh now (clock (3 + tl_calls t)) (number "--ttl" kDefaultTtl arguments) = true ->
    exists e', im_pools s4 !! pool = Some e' /\ strip e = strip e' /\ evidence_current (s4 <| im_tick := now |>) e') as Hcur.
  { intros now Hf. by apply (observed_current request s0 s4 e now). }
  destruct (ob_tables _ _ _ Hobs) as (_ & _ & _ & Hpools & _).
  destruct (strip_lookup _ _ _ _ (eq_sym Hpools) He) as (e' & He' & Hs). exists e'. split; [exact He'|].
  split; [rewrite Hc; exact (f_equal en_own_usage Hs)|].
  intros now (e2 & He2 & _ & Hev)%Hcur. simpl in Hev |- *. congruence.
Qed.

(** ** Properties *)

(** C15. Whatever words an operator types, the books of the fabric balance after the command,
    refused and failed commands included; only [init], [allocate] and [release] write the
    allocations, the policies, the queues, the pools (their statistics aside), the
    capacities, the names and the memory of attempts, and beside them only [observe] writes the table of pressure. Two
    conditions: for [release] the product of the units and of the borrowed units of the
    allocation must not exceed 64 bits, and where the release is journaled its books are
    claimed only if it succeeds, since the code changes the counters before it journals. *)
Theorem tool_keeps_books (command : string) (arguments : list string) (t t' : Tool) (code : Z) :
  Inv (tl_fabric t) ->
  (command = "release"%string ->
     release_fits arguments (tl_fabric t) /\ (durable (tl_fabric t) = false \/ code = 0)) ->
  run_command command arguments t = (code, t') ->
  Inv (tl_fabric t') /\ (command ∉ writing -> settled (tl_fabric t) (tl_fabric t')) /\
  (command ∉ "observe"%string :: writing -> im_pressure (tl_fabric t') = im_pressure (tl_fabric t)).
Proof.
  intros HI Hrel (res & t1 & Hrun & -> & Hcode)%exit_code_run. split; [|split].
  - destruct (decide (command = "release"%string)) as [->|Hne].
    + destruct (Hrel eq_refl) as [Hfit Hok]. apply (release_run arguments t res t1 HI Hfit Hrun).
      destruct Hok as [Hok|Hok]; [by left|right]. destruct res; [done|congruence].
    + pose proof (wp_run _ _ _ _ _ _ (honest_dispatch command arguments Hne t) Hrun) as H. destruct res; exact (H HI).
  - intros Hw. pose proof (wp_run _ _ _ _ _ _ (calm_dispatch command arguments Hw t) Hrun) as H. destruct res; by destruct (H HI).
  - intros Hw. pose proof (wp_run _ _ _ _ _ _ (unpressed_dispatch command arguments Hw t) Hrun) as H. by destruct res.
Qed.

(** C16. What [observe] tells the fabric, the fabric believes while it stays open, and no longer:
    when the command succeeds with a lifetime that is not zero, then in the fabric that it
    leaves, nothing else having happened, the pool's evidence is usable at any time within the
    lifetime, and its state is the one computed from the usage of the pool; this is where
    [allocate --observe-first] looks. Under any other epoch, and every opening of a state
    directory moves the epoch, the same observation is Stale whatever the time. *)
Theorem observation_is_evidence (arguments : list string) (t t' : Tool) :
  Inv (tl_fabric t) -> number "--ttl" kDefaultTtl arguments <> 0 ->
  run_command "observe" arguments t = (0, t') ->
  exists e, im_pools (tl_fabric t') !! number "--pool" kPoolId arguments = Some e /\
    (forall now, 0 <= clock (3 + tl_calls t) <= now -> now <= u64_max ->
      now - clock (3 + tl_calls t) <= number "--ttl" kDefaultTtl arguments ->
      let s := tl_fabric t' <| im_tick := now |> in
      evidence_usable (resolve_evidence s e) = true /\
      pe_state (resolve_evidence s e) = po_state (snd (observed_evidence s e))) /\
    (forall now epoch, epoch <> im_epoch (tl_fabric t') ->
      let s := tl_fabric t' <| im_tick := now |> <| im_epoch := epoch |> in
      pe_state (resolve_evidence s e) = PressureState.Stale /\ pe_reason (resolve_evidence s e) = ErrorCode.StaleEpoch).
Proof.
  intros HI Httl (res & t1 & Hrun & -> & Hcode)%exit_code_run. simpl in Hrun. unfold command_observe in Hrun.
  destruct res as [c|]; [|done]. apply sm_bind_good in Hrun as (x & t2 & Hobs & Hrun).
  destruct (observe_pool_run _ _ _ _ _ HI Httl Hobs) as (e & He & _ & Hev). injection Hrun as _ <-.
  exists e. split; [exact He|]. split.
  - intros now Hnow Hmax Hage s.
    assert (evidence_current s e) as Hcur.
    { apply Hev. unfold is_fresh. rewrite (proj2 (Z.eqb_neq _ _) Httl), (proj2 (Z.ltb_ge _ _)) by lia.
      rewrite sub64_exact by u64_lia. by apply Z.leb_le. }
    destruct (resolve_evidence_exact s e) as (Hu & Hs & _). split; [by apply Hu|]. by apply Hs, Hu.
  - intros now epoch Hne. cbn zeta. apply stale_epoch.
    assert (is_fresh (clock (3 + tl_calls t)) (clock (3 + tl_calls t)) (number "--ttl" kDefaultTtl arguments) = true) as Hf.
    { unfold is_fresh. rewrite (proj2 (Z.eqb_neq _ _) Httl), Z.ltb_irrefl. unfold sub64. rewrite Z.sub_diag. apply Z.leb_le.
      apply (number_u64 "--ttl" kDefaultTtl arguments). by vm_compute. }
    destruct (Hev _ Hf) as [(p & Hp & Hl & Hep & _)]. exists p. split; [exact Hp|]. split; [exact Hl|].
    simpl in Hep, Hne |- *. congruence.
Qed.
End Tool.

(** The tool on a running fabric, one call every tick. *)
Definition sample_clock (n : nat) : Z := 20 + Z.of_nat n.
Definition sample_tool : Tool := mkTool sample_running (synthetic_backend kBackendId 1 "bfctl") 0 [] [].

Lemma sample_running_inv : Inv sample_running.
Proof. exact (reachable_inv _ _ constructed_inv (run_reachable _ _ start_admitted)). Qed.

Definition sample_words : list string := ["release"; "--allocation"; "1"; "--units"; "40"; "--attempt"; "9"]%string.

Lemma sample_release_fits : release_fits sample_words sample_running.
Proof.
  intros r Hr.
  assert ((fun r => effective_borrow r * ar_units r <=? u64_max) <$> im_allocations sample_running !! 1 = Some true) as H
    by (vm_compute; reflexivity).
  change (im_allocations sample_running !! 1 = Some r) in Hr. rewrite Hr in H. apply Z.leb_le. by injection H.
Qed.

Lemma tool_keeps_books_witness :
  fst (run_command sample_clock "release" sample_words sample_tool) = 0 /\
  Inv (tl_fabric (snd (run_command sample_clock "release" sample_words sample_tool))).
Proof.
  split; [vm_compute; reflexivity|].
  destruct (run_command sample_clock "release" sample_words sample_tool) as [code t'] eqn:Hrun.
  apply (tool_keeps_books sample_clock "release" sample_words sample_tool t' code sample_running_inv); [intros _|exact Hrun].
  split; [exact sample_release_fits|left; reflexivity].
Defined.

Lemma observation_is_evidence_witness :
  exists e, im_pools (tl_fabric (snd (run_command sample_clock "observe" ["--pool"; "2"; "--ttl"; "5"] sample_tool))) !! 2 = Some e /\
    evidence_usable (resolve_evidence
      (tl_fabric (snd (run_command sample_clock "observe" ["--pool"; "2"; "--ttl"; "5"] sample_tool)) <| im_tick := 28 |>) e) = true.
Proof.
  assert (fst (run_command sample_clock "observe" ["--pool"; "2"; "--ttl"; "5"]%string sample_tool) = 0) as Hcode by (vm_compute; reflexivity).
  destruct (run_command sample_clock "observe" ["--pool"; "2"; "--ttl"; "5"]%string sample_tool) as [code t'] eqn:Hrun.
  simpl in Hcode. subst code.
  destruct (observation_is_evidence sample_clock ["--pool"; "2"; "--ttl"; "5"]%string sample_tool t' sample_running_inv)
    as (e & He & Hev & _); [discriminate|exact Hrun|].
  exists e. split; [exact He|]. apply (Hev 28); vm_compute; [split; discriminate|discriminate|discriminate].
Defined.

(** A word that says nothing of a number is the fallback; one past the largest number is that
    number; a minus sign wraps around. *)
Example numbers_of_words :
  number "--units" 7 ["--units"; "many"] = 7 /\ number "--units" 7 ["--units"; "12k"] = 12 /\
  number "--units" 7 ["--units"; "-1"] = u64_max /\ number "--units" 7 ["--units"; "99999999999999999999"] = u64_max.
Proof. vm_compute. auto. Qed.

(** A flag that is not known to take a value leaves its value to be read as the command. *)
Example command_after_unknown_flag :
  first_positional ["--state-dir"; "/var/bf"; "--pool"; "2"; "explain"] = "explain"%string /\
  first_positional ["--frames"; "3"; "explain"] = "3"%string.
Proof. vm_compute. auto. Qed.
