(* ===== verification/Tools.v ===== *)
(** * The programs of the coordinator and of the worker

    [src/tools/bf_coordinator.cpp] and [src/tools/bf_worker.cpp]: the configuration that a
    command line makes, what is printed, and the exit codes. What the sessions do while the
    coordinator serves is a parameter, and so is the other end of the worker. *)

From stdpp Require Import pretty.
From S2P Require Import Prelude Ints Hash Enums Status Codec Model Wire Policy Accounting Persist State Topology Backend Explain Protocol Coordinator Worker Control.

(** ** The worker *)

Definition worker_config (arguments : list string) : WorkerConfig :=
  mkWorkerConfig (value "--host" "127.0.0.1" arguments) (wrap16 (number "--port" 0 arguments))
    (number "--pool" 1 arguments) (number "--queue" 1 arguments) (number "--units" 64 arguments)
    (number "--ops" 16 arguments) (number "--claim-epoch" 0 arguments) (number "--expected-epoch" 0 arguments)
    (number "--attempt-base" 0 arguments).

Definition flag_text (b : bool) : string := if b then "true" else "false".

Definition worker_lines (r : WorkerReport) : list string := [
  "connected=" ++ flag_text (wr_connected r);
  "handshake_ok=" ++ flag_text (wr_handshake_ok r);
  "stale_epoch_rejected=" ++ flag_text (wr_stale_epoch_rejected r);
  "protocol_error=" ++ flag_text (wr_protocol_error r);
  "operations=" ++ pretty (wr_operations_attempted r);
  "grants=" ++ pretty (wr_grants r);
  "partial_grants=" ++ pretty (wr_partial_grants r);
  "refusals=" ++ pretty (wr_refusals r);
  "release_ok=" ++ pretty (wr_release_ok r);
  "error_responses=" ++ pretty (wr_error_responses r);
  "granted_units=" ++ pretty (wr_granted_units r);
  "released_units=" ++ pretty (wr_released_units r);
  "bytes_sent=" ++ pretty (wr_bytes_sent r);
  "bytes_received=" ++ pretty (wr_bytes_received r);
  "coordinator_epoch=" ++ pretty (wr_coordinator_epoch r);
  "allocated_total=" ++ pretty (al_allocated_total (wr_accounting r));
  "free_total=" ++ pretty (al_free_total (wr_accounting r))]%string.

Definition worker_usage : string :=
  "usage: bf_worker --port N --pool N --queue N [--host H] [--units N] [--ops N] [--claim-epoch N] [--expected-epoch N] [--attempt-base N] [--label TEXT]".

(** The exit code and the lines printed; [run] is [run_worker] with the other end. *)
Definition worker_main (arguments : list string) (run : WorkerConfig -> Result WorkerReport) : Z * list string :=
  if has "--help" arguments then (0, [worker_usage])
  else
    let label := ("label=" ++ value "--label" "worker" arguments)%string in
    match run (worker_config arguments) with
    | Bad e => (2, [label; ("fatal=" ++ status_to_string e)%string; "worker_report_end"%string])
    | Good r => (if wr_protocol_error r then 3 else 0, label :: worker_lines r ++ ["worker_report_end"%string])
    end.

(** The code says whether there is a report, and the last line is always there. Code 3 is
    never given: after a protocol error there is no report. *)
Theorem worker_exit {S : Type} (peer : S -> list Z -> Result (list Z) * S) (connected : Result unit) (s : S)
    (arguments : list string) :
  has "--help" arguments = false ->
  let '(code, lines) := worker_main arguments (fun config => fst (run_worker peer config connected s)) in
  last lines = Some "worker_report_end"%string /\
  match fst (run_worker peer (worker_config arguments) connected s) with Good _ => code = 0 | Bad _ => code = 2 end.
Proof.
  intros Hh. unfold worker_main. rewrite Hh.
  destruct (run_worker peer (worker_config arguments) connected s) as [[r|e] s'] eqn:Hrun; cbn [fst]; [|done].
  split; [by rewrite app_comm_cons, last_snoc|].
  assert (wr_protocol_error r = false) as ->; [|done].
  destruct (run_worker_reports peer _ connected s r s' Hrun) as [([] & _)|(k & _ & [] & _)]; done.
Qed.

(** ** The coordinator *)

Definition coordinator_config (arguments : list string) : CoordinatorConfig :=
  let d := default_CoordinatorConfig in
  mkCoordinatorConfig (value "--address" "127.0.0.1" arguments) (wrap16 (number "--port" 0 arguments))
    (value "--state-dir" "" arguments)
    (if has "--no-durability" arguments then DurabilityMode.None else cc_durability d)
    (cc_max_clients d) (cc_max_frame_bytes d) (cc_decision_history_capacity d) (cc_bootstrap_topology d)
    (cc_bootstrap_backend_id d) (cc_bootstrap_resource_id d) (cc_bootstrap_pool_id d) (cc_bootstrap_queue_id d)
    (cc_bootstrap_policy_id d) (number "--resource-units" (cc_bootstrap_resource_units d) arguments)
    (number "--pool-units" (cc_bootstrap_pool_units d) arguments)
    (number "--protected-units" (cc_bootstrap_protected_units d) arguments)
    (cc_bootstrap_queue_demand_units d) (cc_evidence_ttl_ticks d).

Definition coordinator_usage : string :=
  "usage: bf_coordinator [--address A] [--port N] [--state-dir DIR] [--no-durability] [--run-seconds N] [--pool-units N] [--protected-units N]".

(** What the program ends with: its exit code, what it printed and what it printed of errors. *)
Record Ending := mkEnding { ed_code : Z; ed_out : list string; ed_err : list string }.

Section Main.
(** [serve] is what the sessions did to the coordinator until the program goes on. *)
Context (clock : nat -> Z) (others : nat -> Impl -> Impl) (serve : Coordinator -> Coordinator).

Definition coordinator_main (arguments : list string) (boot : BootIncarnation) (sockets : Result unit)
    (bound : Result Z) : Ending * Coordinator :=
  let c := default_Coordinator in
  if has "--help" arguments then (mkEnding 0 [coordinator_usage] [], c)
  else match start clock others (coordinator_config arguments) boot sockets bound c with
  | (Bad e, c) => (mkEnding 1 [] [("coordinator failed to start: " ++ status_to_string e)%string], c)
  | (Good _, c) =>
      match Coordinator.port c with
      | Bad _ => (mkEnding 1 [] ["coordinator has no bound port"%string], c)
      | Good p =>
          let ready := ("READY " ++ pretty p)%string in
          let c := serve c in
          let c := if negb (number "--run-seconds" 0 arguments =? 0) then request_shutdown c else c in
          match stop clock others c with
          | (Bad e, c) => (mkEnding 1 [ready] [("coordinator failed to stop cleanly: " ++ status_to_string e)%string], c)
          | (Good _, c) =>
              (mkEnding 0 [ready; ("STOPPED served=" ++ pretty (co_served c) ++ " rejected=" ++ pretty (co_rejected c))%string] [], c)
          end
      end
  end.

Lemma start_listens config boot sockets bound c c' :
  start clock others config boot sockets bound c = (Good tt, c') ->
  co_started c' = true /\ exists p, bound = Good p /\ co_listening c' = Some p.
Proof.
  unfold start. intros (? & ? & _ & (? & ? & _ & (? & ? & _ & (? & ? & _ & (? & ? & _ & (? & ? & _ & H)%sm_bind_good)%sm_bind_good)%sm_bind_good)%sm_bind_good)%sm_bind_good)%sm_bind_good.
  apply sm_bind_good in H as (p & c1 & Hp & H). injection H as <-. destruct bound as [q|e]; [|done]. injection Hp as <- <-.
  split; [done|]. by exists q.
Qed.

(** The line that says that the coordinator is ready is printed exactly when it has started,
    with the port that it listens on; and the program then ends with 0 exactly when it stops. *)
Theorem coordinator_ready arguments boot sockets bound :
  has "--help" arguments = false ->
  let '(ending, c) := coordinator_main arguments boot sockets bound in
  match start clock others (coordinator_config arguments) boot sockets bound default_Coordinator with
  | (Bad _, _) => ed_code ending = 1 /\ ed_out ending = []
  | (Good _, _) => exists p, bound = Good p /\ head (ed_out ending) = Some ("READY " ++ pretty p)%string /\
      (ed_code ending = 0 <-> ed_err ending = [])
  end.
Proof.
  intros Hh. unfold coordinator_main. rewrite Hh.
  destruct (start clock others (coordinator_config arguments) boot sockets bound default_Coordinator) as [[[]|e] c] eqn:Hs; [|done].
  destruct (start_listens _ _ _ _ _ _ Hs) as (_ & p & -> & Hl). unfold Coordinator.port. rewrite Hl.
  destruct (stop clock others _) as [[[]|e] c']; exists p; split_and!; done.
Qed.
End Main.
